(* ===== verification/_CoqProject ===== *)
-Q . S2P
Prelude.v
Text.v
Protocol.v
Paths.v
Manifest.v
Probe.v
BTree.v
Discovery.v
Api.v
Recipes.v
Compaction.v
Net.v
Sockets.v
Title.v
Proc.v
Tasks.v
Host.v
Events.v
Threads.v
Clone.v
Runtime.v
Guest.v
Manager.v
Logging.v
Spawn.v
Owner.v
System.v
Lineage.v
Reap.v
Templates.v
Obtain.v
Instances.v
Serve.v
World.v
Router.v
Server.v
Promise.v
Client.v
Cache.v
ModuleCache.v
Cli.v
Main.v
Tests.v
