(* ===== verification/Prelude.v ===== *)
(** * ServiceCache: a verification development

    ServiceCache (src/crates/servicecache) serves disposable copies of services
    to tests.  A service package is a directory with a manifest; a host process
    runs its WebAssembly guest, freezes it into a template and forks clones off
    it, copy-on-write; a manager drives hosts over a control channel, keeps the
    templates and hands out instances under a lease, through an HTTP API on a
    Unix socket.

    ** The program and the files

    - Text.v, the string functions of the standard library the program uses.
    - Protocol.v, the control channel (host/protocol.rs): frames of a header, a
      JSON message and a payload, with descriptors attached to the first byte, on
      a stream the kernel may split anywhere.  [Channel::send] and
      [Channel::recv] are [send] and [recv]; serde is the class [JsonCodec] with
      its law.
    - Paths.v, the parts of std::path and std::fs the program uses, as functions
      on strings and a record of what the disk answers.
    - Manifest.v (manifest.rs): [Manifest::load] with every check in its order.
    - Probe.v (host/probe.rs): an attempt, its summary, and the retry loop.
    - BTree.v, the ordered maps and string order of the standard library.
    - Discovery.v (discovery.rs): the walk over the search directories, the
      index, [select].
    - Api.v (serve/api.rs): bodies and problems.
    - Recipes.v (serve/recipes.rs): recipe roots and [read].
    - Compaction.v (host/freeze.rs, [Compaction], [scan_block] and their
      helpers): releasing a frozen template's zero pages, block by block, on a
      model of memory as 8-byte words.
    - Net.v (host/net.rs): the one listener a guest may have, the connections it
      holds and what it may reach.
    - Sockets.v (host/net.rs, the listener and the streams a guest holds): each
      call of the engine's traits as it is dispatched, and guests as scripts of
      calls.
    - Title.v and Proc.v (host/title.rs and the readers of /proc in
      host/freeze.rs): the process title, the memory it is written over, thread
      counts and mappings.
    - Tasks.v (host/tasks.rs, and [watch_run] of host/mod.rs): the sleep that
      survives a fork, the count of host-side tasks, the watchers of runs, and
      what a freeze and a fork make of them.
    - Host.v (host/mod.rs and the freeze, fork and rebuild of host/freeze.rs): a
      host process as a computation in a state monad.  [W] is the host's state,
      the passes of its event loop still to come (what poll, the guest, the
      children, the manager and the kernel do in each) and the trace of what it
      did.  Each handler is one definition, with the source's guards and early
      returns.
    - Events.v (host/mod.rs, [EventPipe]): the bytes of the event pipe, the reads
      of a drain, and the pipe as a template and its clones share it.
    - Threads.v (host/freeze.rs, the dismantling of [freeze], [rebuild],
      [tokio_park_hook] and [build_tokio]): the threads of a host, statement by
      statement of the main thread, through freezes, their deadlines and forks.
    - Clone.v: theorems about that host: readiness, initializers, and the memory
      of a frozen template.
    - Runtime.v (runtime.rs): the read-only file system, the mounts, a guest's
      calls on these and on the files it has opened, and one isolated run.
    - Guest.v (host/guest.rs, with [run] and [Host::new] of host/mod.rs): the
      loaded modules, what each run is given, and a host process from its start.
    - Manager.v (manager.rs): the manager's end of the channel.
    - Spawn.v (manager.rs, [spawn_with_binary], and the padding argument of
      host/title.rs): the arguments and descriptors of a new host, and the hook
      between fork and exec.
    - Logging.v (logging.rs): the log directives and who passes them to whom.
    - Owner.v (serve/templates.rs, the owner threads): bringing a template up,
      serving forks, counting descendants, expiring.
    - System.v: that owner at one end of a channel and the host of Host.v at the
      other.
    - Lineage.v: the same for a recipe's template: the fork of the base, the clone
      from its fork on, and the recipe's owner.
    - Reap.v: how each way out of an owner leaves the host's process.
    - Templates.v (serve/templates.rs, the shared map): the slots, each with a
      number of its own that no later slot of its key has, and the requests,
      owners and sweeper as interleaved steps.
    - Obtain.v (serve/templates.rs and the part of [create_instance] that uses
      it): the interface [TemplateOps] with its laws, and its implementation as
      functions.
    - Instances.v (serve/instances.rs): entries shared between the registry and
      the handlers, leases, the watcher.
    - Serve.v (serve/mod.rs): the handlers, written against [TemplateOps], and
      the server's operations interleaved over time.
    - World.v: the steps of Templates.v and the operations of Serve.v as one
      system, with the process each entry stands for and what has gone wrong.
    - Router.v (serve/mod.rs, [router], and [into_response] of serve/api.rs): the
      routes, the methods and the answers to what no handler takes.  Matching a
      path is the class [PathMatcher] with its laws.
    - Server.v (serve/mod.rs, [run] and [serve_on]): a server from claiming its
      socket to its end, and the socket's file between several servers.
    - Promise.v: the requests and sweeps of Server.v as runs of World.v, and what
      a client is promised.
    - Client.v (serve/client.rs): the client's methods over one exchange with any
      service.
    - Cache.v (cache.rs): the compiled modules, as the steps of processes that
      share a directory, with locks, partial files, renames, deaths and cleaning.
    - ModuleCache.v (cache.rs): the methods of [ModuleCache] as functions.
    - Cli.v (cli.rs): where things are looked for, naming a service, bringing one
      up, the loop that forks clones and the one that holds an instance.
    - Main.v (cli.rs): the commands and what each comes to.
    - Tests.v: the program's unit tests, answered by the model.

    The manager's [request] meets the host's [serve] in Manager.v: the
    specification [spec_run] that Host.v proves of every host is what
    [request_gets_its_reply] assumes of its peer.  Owner.v runs on Manager.v's
    processes; the fills and forks of Obtain.v are runs of Owner.v; each call of
    Obtain.v is a run of the steps of Templates.v; Serve.v uses Obtain.v only
    through [TemplateLaws].  Router.v calls the handlers of Serve.v; Client.v and
    Main.v are about any service and their theorems about Router.v's.  Guest.v
    runs Host.v and gives its runs to Runtime.v's file system; a method of
    ModuleCache.v is a run of one process of Cache.v.

    ** What the theorems show

    Isolation and copy-on-write: compaction changes no byte a clone can read and
    ends with every resident zero page released that is not in a block which may
    be a huge page in use; while a template serves, its memory is what it was
    frozen with; a frozen template only forks; a guest reaches only its own
    endpoint, and looks up only localhost; a freeze shuts down exactly the
    connections still held; a clone's guest is served by the clone's own socket,
    as if it had never had another; a sleep fires in every clone; no task of
    [task_shared] is lost to a fork when none is handed over between the
    freeze's check and its drain, and every process watches its runs on its own
    runtime.

    Confinement: a host runs only what its manifest declares, in the manifest's
    read-only mounts, which nothing a guest calls can change but a call on a file
    it has opened to read that asks for more than reading; a spawned host has its
    channel and no close-on-exec descriptor of its manager; a title stays in the
    memory of the arguments.

    Protocol: whatever a guest, its children and the manager do, a host's trace
    is one of the protocol's, and tells each exit of a clone it reaped once and
    in order ([reported_run] keeps what is owed); frames survive any splitting;
    a request gets its reply and no child's exit is lost; ready means the guest
    serves, and a start misses none of the announcements it waits for; what an
    owner serves as a template is a host that was ready and is frozen, and for a
    recipe a clone of one that has run the initializer.

    Threads: the dismantling of a freeze ends however the threads are scheduled,
    with no wake but the one the freeze sends, and leaves one; a host's runtime
    lives until its own freeze, whatever freezes and forks came before.

    Lifetimes: a creation that is answered gives an instance of what was asked
    for, registered and with its process and templates running until its time is
    up, whatever else the manager does in any order, unless it is ended, its
    guest exits, or its own templates fail or have their slot forgotten;
    failures are contained, so that what goes wrong with one key's templates
    stops no other key's instances; while no key has been forgotten there is one
    template per key; an owner's counter is the number of live descendants, it
    expires only a template that has had none for the TTL, and it waits for its
    host to go; an instance whose time is up is let go by the next sweep, for
    good; the watcher tells the truth about the guest.

    Requests: whatever is asked, on any path, a server's state stays well formed
    and the answer is one of the API's, from the claim of its socket to its end;
    each request is a run of the interleaved steps of threads, owners and
    processes, from whatever state those are in; the client's methods are the
    handlers, for ids of letters and digits; an instance created through the
    client is the one its id then names, and the request command ends well only
    when it has given back its own; every answer of [create_instance],
    [renew_instance] and [delete_instance]; recipe files are read for the
    server's user only, under the roots only, within the limit; manifests stay
    in their package; discovery and selection do what they document; getting a
    clone ends; the probe and each of its attempts end, and accept exactly the
    responses the pattern matches.

    Compiled modules: an entry of the cache is absent or whole and of its key,
    whatever dies when; processes that miss on one entry take turns; what was
    loaded once is found by the engine and not compiled again.

    Some theorems show what the program does against its documentation: a
    message too large for the receiver is sent all the same; a [forget] may drop
    the template another request has just rebuilt; a renewal may be answered
    although the sweeper has removed the instance; a clone's exit that arrives
    during a fork is lost to [run_with_clones]; input starves the renewals of
    [hold_instance]; a task handed over between the freeze's check and its drain
    is in no clone; a server whose bind fails removes another's socket; a clone
    may outlive a template that dies right after the fork; a clone's announcement
    may be drained by another process; a host whose freeze fails is never waited
    for; a file opened on a read-only mount is the directory's own.

    ** Bounds, fuel and numbers

    Loops over what the outside gives (polls, passes, messages, turns) recurse
    on the list of what there is to come; running out of it is a value of its
    own ([Waiting], [None], [GoesOn]), never success.  Host.v's [loop_passes]
    takes as fuel one more than the number of passes; since each round takes a
    pass, it runs out only when the passes do, which is proved with the
    refinement.  Compaction's slices recurse on the blocks left, whose number
    bounds them.  32-bit lengths are checked where the source checks them and
    little-endian words are written out; addresses and lengths of memory are
    [Z], with the source's saturating multiplication; times are [N], in
    nanoseconds in Instances.v and Serve.v and in seconds in Owner.v.

    A drain of the event pipe has one more read than there are bytes, of which
    each read takes at least one.  Counters of host/tasks.rs are 64-bit and wrap;
    a bound socket's time to live is a byte.

    ** What is not modelled

    The WebAssembly engine, WASIX, Tokio, hyper, Axum, clap and the logging
    subscriber are libraries: what they do is an input (the passes of Host.v, the
    [Meets] records), a parameter or a class with its documented laws.  The
    kernel's calls are parameters ([Kernel] in Compaction.v, [LocalSockets] in
    Sockets.v, the environments in Host.v), and so are TOML, regular expressions,
    JSON, base64, digests and the compiler.  Not modelled of the program's own
    code: [Debug] implementations but that of replies, the access log, what is
    traced, the OpenAPI document's contents, the tests under tests/ (which need
    compiled guests), and the unit tests Tests.v names as left out.  A process of
    Cache.v has one operation under way at a time.  A request
    of Server.v is one call: what may come in between its parts is in the steps
    that Promise.v shows it to be a run of. *)

From stdpp Require Export base option relations list list_numbers gmap strings sorting pretty.
From Stdlib Require Export ZArith Lia.
From Stdlib Require Export Strings.Byte Ascii.

#[global] Set Default Goal Selector "!".

(** ** Results

    [Result<A, E>] of the source, with the [?] operator as [let?]. *)

Inductive result (A E : Type) : Type :=
  | Ok (a : A)
  | Err (e : E).
Arguments Ok {A E} a.
Arguments Err {A E} e.

Declare Scope result_scope.
Delimit Scope result_scope with result.
Notation "'let?' x := c 'in' k" :=
  (match c with Ok x => k | Err e => Err e end)
  (at level 200, x pattern, c at level 100, k at level 200, right associativity)
  : result_scope.
#[global] Open Scope result_scope.

(** An [anyhow::Error]: its chain of messages, the outermost context first. *)
Definition error : Type := list string.

(** [Context::with_context] on a result. *)
Definition with_context {A} (message : string) (r : result A error) : result A error :=
  match r with
  | Ok a => Ok a
  | Err e => Err (message :: e)
  end.

(** [Option::context]. *)
Definition ok_or {A E} (e : E) (o : option A) : result A E :=
  match o with
  | Some a => Ok a
  | None => Err e
  end.

(** [Option<Result<A, E>>::transpose] after a [map]. *)
Definition map_transpose {A B E} (f : A → result B E) (o : option A) : result (option B) E :=
  match o with
  | None => Ok None
  | Some a => let? b := f a in Ok (Some b)
  end.

Definition is_ok {A E} (r : result A E) : bool :=
  match r with Ok _ => true | Err _ => false end.

Definition result_ok {A E} (r : result A E) : option A :=
  match r with Ok a => Some a | Err _ => None end.

(** ** Tactics *)

(** Invert a successful [let?] chain, naming nothing: every scrutinee that
    failed is discharged, every success is substituted. *)
Ltac inv_ok :=
  repeat match goal with
  | H : Ok _ = Ok _ |- _ => injection H as H; subst
  | H : Err _ = Err _ |- _ => injection H as H; subst
  | H : Ok _ = Err _ |- _ => discriminate H
  | H : Err _ = Ok _ |- _ => discriminate H
  | H : match ?c with Ok _ => _ | Err _ => _ end = Ok _ |- _ =>
      let E := fresh "E" in destruct c eqn:E; [|discriminate H]
  | H : (if ?c then _ else _) = Ok _ |- _ =>
      let E := fresh "E" in destruct c eqn:E; try discriminate H
  | H : match ?c with Some _ => _ | None => _ end = Ok _ |- _ =>
      let E := fresh "E" in destruct c eqn:E; try discriminate H
  end.

(** Split booleans in hypotheses into propositions. *)
Ltac simp_bool :=
  repeat match goal with
  | H : _ && _ = true |- _ => apply andb_true_iff in H as [? ?]
  | H : _ || _ = false |- _ => apply orb_false_iff in H as [? ?]
  | H : negb _ = true |- _ => apply negb_true_iff in H
  | H : negb _ = false |- _ => apply negb_false_iff in H
  | H : bool_decide _ = true |- _ => apply bool_decide_eq_true in H
  | H : bool_decide _ = false |- _ => apply bool_decide_eq_false in H
  end.

(** Case on the innermost [match]/[if] of the goal, then clean up. *)
Ltac case_goal :=
  match goal with
  | |- context [match ?c with _ => _ end] =>
      lazymatch c with
      | context [match _ with _ => _ end] => fail
      | _ => let E := fresh "E" in destruct c eqn:E
      end
  end.

Create HintDb servicecache discriminated.

(** ** Lists *)

Section lists.
Context {A : Type}.
Implicit Types (l k : list A).

Lemma take_app_exact l k : take (length l) (l ++ k) = l.
Proof. by rewrite take_app_length. Qed.

Lemma drop_app_exact l k : drop (length l) (l ++ k) = k.
Proof. by rewrite drop_app_length. Qed.

Lemma prefix_Forall (P : A → Prop) l k :
  l `prefix_of` k → Forall P k → Forall P l.
Proof. intros [k' ->]. by rewrite Forall_app; intros [? _]. Qed.

Lemma omap_ext_elem {B} (f g : A → option B) l :
  (∀ x, x ∈ l → f x = g x) → omap f l = omap g l.
Proof.
  induction l as [|x l IH]; intros Hl; [done|].
  change (omap f (x :: l)) with (match f x with Some y => y :: omap f l | None => omap f l end).
  change (omap g (x :: l)) with (match g x with Some y => y :: omap g l | None => omap g l end).
  rewrite Hl by by left. rewrite IH; [done|]. intros y Hy. apply Hl. by right.
Qed.

Lemma omap_inverse {B} (f : B → option A) (g : A → B) l :
  (∀ x, x ∈ l → f (g x) = Some x) → omap f (map g l) = l.
Proof.
  induction l as [|x l IH]; intros Hl; [done|].
  change (omap f (map g (x :: l))) with
    (match f (g x) with Some y => y :: omap f (map g l) | None => omap f (map g l) end).
  rewrite Hl by by left. f_equal. apply IH. intros y Hy. apply Hl. by right.
Qed.
End lists.

(** An invariant of the steps holds of every reachable state. *)
Lemma rtc_invariant {A} (R : relation A) (P : A → Prop) x y :
  (∀ x y, R x y → P x → P y) → P x → rtc R x y → P y.
Proof. intros Hstep Hx Hrun. induction Hrun; eauto. Qed.

#[export] Hint Rewrite @length_app @length_take @length_drop @length_replicate
  @length_fmap @length_seq : servicecache.

(** ** Bytes and little-endian words *)

#[global] Instance byte_eq_dec : EqDecision byte := Byte.byte_eq_dec.

(** The byte [n as u8]. *)
Definition byte_of_N (n : N) : byte :=
  match Byte.of_N (n mod 256) with
  | Some b => b
  | None => x00
  end.

Lemma to_N_byte_of_N n : Byte.to_N (byte_of_N n) = (n mod 256)%N.
Proof.
  unfold byte_of_N.
  destruct (Byte.of_N (n mod 256)) eqn:E.
  - by apply Byte.to_of_N in E.
  - apply Byte.of_N_None_iff in E.
    pose proof (N.mod_lt n 256 ltac:(lia)). lia.
Qed.

Lemma byte_of_to_N b : byte_of_N (Byte.to_N b) = b.
Proof.
  unfold byte_of_N. pose proof (Byte.to_N_bounded b).
  rewrite N.mod_small by lia. by rewrite Byte.of_to_N.
Qed.

Lemma byte_to_N_inj a b : Byte.to_N a = Byte.to_N b → a = b.
Proof. intros H. by rewrite <- (byte_of_to_N a), H, byte_of_to_N. Qed.

(** [u32::to_le_bytes]. *)
Definition u32_to_le_bytes (n : N) : list byte :=
  [byte_of_N n; byte_of_N (n / 2 ^ 8); byte_of_N (n / 2 ^ 16); byte_of_N (n / 2 ^ 24)].

(** [u32::from_le_bytes] of four bytes. *)
Definition u32_from_le_bytes (b0 b1 b2 b3 : byte) : N :=
  Byte.to_N b0 + Byte.to_N b1 * 2 ^ 8 + Byte.to_N b2 * 2 ^ 16 + Byte.to_N b3 * 2 ^ 24.

Definition u32_max : N := 2 ^ 32 - 1.
Definition u64_max : N := 2 ^ 64 - 1.

Lemma u32_from_to_le_bytes n :
  (n <= u32_max)%N →
  u32_from_le_bytes (byte_of_N n) (byte_of_N (n / 2 ^ 8)) (byte_of_N (n / 2 ^ 16))
    (byte_of_N (n / 2 ^ 24)) = n.
Proof.
  unfold u32_from_le_bytes, u32_max. intros Hn.
  rewrite !to_N_byte_of_N.
  change (2 ^ 8)%N with 256%N. change (2 ^ 16)%N with 65536%N.
  change (2 ^ 24)%N with 16777216%N.
  zify. Z.to_euclidean_division_equations. lia.
Qed.

Lemma u32_from_le_bytes_bound a b c d : (u32_from_le_bytes a b c d <= u32_max)%N.
Proof.
  unfold u32_from_le_bytes, u32_max.
  pose proof (Byte.to_N_bounded a). pose proof (Byte.to_N_bounded b).
  pose proof (Byte.to_N_bounded c). pose proof (Byte.to_N_bounded d).
  change (2 ^ 8)%N with 256%N. change (2 ^ 16)%N with 65536%N.
  change (2 ^ 24)%N with 16777216%N. change (2 ^ 32)%N with 4294967296%N. lia.
Qed.

(** ** Text and addresses *)

(** [join] of a slice of strings. *)
Fixpoint join_with (sep : string) (l : list string) : string :=
  match l with
  | [] => ""
  | [s] => s
  | s :: l => s +:+ sep +:+ join_with sep l
  end.

(** [format!("{error:#}")]: the whole chain. *)
Definition display_chain (e : error) : string := join_with ": " e.

Lemma append_cons c (a b : string) : String c a +:+ b = String c (a +:+ b).
Proof. done. Qed.

Lemma string_app_assoc (a b c : string) : (a +:+ b) +:+ c = a +:+ (b +:+ c).
Proof. induction a as [|x a IH]; [done|]. by rewrite !append_cons, IH. Qed.

Lemma string_app_nil_r (a : string) : a +:+ "" = a.
Proof. induction a as [|x a IH]; [done|]. by rewrite !append_cons, IH. Qed.

(** [str::strip_prefix]. *)
Fixpoint str_strip_prefix (s prefix : string) {struct prefix} : option string :=
  match prefix, s with
  | EmptyString, _ => Some s
  | String a prefix, String b s => if decide (a = b) then str_strip_prefix s prefix else None
  | String _ _, EmptyString => None
  end.

Lemma str_strip_prefix_app p s : str_strip_prefix (p +:+ s) p = Some s.
Proof.
  induction p as [|c p IH]; [done|].
  change (String c p +:+ s) with (String c (p +:+ s)). simpl. by rewrite decide_True by done.
Qed.

(** One lower-case hexadecimal digit. *)
Definition hex_digit (n : N) : ascii :=
  ascii_of_N (if bool_decide (n < 10)%N then 48 + n else 87 + n).

(** [{byte:02x}]. *)
Definition hex_byte (b : byte) : string :=
  let n := Byte.to_N b in
  String (hex_digit (n / 16)) (String (hex_digit (n mod 16)) EmptyString).

Lemma N_of_hex_digit n :
  (n < 16)%N → N_of_ascii (hex_digit n) = if bool_decide (n < 10)%N then (48 + n)%N else (87 + n)%N.
Proof. intros Hn. apply N_ascii_embedding. case_bool_decide; lia. Qed.

Lemma hex_digit_inj a b : (a < 16)%N → (b < 16)%N → hex_digit a = hex_digit b → a = b.
Proof.
  intros Ha Hb Hab.
  apply (f_equal N_of_ascii) in Hab. rewrite !N_of_hex_digit in Hab by done.
  repeat case_bool_decide; lia.
Qed.

(** [SocketAddr]: an IP address, as its text, and a port.  Every
    socket of the program is on the IPv4 loopback address, so the text needs no
    brackets. *)
Record SocketAddr : Type := mkAddr { ip : string; port : N }.
#[global] Instance socket_addr_eq_dec : EqDecision SocketAddr.
Proof. solve_decision. Defined.

Definition addr_to_string (a : SocketAddr) : string := ip a +:+ ":" +:+ pretty (port a).
