(* ===== verification/Text.v ===== *)
(** * Text as the standard library takes it apart

    The parts of [str] the program parses with: [split_once], [rsplit_once],
    [lines], [split_ascii_whitespace], [trim] and the integer parsers, on ASCII
    text.  Used for the command line and for what the kernel reports. *)

From S2P Require Import Prelude.

(** [env::split_paths], on the colon. *)
Fixpoint split_on (sep : ascii) (s : string) : list string :=
  match s with
  | EmptyString => [""]
  | String c s =>
      if decide (c = sep) then "" :: split_on sep s
      else match split_on sep s with
           | [] => [String c ""]
           | x :: xs => String c x :: xs
           end
  end.

(** [str::split_once]. *)
Fixpoint split_once (sep : ascii) (s : string) : option (string * string) :=
  match s with
  | EmptyString => None
  | String c s =>
      if decide (c = sep) then Some ("", s)
      else match split_once sep s with
           | Some (a, b) => Some (String c a, b)
           | None => None
           end
  end.

(** [str::rsplit_once]. *)
Fixpoint rsplit_once (sep : ascii) (s : string) : option (string * string) :=
  match s with
  | EmptyString => None
  | String c s =>
      match rsplit_once sep s with
      | Some (a, b) => Some (String c a, b)
      | None => if decide (c = sep) then Some ("", s) else None
      end
  end.

(** [char::is_ascii_whitespace]. *)
Definition is_space (c : ascii) : bool :=
  let n := N_of_ascii c in
  bool_decide (n = 32%N) || bool_decide (n = 9%N) || bool_decide (n = 10%N) ||
  bool_decide (n = 12%N) || bool_decide (n = 13%N).

(** The word at the start of a text, and the words after it. *)
Fixpoint words_from (s : string) : string * list string :=
  match s with
  | EmptyString => ("", [])
  | String c s =>
      let (w, ws) := words_from s in
      if is_space c then ("", match w with EmptyString => ws | _ => w :: ws end)
      else (String c w, ws)
  end.

(** [str::split_ascii_whitespace]. *)
Definition words (s : string) : list string :=
  let (w, ws) := words_from s in match w with EmptyString => ws | _ => w :: ws end.

(** [str::lines]. *)
Definition newline : ascii := ascii_of_N 10.
Definition return_ : ascii := ascii_of_N 13.
Fixpoint strip_return (s : string) : string :=
  match s with
  | EmptyString => ""
  | String c s' =>
      match s' with
      | EmptyString => if decide (c = return_) then "" else s
      | _ => String c (strip_return s')
      end
  end.
Definition lines (s : string) : list string :=
  let pieces := split_on newline s in
  map strip_return (removelast pieces) ++
  match List.last pieces "" with EmptyString => [] | l => [l] end.

(** [str::trim]: vertical tabs are whitespace to it. *)
Definition is_white (c : ascii) : bool := is_space c || bool_decide (N_of_ascii c = 11%N).
Fixpoint trim_start (s : string) : string :=
  match s with
  | String c s' => if is_white c then trim_start s' else s
  | EmptyString => ""
  end.
Fixpoint trim_end (s : string) : string :=
  match s with
  | EmptyString => ""
  | String c s =>
      match trim_end s with
      | EmptyString => if is_white c then "" else String c ""
      | t => String c t
      end
  end.
Definition trim (s : string) : string := trim_start (trim_end s).

(** ** Numbers *)

Definition digit_of (c : ascii) : option N :=
  let n := N_of_ascii c in
  if bool_decide (48 <= n <= 57)%N then Some (n - 48)%N
  else if bool_decide (97 <= n <= 102)%N then Some (n - 87)%N
  else if bool_decide (65 <= n <= 70)%N then Some (n - 55)%N
  else None.

Fixpoint digits (radix : N) (acc : N) (s : string) : option N :=
  match s with
  | EmptyString => Some acc
  | String c s =>
      match digit_of c with
      | Some d => if bool_decide (d < radix)%N then digits radix (acc * radix + d) s else None
      | None => None
      end
  end.

(** [usize::from_str_radix] and [str::parse::<usize>]: a plus sign may come
    first; no digits, another character or a value past 64 bits is an error. *)
Definition from_str_radix (radix : N) (s : string) : option N :=
  let body := match s with String c s' => if decide (c = "+"%char) then s' else s | _ => s end in
  match body with
  | EmptyString => None
  | _ =>
      match digits radix 0 body with
      | Some n => if bool_decide (n <= u64_max)%N then Some n else None
      | None => None
      end
  end.
Definition parse_usize (s : string) : option N := from_str_radix 10 s.

(** [{s:?}] of a string: quoted, with the escapes of [char::escape_debug];
    bytes of other characters stay as they are. *)
Definition char_debug (c : ascii) : string :=
  let escape (s : string) : string := String (ascii_of_N 92) s in
  match N_of_ascii c with
  | 0%N => escape "0"
  | 9%N => escape "t"
  | 10%N => escape "n"
  | 13%N => escape "r"
  | 34%N | 92%N => escape (String c "")
  | n =>
      if bool_decide (n < 16)%N then escape ("u{" +:+ String (hex_digit n) "}")
      else if bool_decide (n < 32)%N || bool_decide (n = 127)%N then
        escape ("u{" +:+ String (hex_digit (n / 16)) (String (hex_digit (n mod 16)) "}"))
      else String c ""
  end.
Fixpoint string_debug_body (s : string) : string :=
  match s with
  | EmptyString => EmptyString
  | String c s => char_debug c +:+ string_debug_body s
  end.
Definition quote : string := String (ascii_of_N 34) "".
Definition string_debug (s : string) : string := quote +:+ string_debug_body s +:+ quote.

(** [str::to_ascii_lowercase]; two strings are [eq_ignore_ascii_case] when
    their lower cases are equal. *)
Definition ascii_lower (c : ascii) : ascii :=
  let n := N_of_ascii c in
  if bool_decide (65 ≤ n ∧ n ≤ 90)%N then ascii_of_N (n + 32) else c.

Fixpoint string_lower (s : string) : string :=
  match s with
  | EmptyString => EmptyString
  | String c s => String (ascii_lower c) (string_lower s)
  end.

(** ** Lemmas *)

Fixpoint no_char (a : ascii) (s : string) : Prop :=
  match s with EmptyString => True | String c s => c ≠ a ∧ no_char a s end.

(** A word: not empty, and without whitespace. *)
Fixpoint no_space (s : string) : bool :=
  match s with EmptyString => true | String c s => negb (is_space c) && no_space s end.
Definition is_word (s : string) : Prop := s ≠ "" ∧ no_space s = true.

Lemma split_once_app sep a b :
  split_once sep (a +:+ String sep b) =
    match split_once sep a with Some (x, y) => Some (x, y +:+ String sep b) | None => Some (a, b) end.
Proof.
  induction a as [|c a IH].
  - change ("" +:+ String sep b) with (String sep b). simpl. by rewrite decide_True.
  - change (String c a +:+ String sep b) with (String c (a +:+ String sep b)). simpl.
    destruct (decide (c = sep)); [done|]. rewrite IH. by destruct (split_once sep a) as [[]|].
Qed.

Lemma split_once_none sep a : no_char sep a → split_once sep a = None.
Proof. induction a as [|c a IH]; [done|]. simpl. intros [Hc Ha]. by rewrite decide_False, IH. Qed.

Lemma split_once_at sep a b : no_char sep a → split_once sep (a +:+ String sep b) = Some (a, b).
Proof. intros Ha. by rewrite split_once_app, split_once_none. Qed.

Lemma rsplit_once_none sep a : no_char sep a → rsplit_once sep a = None.
Proof. induction a as [|c a IH]; [done|]. simpl. intros [Hc Ha]. by rewrite IH, decide_False. Qed.

(** The last separator, whatever is before it. *)
Lemma rsplit_once_at sep a b : no_char sep b → rsplit_once sep (a +:+ String sep b) = Some (a, b).
Proof.
  intros Hb. induction a as [|c a IH].
  - change ("" +:+ String sep b) with (String sep b). simpl.
    by rewrite rsplit_once_none, decide_True.
  - change (String c a +:+ String sep b) with (String c (a +:+ String sep b)). simpl. by rewrite IH.
Qed.

Lemma words_from_word w s :
  no_space w = true →
  words_from (w +:+ s) = (let (v, vs) := words_from s in (w +:+ v, vs)).
Proof.
  induction w as [|c w IH]; simpl; intros Hw.
  - change ("" +:+ s) with s. by destruct (words_from s).
  - change (String c w +:+ s) with (String c (w +:+ s)). simp_bool. simpl.
    rewrite IH by done. destruct (words_from s). by rewrite H.
Qed.

Lemma words_cons w s : is_word w → words (w +:+ String " " s) = w :: words s.
Proof.
  intros [Hne Hw]. unfold words. rewrite words_from_word by done. cbn [words_from is_space].
  destruct (words_from s) as [v vs]. change (is_space " ") with true. cbn match.
  rewrite string_app_nil_r. destruct w; [done|]. by destruct v.
Qed.

Lemma words_space s : words (String " " s) = words s.
Proof. unfold words. simpl. destruct (words_from s) as [w ws]. by destruct w. Qed.

Lemma words_one w : is_word w → words w = [w].
Proof.
  intros [Hne Hw]. rewrite <- (string_app_nil_r w) at 1. unfold words.
  rewrite words_from_word by done. cbn [words_from]. rewrite string_app_nil_r. by destruct w.
Qed.

Lemma words_join ws : Forall is_word ws → words (join_with " " ws) = ws.
Proof.
  induction ws as [|w ws IH]; intros Hall; [done|]. apply Forall_cons in Hall as [Hw Hws].
  destruct ws as [|v vs]; [by apply words_one|].
  change (join_with " " (w :: v :: vs)) with (w +:+ String " " (join_with " " (v :: vs))).
  by rewrite words_cons, IH.
Qed.

(** ** Lines *)

Definition unlines (ls : list string) : string := foldr (λ l s, l +:+ String newline s) "" ls.

Lemma split_on_at sep a b : no_char sep a → split_on sep (a +:+ String sep b) = a :: split_on sep b.
Proof.
  induction a as [|c a IH]; intros Ha.
  - change ("" +:+ String sep b) with (String sep b). simpl. by rewrite decide_True.
  - rewrite append_cons. destruct Ha as [Hc Ha]. simpl. by rewrite decide_False, IH.
Qed.

Lemma strip_return_id s : no_char return_ s → strip_return s = s.
Proof.
  induction s as [|c s IH]; [done|]. intros [Hc Hs]. simpl.
  destruct s as [|d s]; [by rewrite decide_False|]. f_equal. by apply IH.
Qed.

Lemma lines_unlines ls :
  Forall (no_char newline) ls → Forall (no_char return_) ls → lines (unlines ls) = ls.
Proof.
  intros Hn Hr. assert (split_on newline (unlines ls) = ls ++ [""]) as Hs.
  { clear Hr. induction Hn as [|l ls Hl Hn IH]; [done|].
    change (unlines (l :: ls)) with (l +:+ String newline (unlines ls)). by rewrite split_on_at, IH. }
  unfold lines. rewrite Hs, removelast_last, List.last_last, app_nil_r.
  clear Hs Hn. induction Hr as [|l ls Hl Hr IH]; [done|]. simpl. by rewrite strip_return_id, IH.
Qed.
