(* ===== verification/Protocol.v ===== *)
(** * The control protocol between the manager and a host process

    Models src/crates/servicecache/src/host/protocol.rs: the messages, the
    frame format and the two directions of a [Channel] over a [SOCK_STREAM]
    socketpair with [SCM_RIGHTS] descriptors.

    The socket is a queue of [cell]s, a byte with the descriptors attached to
    it; how many bytes one [sendmsg] or [recvmsg] moves is chosen by the
    kernel, so both directions take that choice as an argument and the
    theorems hold for all of them.  [serde_json] is the class [JsonCodec]. *)

From S2P Require Import Prelude.

(** ** Messages *)

Inductive Request : Type :=
  | Prepare
  | Start
  | Initialize
  | Freeze
  | Fork
  | Stop.

Inductive Run : Type :=
  | RunPrepare
  | RunGuest
  | RunInitializer
  | RunChild.

(** [status] is an [i32], [pid] a [u32], [coroutines] a [usize]. *)
Inductive Reply : Type :=
  | Ready (endpoint : string)
  | Exited (run : Run) (status : Z) (pid : option N)
  | Frozen (coroutines : N)
  | Forked (pid : N) (endpoint : string)
  | ReplyError (text : string).

#[global] Instance request_eq_dec : EqDecision Request.
Proof. solve_decision. Defined.
#[global] Instance run_eq_dec : EqDecision Run.
Proof. solve_decision. Defined.
#[global] Instance reply_eq_dec : EqDecision Reply.
Proof. solve_decision. Defined.

Definition HEADER_LEN : nat := 8.
Definition MAX_JSON_LEN : N := 64 * 1024.
Definition MAX_PAYLOAD_LEN : N := 256 * 1024 * 1024.
Definition MAX_FDS : nat := 4.

Notation fd := Z (only parsing).

Record Frame (T : Type) : Type := mkFrame {
  message : T;
  payload : list byte;
  fds : list fd;
}.
Arguments mkFrame {T} _ _ _.
Arguments message {T} _.
Arguments payload {T} _.
Arguments fds {T} _.

(** ** What the protocol needs of [serde_json] *)

Class JsonCodec (T : Type) : Type := {
  to_vec : T → result (list byte) error;
  from_slice : list byte → result T error;
}.

(** Documented behaviour of serde: what was serialized deserializes back. *)
Class JsonLaws (T : Type) `{JsonCodec T} : Prop := {
  from_to (m : T) (json : list byte) : to_vec m = Ok json → from_slice json = Ok m;
}.

(** ** The socket *)

Record cell : Type := mkCell { c_byte : byte; c_fds : list fd }.

(** The bytes accepted by one [sendmsg]: its descriptors travel with the
    first of them. *)
Definition attach (rights : list fd) (bytes : list byte) : list cell :=
  match bytes with
  | [] => []
  | b :: bs => mkCell b rights :: map (λ b, mkCell b []) bs
  end.

(** The receiving end: what is (or will be) queued, and whether the peer
    closes after it. *)
Record Stream : Type := mkStream { cells : list cell; closed : bool }.

(** A blocking call: its result, or still blocked with this environment. *)
Inductive io (A : Type) : Type :=
  | Done (r : result A error)
  | Blocked.
Arguments Done {A} r.
Arguments Blocked {A}.

(** ** [Channel::send] *)

Definition encode_header (json_len payload_len : N) : list byte :=
  u32_to_le_bytes json_len ++ u32_to_le_bytes payload_len.

Definition frame_bytes (json payload : list byte) : list byte :=
  encode_header (N.of_nat (length json)) (N.of_nat (length payload)) ++ json ++ payload.

(** [u32::try_from(len)]. *)
Definition u32_try_from (n : N) : result N error :=
  if bool_decide (n ≤ u32_max)%N then Ok n
  else Err ["out of range integral type conversion attempted"].

(** The loop over the rest of the frame: each [sendmsg] result is the
    number of bytes it took, or an errno. *)
Fixpoint send_rest (sendmsg : list (result nat string)) (frame : list byte)
    : io unit * list cell :=
  match frame with
  | [] => (Done (Ok tt), [])
  | _ =>
    match sendmsg with
    | [] => (Blocked, [])
    | Err errno :: _ => (Done (Err ["failed to send a control frame"; errno]), [])
    | Ok n :: sendmsg =>
        if bool_decide (n = 0) then
          (Done (Err ["control channel closed while sending"]), [])
        else
          let (r, out) := send_rest sendmsg (drop n frame) in
          (r, attach [] (take n frame) ++ out)
    end
  end.

(** The cells a [send] puts on the socket, and its result. *)
Definition send {T} `{JsonCodec T} (sendmsg : list (result nat string))
    (message : T) (payload : list byte) (rights : list fd) : io unit * list cell :=
  match with_context "failed to encode a control message" (to_vec message) with
  | Err e => (Done (Err e), [])
  | Ok json =>
    match with_context "control message too long" (u32_try_from (N.of_nat (length json))),
          with_context "control payload too long" (u32_try_from (N.of_nat (length payload))) with
    | Err e, _ => (Done (Err e), [])
    | _, Err e => (Done (Err e), [])
    | Ok json_len, Ok payload_len =>
      let frame := encode_header json_len payload_len ++ json ++ payload in
      match sendmsg with
      | [] => (Blocked, [])
      | Err errno :: _ => (Done (Err ["failed to send a control frame"; errno]), [])
      | Ok n :: sendmsg =>
          let (r, out) := send_rest sendmsg (drop n frame) in
          (r, attach rights (take n frame) ++ out)
      end
    end
  end.

(** ** [Channel::recv] *)

(** One [recvmsg] into a buffer of [room] bytes: at least one byte when any
    is queued, at most what the kernel chooses ([want]), never past a byte
    that carries further descriptors; the descriptors of the first byte,
    at most [MAX_FDS] of them, and whether the control data was truncated
    ([MSG_CTRUNC]) because more were attached. *)
Fixpoint plain_prefix (cs : list cell) : nat :=
  match cs with
  | mkCell _ [] :: cs => S (plain_prefix cs)
  | _ => 0
  end.

Definition recvmsg (want room : nat) (s : Stream)
    : io (list byte * list fd * bool * Stream) :=
  match cells s with
  | [] => if closed s then Done (Ok ([], [], false, s)) else Blocked
  | c :: cs =>
      let n := min (S want) (min room (S (plain_prefix cs))) in
      Done (Ok (map c_byte (take n (c :: cs)), take MAX_FDS (c_fds c),
                bool_decide (MAX_FDS < length (c_fds c)), mkStream (drop n (c :: cs)) (closed s)))
  end.

(** The header loop: [filled] so far, the descriptors collected.  Truncated
    control data makes [message.cmsgs()] fail with [ENOBUFS].  A pass
    reads at least one byte, so [HEADER_LEN + 1] passes always end it. *)
Fixpoint recv_header (fuel : nat) (want : nat → nat) (header : list byte) (rights : list fd)
    (s : Stream) : io (option (list byte * list fd * Stream)) :=
  if bool_decide (length header < HEADER_LEN) then
    match fuel with
    | O => Blocked
    | S fuel =>
      match recvmsg (want fuel) (HEADER_LEN - length header) s with
      | Blocked => Blocked
      | Done (Err e) => Done (Err ("failed to receive a control frame" :: e))
      | Done (Ok (_, _, true, _)) => Done (Err ["bad control message"; "ENOBUFS"])
      | Done (Ok (bytes, received, false, s)) =>
          let rights := rights ++ received in
          match bytes with
          | [] =>
              match header, rights with
              | [], [] => Done (Ok None)
              | _, _ => Done (Err ["control channel closed inside a frame"])
              end
          | _ => recv_header fuel want (header ++ bytes) rights s
          end
      end
    end
  else Done (Ok (Some (header, rights, s))).

(** [Channel::read_exact]: plain reads, which drop any descriptor. *)
Definition read_exact (n : nat) (s : Stream) : io (list byte * Stream) :=
  if bool_decide (n ≤ length (cells s)) then
    Done (Ok (map c_byte (take n (cells s)), mkStream (drop n (cells s)) (closed s)))
  else if closed s then
    Done (Err ["control channel closed inside a frame"; "failed to fill whole buffer"])
  else Blocked.

Definition recv_body {T} `{JsonCodec T} (json_len payload_len : N) (rights : list fd)
    (s : Stream) : io (option (Frame T) * Stream) :=
  if bool_decide (MAX_JSON_LEN < json_len)%N || bool_decide (MAX_PAYLOAD_LEN < payload_len)%N then
    Done (Err [("control frame too large: " ++ pretty json_len ++ " + " ++
               pretty payload_len ++ " bytes")%string])
  else
    match read_exact (N.to_nat json_len) s with
    | Blocked => Blocked
    | Done (Err e) => Done (Err e)
    | Done (Ok (json, s)) =>
      match read_exact (N.to_nat payload_len) s with
      | Blocked => Blocked
      | Done (Err e) => Done (Err e)
      | Done (Ok (payload, s)) =>
        match with_context "failed to decode a control message" (from_slice json) with
        | Err e => Done (Err e)
        | Ok message => Done (Ok (Some (mkFrame message payload rights), s))
        end
      end
    end.

Definition recv {T} `{JsonCodec T} (want : nat → nat) (s : Stream)
    : io (option (Frame T) * Stream) :=
  match recv_header (S HEADER_LEN) want [] [] s with
  | Blocked => Blocked
  | Done (Err e) => Done (Err e)
  | Done (Ok None) => Done (Ok (None, s))
  | Done (Ok (Some (header, rights, s))) =>
      match header with
      | [b0; b1; b2; b3; b4; b5; b6; b7] =>
          recv_body (u32_from_le_bytes b0 b1 b2 b3) (u32_from_le_bytes b4 b5 b6 b7) rights s
      | _ => Blocked
      end
  end.

(** Receive frames until the end of the stream. *)
Fixpoint recv_all {T} `{JsonCodec T} (fuel : nat) (want : nat → nat) (s : Stream)
    : io (list (Frame T)) :=
  match fuel with
  | O => Blocked
  | S fuel =>
    match recv want s with
    | Blocked => Blocked
    | Done (Err e) => Done (Err e)
    | Done (Ok (None, _)) => Done (Ok [])
    | Done (Ok (Some f, s)) =>
        match recv_all fuel want s with
        | Done (Ok fs) => Done (Ok (f :: fs))
        | r => r
        end
    end
  end.

(** ** [Channel::wait_readable] *)

(** What one [poll] answers: how many descriptors are ready, or its error. *)
Inductive Polled : Type :=
  | PolledReady (count : N)
  | PolledInterrupted
  | PolledFailed (e : error).

(** The most milliseconds a [PollTimeout] holds. *)
Definition POLL_TIMEOUT_MAX : N := 2147483647.

(** The loop, over the answers of its polls; [None] while it still waits. *)
Fixpoint wait_loop (polls : list Polled) : option (result bool error) :=
  match polls with
  | [] => None
  | PolledReady count :: _ => Some (Ok (negb (bool_decide (count = 0%N))))
  | PolledInterrupted :: polls => wait_loop polls
  | PolledFailed e :: _ => Some (Err ("poll on the control channel" :: e))
  end.

(** [timeout] in milliseconds. *)
Definition wait_readable (timeout : option N) (polls : list Polled) : option (result bool error) :=
  match timeout with
  | Some t => if bool_decide (t <= POLL_TIMEOUT_MAX)%N then wait_loop polls
              else Some (Err ["poll timeout too long"; "TryFromIntError"])
  | None => wait_loop polls
  end.

(** ** Lemmas *)

Lemma length_attach r bs : length (attach r bs) = length bs.
Proof. destruct bs; simpl; [done|]. by rewrite length_map. Qed.

Lemma map_byte_attach r bs : map c_byte (attach r bs) = bs.
Proof. destruct bs; simpl; [done|]. by rewrite map_map, map_id. Qed.

Lemma attach_nil bs : attach [] bs = map (λ b, mkCell b []) bs.
Proof. by destruct bs. Qed.

Lemma attach_split r n bs :
  (0 < n)%nat → attach r (take n bs) ++ attach [] (drop n bs) = attach r bs.
Proof.
  intros Hn. destruct n as [|n]; [lia|]. destruct bs as [|b bs]; [done|].
  simpl. by rewrite attach_nil, <- map_app, take_drop.
Qed.

Lemma attach_plain_split n bs :
  attach [] (take n bs) ++ attach [] (drop n bs) = attach [] bs.
Proof. by rewrite !attach_nil, <- map_app, take_drop. Qed.

Lemma drop_attach r n bs : (0 < n)%nat → drop n (attach r bs) = attach [] (drop n bs).
Proof.
  intros Hn. destruct n as [|n]; [lia|]. destruct bs as [|b bs]; simpl; [done|].
  by rewrite attach_nil, skipn_map.
Qed.

Lemma length_encode_header a b : length (encode_header a b) = HEADER_LEN.
Proof. done. Qed.

Lemma length_frame_bytes json payload :
  length (frame_bytes json payload) = HEADER_LEN + length json + length payload.
Proof. unfold frame_bytes. rewrite !length_app. simpl. lia. Qed.

Lemma u32_try_from_ok n m : u32_try_from n = Ok m → m = n ∧ (n ≤ u32_max)%N.
Proof. unfold u32_try_from. intros H. inv_ok. by simp_bool. Qed.

Lemma send_rest_cells o bs out :
  send_rest o bs = (Done (Ok tt), out) → out = attach [] bs.
Proof.
  revert bs out. induction o as [|[n|e] o IH]; intros [|b bs] out; simpl.
  all: try congruence.
  case_bool_decide as Hn; [congruence|].
  destruct (send_rest o (drop n (b :: bs))) as [r out'] eqn:E.
  intros [= -> <-]. apply IH in E. subst. apply (attach_plain_split n (b :: bs)).
Qed.

(** Every byte of the frame goes out when the kernel keeps accepting: an
    oracle of positive counts long enough always completes. *)
Lemma send_rest_completes o bs :
  Forall (λ r, ∃ n, r = Ok n ∧ 0 < n) o → length bs ≤ length o →
  send_rest o bs = (Done (Ok tt), attach [] bs).
Proof.
  intros Ho. revert bs. induction Ho as [|r o (n & -> & Hn) Ho IH]; intros [|b bs] Hl.
  all: try (simpl in *; done || lia).
  simpl. rewrite bool_decide_eq_false_2 by lia.
  rewrite IH by (rewrite length_drop; simpl in *; lia).
  f_equal. apply (attach_plain_split n (b :: bs)).
Qed.

Lemma plain_prefix_plain bs : plain_prefix (map (λ b, mkCell b []) bs) = length bs.
Proof. induction bs; simpl; congruence. Qed.

(** One [recvmsg] on a queue that starts with plain bytes takes a non-empty
    part of them, when the buffer or the queue ends where they do. *)
Lemma recvmsg_frame want room r b bs rest c :
  1 ≤ room → room ≤ length (b :: bs) ∨ rest = [] →
  ∃ n, 1 ≤ n ≤ length (b :: bs) ∧
    recvmsg want room (mkStream (attach r (b :: bs) ++ rest) c) =
    Done (Ok (take n (b :: bs), take MAX_FDS r, bool_decide (MAX_FDS < length r),
              mkStream (attach [] (drop n (b :: bs)) ++ rest) c)).
Proof.
  intros Hroom Hend.
  set (n := min (S want) (min room
    (S (plain_prefix (map (λ b, mkCell b []) bs ++ rest))))).
  assert (Hn : 1 ≤ n ≤ length (b :: bs)).
  { subst n. destruct Hend as [Hend| ->]; [lia|].
    rewrite app_nil_r, plain_prefix_plain. simpl length. lia. }
  exists n. split; [done|].
  unfold recvmsg. cbn [cells closed attach app c_fds].
  change (min (S want) (min room _)) with n.
  change (mkCell b r :: map (λ b, mkCell b []) bs ++ rest)
    with (attach r (b :: bs) ++ rest).
  rewrite take_app_le, drop_app_le, drop_attach by (rewrite ?length_attach; lia).
  rewrite <- firstn_map, map_byte_attach. done.
Qed.

(** The header loop over plain bytes: complete when they fill the header,
    refused when the peer closes before. *)
Lemma recv_header_plain fuel want h rights bs rest c :
  length h + length bs = HEADER_LEN ∨
    (length h + length bs < HEADER_LEN ∧ rest = [] ∧ c = true) →
  length bs < fuel → h ≠ [] →
  recv_header fuel want h rights (mkStream (attach [] bs ++ rest) c) =
  if bool_decide (length h + length bs = HEADER_LEN)
  then Done (Ok (Some (h ++ bs, rights, mkStream rest c)))
  else Done (Err ["control channel closed inside a frame"]).
Proof.
  revert h bs. induction fuel as [|fuel IH]; intros h bs Hl Hf Hh; [lia|].
  unfold recv_header; fold recv_header.
  destruct bs as [|b bs].
  { destruct Hl as [Hl|(Hl & -> & ->)]; simpl length in *; rewrite Nat.add_0_r in *.
    - rewrite !bool_decide_eq_false_2, bool_decide_eq_true_2 by lia. by rewrite app_nil_r.
    - rewrite bool_decide_eq_true_2, bool_decide_eq_false_2 by lia. simpl.
      by destruct h; [done|]. }
  rewrite bool_decide_eq_true_2 by (simpl in *; lia).
  destruct (recvmsg_frame (want fuel) (HEADER_LEN - length h) [] b bs rest c)
    as (n & Hn & ->); [simpl in *; lia|destruct Hl as [?|(_ & ? & _)]; [left|right]; [lia|done]|].
  destruct n as [|n]; [lia|].
  rewrite take_nil, app_nil_r. simpl take. cbv iota.
  change (b :: take n bs) with (take (S n) (b :: bs)).
  assert (Hsum : length (h ++ take (S n) (b :: bs)) + length (drop (S n) (b :: bs)) =
                 length h + length (b :: bs)).
  { rewrite length_app, length_take, length_drop. lia. }
  rewrite IH.
  - by rewrite Hsum, <- app_assoc, take_drop.
  - by rewrite Hsum.
  - rewrite length_drop. simpl in *. lia.
  - intros [? ?]%app_eq_nil. done.
Qed.

Lemma recv_header_frame want r b bs rest c :
  length r ≤ MAX_FDS →
  length (b :: bs) = HEADER_LEN ∨
    (length (b :: bs) < HEADER_LEN ∧ rest = [] ∧ c = true) →
  recv_header (S HEADER_LEN) want [] [] (mkStream (attach r (b :: bs) ++ rest) c) =
  if bool_decide (length (b :: bs) = HEADER_LEN)
  then Done (Ok (Some (b :: bs, r, mkStream rest c)))
  else Done (Err ["control channel closed inside a frame"]).
Proof.
  intros Hr Hl. unfold recv_header; fold recv_header.
  rewrite bool_decide_eq_true_2 by (unfold HEADER_LEN; simpl; lia).
  destruct (recvmsg_frame (want HEADER_LEN) (HEADER_LEN - length (@nil byte)) r b bs rest c)
    as (n & Hn & ->).
  { unfold HEADER_LEN. simpl. lia. }
  { simpl (length []). destruct Hl as [?|(_ & ? & _)]; [left; lia|by right]. }
  rewrite (bool_decide_eq_false_2 (MAX_FDS < _)), (take_ge r) by lia.
  destruct n as [|n]; [lia|]. simpl take. cbv iota.
  change (b :: take n bs) with (take (S n) (b :: bs)).
  assert (Hsum : length ([] ++ take (S n) (b :: bs)) + length (drop (S n) (b :: bs)) =
                 length (b :: bs)).
  { rewrite app_nil_l, length_take, length_drop. lia. }
  rewrite recv_header_plain; [| by rewrite Hsum | rewrite length_drop; simpl in *; lia | done].
  by rewrite Hsum, !app_nil_l, take_drop.
Qed.

Lemma read_exact_plain bs rest c n :
  n = length bs →
  read_exact n (mkStream (attach [] bs ++ rest) c) = Done (Ok (bs, mkStream rest c)).
Proof.
  intros ->. unfold read_exact. simpl cells.
  rewrite bool_decide_eq_true_2 by (rewrite length_app, length_attach; lia).
  rewrite <- (length_attach [] bs), take_app_exact, drop_app_exact, map_byte_attach. done.
Qed.

(** A frame on the wire is its header, its message and its payload, the
    descriptors on the first byte. *)
Lemma attach_frame rights json payload :
  attach rights (frame_bytes json payload) =
  attach rights (encode_header (N.of_nat (length json)) (N.of_nat (length payload))) ++
  attach [] json ++ attach [] payload.
Proof.
  unfold frame_bytes.
  rewrite <- (attach_split rights HEADER_LEN) by (unfold HEADER_LEN; lia).
  set (hd := encode_header _ _). change HEADER_LEN with (length hd).
  rewrite take_app_exact, drop_app_exact. f_equal.
  by rewrite !attach_nil, map_app.
Qed.

(** Whatever follows a complete header, [recv] goes on with the lengths it
    names. *)
Lemma recv_after_header {T} `{JsonCodec T} want jl pl rights body c :
  (jl ≤ u32_max)%N → (pl ≤ u32_max)%N → length rights ≤ MAX_FDS →
  recv (T:=T) want (mkStream (attach rights (encode_header jl pl) ++ body) c) =
  recv_body jl pl rights (mkStream body c).
Proof.
  intros Hj Hp Hr. unfold recv.
  unfold encode_header, u32_to_le_bytes. cbn [app].
  rewrite recv_header_frame; [|done|by left].
  rewrite bool_decide_eq_true_2 by done.
  by rewrite !u32_from_to_le_bytes by done.
Qed.

Section roundtrip.
Context {T : Type} `{JsonLaws T}.

Lemma recv_frame want (m : T) json payload rights rest c :
  to_vec m = Ok json →
  (N.of_nat (length json) ≤ MAX_JSON_LEN)%N →
  (N.of_nat (length payload) ≤ MAX_PAYLOAD_LEN)%N →
  length rights ≤ MAX_FDS →
  recv want (mkStream (attach rights (frame_bytes json payload) ++ rest) c) =
  Done (Ok (Some (mkFrame m payload rights), mkStream rest c)).
Proof.
  intros Hm Hj Hp Hr.
  assert (MAX_JSON_LEN ≤ u32_max)%N by (vm_compute; discriminate).
  assert (MAX_PAYLOAD_LEN ≤ u32_max)%N by (vm_compute; discriminate).
  rewrite attach_frame, <- !app_assoc, recv_after_header by lia.
  unfold recv_body. rewrite !bool_decide_eq_false_2 by lia. simpl orb. cbv iota.
  rewrite read_exact_plain by lia. rewrite read_exact_plain by lia.
  by rewrite (from_to _ _ Hm).
Qed.

Lemma send_cells o (m : T) payload rights out :
  send o m payload rights = (Done (Ok tt), out) →
  head o ≠ Some (Ok 0) →
  ∃ json, to_vec m = Ok json ∧ out = attach rights (frame_bytes json payload) ∧
    (N.of_nat (length json) ≤ u32_max)%N ∧ (N.of_nat (length payload) ≤ u32_max)%N.
Proof.
  unfold send. intros Hs Hn. destruct (to_vec m) as [json|] eqn:Hm; simpl in Hs; [|done].
  exists json. split; [done|].
  destruct (u32_try_from (N.of_nat (length json))) as [jl|] eqn:Ej; simpl in Hs; [|done].
  destruct (u32_try_from (N.of_nat (length payload))) as [pl|] eqn:Ep; simpl in Hs; [|done].
  apply u32_try_from_ok in Ej as [-> ?]. apply u32_try_from_ok in Ep as [-> ?].
  destruct o as [|[n|e] o]; [done| |done].
  destruct (send_rest o _) as [r out'] eqn:E. injection Hs as -> <-.
  apply send_rest_cells in E as ->. split; [|done].
  apply attach_split. destruct n; [done|lia].
Qed.

(** A message within the limits [recv] enforces. *)
Definition within_limits (m : T) (payload : list byte) (rights : list fd) : Prop :=
  (∀ json, to_vec m = Ok json → (N.of_nat (length json) ≤ MAX_JSON_LEN)%N) ∧
  (N.of_nat (length payload) ≤ MAX_PAYLOAD_LEN)%N ∧ length rights ≤ MAX_FDS.
End roundtrip.

(** A conversation: frames sent one after another on one channel, each with
    the kernel's own split of it. *)
Inductive sends {T} `{JsonCodec T} : list (Frame T) → list cell → Prop :=
  | sends_nil : sends [] []
  | sends_cons o f fs out out' :
      send o (message f) (payload f) (fds f) = (Done (Ok tt), out) →
      head o ≠ Some (Ok 0) →
      within_limits (message f) (payload f) (fds f) →
      sends fs out' →
      sends (f :: fs) (out ++ out').

(** C32: whatever way the kernel splits the writes and the reads, a receiver
    gets exactly the frames that were sent, in order, with their payloads and
    their descriptors, and then the end of the stream. *)
Theorem frames_round_trip {T} `{JsonLaws T} (fs : list (Frame T)) (out : list cell)
    (want : nat → nat) :
  sends fs out →
  recv_all (S (length fs)) want (mkStream out true) = Done (Ok fs).
Proof.
  intros Hs. induction Hs as [|o f fs out out' Hsend Ho (Hj & Hp & Hr) _ IH]; [done|].
  apply send_cells in Hsend as (json & Hm & -> & _ & _); [|done].
  cbn [length]. remember (S (length fs)) as fuel. cbn [recv_all].
  rewrite (recv_frame _ (message f) json) by auto. rewrite IH. by destruct f.
Qed.

Section limits.
Context {T : Type} `{JsonLaws T}.

(** [send] checks only that a length fits 32 bits, [recv] refuses what is
    over [MAX_JSON_LEN] or [MAX_PAYLOAD_LEN]: a message between the two
    limits is sent completely and successfully, and the receiver fails on it
    without consuming its body. *)
Theorem oversized_frame_is_sent_and_refused (m : T) (json payload : list byte)
    (rights : list fd) (want : nat → nat) (rest : list cell) (c : bool) :
  to_vec m = Ok json →
  (N.of_nat (length json) ≤ u32_max)%N →
  (N.of_nat (length payload) ≤ u32_max)%N →
  length rights ≤ MAX_FDS →
  (MAX_JSON_LEN < N.of_nat (length json) ∨ MAX_PAYLOAD_LEN < N.of_nat (length payload))%N →
  send [Ok (length (frame_bytes json payload))] m payload rights =
    (Done (Ok tt), attach rights (frame_bytes json payload)) ∧
  recv (T:=T) want (mkStream (attach rights (frame_bytes json payload) ++ rest) c) =
    Done (Err [("control frame too large: " ++ pretty (N.of_nat (length json)) ++ " + " ++
               pretty (N.of_nat (length payload)) ++ " bytes")%string]).
Proof.
  intros Hm Hj Hp Hr Hbig. split.
  - unfold send. rewrite Hm. simpl with_context. unfold u32_try_from.
    rewrite !bool_decide_eq_true_2 by done. simpl with_context. cbv iota beta.
    change (encode_header _ _ ++ json ++ payload) with (frame_bytes json payload).
    rewrite drop_all, take_ge by done. simpl. by rewrite app_nil_r.
  - rewrite attach_frame, <- !app_assoc, recv_after_header by done.
    unfold recv_body.
    destruct Hbig as [Hb|Hb].
    + by rewrite (bool_decide_eq_true_2 (MAX_JSON_LEN < _)%N).
    + by rewrite (bool_decide_eq_true_2 (MAX_PAYLOAD_LEN < _)%N), orb_true_r.
Qed.
End limits.

Lemma take_attach r n bs : take n (attach r bs) = attach r (take n bs).
Proof.
  destruct n, bs; simpl; try done. by rewrite firstn_map.
Qed.

Lemma read_exact_short n s :
  closed s = true → length (cells s) < n →
  read_exact n s =
  Done (Err ["control channel closed inside a frame"; "failed to fill whole buffer"]).
Proof.
  intros Hc Hl. unfold read_exact. rewrite bool_decide_eq_false_2 by lia. by rewrite Hc.
Qed.

(** [send] attaches any number of descriptors; a frame with more than
    [MAX_FDS] of them is refused at its first byte. *)
Lemma too_many_descriptors_are_refused {T} `{JsonCodec T} want rights b bs rest c :
  MAX_FDS < length rights →
  recv (T:=T) want (mkStream (attach rights (b :: bs) ++ rest) c) =
  Done (Err ["bad control message"; "ENOBUFS"]).
Proof.
  intros Hr. unfold recv, recv_header; fold recv_header. unfold recvmsg.
  cbn [cells attach app c_fds]. by rewrite (bool_decide_eq_true_2 (MAX_FDS < _)).
Qed.

Section truncation.
Context {T : Type} `{JsonCodec T}.

(** A peer that goes away inside a frame is never mistaken for a frame or
    for a clean end of stream: every proper non-empty prefix of a frame,
    followed by the end of the stream, is an error. *)
Lemma truncated_frame_is_refused (json payload : list byte) (rights : list fd)
    (want : nat → nat) (k : nat) :
  (N.of_nat (length json) ≤ MAX_JSON_LEN)%N →
  (N.of_nat (length payload) ≤ MAX_PAYLOAD_LEN)%N →
  length rights ≤ MAX_FDS →
  0 < k < length (frame_bytes json payload) →
  ∃ e, recv (T:=T) want (mkStream (take k (attach rights (frame_bytes json payload))) true) =
       Done (Err ("control channel closed inside a frame" :: e)).
Proof.
  intros Hj Hp Hr Hk. rewrite length_frame_bytes in Hk.
  assert (MAX_JSON_LEN ≤ u32_max)%N by (vm_compute; discriminate).
  assert (MAX_PAYLOAD_LEN ≤ u32_max)%N by (vm_compute; discriminate).
  destruct (decide (k < HEADER_LEN)) as [Hh|Hh].
  - rewrite take_attach. unfold recv.
    assert (Hlen : length (take k (frame_bytes json payload)) = k).
    { rewrite length_take, length_frame_bytes. lia. }
    destruct (take k (frame_bytes json payload)) as [|b bs]; [simpl in Hlen; lia|].
    rewrite <- (app_nil_r (attach rights (b :: bs))).
    rewrite recv_header_frame; [|done|right; split_and!; [lia|done|done]].
    rewrite bool_decide_eq_false_2 by lia. by eexists.
  - rewrite attach_frame, take_app, (take_ge (attach rights _)), length_attach,
      length_encode_header by (rewrite length_attach, length_encode_header; lia).
    rewrite recv_after_header by lia. unfold recv_body.
    rewrite !bool_decide_eq_false_2 by lia. simpl orb. cbv iota.
    destruct (decide (k - HEADER_LEN < length json)) as [Hs|Hs].
    + rewrite read_exact_short; [by eexists|done|].
      simpl cells. rewrite length_take, length_app, !length_attach. lia.
    + rewrite take_app, take_ge by (rewrite length_attach; lia).
      rewrite read_exact_plain, read_exact_short; [by eexists|done| |lia].
      simpl cells. rewrite length_take, !length_attach. lia.
Qed.
End truncation.

(** However often it is interrupted, a wait ends with the first answer that is
    not an interruption. *)
Lemma wait_readable_ends t n x polls :
  (t <= POLL_TIMEOUT_MAX)%N → x ≠ PolledInterrupted →
  wait_readable (Some t) (replicate n PolledInterrupted ++ x :: polls) = wait_loop [x] ∧
  is_Some (wait_loop [x]).
Proof.
  intros Ht Hx. unfold wait_readable. rewrite bool_decide_true by done. split.
  - induction n as [|n IH]; [|done]. by destruct x.
  - destruct x; [by eexists|done|by eexists].
Qed.

(** ** Witnesses *)

Module ProtocolWitness.
(** A one-byte codec for requests: the laws can hold. *)
#[local] Instance tag_codec : JsonCodec Request := {
  to_vec r := Ok [match r with Prepare => x01 | Start => x02 | Initialize => x03
                  | Freeze => x04 | Fork => x05 | Stop => x06 end];
  from_slice json := match json with
    | [x01] => Ok Prepare | [x02] => Ok Start | [x03] => Ok Initialize
    | [x04] => Ok Freeze | [x05] => Ok Fork | [x06] => Ok Stop
    | _ => Err ["unknown variant"] end;
}.
#[local] Instance tag_laws : JsonLaws Request.
Proof. split. intros [] json [= <-]; reflexivity. Qed.

Definition demo_frames : list (Frame Request) :=
  [mkFrame Initialize [x53; x45; x4c] []; mkFrame Fork [] [7; 9]%Z; mkFrame Stop [] []].

Lemma frames_round_trip_witness : ∃ out,
  sends demo_frames out ∧
  recv_all (S (length demo_frames)) (λ _, 0) (mkStream out true) = Done (Ok demo_frames).
Proof.
  assert (H : ∃ out, sends demo_frames out).
  { eexists. unfold demo_frames.
    eapply (sends_cons [Ok 5; Ok 3; Ok 100]); [vm_compute; reflexivity|done| |].
    { split; [intros ? [= <-]; vm_compute; discriminate|]. split; vm_compute; [discriminate|lia]. }
    eapply (sends_cons [Ok 1; Ok 100]); [vm_compute; reflexivity|done| |].
    { split; [intros ? [= <-]; vm_compute; discriminate|]. split; vm_compute; [discriminate|lia]. }
    eapply (sends_cons [Ok 100]); [vm_compute; reflexivity|done| |].
    { split; [intros ? [= <-]; vm_compute; discriminate|]. split; vm_compute; [discriminate|lia]. }
    constructor. }
  destruct H as [out Hs]. exists out. split; [exact Hs|].
  apply (frames_round_trip demo_frames out (λ _, 0) Hs).
Defined.

(** A payload one byte over the receiver's limit. *)
Definition big_payload : list byte := replicate (N.to_nat (MAX_PAYLOAD_LEN + 1)) x00.

Lemma oversized_frame_witness :
  send [Ok (length (frame_bytes [x03] big_payload))] Initialize big_payload [] =
    (Done (Ok tt), attach [] (frame_bytes [x03] big_payload)) ∧
  recv (T:=Request) (λ _, 0)
    (mkStream (attach [] (frame_bytes [x03] big_payload) ++ []) true) =
    Done (Err [("control frame too large: " ++ pretty (N.of_nat (length [x03])) ++ " + " ++
               pretty (N.of_nat (length big_payload)) ++ " bytes")%string]).
Proof.
  assert (Hl : N.of_nat (length big_payload) = (MAX_PAYLOAD_LEN + 1)%N).
  { unfold big_payload. rewrite length_replicate. apply N2Nat.id. }
  apply (oversized_frame_is_sent_and_refused Initialize [x03] big_payload [] (λ _, 0) [] true).
  - reflexivity.
  - vm_compute. discriminate.
  - rewrite Hl. vm_compute. discriminate.
  - vm_compute. lia.
  - right. rewrite Hl. vm_compute. reflexivity.
Defined.

End ProtocolWitness.
