(* ===== verification/Paths.v ===== *)
(** * Rust's [std::path] on Unix, as far as the source uses it

    A path is its bytes (a [string]); [Path::components] gives the parsed
    form every comparison ([starts_with], [strip_prefix], equality) works on.
    Repeated separators and [.] components are dropped by the parse, a leading
    [.] of a relative path is kept, as the standard library documents. *)

From S2P Require Import Prelude.
From Stdlib Require Import Ascii.

Abbreviation path := string (only parsing).

Inductive Component : Type :=
  | RootDir
  | CurDir
  | ParentDir
  | Normal (name : string).

#[global] Instance component_eq_dec : EqDecision Component.
Proof. solve_decision. Defined.

Definition slash : ascii := "/"%char.

(** The pieces of a path between separators: never empty, [""] for [""]. *)
Fixpoint segments (p : path) : list string :=
  match p with
  | EmptyString => [""]
  | String c p =>
      if decide (c = slash) then "" :: segments p
      else match segments p with
           | seg :: segs => String c seg :: segs
           | [] => [String c ""]
           end
  end.

(** The component a piece stands for, if any ([parse_single_component]). *)
Definition segment_component (seg : string) : option Component :=
  if decide (seg = "") then None
  else if decide (seg = ".") then None
  else if decide (seg = "..") then Some ParentDir
  else Some (Normal seg).

Definition is_absolute (p : path) : bool :=
  match p with
  | String c _ => bool_decide (c = slash)
  | EmptyString => false
  end.

(** What the parse yields before the body: the root, or a leading [.]. *)
Definition leading (p : path) : list Component :=
  if is_absolute p then [RootDir]
  else match segments p with
       | seg :: _ => if decide (seg = ".") then [CurDir] else []
       | [] => []
       end.

Definition components (p : path) : list Component :=
  leading p ++ omap segment_component (segments p).

(** [Path::join]: an absolute argument replaces, anything else is appended
    after a separator. *)
Fixpoint ends_with_slash (p : path) : bool :=
  match p with
  | EmptyString => false
  | String c EmptyString => bool_decide (c = slash)
  | String _ p => ends_with_slash p
  end.

Definition join (base p : path) : path :=
  if is_absolute p then p
  else if decide (base = "") then p
  else if ends_with_slash base then base +:+ p
  else base +:+ "/" +:+ p.

(** [Path::starts_with]: whole components. *)
Fixpoint strip_components (cs prefix : list Component) {struct prefix} : option (list Component) :=
  match prefix, cs with
  | [], _ => Some cs
  | x :: prefix, c :: cs => if decide (c = x) then strip_components cs prefix else None
  | _ :: _, [] => None
  end.

Definition starts_with (p base : path) : bool :=
  match strip_components (components p) (components base) with
  | Some _ => true
  | None => false
  end.

(** The bytes of a sequence of pieces, without empty or [.] pieces at either
    end ([Components::as_path]). *)
Definition trivial_segment (seg : string) : bool :=
  bool_decide (seg = "") || bool_decide (seg = ".").

Fixpoint drop_trivial (segs : list string) : list string :=
  match segs with
  | seg :: segs' => if trivial_segment seg then drop_trivial segs' else segs
  | [] => []
  end.

Definition trim_trivial (segs : list string) : list string :=
  reverse (drop_trivial (reverse (drop_trivial segs))).

Fixpoint join_segments (segs : list string) : string :=
  match segs with
  | [] => ""
  | [seg] => seg
  | seg :: segs => seg +:+ "/" +:+ join_segments segs
  end.

(** Skip the pieces holding the first [n] body components. *)
Fixpoint skip_components (n : nat) (segs : list string) : list string :=
  match n, segs with
  | O, _ => segs
  | S n', seg :: segs =>
      match segment_component seg with
      | Some _ => skip_components n' segs
      | None => skip_components n segs
      end
  | _, [] => []
  end.

(** [Path::strip_prefix]: the rest of the path, as bytes. *)
Definition strip_prefix (p base : path) : option path :=
  match strip_components (components p) (components base) with
  | None => None
  | Some _ =>
      let body := length (components base) - length (leading p) in
      Some (join_segments (trim_trivial (skip_components body (segments p))))
  end.

(** [Path::file_name]: the last component, when it is a name. *)
Definition file_name (p : path) : option string :=
  match last (components p) with
  | Some (Normal name) => Some name
  | _ => None
  end.

(** [Path::parent]: everything before the last component. *)
Definition parent (p : path) : option path :=
  match last (components p) with
  | Some RootDir | None => None
  | Some _ =>
      let kept := drop_trivial (reverse (drop 1 (drop_trivial (reverse (segments p))))) in
      let rest := join_segments (reverse (drop_trivial (reverse kept))) in
      Some (if is_absolute p then "/" +:+ rest else rest)
  end.

(** ** The filesystem calls the source makes *)

(** [fs::canonicalize], [Path::is_file], [Path::is_dir], [fs::read_to_string]
    and [fs::read]: the state of the disk as the calls see it. *)
Record FileSystem : Type := {
  canonicalize : path → result path error;
  is_file : path → bool;
  is_dir : path → bool;
  read_to_string : path → result string error;
  fs_read : path → result (list byte) error;
}.

Example components_demo :
  components "/usr//share/./example/" = [RootDir; Normal "usr"; Normal "share"; Normal "example"].
Proof. reflexivity. Qed.
Example components_dot : components "./a/../b" = [CurDir; Normal "a"; ParentDir; Normal "b"].
Proof. reflexivity. Qed.
Example strip_demo :
  strip_prefix "/packages/exampledb-1/server.wasm" "/packages/exampledb-1" = Some "server.wasm".
Proof. reflexivity. Qed.
Example parent_demo : parent "/srv/pkg/service.toml" = Some "/srv/pkg".
Proof. reflexivity. Qed.
Example parent_rel : parent "service.toml" = Some "".
Proof. reflexivity. Qed.

(** ** Lemmas *)

Lemma append_nil (b : string) : "" +:+ b = b.
Proof. done. Qed.

Lemma segments_nonempty p : segments p ≠ [].
Proof. destruct p as [|c p]; simpl; [done|]. repeat case_match; done. Qed.

Lemma segments_slash a b : segments (a +:+ "/" +:+ b) = segments a ++ segments b.
Proof.
  induction a as [|c a IH]; [done|]. rewrite append_cons. simpl.
  case_decide; [by rewrite IH|]. rewrite IH.
  by destruct (segments a) as [|seg segs] eqn:E; [destruct (segments_nonempty a)|].
Qed.

Lemma ends_with_slash_split p :
  ends_with_slash p = true → ∃ q, p = q +:+ "/".
Proof.
  induction p as [|c p IH]; [done|]. destruct p as [|c' p].
  - simpl. intros H%bool_decide_eq_true. subst. by exists "".
  - intros H. destruct IH as [q Hq]; [done|]. rewrite Hq. by exists (String c q).
Qed.

Lemma is_absolute_app a b : a ≠ "" → is_absolute (a +:+ b) = is_absolute a.
Proof. intros H. destruct a; [done|]. by rewrite append_cons. Qed.

Lemma strip_components_app cs ds : strip_components (cs ++ ds) cs = Some ds.
Proof. induction cs as [|c cs IH]; simpl; [done|]. by rewrite decide_True by done. Qed.

Lemma strip_components_Some cs pre ds :
  strip_components cs pre = Some ds ↔ cs = pre ++ ds.
Proof.
  split; [|intros ->; apply strip_components_app].
  revert cs. induction pre as [|x pre IH]; intros [|c cs]; simpl; try congruence.
  case_decide; [|done]. subst. intros H%IH. by subst.
Qed.

Lemma starts_with_spec p base :
  starts_with p base = true ↔ components base `prefix_of` components p.
Proof.
  unfold starts_with. destruct (strip_components _ _) as [ds|] eqn:E.
  - apply strip_components_Some in E. split; [|done]. intros _. by exists ds.
  - split; [done|]. intros [ds Hd]. rewrite Hd, strip_components_app in E. done.
Qed.

(** Joining a relative path onto a non-empty base appends its names. *)
Lemma leading_app_slash a b :
  a ≠ "" → leading (a +:+ "/" +:+ b) = leading a.
Proof.
  intros Ha. unfold leading. rewrite is_absolute_app, segments_slash by done.
  by destruct (segments a) eqn:E; [destruct (segments_nonempty a)|].
Qed.

Lemma components_app_slash a b :
  a ≠ "" → components (a +:+ "/" +:+ b) = components a ++ omap segment_component (segments b).
Proof.
  intros Ha. unfold components.
  by rewrite leading_app_slash, segments_slash, omap_app, app_assoc by done.
Qed.

Lemma components_join base p :
  base ≠ "" → is_absolute p = false →
  components (join base p) = components base ++ omap segment_component (segments p).
Proof.
  intros Hb Hp. unfold join. rewrite Hp, decide_False by done.
  destruct (ends_with_slash base) eqn:E; [|by apply components_app_slash].
  apply ends_with_slash_split in E as [q ->].
  rewrite string_app_assoc. change ("/" +:+ p) with (String slash p).
  destruct q as [|c q].
  - reflexivity.
  - change (String slash p) with ("/" +:+ p). rewrite components_app_slash by done.
    replace (String c q +:+ "/") with (String c q +:+ "/" +:+ "") by done.
    by rewrite components_app_slash, app_nil_r by done.
Qed.

(** A joined path never leaves its base lexically when the joined part has
    no root. *)
Lemma join_starts_with base p :
  base ≠ "" → is_absolute p = false → starts_with (join base p) base = true.
Proof.
  intros Hb Hp. apply starts_with_spec. rewrite components_join by done.
  by apply prefix_app_r.
Qed.

Lemma components_absolute p : is_absolute p = true → RootDir ∈ components p.
Proof.
  intros H. unfold components, leading. rewrite H. by left.
Qed.
