(* ===== verification/Manifest.v ===== *)
(** * Service package manifests

    Models src/crates/servicecache/src/manifest.rs: the validated manifest,
    the raw tables [toml] deserializes, and [Manifest::load] with every check
    it makes, in the order it makes them.  The TOML parser and the regex
    compiler are parameters; a compiled regex is its [is_match] function. *)

From S2P Require Import Prelude Paths.

(** ** Data *)

Record Service : Type := mkService {
  name : string;
  version : string;
  extensions : list string;
}.

(** [fs] is a [BTreeMap]: an association list in key order. *)
Record Prepare : Type := mkPrepare {
  prepare_fs : list (path * path);
  prepare_module : option path;
  prepare_args : list string;
  stdin_file : option path;
}.

Record ReadyProbe : Type := mkReadyProbe {
  probe_send : list byte;
  matches : list byte → bool;
}.

Record Guest : Type := mkGuest {
  guest_module : path;
  guest_args : list string;
  listen_port : N;
  ready : option ReadyProbe;
}.

Record Initializer : Type := mkInitializer {
  init_module : path;
  init_args : list string;
}.

Record Manifest : Type := mkManifest {
  service : Service;
  prepare : option Prepare;
  guest : Guest;
  initializer : option Initializer;
  directory : path;
}.

(** A Unicode scalar value; [chars()] of a Rust string. *)
Notation char := N (only parsing).

Record RawPrepare : Type := mkRawPrepare {
  raw_fs : list (path * path);
  raw_prepare_module : option path;
  raw_prepare_args : list string;
  raw_stdin_file : option path;
}.

Record RawReadyProbe : Type := mkRawReadyProbe {
  raw_send : list char;
  raw_matches : string;
}.

Record RawGuest : Type := mkRawGuest {
  raw_guest_module : path;
  raw_guest_args : list string;
  raw_listen_port : N;
  raw_ready : option RawReadyProbe;
}.

Record RawInitializer : Type := mkRawInitializer {
  raw_init_module : path;
  raw_init_args : list string;
}.

Record RawManifest : Type := mkRawManifest {
  raw_service : Service;
  raw_prepare : option RawPrepare;
  raw_guest : RawGuest;
  raw_initializer : option RawInitializer;
}.

(** ** [decode_byte_string] *)

(** [char::to_digit(16)]. *)
Definition to_digit16 (c : char) : option N :=
  if bool_decide (48 ≤ c ∧ c ≤ 57)%N then Some (c - 48)%N
  else if bool_decide (97 ≤ c ∧ c ≤ 102)%N then Some (c - 87)%N
  else if bool_decide (65 ≤ c ∧ c ≤ 70)%N then Some (c - 55)%N
  else None.

Definition backslash : char := 92.
Definition letter_x : char := 120.

(** The UTF-8 text of a character. *)
Definition encode_utf8 (c : char) : string :=
  let tail k := ascii_of_N (128 + (c / 2 ^ k) mod 64) in
  if bool_decide (c < 128)%N then String (ascii_of_N c) ""
  else if bool_decide (c < 2048)%N then
    String (ascii_of_N (192 + c / 64)) (String (tail 0%N) "")
  else if bool_decide (c < 65536)%N then
    String (ascii_of_N (224 + c / 4096)) (String (tail 6%N) (String (tail 0%N) ""))
  else String (ascii_of_N (240 + c / 262144))
         (String (tail 12%N) (String (tail 6%N) (String (tail 0%N) ""))).

(** The loop over [source.chars()], [bytes] so far.  The message for an
    unsupported character leaves out its [Debug] form, which needs Unicode's
    tables. *)
Fixpoint decode_loop (chars : list char) (bytes : list byte) : result (list byte) error :=
  match chars with
  | [] => Ok bytes
  | ch :: chars =>
      if bool_decide (ch = backslash) then
        match chars with
        | [] => Err ["unsupported escape at end of string"]
        | e :: chars =>
            if bool_decide (e = backslash) then decode_loop chars (bytes ++ [byte_of_N backslash])
            else if bool_decide (e = letter_x) then
              match chars with
              | h :: l :: chars =>
                  match to_digit16 h, to_digit16 l with
                  | Some high, Some low => decode_loop chars (bytes ++ [byte_of_N (high * 16 + low)])
                  | _, _ => Err ["\x needs two hex digits"]
                  end
              | _ => Err ["\x needs two hex digits"]
              end
            else Err ["unsupported escape \" +:+ encode_utf8 e]
        end
      else if bool_decide (32 ≤ ch ∧ ch ≤ 126)%N then decode_loop chars (bytes ++ [byte_of_N ch])
      else Err ["unsupported character; escape bytes as \xNN"]
  end.

Definition decode_byte_string (source : list char) : result (list byte) error :=
  decode_loop source [].

(** ** Package paths *)

Definition plain_component (part : Component) : bool :=
  match part with
  | Normal _ | CurDir => true
  | _ => false
  end.

Definition reject_escape (p : path) (description : string) : result unit error :=
  if forallb plain_component (components p) then Ok tt
  else Err [description +:+ " " +:+ p +:+ " must be a plain relative path inside the package"].

Definition is_parent_dir (part : Component) : bool :=
  match part with ParentDir => true | _ => false end.

Section load.
Context (disk : FileSystem).
(** [toml::from_str] and [regex::bytes::Regex::new]. *)
Context (toml_from_str : string → result RawManifest error).
Context (regex_new : string → result (list byte → bool) error).

Definition ensure_contained (resolved canonical_directory : path) (description : string)
    : result unit error :=
  let? canonical := with_context ("failed to resolve " +:+ description +:+ " " +:+ resolved)
                      (canonicalize disk resolved) in
  if starts_with canonical canonical_directory then Ok tt
  else Err [description +:+ " " +:+ resolved +:+ " resolves outside the package"].

Definition resolve_file (directory canonical p : path) (description : string)
    : result path error :=
  let? _ := reject_escape p description in
  let resolved := join directory p in
  if is_file disk resolved then
    let? _ := ensure_contained resolved canonical description in
    Ok resolved
  else Err [description +:+ " " +:+ resolved +:+ " is not a file"].

Definition resolve_module (directory canonical p : path) (description : string)
    : result path error :=
  resolve_file directory canonical p description.

(** The loop over [raw.fs], [mounts] so far. *)
Fixpoint resolve_mounts (directory canonical : path) (raw mounts : list (path * path))
    : result (list (path * path)) error :=
  match raw with
  | [] => Ok mounts
  | (guest, source) :: raw =>
      if negb (is_absolute guest) then
        Err ["prepare mount path " +:+ guest +:+ " must be absolute"]
      else if existsb is_parent_dir (components guest) then
        Err ["prepare mount path " +:+ guest +:+ " must not contain '..'"]
      else
        let? _ := reject_escape source "prepare mount source" in
        let resolved := join directory source in
        if is_dir disk resolved then
          let? _ := ensure_contained resolved canonical "prepare mount source" in
          resolve_mounts directory canonical raw (mounts ++ [(guest, resolved)])
        else Err ["prepare mount source " +:+ resolved +:+ " is not a directory"]
  end.

Definition resolve_prepare (raw : RawPrepare) (directory canonical : path)
    : result Prepare error :=
  let? mounts := resolve_mounts directory canonical (raw_fs raw) [] in
  let? module := map_transpose
    (λ p, resolve_module directory canonical p "prepare module") (raw_prepare_module raw) in
  let? stdin_file := map_transpose
    (λ p, resolve_file directory canonical p "prepare stdin file") (raw_stdin_file raw) in
  Ok (mkPrepare mounts module (raw_prepare_args raw) stdin_file).

Definition resolve_probe (probe : RawReadyProbe) : result ReadyProbe error :=
  let? send := with_context "invalid ready probe send bytes" (decode_byte_string (raw_send probe)) in
  let? matches := with_context "invalid ready probe pattern" (regex_new (raw_matches probe)) in
  Ok (mkReadyProbe send matches).

Definition load (p : path) : result Manifest error :=
  let? contents := with_context ("failed to read manifest " +:+ p) (read_to_string disk p) in
  let? raw := with_context ("failed to parse manifest " +:+ p) (toml_from_str contents) in
  let? directory := ok_or ["manifest path has no parent directory"] (parent p) in
  let? canonical := with_context ("failed to resolve package directory " +:+ directory)
                      (canonicalize disk directory) in
  if bool_decide (name (raw_service raw) = "") then Err ["service name must not be empty"]
  else if bool_decide (version (raw_service raw) = "") then
    Err ["service version must not be empty"]
  else
    let? prepare := map_transpose (λ table, resolve_prepare table directory canonical)
                      (raw_prepare raw) in
    let? module := resolve_module directory canonical
                     (raw_guest_module (raw_guest raw)) "guest module" in
    let? ready := map_transpose resolve_probe (raw_ready (raw_guest raw)) in
    let? initializer := map_transpose (λ table,
        let? module := resolve_module directory canonical
                         (raw_init_module table) "initializer module" in
        Ok (mkInitializer module (raw_init_args table))) (raw_initializer raw) in
    Ok (mkManifest (raw_service raw) prepare
          (mkGuest module (raw_guest_args (raw_guest raw)) (raw_listen_port (raw_guest raw)) ready)
          initializer directory).

(** [Prepare::read_stdin]. *)
Definition read_stdin (table : Prepare) : result (list byte) error :=
  let? bytes := map_transpose
    (λ p, with_context ("failed to read prepare stdin file " +:+ p) (fs_read disk p))
    (stdin_file table) in
  Ok (default [] bytes).
End load.

(** [Manifest::modules], in execution order. *)
Definition modules (m : Manifest) : list path :=
  match prepare m ≫= prepare_module with
  | Some module => [module]
  | None => []
  end ++ [guest_module (guest m)] ++
  match initializer m with
  | Some table => [init_module table]
  | None => []
  end.

(** Every package path a manifest uses: what runs, what is piped to it and
    what is mounted. *)
Definition package_paths (m : Manifest) : list path :=
  modules m ++
  match prepare m ≫= stdin_file with Some p => [p] | None => [] end ++
  match prepare m with Some table => map snd (prepare_fs table) | None => [] end.

(** ** Byte strings: the notation, and that the decoder accepts exactly it *)

Inductive denotes : list char → list byte → Prop :=
  | denotes_nil : denotes [] []
  | denotes_plain c cs bs :
      (32 ≤ c ≤ 126)%N → c ≠ backslash → denotes cs bs →
      denotes (c :: cs) (byte_of_N c :: bs)
  | denotes_backslash cs bs :
      denotes cs bs → denotes (backslash :: backslash :: cs) (byte_of_N backslash :: bs)
  | denotes_hex h l high low cs bs :
      to_digit16 h = Some high → to_digit16 l = Some low → denotes cs bs →
      denotes (backslash :: letter_x :: h :: l :: cs) (byte_of_N (high * 16 + low) :: bs).

Lemma decode_loop_sound n cs acc bs :
  length cs ≤ n → decode_loop cs acc = Ok bs → ∃ tl, bs = acc ++ tl ∧ denotes cs tl.
Proof.
  revert cs acc. induction n as [|n IH]; intros [|c cs] acc Hl; simpl in Hl |- *; try lia.
  1,2: intros [= <-]; exists []; by rewrite app_nil_r; split; [|constructor].
  assert (Hstep : ∀ cs' b, length cs' ≤ n → decode_loop cs' (acc ++ [b]) = Ok bs →
                  ∃ tl, bs = acc ++ b :: tl ∧ denotes cs' tl).
  { intros cs' b Hl' H. apply IH in H as (tl & -> & Hd); [|lia].
    exists tl. by rewrite <- app_assoc. }
  case_bool_decide as Hc; [subst c|].
  - destruct cs as [|e cs]; [done|]. case_bool_decide as He; [subst e|].
    + intros (tl & -> & Hd)%Hstep; [|simpl in *; lia]. eexists. split; [done|]. by constructor.
    + case_bool_decide as Hx; [subst e|done]. destruct cs as [|h [|l cs]]; try done.
      destruct (to_digit16 h) eqn:Eh, (to_digit16 l) eqn:El; try done.
      intros (tl & -> & Hd)%Hstep; [|simpl in *; lia]. eexists. split; [done|]. by constructor.
  - case_bool_decide as Hp; [|done].
    intros (tl & -> & Hd)%Hstep; [|simpl in *; lia]. eexists. split; [done|]. by constructor.
Qed.

Lemma decode_loop_complete cs tl acc :
  denotes cs tl → decode_loop cs acc = Ok (acc ++ tl).
Proof.
  intros Hd. revert acc. induction Hd as [|c cs bs Hc Hb _ IH|cs bs _ IH|h l hi lo cs bs Hh Hlo _ IH];
    intros acc; simpl.
  - by rewrite app_nil_r.
  - rewrite bool_decide_eq_false_2, bool_decide_eq_true_2, IH, <- app_assoc by done. done.
  - by rewrite IH, <- app_assoc.
  - by rewrite Hh, Hlo, IH, <- app_assoc.
Qed.

(** A byte string decodes to [bs] exactly when it is written in the
    documented notation (printable ASCII, [\xNN], [\\]) for [bs]; everything
    else is refused. *)
Theorem decode_byte_string_iff (source : list char) (bs : list byte) :
  decode_byte_string source = Ok bs ↔ denotes source bs.
Proof.
  unfold decode_byte_string. split.
  - intros (tl & -> & Hd)%(decode_loop_sound (length source)); done.
  - intros Hd. by rewrite (decode_loop_complete _ bs).
Qed.

(** ** Package paths stay in the package *)

Lemma plain_not_absolute p :
  forallb plain_component (components p) = true → is_absolute p = false.
Proof.
  intros H. destruct (is_absolute p) eqn:E; [|done].
  apply components_absolute, list_elem_of_In in E.
  rewrite forallb_forall in H. by apply H in E.
Qed.

Section load_facts.
Context (disk : FileSystem).
Context (toml_from_str : string → result RawManifest error).
Context (regex_new : string → result (list byte → bool) error).

(** A path of the package at [dir], whose real directory is [canonical]. *)
Definition in_package (dir canonical q : path) : Prop :=
  (∃ rel, q = join dir rel ∧ forallb plain_component (components rel) = true) ∧
  ∃ real, canonicalize disk q = Ok real ∧ starts_with real canonical = true.

Lemma ensure_contained_ok q canonical d :
  ensure_contained disk q canonical d = Ok tt ↔
  ∃ real, canonicalize disk q = Ok real ∧ starts_with real canonical = true.
Proof.
  unfold ensure_contained. destruct (canonicalize disk q) as [real|e]; simpl.
  - destruct (starts_with real canonical) eqn:E.
    + split; [|done]. intros _. by exists real.
    + split; [done|]. intros (r & [= <-] & H). congruence.
  - split; [done|]. by intros (r & ? & _).
Qed.

Lemma reject_escape_ok p d u :
  reject_escape p d = Ok u ↔ forallb plain_component (components p) = true.
Proof. unfold reject_escape. destruct u. by destruct (forallb _ _). Qed.

Lemma resolve_file_ok dir canonical p d q :
  resolve_file disk dir canonical p d = Ok q ↔
  q = join dir p ∧ forallb plain_component (components p) = true ∧
  is_file disk q = true ∧
  ∃ real, canonicalize disk q = Ok real ∧ starts_with real canonical = true.
Proof.
  unfold resolve_file, reject_escape.
  destruct (forallb plain_component (components p)) eqn:Ep; [|split; [done|naive_solver]].
  destruct (is_file disk (join dir p)) eqn:Ef;
    [|split; [done|intros (-> & _ & ? & _); congruence]].
  destruct (ensure_contained disk (join dir p) canonical d) as [[]|e] eqn:Ec.
  - apply ensure_contained_ok in Ec. split; [|by intros (-> & _)].
    intros [= <-]. by split_and!.
  - split; [done|]. intros (-> & _ & _ & H). apply (ensure_contained_ok _ _ d) in H. congruence.
Qed.

Lemma resolve_file_in_package dir canonical p d q :
  resolve_file disk dir canonical p d = Ok q →
  in_package dir canonical q ∧ is_file disk q = true.
Proof. intros (-> & ? & ? & ?)%resolve_file_ok. repeat split; eauto. Qed.

(** What a resolved mount satisfies. *)
Definition mount_ok (dir canonical : path) (m : path * path) : Prop :=
  is_absolute m.1 = true ∧ ParentDir ∉ components m.1 ∧
  in_package dir canonical m.2 ∧ is_dir disk m.2 = true.

Lemma existsb_parent cs : existsb is_parent_dir cs = false ↔ ParentDir ∉ cs.
Proof.
  induction cs as [|c cs IH]; simpl; [split; [intros _; apply not_elem_of_nil|done]|].
  rewrite orb_false_iff, IH, not_elem_of_cons. destruct c; naive_solver.
Qed.

Lemma resolve_mounts_ok dir canonical raw mounts out :
  resolve_mounts disk dir canonical raw mounts = Ok out →
  Forall (mount_ok dir canonical) mounts →
  Forall (mount_ok dir canonical) out.
Proof.
  revert mounts. induction raw as [|[g src] raw IH]; intros mounts H HF; simpl in H.
  { by injection H as <-. }
  inv_ok. simp_bool.
  eapply IH; [done|]. apply Forall_app. split; [done|].
  match goal with H : reject_escape _ _ = _ |- _ => apply reject_escape_ok in H end.
  match goal with H : ensure_contained _ _ _ _ = Ok ?u |- _ =>
    destruct u; apply ensure_contained_ok in H end.
  match goal with H : existsb _ _ = false |- _ => apply existsb_parent in H end.
  repeat constructor; simpl; eauto.
Qed.

Lemma map_transpose_ok {A B} (f : A → result B error) o b :
  map_transpose f o = Ok (Some b) ↔ ∃ a, o = Some a ∧ f a = Ok b.
Proof.
  destruct o as [a|]; simpl; [destruct (f a) eqn:E|]; naive_solver congruence.
Qed.

Lemma resolve_prepare_ok raw dir canonical table :
  resolve_prepare disk raw dir canonical = Ok table →
  Forall (mount_ok dir canonical) (prepare_fs table) ∧
  (∀ q, prepare_module table = Some q → in_package dir canonical q ∧ is_file disk q = true) ∧
  (∀ q, stdin_file table = Some q → in_package dir canonical q ∧ is_file disk q = true).
Proof.
  unfold resolve_prepare. intros H. inv_ok. simpl. split_and!.
  - eapply resolve_mounts_ok; [done|constructor].
  - intros q ->. by apply map_transpose_ok in E0 as (? & _ & ?%resolve_file_in_package).
  - intros q ->. by apply map_transpose_ok in E1 as (? & _ & ?%resolve_file_in_package).
Qed.

(** What a successful load went through. *)
Lemma load_inv p m :
  load disk toml_from_str regex_new p = Ok m →
  ∃ raw canonical, parent p = Some (directory m) ∧
    canonicalize disk (directory m) = Ok canonical ∧
    name (service m) ≠ "" ∧ version (service m) ≠ "" ∧
    map_transpose (λ table, resolve_prepare disk table (directory m) canonical)
      (raw_prepare raw) = Ok (prepare m) ∧
    resolve_file disk (directory m) canonical (raw_guest_module (raw_guest raw)) "guest module" =
      Ok (guest_module (guest m)) ∧
    map_transpose (λ table,
        let? module := resolve_module disk (directory m) canonical
                         (raw_init_module table) "initializer module" in
        Ok (mkInitializer module (raw_init_args table))) (raw_initializer raw) =
      Ok (initializer m).
Proof.
  unfold load. intros H.
  destruct (parent p) as [dir|]; simpl in H; [|by inv_ok].
  destruct (canonicalize disk dir) as [c|] eqn:Ec; simpl in H; [|by inv_ok].
  inv_ok. simp_bool. simpl. eauto 10.
Qed.

Section loaded.
Context (p canonical : path) (m : Manifest) (raw : RawManifest).
Hypothesis Hprep : map_transpose (λ table, resolve_prepare disk table (directory m) canonical)
    (raw_prepare raw) = Ok (prepare m).
Hypothesis Hguest : resolve_file disk (directory m) canonical
    (raw_guest_module (raw_guest raw)) "guest module" = Ok (guest_module (guest m)).
Hypothesis Hinit : map_transpose (λ table,
      let? module := resolve_module disk (directory m) canonical
                       (raw_init_module table) "initializer module" in
      Ok (mkInitializer module (raw_init_args table))) (raw_initializer raw) =
    Ok (initializer m).

Lemma loaded_prepare table :
  prepare m = Some table → ∃ t, resolve_prepare disk t (directory m) canonical = Ok table.
Proof.
  intros E. rewrite E in Hprep. apply map_transpose_ok in Hprep as (t & _ & ?). by exists t.
Qed.

Lemma loaded_modules :
  Forall (λ q, in_package (directory m) canonical q ∧ is_file disk q = true) (modules m).
Proof.
  pose proof loaded_prepare as Hlp. unfold modules. rewrite !Forall_app. split_and!.
  - destruct (prepare m) as [table|]; simpl; [|constructor].
    destruct (Hlp table eq_refl) as (t & (_ & Hmod & _)%resolve_prepare_ok).
    destruct (prepare_module table); auto.
  - constructor; [|constructor]. by eapply resolve_file_in_package.
  - destruct (initializer m) as [i|]; [|constructor].
    apply map_transpose_ok in Hinit as (t & _ & Hi). inv_ok.
    constructor; [|constructor]. by eapply resolve_file_in_package.
Qed.

Lemma loaded_paths : Forall (in_package (directory m) canonical) (package_paths m).
Proof.
  unfold package_paths. rewrite !Forall_app. split.
  { eapply Forall_impl; [exact loaded_modules|]. naive_solver. }
  pose proof loaded_prepare as Hlp.
  destruct (prepare m) as [table|]; simpl; [|by split].
  destruct (Hlp table eq_refl) as (t & (Hmnt & _ & Hin)%resolve_prepare_ok). split.
  - destruct (stdin_file table); constructor; [|constructor]. by apply Hin.
  - apply Forall_map. eapply Forall_impl; [exact Hmnt|]. unfold mount_ok. naive_solver.
Qed.
End loaded.

(** C36: a loaded manifest names its service, and uses nothing from outside
    its package: every module, the prepare input and every mount source is
    the package directory joined with a plain relative path (so lexically
    below it), exists with the right type, and resolves, through any
    symlink, under the package's real directory; mount points are absolute
    and free of [..]. *)
Theorem load_stays_in_package (p : path) (m : Manifest) :
  load disk toml_from_str regex_new p = Ok m →
  parent p = Some (directory m) ∧
  name (service m) ≠ "" ∧ version (service m) ≠ "" ∧
  ∃ canonical, canonicalize disk (directory m) = Ok canonical ∧
    Forall (in_package (directory m) canonical) (package_paths m) ∧
    Forall (λ q, directory m ≠ "" → starts_with q (directory m) = true) (package_paths m) ∧
    Forall (λ q, is_file disk q = true) (modules m) ∧
    ∀ table, prepare m = Some table → Forall (mount_ok (directory m) canonical) (prepare_fs table).
Proof.
  intros (raw & canonical & Hp & Hc & Hn & Hv & Hprep & Hg & Hi)%load_inv.
  split_and!; try done. exists canonical.
  pose proof (loaded_modules canonical m raw Hprep Hg Hi) as Hmods.
  pose proof (loaded_paths canonical m raw Hprep Hg Hi) as Hall.
  split_and!; [done|done| | |].
  - eapply Forall_impl; [exact Hall|]. intros q [(rel & -> & Hrel) _] Hne.
    apply join_starts_with; [done|]. by apply plain_not_absolute.
  - eapply Forall_impl; [exact Hmods|]. naive_solver.
  - intros table E. apply (loaded_prepare canonical m raw Hprep) in E as (t & Ht).
    by apply resolve_prepare_ok in Ht as (? & _).
Qed.
End load_facts.

(** ** Witnesses *)

Module ManifestWitness.
(** A package [/p] with a server, a mounted directory and, beside the
    package, a file a symlink of it points to. *)
Definition demo_disk : FileSystem := {|
  canonicalize q :=
    if decide (q = "/p") then Ok "/p"
    else if decide (q = "/p/server.wasm") then Ok "/p/real.wasm"
    else if decide (q = "/p/share") then Ok "/p/share"
    else if decide (q = "/p/escape.wasm") then Ok "/outside/escape.wasm"
    else Err ["No such file or directory"];
  is_file q := bool_decide (q = "/p/server.wasm") || bool_decide (q = "/p/escape.wasm");
  is_dir q := bool_decide (q = "/p/share");
  read_to_string q := if decide (q = "/p/service.toml") then Ok "toml" else Err ["not found"];
  fs_read q := Err ["not found"];
|}.

Definition demo_raw (module : path) : RawManifest :=
  mkRawManifest (mkService "example" "1" [])
    (Some (mkRawPrepare [("/usr/share/example", "share")] None [] None))
    (mkRawGuest module ["--serve"] 1234 (Some (mkRawReadyProbe [92; 120; 48; 48; 112]%N "^ok")))
    None.

Definition demo_load (module : path) : result Manifest error :=
  load demo_disk (λ _, Ok (demo_raw module)) (λ _, Ok (λ _, true)) "/p/service.toml".

Lemma load_stays_in_package_witness : ∃ m,
  demo_load "server.wasm" = Ok m ∧ modules m = ["/p/server.wasm"] ∧
  parent "/p/service.toml" = Some (directory m).
Proof.
  destruct (demo_load "server.wasm") as [m|e] eqn:E; [|vm_compute in E; discriminate E].
  exists m. split; [reflexivity|]. split.
  - vm_compute in E. injection E as <-. reflexivity.
  - exact (proj1 (load_stays_in_package demo_disk (λ _, Ok (demo_raw "server.wasm"))
      (λ _, Ok (λ _, true)) "/p/service.toml" m E)).
Defined.

(** The checks do refuse: a parent component, and a symlink that leaves. *)
Example demo_parent : demo_load "../server.wasm" =
  Err ["guest module ../server.wasm must be a plain relative path inside the package"].
Proof. vm_compute. reflexivity. Qed.
Example demo_symlink : demo_load "escape.wasm" =
  Err ["guest module /p/escape.wasm resolves outside the package"].
Proof. vm_compute. reflexivity. Qed.
End ManifestWitness.
