(* ===== verification/Probe.v ===== *)
(** * The readiness probe

    Models src/crates/servicecache/src/host/probe.rs: one attempt on the guest's
    endpoint, the preview of a response in its summary, and the thread that
    retries with a growing pause until the deadline.  The socket's answers and
    the clock are arguments; the pattern is its [is_match] function.  Durations
    are in milliseconds. *)

From S2P Require Import Prelude Paths Manifest.

Definition READ_TIMEOUT : N := 500.
Definition ATTEMPT_DEADLINE : N := 2000.
Definition INITIAL_INTERVAL : N := 2.
Definition MAX_INTERVAL : N := 100.
Definition DEADLINE : N := 30000.
Definition RESPONSE_CAP : N := 4096.
Definition BUFFER : N := 1024.

(** ** One attempt *)

(** What one [read] answers; a [ReadTimeout] is [WouldBlock] or [TimedOut]. *)
Inductive ReadAnswer : Type :=
  | ReadData (bytes : list byte)
  | ReadClosed
  | ReadTimeout
  | ReadFailed.

(** A round of the loop: the clock when its condition is evaluated, and what
    the read answers. *)
Definition Round : Type := N * ReadAnswer.

(** [preview]. *)
Definition preview_byte (b : byte) : list char :=
  let n := Byte.to_N b in
  if bool_decide (32 ≤ n ∧ n ≤ 126)%N && negb (bool_decide (n = backslash)) then [n]
  else [backslash; letter_x; N_of_ascii (hex_digit (n / 16)); N_of_ascii (hex_digit (n mod 16))].
Definition dots : list char := [46; 46; 46]%N.
Definition preview (bytes : list byte) : list char :=
  concat (map preview_byte (take 24 bytes)) ++
  (if bool_decide (24 < length bytes) then dots else []).
Definition chars_to_string (cs : list char) : string :=
  foldr (λ c s, String (ascii_of_N c) s) "" cs.

Section attempt.
Context (is_match : list byte → bool).

(** The [while] loop and what follows it; [None] while it reads. *)
Fixpoint attempt_loop (deadline : N) (rounds : list Round) (response : list byte) : option (result unit string) :=
  let fell_short (ended : string) : result unit string :=
    if is_match response then Ok tt
    else if bool_decide (response = []) then Err (ended +:+ " without a response")
    else Err (ended +:+ " after " +:+ pretty (N.of_nat (length response)) +:+
              " unmatched bytes, starting " +:+ chars_to_string (preview response)) in
  match rounds with
  | [] => None
  | (now, answer) :: rounds =>
      if bool_decide (now < deadline)%N &&
         bool_decide (N.of_nat (length response) < RESPONSE_CAP)%N then
        match answer with
        | ReadClosed => Some (fell_short "the connection closed")
        | ReadFailed => Some (fell_short "the read failed")
        | ReadTimeout => attempt_loop deadline rounds response
        | ReadData bytes =>
            if is_match (response ++ bytes) then Some (Ok tt)
            else attempt_loop deadline rounds (response ++ bytes)
        end
      else Some (fell_short "the attempt deadline passed")
  end.

(** [attempt]; [connected] and [sent] are the socket's set-up, [started] the
    clock after it. *)
Definition attempt (connected sent : result unit string) (started : N) (rounds : list Round)
    : option (result unit string) :=
  match connected, sent with
  | Err e, _ => Some (Err ("could not connect: " +:+ e))
  | _, Err e => Some (Err ("could not send the probe: " +:+ e))
  | Ok _, Ok _ => attempt_loop (started + ATTEMPT_DEADLINE) rounds []
  end.
End attempt.

(** ** Retrying *)

(** The thread of [spawn]: each attempt's result with the clock after it; the
    outcome, [None] while it goes on, and the pauses it made. *)
Fixpoint probe_loop (tries : list (result unit string * N)) (deadline interval : N) (slept : list N)
    : option (result unit string) * list N :=
  match tries with
  | [] => (None, slept)
  | (Ok _, _) :: _ => (Some (Ok tt), slept)
  | (Err summary, now) :: tries =>
      if bool_decide (deadline <= now)%N then (Some (Err summary), slept)
      else probe_loop tries deadline (N.min (interval * 2) MAX_INTERVAL) (slept ++ [interval])
  end.

Definition spawn_probe (started : N) (tries : list (result unit string * N))
    : option (result unit string) * list N :=
  probe_loop tries (started + DEADLINE) INITIAL_INTERVAL [].

(** ** An attempt succeeds on a response that matches *)

(** The responses the loop looks at: after each read, and at its end. *)
Fixpoint responses (deadline : N) (rounds : list Round) (response : list byte) : list (list byte) :=
  match rounds with
  | [] => []
  | (now, answer) :: rounds =>
      if bool_decide (now < deadline)%N &&
         bool_decide (N.of_nat (length response) < RESPONSE_CAP)%N then
        match answer with
        | ReadClosed | ReadFailed => [response]
        | ReadTimeout => responses deadline rounds response
        | ReadData bytes => (response ++ bytes) :: responses deadline rounds (response ++ bytes)
        end
      else [response]
  end.

(** A [read] fills at most the buffer. *)
Definition buffered (r : Round) : Prop :=
  match r.2 with ReadData bytes => (N.of_nat (length bytes) <= BUFFER)%N | _ => True end.

Lemma attempt_loop_spec is_match deadline rounds response :
  match attempt_loop is_match deadline rounds response with
  | None => Forall (λ r, is_match r = false) (responses deadline rounds response)
  | Some (Ok _) => Exists (λ r, is_match r = true) (responses deadline rounds response)
  | Some (Err _) => Forall (λ r, is_match r = false) (responses deadline rounds response)
  end.
Proof.
  revert response. induction rounds as [|[now answer] rounds IH]; intros response; simpl;
    [constructor|].
  assert (∀ ended : string, match (if is_match response then Ok tt
      else if bool_decide (response = []) then Err (ended +:+ " without a response")
      else Err (ended +:+ " after " +:+ pretty (N.of_nat (length response)) +:+
                " unmatched bytes, starting " +:+ chars_to_string (preview response))) with
    | Ok _ => Exists (λ r, is_match r = true) [response]
    | Err _ => Forall (λ r, is_match r = false) [response]
    end) as Hend.
  { intros ended. destruct (is_match response) eqn:Hm; [by constructor|].
    destruct (bool_decide _); by repeat constructor. }
  destruct (_ && _); [|apply Hend]. destruct answer as [bytes| | |]; [|apply Hend|apply IH|apply Hend].
  destruct (is_match (response ++ bytes)) eqn:Hm; [by constructor|].
  specialize (IH (response ++ bytes)).
  destruct (attempt_loop is_match deadline rounds (response ++ bytes)) as [[]|]; by constructor.
Qed.

Lemma responses_bounded deadline rounds response :
  Forall buffered rounds → (N.of_nat (length response) < RESPONSE_CAP + BUFFER)%N →
  Forall (λ r, N.of_nat (length r) < RESPONSE_CAP + BUFFER)%N (responses deadline rounds response).
Proof.
  intros Hb. revert response. induction Hb as [|[now answer] rounds Hr _ IH]; intros response Hl;
    simpl; [constructor|].
  destruct (bool_decide (now < deadline)%N && bool_decide (N.of_nat (length response) < RESPONSE_CAP)%N) eqn:Hc;
    [|by repeat constructor]. simp_bool.
  destruct answer as [bytes| | |]; [|by repeat constructor|by apply IH|by repeat constructor].
  unfold buffered in Hr. simpl in Hr.
  assert (N.of_nat (length (response ++ bytes)) < RESPONSE_CAP + BUFFER)%N by (rewrite length_app; lia).
  constructor; [done|]. by apply IH.
Qed.

(** What a probe attempt accepts.  An attempt that ends has succeeded
    exactly if it connected, sent the probe, and one of the responses it looked
    at (what had come after each read, or at the end) matches the manifest's
    pattern; and it never looks at 5 KiB or more. *)
Theorem attempt_accepts_matching_responses is_match connected sent started rounds :
  Forall buffered rounds →
  Forall (λ r, N.of_nat (length r) < RESPONSE_CAP + BUFFER)%N (responses (started + ATTEMPT_DEADLINE) rounds []) ∧
  match attempt is_match connected sent started rounds with
  | None => Forall (λ r, is_match r = false) (responses (started + ATTEMPT_DEADLINE) rounds [])
  | Some r =>
      is_ok r = true ↔
      connected = Ok tt ∧ sent = Ok tt ∧ Exists (λ r, is_match r = true) (responses (started + ATTEMPT_DEADLINE) rounds [])
  end.
Proof.
  intros Hb. split; [by apply responses_bounded|]. unfold attempt.
  destruct connected as [[]|e]; [|by split; [|intros (? & _)]].
  destruct sent as [[]|e]; [|by split; [|intros (_ & ? & _)]].
  pose proof (attempt_loop_spec is_match (started + ATTEMPT_DEADLINE) rounds []) as Hs.
  destruct (attempt_loop is_match (started + ATTEMPT_DEADLINE) rounds []) as [[[]|e]|]; [by split| |done].
  split; [done|]. intros (_ & _ & He). exfalso.
  apply Exists_exists in He as (r & Hr & Hm). rewrite Forall_forall in Hs. by rewrite (Hs r Hr) in Hm.
Qed.

(** The rounds of an attempt, from a clock on: a read that times out has
    blocked for [READ_TIMEOUT], one that succeeds has at least a byte. *)
Inductive paced : N → list Round → Prop :=
  | paced_nil now : paced now []
  | paced_timeout now at_ rounds :
      (now <= at_)%N → paced (at_ + READ_TIMEOUT) rounds →
      paced now ((at_, ReadTimeout) :: rounds)
  | paced_data now at_ bytes rounds :
      (now <= at_)%N → bytes ≠ [] → paced at_ rounds →
      paced now ((at_, ReadData bytes) :: rounds)
  | paced_last now at_ answer :
      (now <= at_)%N → paced now [(at_, answer)].

Lemma attempt_loop_bounded is_match deadline now rounds response :
  paced now rounds → attempt_loop is_match deadline rounds response = None →
  rounds = [] ∨ (now < deadline ∧
    READ_TIMEOUT * N.of_nat (length rounds) <=
    READ_TIMEOUT * (RESPONSE_CAP - N.of_nat (length response)) + (deadline - now) + READ_TIMEOUT)%N.
Proof.
  intros Hp. revert response. unfold READ_TIMEOUT, RESPONSE_CAP in *.
  induction Hp as [|now at_ rounds Hn _ IH|now at_ bytes rounds Hn Hb _ IH|now at_ answer Hn];
    intros response; simpl; [by left|..].
  all: destruct (_ && _) eqn:Hc; [simp_bool|done]; intros Hnone; right; (split; [lia|]).
  - apply IH in Hnone as [->|[? ?]]; unfold READ_TIMEOUT in *; simpl length in *; lia.
  - destruct (is_match _); [done|].
    assert (0 < length bytes)%nat by (destruct bytes; [done|simpl; lia]).
    apply IH in Hnone as [->|[? Hle]]; [simpl length; lia|].
    rewrite length_app in Hle. unfold RESPONSE_CAP in *. simpl length. lia.
  - simpl length. lia.
Qed.

(** A guest that keeps the connection open cannot hold an attempt: within
    4101 reads it has ended, the deadline having passed, the response having
    filled its cap, or before. *)
Lemma attempt_ends is_match started rounds :
  paced started rounds → (4101 < length rounds)%nat →
  is_Some (attempt is_match (Ok tt) (Ok tt) started rounds).
Proof.
  intros Hp Hl. simpl. destruct (attempt_loop _ _ _ _) eqn:E; [by eexists|].
  apply (attempt_loop_bounded _ _ started) in E as [->|[_ Hb]]; [simpl in Hl; lia| |done].
  unfold READ_TIMEOUT, RESPONSE_CAP, ATTEMPT_DEADLINE in Hb. simpl in Hb. lia.
Qed.

(** ** A preview is the manifest's notation *)

Lemma to_digit16_hex n : (n < 16)%N → to_digit16 (N_of_ascii (hex_digit n)) = Some n.
Proof.
  intros Hn. unfold to_digit16, hex_digit. rewrite N_ascii_embedding by (case_bool_decide; lia).
  destruct (bool_decide (n < 10)%N) eqn:Hc; simp_bool.
  - rewrite bool_decide_true by lia. f_equal. lia.
  - rewrite bool_decide_false, bool_decide_true by lia. f_equal. lia.
Qed.

Lemma preview_byte_denotes b cs bs : denotes cs bs → denotes (preview_byte b ++ cs) (b :: bs).
Proof.
  intros Hd. unfold preview_byte. pose proof (Byte.to_N_bounded b) as Hb.
  pose proof (byte_of_to_N b) as Hn. generalize dependent (Byte.to_N b). intros n Hb <-.
  destruct (_ && _) eqn:Hp; simp_bool; [by apply denotes_plain|].
  replace n with (n / 16 * 16 + n mod 16)%N at 3 by (pose proof (N.div_mod n 16); lia).
  apply denotes_hex; [apply to_digit16_hex|apply to_digit16_hex|done].
  - apply N.Div0.div_lt_upper_bound. lia.
  - apply N.mod_lt. lia.
Qed.

(** A failed probe can be compared with the manifest: the preview in its
    summary is written in the manifest's own byte-string notation, so decoding
    it gives back the response; of a response of more than 24 bytes it shows
    the first 24, followed by dots. *)
Theorem preview_decodes bytes :
  (length bytes <= 24 → decode_byte_string (preview bytes) = Ok bytes)%nat ∧
  (24 < length bytes → preview bytes = preview (take 24 bytes) ++ dots)%nat.
Proof.
  assert (∀ l, denotes (concat (map preview_byte l)) l) as Hd.
  { induction l as [|b l IH]; [constructor|]. simpl. by apply preview_byte_denotes. }
  unfold preview. split; intros Hl.
  - rewrite take_ge by lia. rewrite bool_decide_false by lia. rewrite app_nil_r.
    unfold decode_byte_string. by rewrite (decode_loop_complete _ bytes).
  - rewrite take_take, length_take, bool_decide_true by lia.
    rewrite (bool_decide_false (24 < _)) by lia. by rewrite app_nil_r.
Qed.

(** ** The probe ends *)

(** The pauses, from an interval on. *)
Fixpoint pauses (n : nat) (interval : N) : list N :=
  match n with
  | O => []
  | S n => interval :: pauses n (N.min (interval * 2) MAX_INTERVAL)
  end.

Definition total (l : list N) : N := foldr N.add 0%N l.

Lemma probe_loop_spec tries deadline interval slept :
  let (outcome, pauses_made) := probe_loop tries deadline interval slept in
  ∃ failed, Forall (λ t, is_ok t.1 = false ∧ (t.2 < deadline)%N) failed ∧
    pauses_made = slept ++ pauses (length failed) interval ∧
    match outcome with
    | None => tries = failed
    | Some (Ok _) => ∃ now rest, tries = failed ++ (Ok tt, now) :: rest
    | Some (Err summary) =>
        ∃ now rest, tries = failed ++ (Err summary, now) :: rest ∧ (deadline <= now)%N
    end.
Proof.
  revert interval slept. induction tries as [|[[[]|summary] now] tries IH]; intros interval slept; simpl.
  - exists []. rewrite app_nil_r. by split_and!.
  - exists []. rewrite app_nil_r. split_and!; [done|done|]. by eexists _, _.
  - case_bool_decide as Hd.
    + exists []. rewrite app_nil_r. split_and!; [done|done|]. by eexists _, _.
    + specialize (IH (N.min (interval * 2) MAX_INTERVAL) (slept ++ [interval])).
      destruct (probe_loop tries deadline _ _) as [outcome made].
      destruct IH as (failed & Hf & -> & Ho). exists ((Err summary, now) :: failed).
      split; [constructor; [split; [done|simpl; lia]|done]|].
      split; [by rewrite <- app_assoc|].
      destruct outcome as [[[]|s]|]; [|destruct Ho as (n & rest & -> & ?)|by rewrite Ho].
      * destruct Ho as (n & rest & ->). by eexists _, _.
      * eexists _, _. by split.
Qed.

(** The clock after an attempt has seen every pause before it. *)
Definition clock_sees (started : N) (tries : list (result unit string * N)) : Prop :=
  ∀ i t, tries !! i = Some t → (started + total (pauses i INITIAL_INTERVAL) <= t.2)%N.

(** The probe ends with an answer.  Its outcome is success exactly when an
    attempt succeeded, all before it having failed before the deadline, and
    otherwise the summary of the last attempt, the first to end after the
    deadline; whatever the guest does, 306 attempts are the most there are. *)
Theorem probe_ends started tries :
  clock_sees started tries →
  match (spawn_probe started tries).1 with
  | None => (length tries < 306)%nat ∧ Forall (λ t, is_ok t.1 = false) tries
  | Some (Ok _) =>
      ∃ failed now rest, tries = failed ++ (Ok tt, now) :: rest ∧ (length failed < 306)%nat ∧
        Forall (λ t, is_ok t.1 = false ∧ (t.2 < started + DEADLINE)%N) failed
  | Some (Err summary) =>
      ∃ failed now rest, tries = failed ++ (Err summary, now) :: rest ∧ (length failed < 306)%nat ∧
        (started + DEADLINE <= now)%N ∧
        Forall (λ t, is_ok t.1 = false ∧ (t.2 < started + DEADLINE)%N) failed
  end.
Proof.
  intros Hc. pose proof (probe_loop_spec tries (started + DEADLINE) INITIAL_INTERVAL []) as Hs.
  unfold spawn_probe. destruct (probe_loop _ _ _ _) as [outcome made]. simpl.
  destruct Hs as (failed & Hf & _ & Ho).
  assert (failed `prefix_of` tries → length failed < 306)%nat as Hlen.
  { intros [more ->]. destruct (decide (length failed < 306)%nat) as [|Hge]; [done|exfalso].
    destruct (lookup_lt_is_Some_2 failed 305) as [t Ht]; [lia|].
    pose proof (Hc 305%nat t ltac:(by apply lookup_app_l_Some)) as Hsum.
    apply Forall_lookup_1 with (i := 305%nat) (x := t) in Hf as [_ Hlt]; [|done].
    assert (DEADLINE <= total (pauses 305 INITIAL_INTERVAL))%N by (vm_compute; discriminate). lia. }
  destruct outcome as [[[]|summary]|].
  - destruct Ho as (now & rest & ->). exists failed, now, rest. split_and!; [done| |done].
    apply Hlen. by eexists.
  - destruct Ho as (now & rest & -> & Hd). exists failed, now, rest. split_and!; [done| |done|done].
    apply Hlen. by eexists.
  - subst tries. split; [by apply Hlen|]. by apply (Forall_impl _ _ _ Hf); intros ? [? _].
Qed.

Module ProbeWitness.
Definition ok0 (r : list byte) : bool := match r with x6f :: x6b :: _ => true | _ => false end.
Definition rounds0 : list Round :=
  [(0%N, ReadData [x6f]); (1%N, ReadTimeout); (501%N, ReadData [x6b; x00])].
Lemma attempt_witness :
  is_ok (default (Err "") (attempt ok0 (Ok tt) (Ok tt) 0 rounds0)) = true.
Proof.
  destruct (attempt_accepts_matching_responses ok0 (Ok tt) (Ok tt) 0 rounds0) as [_ H].
  { repeat constructor; vm_compute; discriminate. }
  destruct (attempt ok0 (Ok tt) (Ok tt) 0 rounds0) as [r|] eqn:E.
  - apply H. split; [reflexivity|]. split; [reflexivity|]. simpl. right. left. reflexivity.
  - vm_compute in E. discriminate E.
Defined.

Definition tries0 : list (result unit string * N) :=
  [(Err "could not connect: refused", 0%N); (Ok tt, 5%N)].
Lemma probe_ends_witness :
  ∃ failed now rest, tries0 = failed ++ (Ok tt, now) :: rest ∧ (length failed < 306)%nat ∧
    Forall (λ t, is_ok t.1 = false ∧ (t.2 < 0 + DEADLINE)%N) failed.
Proof.
  apply (probe_ends 0 tries0). intros i t Ht.
  destruct i as [|[|i]]; [| |discriminate Ht]; injection Ht as <-; vm_compute; discriminate.
Defined.
End ProbeWitness.
