(* ===== verification/BTree.v ===== *)
(** * [std::collections::BTreeMap]

    An association list kept in key order, for the maps the source iterates
    in order: lookup, and the [entry] update that [Entry::Vacant] and
    [Entry::Occupied] split. *)

From S2P Require Import Prelude.
From Stdlib Require Import Ascii Sorted.

(** A total order ([Ord]) on keys. *)
Class KeyOrder (K : Type) : Type := {
  kcmp : K → K → comparison;
  kcmp_eq (a b : K) : kcmp a b = Eq ↔ a = b;
  kcmp_antisym (a b : K) : kcmp b a = CompOpp (kcmp a b);
  kcmp_trans (a b c : K) : kcmp a b = Lt → kcmp b c = Lt → kcmp a c = Lt;
}.

Definition klt {K} `{KeyOrder K} (a b : K) : Prop := kcmp a b = Lt.

(** Strings compare by their bytes. *)
Fixpoint string_cmp (a b : string) : comparison :=
  match a, b with
  | EmptyString, EmptyString => Eq
  | EmptyString, String _ _ => Lt
  | String _ _, EmptyString => Gt
  | String x a, String y b =>
      match N.compare (N_of_ascii x) (N_of_ascii y) with
      | Eq => string_cmp a b
      | c => c
      end
  end.

Lemma N_of_ascii_inj x y : N_of_ascii x = N_of_ascii y → x = y.
Proof. intros H. by rewrite <- (ascii_N_embedding x), H, ascii_N_embedding. Qed.

Lemma string_cmp_eq a b : string_cmp a b = Eq ↔ a = b.
Proof.
  revert b. induction a as [|x a IH]; intros [|y b]; simpl; try done.
  destruct (N.compare_spec (N_of_ascii x) (N_of_ascii y)) as [E|E|E].
  - apply N_of_ascii_inj in E as ->. rewrite IH. split; [by intros ->|by intros [= ->]].
  - split; [done|]. intros [= -> ->]. lia.
  - split; [done|]. intros [= -> ->]. lia.
Qed.

Lemma string_cmp_antisym a b : string_cmp b a = CompOpp (string_cmp a b).
Proof.
  revert b. induction a as [|x a IH]; intros [|y b]; simpl; try done.
  rewrite (N.compare_antisym (N_of_ascii x)).
  destruct (N.compare _ _); simpl; [apply IH|done|done].
Qed.

Lemma string_cmp_trans a b c :
  string_cmp a b = Lt → string_cmp b c = Lt → string_cmp a c = Lt.
Proof.
  revert b c. induction a as [|x a IH]; intros [|y b] [|z c]; simpl; try done.
  destruct (N.compare_spec (N_of_ascii x) (N_of_ascii y)) as [E|E|E];
    destruct (N.compare_spec (N_of_ascii y) (N_of_ascii z)) as [E'|E'|E']; try done; intros H H'.
  - rewrite E, E', N.compare_refl. by eapply IH.
  - rewrite E. by apply N.compare_lt_iff in E' as ->.
  - rewrite <- E'. by apply N.compare_lt_iff in E as ->.
  - assert (N_of_ascii x < N_of_ascii z)%N as ->%N.compare_lt_iff by lia. done.
Qed.

#[global] Instance string_order : KeyOrder string := {
  kcmp := string_cmp;
  kcmp_eq := string_cmp_eq;
  kcmp_antisym := string_cmp_antisym;
  kcmp_trans := string_cmp_trans;
}.

Lemma string_le_trans a b c :
  string_cmp a b ≠ Gt → string_cmp b c ≠ Gt → string_cmp a c ≠ Gt.
Proof.
  destruct (string_cmp a b) eqn:Hab; [|..|done].
  - apply string_cmp_eq in Hab as ->. done.
  - destruct (string_cmp b c) eqn:Hbc; [|..|done]; intros _ _.
    + apply string_cmp_eq in Hbc as <-. by rewrite Hab.
    + by rewrite (string_cmp_trans a b c).
Qed.

(** Tuples compare lexicographically. *)
Definition pair_cmp {A B} `{KeyOrder A, KeyOrder B} (a b : A * B) : comparison :=
  match kcmp a.1 b.1 with
  | Eq => kcmp a.2 b.2
  | c => c
  end.

#[global] Program Instance pair_order {A B} `{KeyOrder A, KeyOrder B} : KeyOrder (A * B) := {
  kcmp := pair_cmp;
}.
Next Obligation.
  intros A B ?? [a a'] [b b']. unfold pair_cmp. simpl.
  destruct (kcmp a b) eqn:E; [|split; [done|]..].
  - apply kcmp_eq in E as ->. rewrite kcmp_eq. split; [by intros ->|by intros [= ->]].
  - intros [= -> ->]. by rewrite (proj2 (kcmp_eq b b) eq_refl) in E.
  - intros [= -> ->]. by rewrite (proj2 (kcmp_eq b b) eq_refl) in E.
Qed.
Next Obligation.
  intros A B ?? [a a'] [b b']. unfold pair_cmp. simpl.
  rewrite (kcmp_antisym a b). destruct (kcmp a b); simpl; [apply kcmp_antisym|done|done].
Qed.
Next Obligation.
  intros A B ?? [a a'] [b b'] [c c']. unfold pair_cmp. simpl.
  destruct (kcmp a b) eqn:E; try done; destruct (kcmp b c) eqn:E'; try done; intros HL HL'.
  - apply kcmp_eq in E as ->, E' as ->. rewrite (proj2 (kcmp_eq c c) eq_refl).
    by eapply kcmp_trans.
  - apply kcmp_eq in E as ->. by rewrite E'.
  - apply kcmp_eq in E' as ->. by rewrite E.
  - by rewrite (kcmp_trans a b c).
Qed.

Section btree.
Context {K V : Type} `{KeyOrder K}.
Implicit Types (m : list (K * V)) (k : K).

Fixpoint btree_get k m : option V :=
  match m with
  | [] => None
  | (k', v) :: m =>
      match kcmp k k' with
      | Eq => Some v
      | Lt => None
      | Gt => btree_get k m
      end
  end.

(** [entry(k)]: [f None] is inserted when vacant, [f (Some v)] replaces [v]. *)
Fixpoint btree_entry k (f : option V → V) m : list (K * V) :=
  match m with
  | [] => [(k, f None)]
  | (k', v) :: m' =>
      match kcmp k k' with
      | Eq => (k', f (Some v)) :: m'
      | Lt => (k, f None) :: m
      | Gt => (k', v) :: btree_entry k f m'
      end
  end.

Definition key_sorted m : Prop := StronglySorted klt (map fst m).

Lemma kcmp_refl k : kcmp k k = Eq.
Proof. by apply kcmp_eq. Qed.

Lemma kcmp_gt a b : kcmp a b = Gt → klt b a.
Proof. intros E. unfold klt. by rewrite kcmp_antisym, E. Qed.

Lemma btree_get_above k m : Forall (klt k) (map fst m) → btree_get k m = None.
Proof. destruct m as [|[k' v] m]; simpl; [done|]. intros [Hk _]%Forall_cons. unfold klt in Hk. by rewrite Hk. Qed.

Lemma btree_get_entry_eq k f m :
  btree_get k (btree_entry k f m) = Some (f (btree_get k m)).
Proof.
  induction m as [|[k' v] m IH]; simpl; [by rewrite kcmp_refl|].
  destruct (kcmp k k') eqn:E; simpl; rewrite ?kcmp_refl, ?E; done.
Qed.

Lemma btree_get_entry_ne k k' f m :
  key_sorted m → k ≠ k' → btree_get k' (btree_entry k f m) = btree_get k' m.
Proof.
  intros Hs Hne. assert (Hkk : kcmp k' k ≠ Eq) by (rewrite kcmp_eq; congruence).
  induction m as [|[j v] m IH]; simpl.
  { by destruct (kcmp k' k). }
  apply StronglySorted_inv in Hs as [Hs Hall].
  destruct (kcmp k j) eqn:E; simpl.
  - apply kcmp_eq in E as ->. by destruct (kcmp k' j).
  - destruct (kcmp k' k) eqn:E'; [done| |done].
    by rewrite (kcmp_trans k' k j).
  - destruct (kcmp k' j); try done. by apply IH.
Qed.

Lemma btree_entry_keys k f m k' :
  k' ∈ map fst (btree_entry k f m) → k' = k ∨ k' ∈ map fst m.
Proof.
  induction m as [|[j v] m IH]; simpl; [set_solver|].
  destruct (kcmp k j); simpl; set_solver.
Qed.

Lemma btree_entry_sorted k f m : key_sorted m → key_sorted (btree_entry k f m).
Proof.
  unfold key_sorted. induction m as [|[j v] m IH]; simpl; [repeat constructor|].
  intros Hs. pose proof Hs as [Hs' Hall]%StronglySorted_inv.
  destruct (kcmp k j) eqn:E; simpl; [done| |].
  - constructor; [done|]. constructor; [done|].
    eapply Forall_impl; [exact Hall|]. intros x Hx. by eapply kcmp_trans.
  - constructor; [auto|]. apply Forall_forall. intros x [->|Hx]%btree_entry_keys.
    + by apply kcmp_gt.
    + by eapply Forall_forall.
Qed.

Lemma btree_get_Some k v m : key_sorted m → btree_get k m = Some v ↔ (k, v) ∈ m.
Proof.
  intros Hs. induction m as [|[j w] m IH]; simpl; [set_solver|].
  apply StronglySorted_inv in Hs as [Hs Hall]. rewrite elem_of_cons.
  destruct (kcmp k j) eqn:E.
  - apply kcmp_eq in E as ->. split; [intros [= ->]; auto|].
    intros [[= ->]|Hin]; [done|].
    apply Forall_forall with (x:=j) in Hall; [by unfold klt in Hall; rewrite kcmp_refl in Hall|].
    apply list_elem_of_fmap. by exists (j, v).
  - split; [done|]. intros [[= -> ->]|Hin]; [by rewrite kcmp_refl in E|].
    apply Forall_forall with (x:=k) in Hall.
    + pose proof (kcmp_trans _ _ _ E Hall) as F. by rewrite kcmp_refl in F.
    + apply list_elem_of_fmap. by exists (k, v).
  - rewrite IH by done. split; [auto|]. intros [[= -> ->]|]; [by rewrite kcmp_refl in E|done].
Qed.
End btree.
