(* ===== verification/Discovery.v ===== *)
(** * Service discovery

    Models src/crates/servicecache/src/discovery.rs: the index of installed
    packages, built by walking the search directories in order, and the
    selection of one manifest by name and version. *)

From S2P Require Import Prelude Paths Manifest BTree.
From Stdlib Require Import Sorted.

Record ShadowedPackage : Type := mkShadowed {
  shadow_directory : path;
  shadow_manifest : Manifest;
}.

Record DiscoveredPackage : Type := mkDiscovered {
  pkg_manifest : Manifest;
  shadowed : list ShadowedPackage;
}.

Inductive SelectError : Type :=
  | NotFound
  | Ambiguous (versions : list string).

Definition service_id (m : Manifest) : string * string :=
  (name (service m), version (service m)).

(** [packages: BTreeMap<(String, String), DiscoveredPackage>]. *)
Record ServiceIndex : Type := mkIndex {
  packages : list ((string * string) * DiscoveredPackage);
}.

Definition empty_index : ServiceIndex := mkIndex [].

(** [ServiceIndex::iter]: [packages.values()], in key order. *)
Definition iter (idx : ServiceIndex) : list DiscoveredPackage := map snd (packages idx).

Definition candidates (idx : ServiceIndex) (n : string) (v : option string) : list Manifest :=
  filter (λ m, match v with None => true | Some v => bool_decide (version (service m) = v) end = true)
    (filter (λ m, name (service m) = n) (map pkg_manifest (iter idx))).

Definition select (idx : ServiceIndex) (n : string) (v : option string)
    : result Manifest SelectError :=
  match candidates idx n v with
  | [] => Err NotFound
  | [m] => Ok m
  | first :: second :: rest =>
      Err (Ambiguous (version (service first) :: version (service second) ::
                      map (λ m, version (service m)) rest))
  end.

(** [ServiceIndex::all_packages]. *)
Definition all_packages (idx : ServiceIndex) : list (Manifest * path) :=
  concat (map (λ package,
    (pkg_manifest package, directory (pkg_manifest package)) ::
    map (λ shadow, (shadow_manifest shadow, shadow_directory shadow)) (shadowed package))
    (iter idx)).

(** The [entry] of [ServiceIndex::insert]: the first package for a key is
    selected, later ones are recorded as shadowed. *)
Definition insert_manifest (idx : ServiceIndex) (m : Manifest) : ServiceIndex :=
  mkIndex (btree_entry (service_id m) (λ slot,
    match slot with
    | None => mkDiscovered m []
    | Some package =>
        mkDiscovered (pkg_manifest package) (shadowed package ++ [mkShadowed (directory m) m])
    end) (packages idx)).

(** ** Walking the search directories *)

Inductive FileType : Type := FtDir | FtSymlink | FtOther.

Record DirEntry : Type := mkDirEntry {
  entry_path : path;
  file_type : result FileType error;
}.

(** [fs::read_dir]: missing, failing, or its entries, each of which may
    fail in turn. *)
Inductive ReadDir : Type :=
  | DirNotFound
  | DirError (e : error)
  | DirEntries (entries : list (result DirEntry error)).

(** [PathBuf]'s order: component by component. *)
Definition component_rank (c : Component) : N :=
  match c with RootDir => 0 | CurDir => 1 | ParentDir => 2 | Normal _ => 3 end.

Definition component_cmp (a b : Component) : comparison :=
  match a, b with
  | Normal x, Normal y => string_cmp x y
  | _, _ => N.compare (component_rank a) (component_rank b)
  end.

Fixpoint components_cmp (a b : list Component) : comparison :=
  match a, b with
  | [], [] => Eq
  | [], _ :: _ => Lt
  | _ :: _, [] => Gt
  | x :: a, y :: b =>
      match component_cmp x y with
      | Eq => components_cmp a b
      | c => c
      end
  end.

Definition path_le (a b : path) : Prop := components_cmp (components a) (components b) ≠ Gt.
#[global] Instance path_le_dec a b : Decision (path_le a b).
Proof. unfold path_le. apply _. Defined.

Section discover.
Context (disk : FileSystem) (read_dir : path → ReadDir).
Context (toml_from_str : string → result RawManifest error).
Context (regex_new : string → result (list byte → bool) error).

Fixpoint manifests_loop (search_dir : path) (entries : list (result DirEntry error))
    (manifests : list path) : result (list path) error :=
  match entries with
  | [] => Ok manifests
  | entry :: entries =>
      let? entry := with_context
        ("failed to read entry in services directory " +:+ search_dir) entry in
      let? ft := with_context ("failed to inspect " +:+ entry_path entry) (file_type entry) in
      let manifest := join (entry_path entry) "service.toml" in
      if (match ft with
          | FtDir => true
          | FtSymlink => is_dir disk (entry_path entry)
          | FtOther => false
          end && is_file disk manifest)
      then manifests_loop search_dir entries (manifests ++ [manifest])
      else manifests_loop search_dir entries manifests
  end.

Definition manifests_in (search_dir : path) : result (list path) error :=
  match read_dir search_dir with
  | DirNotFound => Ok []
  | DirError e => Err (("failed to read services directory " +:+ search_dir) :: e)
  | DirEntries entries => manifests_loop search_dir entries []
  end.

(** The manifest [insert] loads: from the package's real directory. *)
Definition load_package (manifest_path : path) : result Manifest error :=
  let? parent := ok_or ["manifest path has no parent directory"] (parent manifest_path) in
  let? directory := with_context ("failed to resolve package for " +:+ manifest_path)
                      (canonicalize disk parent) in
  load disk toml_from_str regex_new (join directory "service.toml").

Definition insert (idx : ServiceIndex) (manifest_path : path) : result ServiceIndex error :=
  let? manifest := load_package manifest_path in
  Ok (insert_manifest idx manifest).

Fixpoint insert_all (idx : ServiceIndex) (paths : list path) : result ServiceIndex error :=
  match paths with
  | [] => Ok idx
  | p :: paths => let? idx := insert idx p in insert_all idx paths
  end.

Fixpoint discover_loop (idx : ServiceIndex) (search_dirs : list path)
    : result ServiceIndex error :=
  match search_dirs with
  | [] => Ok idx
  | search_dir :: search_dirs =>
      let? manifests := manifests_in search_dir in
      let? idx := insert_all idx (merge_sort path_le manifests) in
      discover_loop idx search_dirs
  end.

Definition discover (search_dirs : list path) : result ServiceIndex error :=
  discover_loop empty_index search_dirs.

(** The manifest paths a discovery visits, in order. *)
Fixpoint visited (search_dirs : list path) : result (list path) error :=
  match search_dirs with
  | [] => Ok []
  | search_dir :: search_dirs =>
      let? manifests := manifests_in search_dir in
      let? rest := visited search_dirs in
      Ok (merge_sort path_le manifests ++ rest)
  end.
End discover.

(** ** The index is the loaded packages, grouped by key in load order *)

(** The abstract index of a sequence of loaded manifests. *)
Definition group (ms : list Manifest) (key : string * string) : option DiscoveredPackage :=
  match filter (λ m, service_id m = key) ms with
  | [] => None
  | m :: rest => Some (mkDiscovered m (map (λ m, mkShadowed (directory m) m) rest))
  end.

Definition refines (ms : list Manifest) (idx : ServiceIndex) : Prop :=
  key_sorted (packages idx) ∧ ∀ key, btree_get key (packages idx) = group ms key.

Lemma refines_empty : refines [] empty_index.
Proof. split; [constructor|done]. Qed.

Lemma group_snoc ms m key :
  group (ms ++ [m]) key =
  if decide (service_id m = key) then
    Some (match group ms key with
          | None => mkDiscovered m []
          | Some package =>
              mkDiscovered (pkg_manifest package) (shadowed package ++ [mkShadowed (directory m) m])
          end)
  else group ms key.
Proof.
  unfold group. rewrite filter_app.
  case_decide as Hk.
  - rewrite filter_cons_True, filter_nil by done.
    destruct (filter _ ms) as [|x xs]; simpl; [done|]. by rewrite map_app.
  - by rewrite filter_cons_False, filter_nil, app_nil_r by done.
Qed.

Lemma insert_manifest_refines ms idx m :
  refines ms idx → refines (ms ++ [m]) (insert_manifest idx m).
Proof.
  intros [Hs Hg]. split; [by apply btree_entry_sorted|]. intros key.
  rewrite group_snoc. case_decide as Hk.
  - subst key. simpl. rewrite btree_get_entry_eq, Hg. by destruct (group ms _).
  - simpl. by rewrite btree_get_entry_ne, Hg by done.
Qed.

Section discover_facts.
Context (disk : FileSystem) (read_dir : path → ReadDir).
Context (toml_from_str : string → result RawManifest error).
Context (regex_new : string → result (list byte → bool) error).
Local Abbreviation loads := (λ p m, load_package disk toml_from_str regex_new p = Ok m).

Lemma insert_all_refines paths ms idx idx' :
  insert_all disk toml_from_str regex_new idx paths = Ok idx' → refines ms idx →
  ∃ ms', Forall2 loads paths ms' ∧ refines (ms ++ ms') idx'.
Proof.
  revert ms idx. induction paths as [|p paths IH]; intros ms idx H Hr; simpl in H.
  { injection H as <-. exists []. by rewrite app_nil_r. }
  unfold insert in H. destruct (load_package _ _ _ p) as [m|e] eqn:E; [|done].
  apply (IH (ms ++ [m])) in H as (ms' & HF & Hr'); [|by apply insert_manifest_refines].
  exists (m :: ms'). split; [by constructor|]. by rewrite <- app_assoc in Hr'.
Qed.

Lemma discover_loop_refines dirs ms idx idx' :
  discover_loop disk read_dir toml_from_str regex_new idx dirs = Ok idx' → refines ms idx →
  ∃ paths ms', visited disk read_dir dirs = Ok paths ∧ Forall2 loads paths ms' ∧
    refines (ms ++ ms') idx'.
Proof.
  revert ms idx. induction dirs as [|d dirs IH]; intros ms idx H Hr; simpl in H |- *.
  { injection H as <-. exists [], []. by rewrite app_nil_r. }
  destruct (manifests_in disk read_dir d) as [found|]; [|done].
  destruct (insert_all _ _ _ idx _) as [idx1|] eqn:E; [|done].
  apply (insert_all_refines _ ms) in E as (ms1 & HF1 & Hr1); [|done].
  apply (IH _ _ H) in Hr1 as (paths & ms2 & -> & HF2 & Hr2).
  exists (merge_sort path_le found ++ paths), (ms1 ++ ms2).
  split; [done|]. split; [by apply Forall2_app|]. by rewrite app_assoc.
Qed.

(** C37: a discovered index is exactly the packages loaded from the search
    directories, in order: for every name and version the first package
    loaded is the selected one and all later ones are its shadowed packages,
    in load order; no package is lost or invented. *)
Theorem discover_first_package_wins (dirs : list path) (idx : ServiceIndex) :
  discover disk read_dir toml_from_str regex_new dirs = Ok idx →
  ∃ paths ms, visited disk read_dir dirs = Ok paths ∧
    Forall2 (λ p m, load_package disk toml_from_str regex_new p = Ok m) paths ms ∧
    refines ms idx.
Proof. intros H. by apply (discover_loop_refines _ [] empty_index) in H; [|apply refines_empty]. Qed.
End discover_facts.

(** ** Selection *)

Lemma refines_keys ms idx k p :
  refines ms idx → (k, p) ∈ packages idx → service_id (pkg_manifest p) = k.
Proof.
  intros [Hs Hg] Hin. apply btree_get_Some in Hin; [|done]. rewrite Hg in Hin.
  unfold group in Hin. destruct (filter _ ms) as [|m rest] eqn:E; [done|].
  injection Hin as <-. simpl.
  assert (m ∈ filter (λ m, service_id m = k) ms) as Hm by (rewrite E; by left).
  by apply list_elem_of_filter in Hm as [? _].
Qed.

(** The keys of the packages that are candidates for a request. *)
Definition key_matches (n : string) (v : option string) (k : string * string) : Prop :=
  k.1 = n ∧ match v with None => True | Some v => k.2 = v end.
#[local] Instance key_matches_dec n v k : Decision (key_matches n v k).
Proof. unfold key_matches. destruct v; apply _. Defined.

Lemma candidates_keys ms idx n v :
  refines ms idx →
  map service_id (candidates idx n v) = filter (key_matches n v) (map fst (packages idx)).
Proof.
  intros Hr. unfold candidates, iter.
  assert (Hk : ∀ k p, (k, p) ∈ packages idx → service_id (pkg_manifest p) = k)
    by (intros; by eapply refines_keys).
  induction (packages idx) as [|[k p] l IH]; [done|]. cbn [map fst snd].
  assert (Hid : service_id (pkg_manifest p) = k) by (apply Hk; by left).
  assert (IH' := IH ltac:(intros; apply Hk; by right)). clear IH.
  rewrite (filter_cons _ (pkg_manifest p)), (filter_cons _ k).
  unfold key_matches at 1. subst k. unfold service_id at 2 3. cbn [fst snd].
  destruct (decide (name _ = n)) as [Hn|Hn].
  - rewrite filter_cons. destruct v as [v|].
    + destruct (decide (version (service (pkg_manifest p)) = v)) as [Hb|Hb].
      * rewrite decide_True by (by rewrite bool_decide_eq_true).
        rewrite decide_True by done. cbn [map]. by rewrite IH'.
      * rewrite decide_False by (by rewrite bool_decide_eq_true).
        rewrite decide_False by (intros [_ ?]; done). exact IH'.
    + rewrite !decide_True by done. cbn [map]. by rewrite IH'.
  - rewrite decide_False by (intros [? _]; done). exact IH'.
Qed.

Lemma StronglySorted_filter' {A} (R : A → A → Prop) (P : A → Prop) `{!∀ x, Decision (P x)} l :
  StronglySorted R l → StronglySorted R (filter P l).
Proof.
  induction 1 as [|x l _ IH HF]; [constructor|]. rewrite filter_cons. case_decide; [|done].
  constructor; [done|]. apply Forall_forall. intros y [_ Hy]%list_elem_of_filter.
  by eapply Forall_forall.
Qed.

Lemma klt_irrefl {K} `{KeyOrder K} (k : K) : ¬ klt k k.
Proof. unfold klt. by rewrite kcmp_refl. Qed.

Lemma StronglySorted_klt_NoDup {K} `{KeyOrder K} (l : list K) : StronglySorted klt l → NoDup l.
Proof.
  induction 1 as [|x l _ IH HF]; constructor; [|done].
  intros Hin. apply (Forall_forall (klt x) l) with (x:=x) in HF; [|done]. by apply klt_irrefl in HF.
Qed.

Lemma group_installed ms idx k :
  refines ms idx → k ∈ map fst (packages idx) ↔ group ms k ≠ None.
Proof.
  intros [Hs Hg]. rewrite <- Hg. split.
  - intros ([k' p] & -> & Hin)%list_elem_of_fmap. apply btree_get_Some in Hin; [|done].
    simpl. by rewrite Hin.
  - destruct (btree_get k (packages idx)) as [p|] eqn:E; [|done]. intros _.
    apply btree_get_Some in E; [|done]. apply list_elem_of_fmap. by exists (k, p).
Qed.

Lemma candidates_group ms idx n v m :
  refines ms idx → m ∈ candidates idx n v → pkg_manifest <$> group ms (service_id m) = Some m.
Proof.
  intros Hr Hin. unfold candidates, iter in Hin.
  apply list_elem_of_filter in Hin as [_ [_ Hin]%list_elem_of_filter].
  apply list_elem_of_fmap in Hin as (p & -> & ([k p'] & -> & Hin)%list_elem_of_fmap). simpl.
  rewrite (refines_keys ms idx k p') by done. destruct Hr as [Hs Hg].
  apply btree_get_Some in Hin; [|done]. by rewrite <- Hg, Hin.
Qed.

Lemma select_candidates ms idx n v :
  refines ms idx →
  ∃ keys, keys = filter (key_matches n v) (map fst (packages idx)) ∧
    StronglySorted klt keys ∧ (∀ k, k ∈ keys ↔ key_matches n v k ∧ group ms k ≠ None) ∧
    match keys with
    | [] => select idx n v = Err NotFound
    | [k] => ∃ m, select idx n v = Ok m ∧ pkg_manifest <$> group ms k = Some m
    | _ => select idx n v = Err (Ambiguous (map snd keys))
    end.
Proof.
  intros Hr. eexists. split; [done|]. split_and!.
  - apply StronglySorted_filter'. by destruct Hr.
  - intros k. by rewrite list_elem_of_filter, (group_installed ms).
  - rewrite <- (candidates_keys ms) by done. unfold select.
    pose proof (candidates_group ms idx n v) as Hc.
    destruct (candidates idx n v) as [|m1 [|m2 rest]]; simpl; [done| |].
    + exists m1. split; [done|]. apply Hc; [done|by left].
    + do 4 f_equal. rewrite map_map. done.
Qed.

Lemma sorted_versions n keys :
  StronglySorted klt keys → (∀ k, k ∈ keys → k.1 = n) → StronglySorted klt (map snd keys).
Proof.
  induction 1 as [|[a v] l _ IH HF]; intros Hn; simpl; constructor.
  - apply IH. intros k Hk. apply Hn. by right.
  - apply Forall_forall. intros w ([b w'] & -> & Hin)%list_elem_of_fmap. simpl.
    apply (Forall_forall (klt (a, v)) l) with (x:=(b, w')) in HF; [|done].
    unfold klt in *. simpl in HF. unfold pair_cmp in HF. simpl in HF.
    assert (a = n) as -> by (apply (Hn (a, v)); by left).
    assert (b = n) as -> by (apply (Hn (b, w')); by right).
    by rewrite (proj2 (string_cmp_eq n n) eq_refl) in HF.
Qed.

(** Selecting by name and version gives exactly the selected package for
    that key; a bare name gives the only installed version, fails as not found
    when none is installed, and otherwise reports all installed versions, each
    once and in order. *)
Theorem select_spec (ms : list Manifest) (idx : ServiceIndex) (n : string) :
  refines ms idx →
  (∀ v, select idx n (Some v) =
        match group ms (n, v) with
        | Some package => Ok (pkg_manifest package)
        | None => Err NotFound
        end) ∧
  match select idx n None with
  | Ok m => ∃ v, pkg_manifest <$> group ms (n, v) = Some m ∧
                 ∀ v', group ms (n, v') ≠ None → v' = v
  | Err NotFound => ∀ v, group ms (n, v) = None
  | Err (Ambiguous versions) =>
      2 ≤ length versions ∧ StronglySorted klt versions ∧
      ∀ v, v ∈ versions ↔ group ms (n, v) ≠ None
  end.
Proof.
  intros Hr. split.
  - intros v.
    destruct (select_candidates ms idx n (Some v) Hr) as (keys & _ & Hs & Hin & Hsel).
    apply StronglySorted_klt_NoDup in Hs. unfold key_matches in Hin.
    destruct keys as [|[a b] [|k2 rest]].
    + rewrite Hsel. destruct (group ms (n, v)) eqn:E; [|done].
      exfalso. apply (not_elem_of_nil (n, v)), Hin. by rewrite E.
    + destruct Hsel as (m & -> & Hg).
      destruct (proj1 (Hin (a, b)) ltac:(by left)) as [[Ha Hb] _]. simpl in *. subst.
      destruct (group ms (n, v)); simpl in Hg; congruence.
    + exfalso. destruct (proj1 (Hin (a, b)) ltac:(by left)) as [[Ha Hb] _].
      destruct (proj1 (Hin k2) ltac:(by right; left)) as [[Hc Hd] _]. destruct k2. simpl in *.
      subst. by apply NoDup_cons in Hs as [[]%not_elem_of_cons _].
  - destruct (select_candidates ms idx n None Hr) as (keys & _ & Hs & Hin & Hsel).
    unfold key_matches in Hin.
    assert (Hv : ∀ v, (n, v) ∈ keys ↔ group ms (n, v) ≠ None) by (intros v; rewrite Hin; tauto).
    destruct keys as [|[a b] [|k2 rest]].
    + rewrite Hsel. intros v. destruct (group ms (n, v)) eqn:E; [|done].
      exfalso. apply (not_elem_of_nil (n, v)), Hv. by rewrite E.
    + destruct Hsel as (m & -> & Hg).
      destruct (proj1 (Hin (a, b)) ltac:(by left)) as [[Ha _] _]. simpl in Ha. subst.
      exists b. split; [done|]. intros v' H'%Hv. set_solver.
    + rewrite Hsel. split_and!; [simpl; lia| |].
      * apply (sorted_versions n); [done|]. intros k Hk. by apply Hin in Hk as [[? _] _].
      * intros v. rewrite <- Hv. split.
        -- intros ([a' v'] & -> & Hk)%list_elem_of_fmap. simpl.
           pose proof Hk as Hk'. apply Hin in Hk' as [[Ha _] _]. simpl in Ha. by subst a'.
        -- intros Hk. apply list_elem_of_fmap. by exists (n, v).
Qed.

(** ** Witnesses *)

Module DiscoveryWitness.
Definition demo_manifest (n v dir : string) : Manifest :=
  mkManifest (mkService n v []) None (mkGuest (dir +:+ "/m.wasm") [] 1 None) None dir.

Definition loaded : list Manifest :=
  [demo_manifest "b" "2" "/x/b2"; demo_manifest "b" "1" "/x/b1"; demo_manifest "a" "1" "/x/a1";
   demo_manifest "b" "1" "/y/b1"].

Definition index : ServiceIndex := foldl insert_manifest empty_index loaded.

Lemma loaded_refines : refines loaded index.
Proof.
  change loaded with ((([] ++ [demo_manifest "b" "2" "/x/b2"]) ++ [demo_manifest "b" "1" "/x/b1"])
    ++ [demo_manifest "a" "1" "/x/a1"] ++ [demo_manifest "b" "1" "/y/b1"]).
  unfold index. cbn [foldl loaded]. rewrite app_assoc.
  repeat apply insert_manifest_refines. apply refines_empty.
Qed.

Lemma select_spec_witness :
  select index "b" (Some "1") = Ok (demo_manifest "b" "1" "/x/b1") ∧
  select index "b" None = Err (Ambiguous ["1"; "2"]) ∧
  select index "a" None = Ok (demo_manifest "a" "1" "/x/a1").
Proof.
  split; [|split; vm_compute; reflexivity].
  rewrite (proj1 (select_spec loaded index "b" loaded_refines) "1"). vm_compute. reflexivity.
Defined.

(** Two search directories; the second repeats a package of the first. *)
Definition demo_disk : FileSystem := {|
  canonicalize q := Ok q;
  is_file q := true;
  is_dir q := true;
  read_to_string q := Ok q;
  fs_read q := Err ["not read"];
|}.
Definition demo_read_dir (q : path) : ReadDir :=
  if decide (q = "/one") then
    DirEntries [Ok (mkDirEntry "/one/z" (Ok FtDir)); Ok (mkDirEntry "/one/a" (Ok FtSymlink))]
  else if decide (q = "/two") then DirEntries [Ok (mkDirEntry "/two/a" (Ok FtDir))]
  else DirNotFound.
Definition demo_toml (contents : string) : result RawManifest error :=
  Ok (mkRawManifest (mkService "example" "1" []) None (mkRawGuest "m.wasm" [] 1 None) None).

Lemma discover_witness : ∃ idx paths ms,
  discover demo_disk demo_read_dir demo_toml (λ _, Err []) ["/one"; "/missing"; "/two"] = Ok idx ∧
  visited demo_disk demo_read_dir ["/one"; "/missing"; "/two"] = Ok paths ∧
  Forall2 (λ p m, load_package demo_disk demo_toml (λ _, Err []) p = Ok m) paths ms ∧
  refines ms idx ∧
  option_map (λ p, (directory (pkg_manifest p), map shadow_directory (shadowed p)))
    (btree_get ("example", "1") (packages idx)) = Some ("/one/a", ["/one/z"; "/two/a"]).
Proof.
  destruct (discover demo_disk demo_read_dir demo_toml (λ _, Err [])
    ["/one"; "/missing"; "/two"]) as [idx|e] eqn:E; [|vm_compute in E; discriminate E].
  destruct (discover_first_package_wins demo_disk demo_read_dir demo_toml (λ _, Err [])
    ["/one"; "/missing"; "/two"] idx E) as (paths & ms & Hv & HF & Hr).
  exists idx, paths, ms. split; [reflexivity|]. split; [exact Hv|]. split; [exact HF|].
  split; [exact Hr|]. vm_compute in E. injection E as <-. reflexivity.
Defined.
End DiscoveryWitness.
