(* ===== verification/Api.v ===== *)
(** * The bodies of the manager's HTTP API

    Models src/crates/servicecache/src/serve/api.rs: requests, instances and
    the RFC 9457 problems the handlers answer with.  base64 is a parameter of
    the two recipe functions. *)

From S2P Require Import Prelude.
From stdpp Require Export pretty.

Record CreateInstance : Type := mkCreate {
  c_service : string;
  c_version : option string;
  c_recipe : option string;
  c_recipe_files : list string;
  c_ttl_seconds : option N;
}.

Record RenewInstance : Type := mkRenew { r_ttl_seconds : option N }.

(** [RenewInstance::default()]. *)
Definition default_renew : RenewInstance := mkRenew None.

Record Endpoint : Type := mkEndpoint { e_host : string; e_port : N }.

(** [From<SocketAddr> for Endpoint]. *)
Definition endpoint_from (address : SocketAddr) : Endpoint :=
  mkEndpoint (ip address) (port address).

Inductive InstanceState : Type := InstRunning | InstExited.
#[global] Instance instance_state_eq_dec : EqDecision InstanceState.
Proof. solve_decision. Defined.

Record Instance_ : Type := mkInstance {
  i_id : string;
  i_service : string;
  i_version : string;
  i_endpoint : Endpoint;
  i_state : InstanceState;
  i_exit_status : option Z;
  i_expires_in_seconds : N;
}.

Record ServiceEntry : Type := mkServiceEntry { se_name : string; se_version : string }.

(** ** Problems *)

Record Problem : Type := mkProblem {
  kind : string;
  title : string;
  status : N;
  detail : option string;
}.
#[global] Instance problem_eq_dec : EqDecision Problem.
Proof. solve_decision. Defined.

Definition urn : string := "urn:servicecache:".

Definition problem_new (status : N) (slug title : string) : Problem :=
  mkProblem (urn +:+ slug) title status None.

Definition with_detail (p : Problem) (detail : string) : Problem :=
  mkProblem (kind p) (title p) (status p) (Some detail).

(** [Problem::is]. *)
Definition problem_is (p : Problem) (slug : string) : bool :=
  match str_strip_prefix (kind p) urn with
  | Some k => bool_decide (k = slug)
  | None => false
  end.

Definition invalid_body (detail : string) : Problem :=
  with_detail (problem_new 400 "invalid-body" "The request body is not valid") detail.
Definition invalid_ttl (seconds : N) : Problem :=
  with_detail (problem_new 400 "invalid-ttl" "The TTL is out of range")
    (pretty seconds +:+ " seconds; the range is 1 to 86400").
Definition recipe_files_refused (detail : string) : Problem :=
  with_detail (problem_new 403 "recipe-files-refused" "Recipe files are not accepted") detail.
Definition recipe_file_invalid (path detail : string) : Problem :=
  with_detail (problem_new 400 "recipe-file-invalid" "A recipe file cannot be read")
    (path +:+ ": " +:+ detail).
Definition recipe_too_large (limit : N) : Problem :=
  with_detail (problem_new 413 "recipe-too-large" "The recipe is too large")
    ("the recipe is limited to " +:+ pretty limit +:+ " bytes").
Definition unknown_service (service : string) (version : option string) : Problem :=
  with_detail (problem_new 404 "unknown-service" "No installed service matches")
    ("no installed service matches " +:+
     match version with Some version => service +:+ "@" +:+ version | None => service end).
Definition ambiguous_version (service : string) (versions : list string) : Problem :=
  with_detail (problem_new 409 "ambiguous-version" "The service is installed in several versions")
    (service +:+ " is installed in several versions (" +:+ join_with ", " versions +:+
     "); name one").
Definition no_initializer (service : string) : Problem :=
  with_detail (problem_new 400 "no-initializer" "The service takes no recipe")
    (service +:+ " has no initializer to give the recipe to").
Definition unknown_instance (id : string) : Problem :=
  with_detail (problem_new 404 "unknown-instance" "No such instance")
    ("no instance " +:+ id +:+ "; it may have expired").
Definition instance_exited (id : string) : Problem :=
  with_detail (problem_new 409 "instance-exited" "The instance's guest has exited")
    ("instance " +:+ id +:+ " cannot be renewed").
Definition prepare_failed (status : Z) : Problem :=
  with_detail (problem_new 500 "prepare-failed" "The prepare step failed")
    ("the prepare step exited with status " +:+ pretty status).
Definition initializer_failed (status : Z) : Problem :=
  with_detail (problem_new 500 "initializer-failed" "The initializer failed")
    ("the initializer exited with status " +:+ pretty status).
Definition bring_up_failed (e : error) : Problem :=
  with_detail (problem_new 500 "bring-up-failed" "The instance did not come up")
    (display_chain e).
Definition internal (detail : string) : Problem :=
  with_detail (problem_new 500 "internal" "Internal error") detail.
Definition template_failed (detail : string) : Problem :=
  with_detail (problem_new 500 "template-failed" "The service's template failed") detail.
Definition unknown_route : Problem := problem_new 404 "unknown-route" "No such route".
Definition method_not_allowed : Problem :=
  problem_new 405 "method-not-allowed" "The route does not answer this method".

(** [impl Display for Problem]. *)
Definition display_problem (p : Problem) : string :=
  title p +:+ " (" +:+ kind p +:+ ")" +:+
  match detail p with Some d => ": " +:+ d | None => "" end.

(** [impl Display for ApiError] of serve/client.rs. *)
Definition display_api_error (p : Problem) : string :=
  "the manager refused (" +:+ pretty (status p) +:+ "): " +:+ title p +:+
  match detail p with Some d => ": " +:+ d | None => "" end.

Section recipe.
(** [base64::engine::general_purpose::STANDARD]. *)
Context (base64_encode : list byte → string).
Context (base64_decode : string → result (list byte) string).

Definition encode_recipe (recipe : list byte) : string := base64_encode recipe.

Definition decode_recipe (recipe : string) : result (list byte) Problem :=
  match base64_decode recipe with
  | Ok bytes => Ok bytes
  | Err e =>
      Err (with_detail (problem_new 400 "invalid-recipe" "The recipe is not valid base64") e)
  end.
End recipe.

(** ** Lemmas *)

(** A problem built with a slug is the problem of that slug and no other. *)
Lemma problem_is_slug status slug title detail slug' :
  problem_is (with_detail (problem_new status slug title) detail) slug' = bool_decide (slug = slug').
Proof.
  unfold problem_is, with_detail, problem_new. cbn [kind]. by rewrite str_strip_prefix_app.
Qed.
