(* ===== verification/Recipes.v ===== *)
(** * Recipes read from files

    Models src/crates/servicecache/src/serve/recipes.rs: the recipe roots and
    [read], which concatenates the named files after checking, on the opened
    descriptor, that each lies under a root.  Opening a path is a parameter;
    what was opened is an [OpenFile]. *)

From S2P Require Import Prelude Paths Api.

(** A descriptor as [read] uses it: [metadata()], the target of its
    [/proc/self/fd] link, and the bytes reading it to the end gives. *)
Record Metadata : Type := mkMetadata { md_is_file : bool; md_len : N }.
Record OpenFile : Type := mkOpenFile {
  metadata : result Metadata string;
  link : result path string;
  data : result (list byte) string;
}.

(** [Roots(Vec<PathBuf>)]. *)
Record Roots : Type := mkRoots { root_dirs : list path }.

Definition roots_is_empty (roots : Roots) : bool :=
  match root_dirs roots with [] => true | _ => false end.

Definition roots_contains (roots : Roots) (p : path) : bool :=
  existsb (λ root, starts_with p root) (root_dirs roots).

(** [Roots::new]. *)
Fixpoint roots_loop (disk : FileSystem) (dirs roots : list path) : result Roots error :=
  match dirs with
  | [] => Ok (mkRoots roots)
  | dir :: dirs =>
      let? root := with_context ("--recipe-root " +:+ dir) (canonicalize disk dir) in
      if is_dir disk root then roots_loop disk dirs (roots ++ [root])
      else Err ["--recipe-root " +:+ dir +:+ " is not a directory"]
  end.

Definition roots_new (disk : FileSystem) (dirs : list path) : result Roots error :=
  roots_loop disk dirs [].

Definition newline : byte := x0a.

(** [if !recipe.is_empty() && recipe.last() != Some(&b'\n') { push }]. *)
Definition terminate (recipe : list byte) : list byte :=
  if negb (bool_decide (recipe = [])) && negb (bool_decide (last recipe = Some newline))
  then recipe ++ [newline]
  else recipe.

(** [usize::checked_sub]. *)
Definition checked_sub (a b : N) : option N :=
  if bool_decide (b ≤ a)%N then Some (a - b)%N else None.

Section read.
Context (open : path → result OpenFile string).
Context (roots : Roots).

(** What one path contributes, or why it is refused, before any byte of it
    is read. *)
Definition open_checked (p : path) : result (OpenFile * Metadata) Problem :=
  if negb (is_absolute p) then Err (recipe_file_invalid p "not an absolute path")
  else match open p with
  | Err e => Err (recipe_file_invalid p e)
  | Ok file =>
    match metadata file with
    | Err e => Err (recipe_file_invalid p e)
    | Ok md =>
      if negb (md_is_file md) then Err (recipe_file_invalid p "not a regular file")
      else match link file with
      | Err e => Err (recipe_file_invalid p e)
      | Ok real =>
        if roots_contains roots real then Ok (file, md)
        else Err (recipe_files_refused (p +:+ " is outside every --recipe-root"))
      end
    end
  end.

(** The bounded read: at most [remaining + 1] bytes of the file. *)
Definition append_file (p : path) (file : OpenFile) (md : Metadata) (recipe : list byte)
    (max_len : N) : result (list byte) Problem :=
  let recipe := terminate recipe in
  match checked_sub max_len (N.of_nat (length recipe)) with
  | None => Err (recipe_too_large max_len)
  | Some remaining =>
    if bool_decide (remaining < md_len md)%N then Err (recipe_too_large max_len)
    else match data file with
    | Err e => Err (recipe_file_invalid p e)
    | Ok bytes =>
        let read := take (N.to_nat (remaining + 1)) bytes in
        if bool_decide (remaining < N.of_nat (length read))%N then Err (recipe_too_large max_len)
        else Ok (recipe ++ read)
    end
  end.

Fixpoint read_loop (paths : list string) (recipe : list byte) (max_len : N)
    : result (list byte) Problem :=
  match paths with
  | [] => Ok recipe
  | p :: paths =>
      let? fm := open_checked p in
      let? recipe := append_file p fm.1 fm.2 recipe max_len in
      read_loop paths recipe max_len
  end.

Definition read (paths : list string) (max_len : N) : result (list byte) Problem :=
  read_loop paths [] max_len.

(** ** Specification *)

(** The documented concatenation: in order, a newline supplied between
    files where one is missing. *)
Definition concat_files (files : list (list byte)) (recipe : list byte) : list byte :=
  foldl (λ recipe bytes, terminate recipe ++ bytes) recipe files.

(** A path that may contribute [bytes]: absolute, a regular file, and what
    was opened lies under a root. *)
Definition readable (p : path) (bytes : list byte) : Prop :=
  is_absolute p = true ∧
  ∃ file len real, open p = Ok file ∧ metadata file = Ok (mkMetadata true len) ∧
    link file = Ok real ∧ roots_contains roots real = true ∧ data file = Ok bytes.

(** The file did not change between [metadata()] and the read. *)
Definition stable (p : path) : Prop :=
  ∀ file md bytes, open p = Ok file → metadata file = Ok md → data file = Ok bytes →
    md_len md = N.of_nat (length bytes).

Lemma open_checked_ok p file md :
  open_checked p = Ok (file, md) ↔
  is_absolute p = true ∧ open p = Ok file ∧ metadata file = Ok md ∧ md_is_file md = true ∧
  ∃ real, link file = Ok real ∧ roots_contains roots real = true.
Proof.
  unfold open_checked. split.
  - intros H. inv_ok. simp_bool. destruct_and?. simplify_eq. eauto 10.
  - intros (-> & -> & Hm & Hf & real & Hl & Hr). simpl.
    rewrite Hm, Hf. simpl. rewrite Hl. by rewrite Hr.
Qed.

Lemma terminate_prefix recipe : length recipe ≤ length (terminate recipe).
Proof. unfold terminate. case_match; [rewrite length_app|]; simpl; lia. Qed.

Lemma append_file_ok p file md recipe max out :
  append_file p file md recipe max = Ok out ↔
  ∃ bytes, data file = Ok bytes ∧ out = terminate recipe ++ bytes ∧
    (N.of_nat (length (terminate recipe)) + md_len md ≤ max)%N ∧
    (N.of_nat (length out) ≤ max)%N.
Proof.
  unfold append_file, checked_sub. case_bool_decide as Hsub.
  2: { split; [done|]. intros (bytes & _ & _ & ? & _). lia. }
  case_bool_decide as Hmd.
  { split; [done|]. intros (bytes & _ & _ & ? & _). lia. }
  destruct (data file) as [bytes|e]; [|split; [done|by intros (? & ? & _)]].
  set (r := terminate recipe) in *.
  case_bool_decide as Hlen; rewrite length_take in Hlen.
  - split; [done|]. intros (bytes' & [= <-] & -> & _ & Hl). rewrite length_app in Hl. lia.
  - rewrite take_ge by lia. split.
    + intros [= <-]. exists bytes. rewrite length_app. split_and!; try done; lia.
    + by intros (bytes' & [= <-] & -> & _ & _).
Qed.

Lemma concat_files_mono files recipe : length recipe ≤ length (concat_files files recipe).
Proof.
  revert recipe. induction files as [|bytes files IH]; intros recipe; simpl; [lia|].
  etrans; [|apply IH]. rewrite length_app. pose proof (terminate_prefix recipe). lia.
Qed.

Lemma read_loop_sound paths recipe max out :
  read_loop paths recipe max = Ok out → (N.of_nat (length recipe) ≤ max)%N →
  ∃ files, Forall2 readable paths files ∧ out = concat_files files recipe ∧
    (N.of_nat (length out) ≤ max)%N.
Proof.
  revert recipe. induction paths as [|p paths IH]; intros recipe H Hl; simpl in H.
  { injection H as <-. by exists []. }
  destruct (open_checked p) as [[file md]|] eqn:Ea; [|done].
  destruct (append_file p file md recipe max) as [r|] eqn:Ep; simpl in H; [|by rewrite Ep in H].
  rewrite Ep in H.
  apply append_file_ok in Ep as (bytes & Hd & -> & _ & Hb).
  apply IH in H as (files & HF & -> & Ho); [|done].
  exists (bytes :: files). split; [|done]. constructor; [|done].
  apply open_checked_ok in Ea as (Ha & Ho' & Hm & Hf & real & Hr & Hin).
  destruct md as [isf len]. simpl in Hf. subst isf.
  split; [done|]. by exists file, len, real.
Qed.

Lemma read_loop_complete paths files recipe max :
  Forall2 readable paths files → Forall stable paths →
  (N.of_nat (length (concat_files files recipe)) ≤ max)%N →
  read_loop paths recipe max = Ok (concat_files files recipe).
Proof.
  intros HF. revert recipe.
  induction HF as [|p bytes paths files Hp HF IH]; intros recipe Hst Hl; [done|].
  apply Forall_cons in Hst as [Hs Hst]. simpl.
  destruct Hp as (Ha & file & len & real & Ho & Hm & Hr & Hin & Hd).
  rewrite (proj2 (open_checked_ok p file (mkMetadata true len))) by eauto 10. simpl.
  pose proof (concat_files_mono files (terminate recipe ++ bytes)) as Hmono.
  simpl in Hl.
  rewrite (proj2 (append_file_ok p file (mkMetadata true len) recipe max
                    (terminate recipe ++ bytes))).
  - by apply IH.
  - exists bytes. split_and!; [done|done| |lia].
    rewrite (Hs file _ bytes Ho Hm Hd). rewrite length_app in Hmono. simpl. lia.
Qed.
End read.

(** Whatever the files do while they are read, an accepted recipe is the
    newline-separated concatenation of the named files in order, is at most
    [max_len] bytes, and every file in it is a regular file, named by an
    absolute path, whose opened descriptor lies under a recipe root. *)
Theorem read_is_confined_and_bounded (open : path → result OpenFile string) (roots : Roots)
    (paths : list string) (max_len : N) (recipe : list byte) :
  read open roots paths max_len = Ok recipe →
  ∃ files, Forall2 (readable open roots) paths files ∧ recipe = concat_files files [] ∧
    (N.of_nat (length recipe) ≤ max_len)%N.
Proof. intros H. apply read_loop_sound in H; [done|]. simpl. lia. Qed.

(** Conversely, nothing that fits is refused: files that pass the checks
    and do not change while they are read always give their concatenation when
    it is at most [max_len] bytes. *)
Lemma read_accepts_what_fits (open : path → result OpenFile string) (roots : Roots)
    (paths : list string) (files : list (list byte)) (max_len : N) :
  Forall2 (readable open roots) paths files →
  Forall (stable open) paths →
  (N.of_nat (length (concat_files files [])) ≤ max_len)%N →
  read open roots paths max_len = Ok (concat_files files []).
Proof. apply read_loop_complete. Qed.

(** Statements never fuse across a file boundary: what precedes a file's
    bytes is empty or ends in a newline. *)
Lemma terminate_ends recipe : terminate recipe = [] ∨ last (terminate recipe) = Some newline.
Proof.
  unfold terminate. destruct recipe as [|b bs]; [by left|right]. simpl negb.
  case_bool_decide as H; [done|]. cbn [negb andb]. by rewrite last_snoc.
Qed.

Lemma roots_loop_ok disk dirs roots out :
  roots_loop disk dirs roots = Ok out →
  Forall (λ r, is_dir disk r = true) roots → Forall (λ r, is_dir disk r = true) (root_dirs out).
Proof.
  revert roots. induction dirs as [|d dirs IH]; intros roots H HF; simpl in H.
  { by injection H as <-. }
  inv_ok. eapply IH; [done|]. apply Forall_app. split; [done|]. by constructor.
Qed.

(** ** Witnesses *)

Module RecipesWitness.
Definition file (real : path) (bytes : list byte) : OpenFile :=
  mkOpenFile (Ok (mkMetadata true (N.of_nat (length bytes)))) (Ok real) (Ok bytes).

(** Two files under the root [/r] and a symlink under it that leaves. *)
Definition demo_open (p : path) : result OpenFile string :=
  if decide (p = "/r/a.sql") then Ok (file "/r/a.sql" [x61; x3b])
  else if decide (p = "/r/b.sql") then Ok (file "/r/sub/b.sql" [x62; x0a])
  else if decide (p = "/r/innocent.sql") then Ok (file "/elsewhere/secret.sql" [x73])
  else Err "No such file or directory".

Definition demo_roots : Roots := mkRoots ["/r"].

Lemma read_bounded_witness :
  ∃ files, Forall2 (readable demo_open demo_roots) ["/r/a.sql"; "/r/b.sql"] files ∧
    [x61; x3b; x0a; x62; x0a] = concat_files files [] ∧
    (N.of_nat (length [x61; x3b; x0a; x62; x0a]) ≤ 5)%N.
Proof.
  apply (read_is_confined_and_bounded demo_open demo_roots ["/r/a.sql"; "/r/b.sql"] 5).
  vm_compute. reflexivity.
Defined.

Example demo_outside : read demo_open demo_roots ["/r/innocent.sql"] 5 =
  Err (recipe_files_refused "/r/innocent.sql is outside every --recipe-root").
Proof. vm_compute. reflexivity. Qed.
Example demo_too_large : read demo_open demo_roots ["/r/a.sql"; "/r/b.sql"] 4 =
  Err (recipe_too_large 4).
Proof. vm_compute. reflexivity. Qed.
End RecipesWitness.
