(* ===== verification/Compaction.v ===== *)
(** * Releasing a frozen guest's zero pages

    Models the second half of src/crates/servicecache/src/host/freeze.rs: the
    preparation of the scan ([Compaction::start]), one block of it
    ([scan_block], [release_pending], [is_zero]) and the sliced loop
    ([Compaction::step]).

    Addresses, lengths and page indices are [usize]s, written as [Z].  The
    kernel is a record: what [mincore] answers and whether [madvise] succeeds;
    the guest's memory maps the address of each 8-byte word to its value, and
    a successful [madvise(MADV_DONTNEED)] of an anonymous range makes it read
    zero.  A slice index out of bounds is a panic, [None]. *)

From S2P Require Import Prelude.
From Stdlib Require Import Sorted.
#[local] Open Scope Z_scope.

(** ** Data *)

Record ZeroPages : Type := mkZeroPages {
  z_memories : Z;
  z_scanned : Z;
  z_overlay : Z;
  z_resident : Z;
  z_zero : Z;
  z_released : Z;
  z_kept_blocks : Z;
  z_runs : Z;
}.

Record MemoryScan : Type := mkMemoryScan {
  base : Z;
  pages : Z;
  mappings : list (Z * Z * bool);
  extents : list (Z * Z);
  next : Z;
  pending : option (Z * Z);
}.

(** The process: the guest's words and the ranges given back so far. *)
Record World : Type := mkWorld {
  mem : Z → Z;
  log : list (Z * Z);
}.

Record Kernel : Type := mkKernel {
  (** [mincore(addr, len)]: [None] on failure, else a byte per page. *)
  mincore : Z → Z → option (list Z);
  (** Whether [madvise(addr, len, MADV_DONTNEED)] returns 0. *)
  madvise_ok : Z → Z → bool;
}.

Definition usize_max : Z := 2 ^ 64 - 1.
Definition saturating_mul (a b : Z) : Z := Z.min (a * b) usize_max.
Definition div_ceil (a b : Z) : Z := (a + b - 1) / b.

Definition set_next (m : MemoryScan) (n : Z) : MemoryScan :=
  mkMemoryScan (base m) (pages m) (mappings m) (extents m) n (pending m).
Definition set_pending (m : MemoryScan) (p : option (Z * Z)) : MemoryScan :=
  mkMemoryScan (base m) (pages m) (mappings m) (extents m) (next m) p.

Definition add_resident (t : ZeroPages) (n : Z) : ZeroPages :=
  mkZeroPages (z_memories t) (z_scanned t) (z_overlay t) (z_resident t + n) (z_zero t)
    (z_released t) (z_kept_blocks t) (z_runs t).
Definition add_zero (t : ZeroPages) (n : Z) : ZeroPages :=
  mkZeroPages (z_memories t) (z_scanned t) (z_overlay t) (z_resident t) (z_zero t + n)
    (z_released t) (z_kept_blocks t) (z_runs t).
Definition add_kept (t : ZeroPages) : ZeroPages :=
  mkZeroPages (z_memories t) (z_scanned t) (z_overlay t) (z_resident t) (z_zero t)
    (z_released t) (z_kept_blocks t + 1) (z_runs t).
Definition add_released (t : ZeroPages) (run : Z) : ZeroPages :=
  mkZeroPages (z_memories t) (z_scanned t) (z_overlay t) (z_resident t) (z_zero t)
    (z_released t + run) (z_kept_blocks t) (z_runs t + 1).

(** ** Preparing the scan *)

(** A linear memory as [wasmer_vm::linear_memories] reports it. *)
Record LinearMemory : Type := mkLinear {
  l_base : Z;
  l_len : Z;
  l_private_anonymous : bool;
  l_overlays : list (Z * Z);
}.

(** [sort_unstable] on pairs: lexicographic. *)
Definition pair_le (a b : Z * Z) : Prop := a.1 < b.1 ∨ (a.1 = b.1 ∧ a.2 ≤ b.2).
#[global] Instance pair_le_dec a b : Decision (pair_le a b).
Proof. unfold pair_le. apply _. Defined.

(** The loop that turns sorted overlays into the extents between them. *)
Fixpoint extents_loop (overlays : list (Z * Z)) (from pages : Z) : list (Z * Z) :=
  match overlays with
  | [] => if bool_decide (from < pages) then [(from, pages)] else []
  | (start, stop) :: overlays =>
      let rest := extents_loop overlays (Z.max from stop) pages in
      if bool_decide (from < start) then (from, start) :: rest else rest
  end.

Definition overlay_pages (page : Z) (l : LinearMemory) (pages : Z) : list (Z * Z) :=
  filter (λ o, o.1 < Z.min o.2 pages)
    (map (λ o, ((o.1 - l_base l) / page, div_ceil (o.1 - l_base l + o.2) page)) (l_overlays l)).

Definition mapping_pages (page : Z) (smaps : list (Z * Z * bool)) (lo hi : Z)
    : list (Z * Z * bool) :=
  map (λ m, ((Z.max m.1.1 lo - lo) / page, div_ceil (Z.min m.1.2 hi - lo) page, m.2))
    (filter (λ m, m.1.1 < hi ∧ lo < m.1.2) smaps).

Definition start_memory (page : Z) (smaps : list (Z * Z * bool)) (l : LinearMemory) : MemoryScan :=
  let pages := div_ceil (l_len l) page in
  mkMemoryScan (l_base l) pages
    (mapping_pages page smaps (l_base l) (l_base l + pages * page))
    (extents_loop (merge_sort pair_le (overlay_pages page l pages)) 0 pages)
    0 None.

Definition sum_Z (l : list Z) : Z := foldr Z.add 0 l.
Definition extent_len (m : MemoryScan) : Z := sum_Z (map (λ e, e.2 - e.1) (extents m)).

Record Compaction : Type := mkCompaction {
  page : Z;
  huge_page : Z;
  memories : list MemoryScan;
  totals : ZeroPages;
}.

(** [Compaction::start]: [page_size()], [huge_page_size()], the [smaps]
    mappings and the runtime's linear memories are what the process reads. *)
Definition compaction_start (page huge : Z) (smaps : list (Z * Z * bool))
    (linear : list LinearMemory) : Compaction :=
  let memories := map (start_memory page smaps)
    (filter (λ l, l_private_anonymous l = true ∧ 0 < l_len l) linear) in
  let scanned := sum_Z (map extent_len memories) in
  mkCompaction page huge memories
    (mkZeroPages (Z.of_nat (length memories)) scanned
       (sum_Z (map pages memories) - scanned) 0 0 0 0 0).

(** ** Scanning *)

(** [is_zero]: the words of the range. *)
Definition is_zero (m : Z → Z) (addr len : Z) : bool :=
  forallb (λ i, m (addr + 8 * i) =? 0) (seqZ 0 (len / 8)).

Definition zero_range (m : Z → Z) (addr len : Z) : Z → Z :=
  λ a, if bool_decide (addr ≤ a < addr + len) then 0 else m a.

Section scan.
Context (kernel : Kernel).

Definition release_pending (m : MemoryScan) (page : Z) (t : ZeroPages) (w : World)
    : MemoryScan * ZeroPages * World :=
  match pending m with
  | None => (m, t, w)
  | Some (start, stop) =>
      let m := set_pending m None in
      let run := stop - start in
      let addr := base m + start * page in
      if madvise_ok kernel addr (run * page) then
        (m, add_released t run,
         mkWorld (zero_range (mem w) addr (run * page)) (log w ++ [(addr, run * page)]))
      else (m, t, w)
  end.

(** The last loop of [scan_block]: gather runs of dropped pages. *)
Fixpoint release_loop (index : Z) (drop : list bool) (page : Z)
    (m : MemoryScan) (t : ZeroPages) (w : World) : MemoryScan * ZeroPages * World :=
  match drop with
  | [] => (m, t, w)
  | dropped :: drop =>
      if negb dropped then
        let '(m, t, w) := release_pending m page t w in
        release_loop (index + 1) drop page m t w
      else
        match pending m with
        | Some (s, e) =>
            if bool_decide (e = index) then
              release_loop (index + 1) drop page (set_pending m (Some (s, e + 1))) t w
            else
              let '(m, t, w) := release_pending m page t w in
              release_loop (index + 1) drop page (set_pending m (Some (index, index + 1))) t w
        | None =>
            release_loop (index + 1) drop page (set_pending m (Some (index, index + 1))) t w
        end
  end.

(** Page by page: resident and zero. *)
Fixpoint mark_pages (m : Z → Z) (addr page : Z) (resident : list Z) (t : ZeroPages)
    : list bool * ZeroPages :=
  match resident with
  | [] => ([], t)
  | byte :: resident =>
      if bool_decide (Z.land byte 1 ≠ 0) then
        let zero := is_zero m addr page in
        let t := add_zero (add_resident t 1) (if zero then 1 else 0) in
        let '(drop, t) := mark_pages m (addr + page) page resident t in
        (zero :: drop, t)
      else
        let '(drop, t) := mark_pages m (addr + page) page resident t in
        (false :: drop, t)
  end.

Definition scan_block (m : MemoryScan) (page huge : Z) (scratch : Z) (t : ZeroPages) (w : World)
    : option (MemoryScan * ZeroPages * World) :=
  match List.find (λ e, next m <? e.2) (extents m) with
  | None => Some (release_pending (set_next m (pages m)) page t w)
  | Some (start, extent_end) =>
      let '(m, t, w) :=
        if bool_decide (next m < start) then
          let '(m, t, w) := release_pending m page t w in (set_next m start, t, w)
        else (m, t, w) in
      let stop := base m + extent_end * page in
      let addr := base m + next m * page in
      let block_end := Z.min (saturating_mul (addr / huge + 1) huge) stop in
      let first := next m in
      let last := (block_end - base m) / page in
      let count := last - first in
      let spare_full_blocks :=
        match List.find (λ r, (r.1.1 <=? first) && (first <? r.1.2)) (mappings m) with
        | None => true
        | Some (_, _, huge) => huge
        end in
      (* resident[..count], drop[..count] *)
      if bool_decide (scratch < count) then None
      else match mincore kernel addr (count * page) with
      | None => Some (release_pending (set_next m (pages m)) page t w)
      | Some resident =>
          let full := spare_full_blocks && (block_end - addr =? huge) &&
                      forallb (λ byte, negb (Z.land byte 1 =? 0)) resident in
          let '(drop, t) :=
            if full then
              let zero := is_zero (mem w) addr (count * page) in
              let t := add_resident t count in
              (replicate (Z.to_nat count) zero,
               if zero then add_zero t count else add_kept t)
            else mark_pages (mem w) addr page resident t in
          let '(m, t, w) := release_loop first drop page m t w in
          let m := set_next m last in
          Some (if bool_decide (pages m ≤ next m) then release_pending m page t w else (m, t, w))
      end
  end.
End scan.

(** ** Slices *)

Definition unfinished (m : MemoryScan) : Prop := next m < pages m.
#[global] Instance unfinished_dec m : Decision (unfinished m).
Proof. unfold unfinished. apply _. Defined.

(** The loop of [Compaction::step]: [elapsed i] is whether the budget is
    spent after the [i]th block. *)
Fixpoint step_loop (kernel : Kernel) (page huge scratch : Z) (fuel : nat) (elapsed : nat → bool)
    (i : nat) (ms : list MemoryScan) (t : ZeroPages) (w : World)
    : option (list MemoryScan * ZeroPages * World) :=
  match fuel with
  | O => Some (ms, t, w)
  | S fuel =>
      match list_find unfinished ms with
      | None => Some (ms, t, w)
      | Some (j, m) =>
          match scan_block kernel m page huge scratch t w with
          | None => None
          | Some (m, t, w) =>
              let ms := <[j := m]> ms in
              if elapsed i then Some (ms, t, w)
              else step_loop kernel page huge scratch fuel elapsed (S i) ms t w
          end
      end
  end.

Definition remaining (ms : list MemoryScan) : Z := sum_Z (map (λ m, pages m - next m) ms).

(** [Compaction::step]: the fuel is the number of pages left, one of which
    every block advances over; the scratch buffers hold a block's pages. *)
Definition step (kernel : Kernel) (elapsed : nat → bool) (c : Compaction) (w : World)
    : option (Compaction * World * bool) :=
  match step_loop kernel (page c) (huge_page c) (huge_page c / page c)
          (Z.to_nat (remaining (memories c))) elapsed 0 (memories c) (totals c) w with
  | None => None
  | Some (ms, t, w) =>
      Some (mkCompaction (page c) (huge_page c) ms t, w,
            forallb (λ m, pages m <=? next m) ms)
  end.

(** The slices of a template's scan until it is done, as the control loop
    runs them: one clock per slice. *)
Fixpoint slices (kernel : Kernel) (clocks : list (nat → bool)) (c : Compaction) (w : World)
    : option (Compaction * World * bool) :=
  match clocks with
  | [] => Some (c, w, false)
  | elapsed :: clocks =>
      match step kernel elapsed c w with
      | None => None
      | Some (c, w, true) => Some (c, w, true)
      | Some (c, w, false) => slices kernel clocks c w
      end
  end.

(** ** The scan never changes what the guest reads *)

(** Extents in order, with an overlay between any two. *)
Fixpoint extents_ok (lo : Z) (es : list (Z * Z)) (hi : Z) : Prop :=
  match es with
  | [] => True
  | (s, e) :: es => lo < s ∧ s < e ∧ e ≤ hi ∧ extents_ok e es hi
  end.

Definition in_extents (es : list (Z * Z)) (p : Z) : Prop := ∃ e, e ∈ es ∧ e.1 ≤ p < e.2.

Lemma extents_ok_weaken lo lo' es hi : lo' ≤ lo → extents_ok lo es hi → extents_ok lo' es hi.
Proof. destruct es as [|[s e] es]; simpl; [done|]. intros ? (? & ? & ? & ?). split_and!; lia || done. Qed.

Lemma extents_ok_bounds lo es hi e :
  extents_ok lo es hi → e ∈ es → lo < e.1 ∧ e.1 < e.2 ∧ e.2 ≤ hi.
Proof.
  revert lo. induction es as [|[s t] es IH]; intros lo Hok Hin; [by apply elem_of_nil in Hin|].
  destruct Hok as (? & ? & ? & Hok). apply elem_of_cons in Hin as [->|Hin]; [done|].
  destruct (IH _ Hok Hin). lia.
Qed.

(** The extent found for [n] is the first that ends after it: everything
    between [n] and its start is outside every extent, and an extent reaching
    up to [n] from below is the same one. *)
Lemma find_extent lo es hi n :
  extents_ok lo es hi →
  match List.find (λ e, n <? e.2) es with
  | None => ∀ p, n ≤ p → ¬ in_extents es p
  | Some (s, e) =>
      (s, e) ∈ es ∧ n < e ∧ (∀ p, n ≤ p < s → ¬ in_extents es p) ∧
      (∀ x, x ∈ es → x.1 < n → s ≤ n → n ≤ x.2 → x.1 = s)
  end.
Proof.
  revert lo. induction es as [|[s e] es IH]; intros lo Hok.
  { simpl. intros p _ (x & Hx & _). by apply elem_of_nil in Hx. }
  destruct Hok as (Hlo & Hse & Hhi & Hok). simpl. destruct (Z.ltb_spec n e).
  - split; [by left|]. split; [done|]. split.
    + intros p Hp (x & Hx & Hb). apply elem_of_cons in Hx as [->|Hx]; simpl in *; [lia|].
      pose proof (extents_ok_bounds _ _ _ _ Hok Hx). lia.
    + intros x Hx Hn Hs Hx2. apply elem_of_cons in Hx as [->|Hx]; [done|].
      pose proof (extents_ok_bounds _ _ _ _ Hok Hx). lia.
  - specialize (IH _ Hok). destruct (List.find _ es) as [[s' e']|].
    + destruct IH as (Hin & Hn & Hgap & Huniq). split; [by right|]. split; [done|].
      pose proof (extents_ok_bounds _ _ _ _ Hok Hin) as Hb. simpl in Hb. split.
      * intros p Hp (x & Hx & Hpx). apply elem_of_cons in Hx as [->|Hx]; simpl in *; [lia|].
        by apply (Hgap p Hp); exists x.
      * intros x Hx Hn' Hs Hx2. apply elem_of_cons in Hx as [->|Hx]; simpl in *; [lia|].
        by apply Huniq.
    + intros p Hp (x & Hx & Hpx). apply elem_of_cons in Hx as [->|Hx]; simpl in *; [lia|].
      by apply (IH p Hp); exists x.
Qed.

(** All words of a range are zero. *)
Definition zero_words (m : Z → Z) (addr len : Z) : Prop :=
  ∀ a, (8 | a) → addr ≤ a < addr + len → m a = 0.

Definition same_words (w w' : World) : Prop := ∀ a, (8 | a) → mem w' a = mem w a.

Lemma same_words_refl w : same_words w w.
Proof. by intros a. Qed.

Lemma same_words_trans w1 w2 w3 : same_words w1 w2 → same_words w2 w3 → same_words w1 w3.
Proof. intros H1 H2 a Ha. by rewrite H2, H1. Qed.

Lemma same_words_sym w1 w2 : same_words w1 w2 → same_words w2 w1.
Proof. intros H a Ha. by rewrite H. Qed.

Lemma zero_words_same w w' addr len :
  same_words w w' → zero_words (mem w) addr len → zero_words (mem w') addr len.
Proof. intros Hs Hz a Ha Hr. rewrite Hs by done. by apply Hz. Qed.

Lemma is_zero_spec m addr len :
  (8 | addr) → (8 | len) → is_zero m addr len = true ↔ zero_words m addr len.
Proof.
  intros [ka Ha] [kl Hl]. unfold is_zero, zero_words. rewrite forallb_forall. split.
  - intros H a [k Hk] Hr. replace a with (addr + 8 * (k - ka)) by lia. apply Z.eqb_eq, H.
    apply list_elem_of_In, elem_of_seqZ. subst. rewrite Z.div_mul by lia. lia.
  - intros H i Hi%list_elem_of_In%elem_of_seqZ. apply Z.eqb_eq, H.
    + exists (ka + i). lia.
    + subst. rewrite Z.div_mul in Hi by lia. lia.
Qed.

Lemma zero_range_same m addr len a :
  zero_words m addr len → (8 | a) → zero_range m addr len a = m a.
Proof. unfold zero_range. intros Hz Ha. case_bool_decide; [by rewrite Hz|done]. Qed.

Section safety.
Context (kernel : Kernel) (page huge : Z).
Hypothesis page_pos : 0 < page.
Hypothesis page_words : (8 | page).
Hypothesis huge_pages : (page | huge).
Hypothesis huge_pos : 0 < huge.
(** [mincore] fills one byte per page of the range. *)
Hypothesis mincore_length : ∀ a n r, mincore kernel a (n * page) = Some r → Z.of_nat (length r) = n.

(** What does not change during the scan of a memory. *)
Definition static_ok (m : MemoryScan) : Prop :=
  (page | base m) ∧ 0 ≤ base m ∧ base m + pages m * page ≤ usize_max ∧
  extents_ok (-1) (extents m) (pages m).

Definition same_static (m m' : MemoryScan) : Prop :=
  base m' = base m ∧ pages m' = pages m ∧ mappings m' = mappings m ∧ extents m' = extents m.

(** A run of pages inside one extent, all zero. *)
Definition good_run (m : MemoryScan) (w : World) (s e : Z) : Prop :=
  s < e ∧ (∃ x, x ∈ extents m ∧ x.1 ≤ s ∧ e ≤ x.2) ∧
  zero_words (mem w) (base m + s * page) ((e - s) * page).

Definition pending_ok (m : MemoryScan) (w : World) (limit : Z) : Prop :=
  match pending m with
  | None => True
  | Some (s, e) => e ≤ limit ∧ good_run m w s e
  end.

Definition scan_ok (m : MemoryScan) (w : World) : Prop :=
  static_ok m ∧ 0 ≤ next m ≤ pages m ∧ pending_ok m w (next m).

(** A range given back to the kernel: a run of zero pages of one extent. *)
Definition released_run (m : MemoryScan) (w : World) (r : Z * Z) : Prop :=
  ∃ s e, r = (base m + s * page, (e - s) * page) ∧ good_run m w s e.

(** One part of a scan: what it may do to the process. *)
Definition quiet (m m' : MemoryScan) (w w' : World) : Prop :=
  same_static m m' ∧ same_words w w' ∧
  ∃ new, log w' = log w ++ new ∧ Forall (released_run m w) new.

Lemma same_static_refl m : same_static m m.
Proof. done. Qed.

Lemma same_static_trans m1 m2 m3 : same_static m1 m2 → same_static m2 m3 → same_static m1 m3.
Proof. unfold same_static. intuition congruence. Qed.

Lemma quiet_static m m' w : same_static m m' → quiet m m' w w.
Proof.
  intros Hs. split; [done|]. split; [apply same_words_refl|]. exists [].
  by rewrite app_nil_r.
Qed.

Lemma good_run_same m m' w w' s e :
  same_static m m' → same_words w w' → good_run m w s e → good_run m' w' s e.
Proof.
  intros (Hb & Hp & Hm & He) Hw (Hlt & Hx & Hz). unfold good_run. rewrite Hb, He.
  split_and!; [done|done|]. by eapply zero_words_same.
Qed.

Lemma quiet_trans m1 m2 m3 w1 w2 w3 :
  quiet m1 m2 w1 w2 → quiet m2 m3 w2 w3 → quiet m1 m3 w1 w3.
Proof.
  intros (Hs1 & Hw1 & n1 & L1 & F1) (Hs2 & Hw2 & n2 & L2 & F2). split_and!.
  - by eapply same_static_trans.
  - by eapply same_words_trans.
  - exists (n1 ++ n2). rewrite L2, L1, <- app_assoc. split; [done|].
    apply Forall_app. split; [done|]. eapply Forall_impl; [exact F2|].
    intros r (s & e & -> & Hg). exists s, e. destruct Hs1 as (Hb & Hp & Hm & He). split; [by rewrite Hb|].
    eapply good_run_same; [| |exact Hg].
    + unfold same_static. by rewrite Hb, Hp, Hm, He.
    + by apply same_words_sym.
Qed.

Lemma static_ok_same m m' : same_static m m' → static_ok m → static_ok m'.
Proof. intros (Hb & Hp & Hm & He). unfold static_ok. by rewrite Hb, Hp, He. Qed.

Lemma release_pending_quiet m t w limit m' t' w' :
  pending_ok m w limit →
  release_pending kernel m page t w = (m', t', w') →
  quiet m m' w w' ∧ pending m' = None ∧ next m' = next m.
Proof.
  unfold pending_ok, release_pending. destruct (pending m) as [[s e]|] eqn:Ep.
  - intros (_ & Hlt & Hx & Hz). simpl. destruct (madvise_ok _ _ _); intros [= <- <- <-].
    + split; [|done]. split; [done|]. split.
      * intros a Ha. simpl. by apply zero_range_same.
      * exists [(base m + s * page, (e - s) * page)]. split; [done|].
        constructor; [|done]. exists s, e. split; [done|]. done.
    + split; [|done]. by apply quiet_static.
  - intros _ [= <- <- <-]. split; [|done]. by apply quiet_static.
Qed.

Lemma zero_words_append m addr n k :
  zero_words m addr n → zero_words m (addr + n) k → zero_words m addr (n + k).
Proof.
  intros H1 H2 a Ha Hr. destruct (decide (a < addr + n)); [apply H1|apply H2]; done || lia.
Qed.

(** The run left pending when the gathering reaches [index]: it ends there
    at the latest, and a run that reaches [index] starts in its extent. *)
Definition carry_ok (m : MemoryScan) (w : World) (xs index : Z) : Prop :=
  pending_ok m w index ∧ ∀ s e, pending m = Some (s, e) → e = index → xs ≤ s.

Definition zero_page (m : MemoryScan) (w : World) (p : Z) : Prop :=
  zero_words (mem w) (base m + p * page) page.

Lemma carry_none m w xs index : pending m = None → carry_ok m w xs index.
Proof. unfold carry_ok, pending_ok. intros ->. done. Qed.

Lemma carry_single m w xs xe index :
  (xs, xe) ∈ extents m → xs ≤ index < xe → zero_page m w index →
  carry_ok (set_pending m (Some (index, index + 1))) w xs (index + 1).
Proof.
  intros Hin Hb Hz. split; simpl.
  - unfold pending_ok. simpl. split; [lia|]. split; [lia|]. split.
    + exists (xs, xe). simpl. split; [done|lia].
    + simpl. replace ((index + 1 - index) * page) with page by lia. done.
  - intros s e [= <- <-]. lia.
Qed.

Lemma carry_extend m w xs xe s index :
  carry_ok m w xs index → pending m = Some (s, index) →
  (xs, xe) ∈ extents m → xs ≤ index < xe → zero_page m w index →
  carry_ok (set_pending m (Some (s, index + 1))) w xs (index + 1).
Proof.
  intros [Hp Hx] Ep Hin Hb Hz. specialize (Hx _ _ Ep eq_refl).
  unfold pending_ok in Hp. rewrite Ep in Hp. destruct Hp as (_ & Hlt & _ & Hw).
  split; simpl.
  - unfold pending_ok. simpl. split; [lia|]. split; [lia|]. split.
    + exists (xs, xe). simpl. split; [done|lia].
    + simpl. replace ((index + 1 - s) * page) with ((index - s) * page + page) by lia.
      apply zero_words_append; [done|].
      replace (base m + s * page + (index - s) * page) with (base m + index * page) by lia.
      done.
  - intros s' e' [= <- <-]. lia.
Qed.

Lemma zero_page_quiet m m' w w' p : quiet m m' w w' → zero_page m w p → zero_page m' w' p.
Proof.
  intros ((Hb & _) & Hw & _) Hz. unfold zero_page. rewrite Hb. by eapply zero_words_same.
Qed.

Lemma quiet_extents m m' w w' x : quiet m m' w w' → x ∈ extents m → x ∈ extents m'.
Proof. intros ((_ & _ & _ & He) & _) Hx. by rewrite He. Qed.

Lemma release_loop_safe drop index xs xe m t w m' t' w' :
  (xs, xe) ∈ extents m → xs ≤ index → index + Z.of_nat (length drop) ≤ xe →
  carry_ok m w xs index →
  (∀ i, drop !! i = Some true → zero_page m w (index + Z.of_nat i)) →
  release_loop kernel index drop page m t w = (m', t', w') →
  quiet m m' w w' ∧ next m' = next m ∧ carry_ok m' w' xs (index + Z.of_nat (length drop)).
Proof.
  revert index m t w.
  induction drop as [|d drop IH]; intros index m t w Hin Hs He Hc Hd;
    cbn -[release_pending Z.of_nat length].
  { intros [= <- <- <-]. replace (index + Z.of_nat (length [])) with index by (simpl; lia).
    split; [by apply quiet_static|done]. }
  replace (index + Z.of_nat (length (d :: drop)))
    with (index + 1 + Z.of_nat (length drop)) in * by (rewrite length_cons; lia).
  assert (∀ m1 t1 w1, quiet m m1 w w1 → next m1 = next m → carry_ok m1 w1 xs (index + 1) →
    release_loop kernel (index + 1) drop page m1 t1 w1 = (m', t', w') →
    quiet m m' w w' ∧ next m' = next m ∧
    carry_ok m' w' xs (index + 1 + Z.of_nat (length drop))) as Hstep.
  { intros m1 t1 w1 Hq Hn Hc1 Hrun. edestruct (IH (index + 1)) as (Hq' & Hn' & Hc');
      [by eapply quiet_extents|lia|lia|exact Hc1| |exact Hrun|].
    - intros i Hi. eapply zero_page_quiet; [exact Hq|].
      replace (index + 1 + Z.of_nat i) with (index + Z.of_nat (S i)) by lia. by apply Hd.
    - split; [by eapply quiet_trans|]. by rewrite Hn', Hn. }
  destruct d; simpl negb; cbv iota.
  - assert (zero_page m w index) as Hz
      by (replace index with (index + Z.of_nat 0) by lia; by apply Hd).
    destruct (pending m) as [[s e]|] eqn:Ep.
    + case_bool_decide as Hei.
      * subst e. intros Hrun. eapply Hstep; [| |eapply carry_extend|exact Hrun]; try done || lia.
        by apply quiet_static.
      * destruct (release_pending _ _ _ _ _) as [[m1 t1] w1] eqn:Er. intros Hrun.
        eapply release_pending_quiet in Er as (Hq & Hp & Hn); [|apply Hc].
        eapply Hstep; [| |eapply carry_single|exact Hrun].
        -- eapply quiet_trans; [exact Hq|]. by apply quiet_static.
        -- done.
        -- by eapply quiet_extents.
        -- lia.
        -- by eapply zero_page_quiet.
    + intros Hrun. eapply Hstep; [| |eapply carry_single|exact Hrun]; try done || lia.
      by apply quiet_static.
  - destruct (release_pending _ _ _ _ _) as [[m1 t1] w1] eqn:Er. intros Hrun.
    eapply release_pending_quiet in Er as (Hq & Hp & Hn); [|apply Hc].
    eapply Hstep; [done|done|by apply carry_none|exact Hrun].
Qed.

Lemma mark_pages_spec m addr resident t drop t' :
  mark_pages m addr page resident t = (drop, t') →
  drop = imap (λ i byte, bool_decide (Z.land byte 1 ≠ 0) &&
                         is_zero m (addr + Z.of_nat i * page) page) resident.
Proof.
  revert addr t drop t'. induction resident as [|b r IH]; intros addr t drop t'; simpl.
  { by intros [= <- _]. }
  assert (∀ i, addr + page + Z.of_nat i * page = addr + Z.of_nat (S i) * page) as Hi by lia.
  case_bool_decide; destruct (mark_pages _ _ _ _ _) as [d t1] eqn:E; intros [= <- _];
    apply IH in E; rewrite E; simpl; f_equal; try (f_equal; lia);
    apply imap_ext; intros i x _; simpl; by rewrite Hi.
Qed.

(** The arithmetic of one block: it starts at the page [n] and ends at the
    next huge-page boundary or the end of the extent. *)
Lemma block_bounds b n e :
  (page | b) → 0 ≤ b → 0 ≤ n < e → b + e * page ≤ usize_max →
  let addr := b + n * page in
  let block_end := Z.min (saturating_mul (addr / huge + 1) huge) (b + e * page) in
  let last := (block_end - b) / page in
  n < last ≤ e ∧ last - n ≤ huge / page.
Proof.
  intros [kb Hb] Hb0 Hn He addr block_end last.
  destruct huge_pages as [kh Hh].
  assert (0 < kh) by nia.
  pose proof (Z.div_mod addr huge ltac:(lia)) as Hdm.
  pose proof (Z.mod_pos_bound addr huge huge_pos) as Hm.
  assert (block_end = Z.min ((addr / huge + 1) * huge) (b + e * page)) as Hbe.
  { unfold block_end, saturating_mul. lia. }
  set (q := addr / huge) in *.
  assert (last = Z.min ((q + 1) * kh - kb) e) as Hlast.
  { unfold last. rewrite Hbe.
    replace (Z.min ((q + 1) * huge) (b + e * page) - b)
      with (Z.min ((q + 1) * kh - kb) e * page) by (subst huge b; nia).
    by rewrite Z.div_mul by lia. }
  assert (addr = (kb + n) * page) as Ha by (unfold addr; lia).
  assert (q * kh ≤ kb + n < (q + 1) * kh) as Hq.
  { subst huge. rewrite Ha in Hdm, Hm. split; nia. }
  rewrite Hlast. replace (huge / page) with kh by (rewrite Hh, Z.div_mul; lia).
  lia.
Qed.

Lemma page_aligned b n : (page | b) → (8 | b + n * page).
Proof.
  intros Hb. apply Z.divide_add_r; [by eapply Z.divide_trans|].
  by apply Z.divide_mul_r.
Qed.

Lemma zero_words_sub m addr len addr' len' :
  addr ≤ addr' → addr' + len' ≤ addr + len → zero_words m addr len → zero_words m addr' len'.
Proof. intros ? ? Hz a Ha Hr. apply Hz; [done|lia]. Qed.

(** The pages a block drops are zero, one flag per page of it. *)
Lemma block_drop_zero m w addr n count full resident t drop t' :
  (page | base m) → addr = base m + n * page → 0 ≤ count →
  Z.of_nat (length resident) = count →
  (if full : bool then
     let zero := is_zero (mem w) addr (count * page) in
     let t := add_resident t count in
     (replicate (Z.to_nat count) zero, if zero then add_zero t count else add_kept t)
   else mark_pages (mem w) addr page resident t) = (drop, t') →
  Z.of_nat (length drop) = count ∧
  (∀ i, drop !! i = Some true → zero_page m w (n + Z.of_nat i)).
Proof.
  intros Hb -> Hc Hl. destruct full.
  - intros [= <- _]. rewrite length_replicate. split; [lia|].
    intros i [Hz Hi]%lookup_replicate. symmetry in Hz.
    apply is_zero_spec in Hz; [|by apply page_aligned|by apply Z.divide_mul_r].
    eapply zero_words_sub; [| |exact Hz]; nia.
  - intros ->%mark_pages_spec. rewrite length_imap. split; [done|].
    intros i Hi. rewrite list_lookup_imap in Hi. destruct (resident !! i); [|done].
    injection Hi as Hi. apply andb_true_iff in Hi as [_ Hz].
    replace (base m + n * page + Z.of_nat i * page) with (base m + (n + Z.of_nat i) * page)
      in Hz by lia.
    by apply is_zero_spec in Hz; [|apply page_aligned|].
Qed.

Lemma scan_ok_done m m' w w' :
  static_ok m → 0 ≤ pages m → quiet (set_next m (pages m)) m' w w' →
  pending m' = None → next m' = pages m → scan_ok m' w' ∧ quiet m m' w w'.
Proof.
  intros Hs Hp Hq Hn Hx.
  assert (quiet m m' w w') as Hq'.
  { eapply quiet_trans; [|exact Hq]. by apply quiet_static. }
  split; [|done]. destruct Hq' as (Hst & _). split; [by eapply static_ok_same|].
  destruct Hst as (_ & Hpg & _). unfold pending_ok. rewrite Hn, Hx, Hpg. split; [lia|done].
Qed.

(** Entering the extent found for [next]: the run pending from an earlier
    extent is given back first. *)
Lemma enter_extent m t w s e m' t' w' :
  scan_ok m w → List.find (λ x, next m <? x.2) (extents m) = Some (s, e) →
  (if bool_decide (next m < s) then
     let '(m, t, w) := release_pending kernel m page t w in (set_next m s, t, w)
   else (m, t, w)) = (m', t', w') →
  quiet m m' w w' ∧ (s, e) ∈ extents m' ∧ s ≤ next m' < e ∧ next m ≤ next m' ∧
  carry_ok m' w' s (next m').
Proof.
  intros (Hst & Hnx & Hpo) Hf.
  pose proof (find_extent _ _ _ (next m) (proj2 (proj2 (proj2 Hst)))) as Hfind.
  rewrite Hf in Hfind. destruct Hfind as (Hin & Hlt & _ & Huniq).
  pose proof (extents_ok_bounds _ _ _ _ (proj2 (proj2 (proj2 Hst))) Hin) as Hb. simpl in Hb.
  case_bool_decide as Hns.
  - destruct (release_pending _ _ _ _ _) as [[m1 t1] w1] eqn:Er. intros [= <- <- <-].
    eapply release_pending_quiet in Er as (Hq & Hp & Hn); [|done].
    split; [eapply quiet_trans; [exact Hq|]; by apply quiet_static|].
    split; [simpl; by eapply quiet_extents|]. simpl. split_and!; try lia. by apply carry_none.
  - intros [= <- <- <-]. split; [by apply quiet_static|]. split; [done|].
    split; [lia|]. split; [lia|]. split; [done|].
    intros s0 e0 Ep He0. unfold pending_ok in Hpo. rewrite Ep in Hpo.
    destruct Hpo as (_ & Hlt0 & (x & Hx & Hx1 & Hx2) & _).
    assert (x.1 = s) by (apply Huniq; [done|lia..]). lia.
Qed.

(** One block: it does not panic, it advances, and it is quiet. *)
Lemma scan_block_safe m t w :
  scan_ok m w → next m < pages m →
  ∃ m' t' w', scan_block kernel m page huge (huge / page) t w = Some (m', t', w') ∧
    quiet m m' w w' ∧ scan_ok m' w' ∧ next m < next m' ∧
    (next m' = pages m' → pending m' = None).
Proof.
  intros Hok Hun. pose proof Hok as (Hst & Hnx & Hpo). unfold scan_block.
  assert (∀ m0 t0 w0, quiet m m0 w w0 → pending_ok m0 w0 (next m0) →
    ∃ m' t' w', Some (release_pending kernel (set_next m0 (pages m0)) page t0 w0) =
      Some (m', t', w') ∧ quiet m m' w w' ∧ scan_ok m' w' ∧ next m < next m' ∧
      (next m' = pages m' → pending m' = None)) as Hgiveup.
  { intros m0 t0 w0 Hq0 Hp0. destruct (release_pending _ _ _ _ _) as [[m1 t1] w1] eqn:Er.
    eapply release_pending_quiet in Er as (Hq & Hp & Hn); [|exact Hp0].
    pose proof (proj1 Hq0) as (_ & Hpg & _). cbn in Hn.
    apply scan_ok_done in Hq as [Hok' Hq]; [| |lia|done|done].
    - exists m1, t1, w1. split_and!; [done|by eapply quiet_trans|done|lia|done].
    - by eapply static_ok_same; [apply Hq0|]. }
  destruct (List.find _ (extents m)) as [[s e]|] eqn:Hf;
    [|apply Hgiveup; [by apply quiet_static|done]].
  destruct (if bool_decide _ then _ else _) as [[m1 t1] w1] eqn:Hent.
  eapply enter_extent in Hent as (Hq1 & Hin & Hse & Hge & Hc); [|done|done].
  pose proof (static_ok_same _ _ (proj1 Hq1) Hst) as Hst1.
  pose proof Hst1 as (Hal & Hb0 & Hmax & Hex).
  pose proof (extents_ok_bounds _ _ _ _ Hex Hin) as Hbd. simpl in Hbd.
  cbv zeta. set (addr := base m1 + next m1 * page).
  set (block_end := Z.min _ _). set (last := (block_end - base m1) / page).
  pose proof (block_bounds (base m1) (next m1) e Hal Hb0 ltac:(lia) ltac:(nia)) as Hblk.
  cbv zeta in Hblk. fold addr in Hblk. fold block_end in Hblk. fold last in Hblk.
  rewrite bool_decide_false by lia.
  destruct (mincore kernel addr _) as [resident|] eqn:Hmc; [|apply Hgiveup; [done|apply Hc]].
  apply mincore_length in Hmc.
  destruct (if _ && _ then _ else _) as [drop t2] eqn:Hdrop.
  eapply block_drop_zero in Hdrop as [Hlen Hz]; [|done|reflexivity|lia|done].
  destruct (release_loop _ _ _ _ _ _ _) as [[m3 t3] w3] eqn:Hrl.
  eapply release_loop_safe in Hrl as (Hq3 & Hn3 & Hc3); [|exact Hin|lia|lia|done|done].
  replace (next m1 + Z.of_nat (length drop)) with last in Hc3 by lia.
  pose proof (quiet_trans _ _ _ _ _ _ Hq1 Hq3) as Hq.
  pose proof (proj1 Hq) as (_ & Hpg & _). pose proof (proj1 Hq1) as (_ & Hpg1 & _).
  destruct (bool_decide (pages (set_next m3 last) ≤ _)) eqn:Hend; simp_bool; simpl in Hend.
  - destruct (release_pending _ _ _ _ _) as [[m4 t4] w4] eqn:Er.
    eapply release_pending_quiet in Er as (Hq4 & Hp4 & Hn4); [|apply Hc3].
    assert (last = pages m3) as Hlast by lia. rewrite Hlast in Hq4. cbn in Hn4.
    apply scan_ok_done in Hq4 as [Hok4 Hq4]; [| |lia|done|congruence].
    + exists m4, t4, w4. split_and!; [done|by eapply quiet_trans|done|lia|done].
    + by eapply static_ok_same; [apply Hq|].
  - exists (set_next m3 last), t3, w3. split; [done|]. split.
    { eapply quiet_trans; [exact Hq|]. by apply quiet_static. }
    split; [|simpl; split; lia]. split; [by eapply static_ok_same; [apply Hq|]|].
    simpl. split; [lia|]. apply Hc3.
Qed.

(** *** Every resident zero page goes *)

(** A page found zero: given back, or in the run still pending. *)
Definition accounted (m : MemoryScan) (w : World) (p : Z) : Prop :=
  (∃ r, r ∈ log w ∧ r.1 ≤ base m + p * page ∧ base m + p * page + page ≤ r.1 + r.2) ∨
  (∃ s e, pending m = Some (s, e) ∧ s ≤ p < e).

Section complete.
Context (res : Z → bool).
Hypothesis madvise_works : ∀ a n, madvise_ok kernel a n = true.
Hypothesis mincore_works : ∀ a n, 0 ≤ n →
  mincore kernel a (n * page) =
    Some (map (λ i, if res (a + i * page) then 1 else 0) (seqZ 0 n)).

(** The page is in a mapping that holds a huge page, or in none that is known. *)
Definition may_be_huge (m : MemoryScan) (p : Z) : bool :=
  match List.find (λ r, (r.1.1 <=? p) && (p <? r.1.2)) (mappings m) with
  | None => true
  | Some (_, _, huge) => huge
  end.

(** The page is in a block kept whole: one as large as a huge page and aligned
    like one, which may be one, resident throughout and not zero throughout. *)
Definition kept (m : MemoryScan) (w : World) (p : Z) : Prop :=
  ∃ n, in_extents (extents m) n ∧ may_be_huge m n = true ∧
    (huge | base m + n * page) ∧ n ≤ p < n + huge / page ∧
    (∀ q, n ≤ q < n + huge / page → res (base m + q * page) = true) ∧
    ¬ zero_words (mem w) (base m + n * page) huge.

Definition complete (m : MemoryScan) (w : World) : Prop :=
  ∀ p, in_extents (extents m) p → p < next m → res (base m + p * page) = true →
    zero_page m w p → accounted m w p ∨ kept m w p.

Lemma kept_same m m' w w' p : same_static m m' → same_words w w' → kept m w p → kept m' w' p.
Proof.
  intros (Hb & _ & Hm & He) Hw (n & Hin & Hh & Hd & [] & Hr & Hz). exists n.
  unfold may_be_huge. rewrite Hb, Hm, He. split_and!; try done.
  intros Hz'. apply Hz. eapply zero_words_same; [by apply same_words_sym|exact Hz'].
Qed.

Lemma release_pending_keeps m t w m' t' w' p :
  release_pending kernel m page t w = (m', t', w') → accounted m w p → accounted m' w' p.
Proof.
  unfold release_pending. destruct (pending m) as [[s e]|] eqn:Ep; [|by intros [= <- <- <-]].
  rewrite madvise_works. intros [= <- <- <-] [(r & Hr & Hb)|(s' & e' & Hs & Hb)]; left.
  - exists r. split; [|done]. simpl. apply elem_of_app. by left.
  - rewrite Ep in Hs. injection Hs as <- <-. exists (base m + s * page, (e - s) * page).
    simpl. split; [apply elem_of_app; right; by left|]. nia.
Qed.

Lemma accounted_set m w p q :
  (∀ s e, pending m = Some (s, e) → s ≤ p < e → ∃ s' e', q = Some (s', e') ∧ s' ≤ p < e') →
  accounted m w p → accounted (set_pending m q) w p.
Proof.
  intros Hq [Hl|(s & e & Hs & Hb)]; [by left|]. right. by apply Hq in Hs.
Qed.

Lemma release_pending_none m t w m' t' w' :
  release_pending kernel m page t w = (m', t', w') → pending m' = None.
Proof.
  unfold release_pending. destruct (pending m) as [[s e]|] eqn:Ep; [|by intros [= <- <- <-]].
  rewrite madvise_works. by intros [= <- <- <-].
Qed.

Definition run_pos (m : MemoryScan) : Prop := ∀ s e, pending m = Some (s, e) → s < e.

Lemma release_loop_keeps drop index m t w m' t' w' p :
  run_pos m →
  release_loop kernel index drop page m t w = (m', t', w') →
  accounted m w p ∨ (∃ i, drop !! i = Some true ∧ p = index + Z.of_nat i) →
  accounted m' w' p.
Proof.
  revert index m t w.
  induction drop as [|d drop IH]; intros index m t w Hpos; cbn -[release_pending].
  { intros [= <- <- <-] [?|(i & Hi & _)]; [done|by rewrite lookup_nil in Hi]. }
  assert (∀ m1 t1 w1, run_pos m1 → (accounted m w p → accounted m1 w1 p) →
    (d = true → p = index → accounted m1 w1 p) →
    release_loop kernel (index + 1) drop page m1 t1 w1 = (m', t', w') →
    accounted m w p ∨ (∃ i, (d :: drop) !! i = Some true ∧ p = index + Z.of_nat i) →
    accounted m' w' p) as Hstep.
  { intros m1 t1 w1 Hp1 Hk Hd Hrun Hor. eapply IH; [exact Hp1|exact Hrun|].
    destruct Hor as [Ha|([|i] & Hi & Hp)]; [by left; apply Hk| |].
    - left. simpl in Hi. injection Hi as ->. apply Hd; [done|lia].
    - right. exists i. split; [done|lia]. }
  destruct d; simpl negb; cbv iota.
  - destruct (pending m) as [[s e]|] eqn:Ep.
    + pose proof (Hpos _ _ Ep). case_bool_decide as Hei.
      * subst e. apply Hstep.
        -- intros ? ? [= <- <-]. lia.
        -- apply accounted_set. rewrite Ep. intros ? ? [= <- <-] Hb.
           exists s, (index + 1). split; [done|lia].
        -- intros _ ->. right. exists s, (index + 1). split; [done|lia].
      * destruct (release_pending _ _ _ _ _) as [[m1 t1] w1] eqn:Er. apply Hstep.
        -- intros ? ? [= <- <-]. lia.
        -- intros Ha. apply accounted_set; [|by eapply release_pending_keeps].
           by rewrite (release_pending_none _ _ _ _ _ _ Er).
        -- intros _ ->. right. exists index, (index + 1). split; [done|lia].
    + apply Hstep.
      * intros ? ? [= <- <-]. lia.
      * apply accounted_set. by rewrite Ep.
      * intros _ ->. right. exists index, (index + 1). split; [done|lia].
  - destruct (release_pending _ _ _ _ _) as [[m1 t1] w1] eqn:Er. apply Hstep; [| |done].
    + intros s e. by rewrite (release_pending_none _ _ _ _ _ _ Er).
    + by eapply release_pending_keeps.
Qed.

Lemma scan_ok_run_pos m w n : pending_ok m w n → run_pos m.
Proof. unfold pending_ok. intros Hp s e Ep. rewrite Ep in Hp. apply Hp. Qed.

Lemma accounted_next m w p n : accounted m w p → accounted (set_next m n) w p.
Proof. done. Qed.

Lemma enter_extent_keeps m t w s m' t' w' p :
  (if bool_decide (next m < s) then
     let '(m, t, w) := release_pending kernel m page t w in (set_next m s, t, w)
   else (m, t, w)) = (m', t', w') →
  next m' = Z.max (next m) s ∧ (accounted m w p → accounted m' w' p).
Proof.
  case_bool_decide; [|intros [= <- <- <-]; split; [lia|done]].
  destruct (release_pending _ _ _ _ _) as [[m1 t1] w1] eqn:Er. intros [= <- <- <-].
  split; [simpl; lia|]. intros Ha. apply accounted_next. by eapply release_pending_keeps.
Qed.

(** A block in a mapping without huge pages drops every resident zero page. *)
Lemma block_drop_all w b n count t drop t' q :
  (page | b) → n ≤ q < n + count →
  res (b + q * page) = true → zero_words (mem w) (b + q * page) page →
  mark_pages (mem w) (b + n * page) page
    (map (λ i, if res (b + n * page + i * page) then 1 else 0) (seqZ 0 count)) t
    = (drop, t') →
  drop !! Z.to_nat (q - n) = Some true.
Proof.
  intros Hal Hq Hr Hz ->%mark_pages_spec.
  rewrite list_lookup_imap.
  assert (map (λ i, if res (b + n * page + i * page) then 1 else 0) (seqZ 0 count)
            !! Z.to_nat (q - n) = Some 1) as Hl.
  { apply list_lookup_fmap_Some. exists (q - n). split.
    - replace (b + n * page + (q - n) * page) with (b + q * page) by lia. by rewrite Hr.
    - apply lookup_seqZ. lia. }
  replace (b + n * page + Z.of_nat (Z.to_nat (q - n)) * page) with (b + q * page)
    by (rewrite Z2Nat.id; lia).
  rewrite Hl. simpl. f_equal. by apply is_zero_spec; [apply page_aligned| |].
Qed.

(** A block that is not kept whole drops every resident zero page. *)
Lemma block_drops_or_keeps m w n block_end t drop t' p :
  (page | base m) → in_extents (extents m) n →
  block_end ≤ ((base m + n * page) / huge + 1) * huge →
  let count := (block_end - base m) / page - n in
  let resident :=
    map (λ i, if res (base m + n * page + i * page) then 1 else 0) (seqZ 0 count) in
  let full := may_be_huge m n && (block_end - (base m + n * page) =? huge) &&
              forallb (λ byte, negb (Z.land byte 1 =? 0)) resident in
  (if full then
     let zero := is_zero (mem w) (base m + n * page) (count * page) in
     let t := add_resident t count in
     (replicate (Z.to_nat count) zero, if zero then add_zero t count else add_kept t)
   else mark_pages (mem w) (base m + n * page) page resident t) = (drop, t') →
  n ≤ p < n + count → res (base m + p * page) = true → zero_page m w p →
  drop !! Z.to_nat (p - n) = Some true ∨ kept m w p.
Proof.
  intros Hal Hin Hbe count resident full Hdrop Hp Hres Hz.
  destruct full eqn:Hfull; [|left; eapply block_drop_all; [exact Hal|exact Hp|done|done|exact Hdrop]].
  injection Hdrop as <- _. unfold full in Hfull.
  apply andb_true_iff in Hfull as [[Hh Hlen%Z.eqb_eq]%andb_true_iff Hall].
  rewrite forallb_forall in Hall.
  assert (count = huge / page) as Hcount.
  { unfold count. replace (block_end - base m) with (huge + n * page) by lia.
    rewrite Z.div_add by lia. lia. }
  assert (count * page = huge) as Hsize.
  { rewrite Hcount. destruct huge_pages as [k Hk]. rewrite Hk, Z.div_mul by lia. done. }
  destruct (is_zero _ _ _) eqn:Hzero; [left; apply lookup_replicate; split; [done|lia]|right].
  exists n. rewrite <- Hcount. split_and!; [done|done| |lia|lia| |].
  - pose proof (Z.mul_div_le (base m + n * page) huge ltac:(lia)).
    exists ((base m + n * page) / huge). lia.
  - intros q Hq. destruct (res (base m + q * page)) eqn:Hrq; [done|].
    assert (0 ∈ resident) as H0%list_elem_of_In%Hall; [|done].
    apply list_elem_of_fmap. exists (q - n). split; [|apply elem_of_seqZ; lia].
    replace (base m + n * page + (q - n) * page) with (base m + q * page) by lia. by rewrite Hrq.
  - rewrite <- Hsize. intros Hz'%is_zero_spec; [congruence|by apply page_aligned|by apply Z.divide_mul_r].
Qed.

Lemma scan_block_accounts m t w m' t' w' p :
  scan_ok m w → complete m w →
  scan_block kernel m page huge (huge / page) t w = Some (m', t', w') →
  in_extents (extents m) p → p < next m' → res (base m + p * page) = true →
  zero_page m w p → accounted m' w' p ∨ kept m w p.
Proof.
  intros (Hst & Hnx & Hpo) Hcm Hrun Hin Hp Hres Hz. revert Hrun. unfold scan_block.
  pose proof (find_extent _ _ _ (next m) (proj2 (proj2 (proj2 Hst)))) as Hfind.
  destruct (List.find (λ e, next m <? e.2) (extents m)) as [[s e]|] eqn:Hf.
  2:{ intros Hrun. injection Hrun as Hrun.
      assert (p < next m) as Hpn.
      { destruct (decide (p < next m)) as [|Hnp]; [done|]. exfalso. apply (Hfind p); [lia|done]. }
      destruct (Hcm p Hin Hpn Hres Hz) as [Ha|]; [left|by right].
      eapply release_pending_keeps; [exact Hrun|]. by apply accounted_next. }
  destruct Hfind as (_ & _ & Hgap & _).
  destruct (if bool_decide (next m < s) then _ else _) as [[m1 t1] w1] eqn:Hent.
  pose proof (enter_extent_keeps _ _ _ _ _ _ _ p Hent) as [Hn1 Hk1].
  eapply enter_extent in Hent as (Hq1 & Hin1 & Hse & _ & Hc); [|done|done].
  pose proof (static_ok_same _ _ (proj1 Hq1) Hst) as (Hal & Hb0 & Hmax & Hex).
  pose proof (extents_ok_bounds _ _ _ _ Hex Hin1) as Hbd. simpl in Hbd.
  pose proof (proj1 Hq1) as (Hb1 & _ & Hmp & He1). cbv zeta.
  pose proof (block_bounds (base m1) (next m1) e Hal Hb0 ltac:(lia) ltac:(nia)) as Hblk.
  cbv zeta in Hblk. set (block_end := Z.min _ _) in *.
  set (last := (block_end - base m1) / page) in *.
  rewrite bool_decide_false, mincore_works by lia. fold (may_be_huge m1 (next m1)).
  destruct (if _ && _ then _ else _) as [drop t2] eqn:Hdrop.
  destruct (release_loop _ _ _ _ _ _ _) as [[m3 t3] w3] eqn:Hrl. intros Hrun.
  assert (next m' = last) as Hn'.
  { injection Hrun as Hrun. destruct (bool_decide _); [|by injection Hrun as <- <- <-].
    revert Hrun. unfold release_pending. simpl.
    destruct (pending m3) as [[? ?]|]; simpl; [destruct (madvise_ok _ _ _)|];
      by intros [= <- <- <-]. }
  assert (accounted m3 w3 p ∨ kept m w p) as [Ha3|]; [|left|by right].
  { assert (accounted m1 w1 p ∨ drop !! Z.to_nat (p - next m1) = Some true ∧ next m1 ≤ p ∨
      kept m w p) as [Ha|[[Hd Hge]|]]; [| | |by right].
    - destruct (decide (p < next m)) as [Hold|Hnew].
      { destruct (Hcm p Hin Hold Hres Hz) as [Ha|]; [left; by apply Hk1|by right; right]. }
      assert (next m1 ≤ p) as Hge.
      { destruct (decide (p < s)) as [Hlt|]; [|lia]. exfalso. apply (Hgap p); [lia|done]. }
      right. destruct (block_drops_or_keeps m1 w1 (next m1) block_end t1 drop t2 p) as [Hd|Hk].
      + done.
      + exists (s, e). split; [done|]. simpl. lia.
      + unfold block_end, saturating_mul. lia.
      + exact Hdrop.
      + fold last. lia.
      + by rewrite Hb1.
      + by apply (zero_page_quiet _ _ _ _ _ Hq1).
      + by left.
      + right. destruct Hq1 as ((Hb & Hpg & Hm & He) & Hw & _).
        eapply kept_same; [..|exact Hk]; [by split_and!|by apply same_words_sym].
    - left. eapply release_loop_keeps; [eapply scan_ok_run_pos, Hc|exact Hrl|by left].
    - left. eapply release_loop_keeps; [eapply scan_ok_run_pos, Hc|exact Hrl|].
      right. exists (Z.to_nat (p - next m1)). split; [done|lia]. }
  injection Hrun as Hrun.
  destruct (bool_decide _); [|injection Hrun as <- <- <-; done].
  eapply release_pending_keeps; [exact Hrun|]. done.
Qed.

Lemma scan_block_complete m t w m' t' w' :
  scan_ok m w → next m < pages m → complete m w →
  scan_block kernel m page huge (huge / page) t w = Some (m', t', w') → complete m' w'.
Proof.
  intros Hok Hun Hcm Hrun p Hin Hp Hres Hz.
  destruct (scan_block_safe m t w Hok Hun) as (m2 & t2 & w2 & Hrun' & Hq & _).
  rewrite Hrun in Hrun'. injection Hrun' as <- <- <-.
  pose proof Hq as ((Hb & _ & _ & He) & Hw & _).
  assert (accounted m' w' p ∨ kept m w p) as [?|Hk]; [|by left|right].
  { eapply scan_block_accounts; [done..| | | |]; [by rewrite <- He|done|by rewrite <- Hb|].
    unfold zero_page. rewrite <- Hb. eapply zero_words_same; [|exact Hz].
    by apply same_words_sym. }
  eapply kept_same; [apply Hq|exact Hw|exact Hk].
Qed.
End complete.

(** *** The sliced loop *)

(** A part of the scan of all memories. *)
Definition quiets (ms ms' : list MemoryScan) (w w' : World) : Prop :=
  Forall2 same_static ms ms' ∧ same_words w w' ∧
  ∃ new, log w' = log w ++ new ∧
    Forall (λ r, ∃ m, m ∈ ms ∧ released_run m w r) new.

Lemma quiets_refl ms w : quiets ms ms w w.
Proof.
  split; [by apply Forall_Forall2_diag, Forall_true|]. split; [apply same_words_refl|].
  exists []. by rewrite app_nil_r.
Qed.

Lemma released_run_same m m' w w' r :
  same_static m m' → same_words w w' → released_run m' w' r → released_run m w r.
Proof.
  intros Hs Hw (s & e & -> & Hg). exists s, e. destruct Hs as (Hb & Hp & Hm & He).
  split; [by rewrite Hb|]. eapply good_run_same; [| |exact Hg].
  - unfold same_static. by rewrite Hb, Hp, Hm, He.
  - by apply same_words_sym.
Qed.

Lemma quiets_trans ms1 ms2 ms3 w1 w2 w3 :
  quiets ms1 ms2 w1 w2 → quiets ms2 ms3 w2 w3 → quiets ms1 ms3 w1 w3.
Proof.
  intros (Hs1 & Hw1 & n1 & L1 & F1) (Hs2 & Hw2 & n2 & L2 & F2). split_and!.
  - assert (Transitive same_static) by (intros ???; apply same_static_trans). by etrans.
  - by eapply same_words_trans.
  - exists (n1 ++ n2). rewrite L2, L1, <- app_assoc. split; [done|].
    apply Forall_app. split; [done|]. eapply Forall_impl; [exact F2|].
    intros r (m2 & Hin & Hr). apply list_elem_of_lookup in Hin as [i Hi].
    eapply Forall2_lookup_r in Hs1 as (m1 & Hm1 & Hs); [|exact Hi].
    exists m1. split; [by eapply list_elem_of_lookup_2|by eapply released_run_same].
Qed.

Lemma quiet_quiets ms j m m' w w' :
  ms !! j = Some m → quiet m m' w w' → quiets ms (<[j := m']> ms) w w'.
Proof.
  intros Hj (Hs & Hw & new & Hl & Hn). split_and!; [|done|].
  - apply Forall2_same_length_lookup. rewrite length_insert. split; [done|].
    intros i x y Hx Hy. destruct (decide (j = i)) as [->|Hne].
    + rewrite list_lookup_insert_eq in Hy by (by eapply lookup_lt_Some). by simplify_eq.
    + rewrite list_lookup_insert_ne in Hy by done. by simplify_eq.
  - exists new. split; [done|]. eapply Forall_impl; [exact Hn|].
    intros r Hr. exists m. split; [by eapply list_elem_of_lookup_2|done].
Qed.

Lemma remaining_insert ms j m m' :
  ms !! j = Some m → pages m' = pages m →
  remaining (<[j := m']> ms) = remaining ms - (next m' - next m).
Proof.
  unfold remaining. revert j. induction ms as [|x ms IH]; intros [|j] Hj Hp; try done.
  - injection Hj as ->. simpl. lia.
  - simpl in Hj |- *. rewrite (IH j Hj Hp). lia.
Qed.

Lemma remaining_none ms :
  Forall (λ m, next m ≤ pages m) ms → remaining ms ≤ 0 → Forall (λ m, ¬ unfinished m) ms.
Proof.
  assert (∀ ms, Forall (λ m, next m ≤ pages m) ms → 0 ≤ remaining ms) as Hpos.
  { induction 1; unfold remaining in *; simpl in *; lia. }
  unfold unfinished. intros Hle. induction Hle as [|m ms Hm Hle IH]; intros Hr; [done|].
  pose proof (Hpos ms Hle). unfold remaining in *. simpl in Hr. constructor; [lia|].
  apply IH. lia.
Qed.

Section loop.
(** What every memory satisfies: kept by a block for the memory it scans,
    and by the blocks of the others. *)
Context (J : MemoryScan → World → Prop).
Hypothesis J_block : ∀ m t w, J m w → next m < pages m →
  ∃ m' t' w', scan_block kernel m page huge (huge / page) t w = Some (m', t', w') ∧
    quiet m m' w w' ∧ J m' w' ∧ next m < next m'.
Hypothesis J_frame : ∀ m w w',
  J m w → same_words w w' → log w `prefix_of` log w' → J m w'.

Hypothesis J_le : ∀ m w, J m w → next m ≤ pages m.

Lemma step_loop_inv fuel elapsed i ms t w :
  Forall (λ m, J m w) ms →
  ∃ ms' t' w', step_loop kernel page huge (huge / page) fuel elapsed i ms t w =
      Some (ms', t', w') ∧
    quiets ms ms' w w' ∧ Forall (λ m, J m w') ms' ∧ remaining ms' ≤ remaining ms ∧
    (remaining ms ≤ Z.of_nat fuel →
     Forall (λ m, ¬ unfinished m) ms' ∨
     ((∃ k, elapsed k = true) ∧ remaining ms' < remaining ms)).
Proof.
  revert i ms t w. induction fuel as [|fuel IH]; intros i ms t w HJ; cbn -[Z.of_nat].
  - exists ms, t, w. split_and!; [done|apply quiets_refl|done|done|].
    intros Hr. left. apply remaining_none; [|lia].
    eapply Forall_impl; [exact HJ|]. intros x. apply J_le.
  - destruct (list_find unfinished ms) as [[j m]|] eqn:Hf.
    2:{ exists ms, t, w. apply list_find_None in Hf.
        split_and!; [done|apply quiets_refl|done|done|by left]. }
    apply list_find_Some in Hf as (Hj & Hun & _).
    pose proof (proj1 (Forall_lookup _ _) HJ _ _ Hj) as HJm.
    destruct (J_block m t w HJm Hun) as (m1 & t1 & w1 & -> & Hq & HJ1 & Hadv).
    pose proof (quiet_quiets _ _ _ _ _ _ Hj Hq) as Hqs.
    pose proof Hq as ((_ & Hpg & _) & Hw & new & Hlog & _).
    pose proof (remaining_insert _ _ _ _ Hj Hpg) as Hrem.
    assert (Forall (λ m, J m w1) (<[j := m1]> ms)) as HJs.
    { apply Forall_insert; [|done]. eapply Forall_impl; [exact HJ|].
      intros x Hx. eapply J_frame; [exact Hx|done|]. rewrite Hlog. by apply prefix_app_r. }
    destruct (elapsed i) eqn:Hel.
    + exists (<[j := m1]> ms), t1, w1. split_and!; [done|done|done|lia|].
      intros _. right. split; [by exists i|lia].
    + destruct (IH (S i) (<[j := m1]> ms) t1 w1 HJs)
        as (ms2 & t2 & w2 & Hrun & Hq2 & HJ2 & Hr2 & Hend).
      exists ms2, t2, w2. split_and!; [done|by eapply quiets_trans|done|lia|].
      intros Hfuel. destruct Hend as [?|[? ?]]; [lia|by left|right]. split; [done|lia].
Qed.

Lemma step_inv elapsed c w :
  Compaction.page c = page → huge_page c = huge → Forall (λ m, J m w) (memories c) →
  ∃ c' w' done, step kernel elapsed c w = Some (c', w', done) ∧
    Compaction.page c' = page ∧ huge_page c' = huge ∧
    quiets (memories c) (memories c') w w' ∧ Forall (λ m, J m w') (memories c') ∧
    (done = true → Forall (λ m, ¬ unfinished m) (memories c')) ∧
    (done = false → remaining (memories c') < remaining (memories c)).
Proof.
  intros Hp Hh HJ. unfold step. rewrite Hp, Hh.
  destruct (step_loop_inv (Z.to_nat (remaining (memories c))) elapsed 0 (memories c)
              (totals c) w HJ) as (ms & t & w' & -> & Hq & HJ' & _ & Hend).
  eexists _, w', _. split; [reflexivity|]. simpl. split_and!; try done.
  - intros Hd. rewrite forallb_forall in Hd. apply Forall_forall. intros m Hm.
    unfold unfinished. apply list_elem_of_In, Hd in Hm. apply Z.leb_le in Hm. lia.
  - intros Hd. destruct Hend as [Hf|[_ Hlt]]; [lia| |done].
    exfalso. apply not_true_iff_false in Hd. apply Hd, forallb_forall.
    intros m Hm%list_elem_of_In. rewrite Forall_forall in Hf. apply Hf in Hm.
    unfold unfinished in Hm. apply Z.leb_le. lia.
Qed.

Lemma remaining_nonneg w ms : Forall (λ m, J m w) ms → 0 ≤ remaining ms.
Proof.
  unfold remaining. induction 1 as [|m ms Hm _ IH]; simpl; [done|].
  apply J_le in Hm. lia.
Qed.

Lemma slices_inv clocks c w :
  Compaction.page c = page → huge_page c = huge → Forall (λ m, J m w) (memories c) →
  ∃ c' w' done, slices kernel clocks c w = Some (c', w', done) ∧
    quiets (memories c) (memories c') w w' ∧ Forall (λ m, J m w') (memories c') ∧
    (remaining (memories c) < Z.of_nat (length clocks) → done = true) ∧
    (done = true → Forall (λ m, ¬ unfinished m) (memories c')).
Proof.
  revert c w. induction clocks as [|elapsed clocks IH]; intros c w Hp Hh HJ; cbn -[Z.of_nat].
  { exists c, w, false. split_and!; [done|apply quiets_refl|done| |done].
    pose proof (remaining_nonneg _ _ HJ). simpl. lia. }
  destruct (step_inv elapsed c w Hp Hh HJ)
    as (c1 & w1 & d & -> & Hp1 & Hh1 & Hq1 & HJ1 & Hd & Hlt).
  destruct d; [exists c1, w1, true; split_and!; [done|done|done|done|by apply Hd]|].
  destruct (IH c1 w1 Hp1 Hh1 HJ1) as (c2 & w2 & d & -> & Hq2 & HJ2 & Hd2 & Hf).
  exists c2, w2, d. split_and!; [done|by eapply quiets_trans|done| |done].
  intros Hl. apply Hd2. specialize (Hlt eq_refl). lia.
Qed.
End loop.

(** *** What a scan of any memory keeps *)

Definition scan_inv (m : MemoryScan) (w : World) : Prop :=
  scan_ok m w ∧ (next m = pages m → pending m = None).

Lemma scan_inv_block m t w : scan_inv m w → next m < pages m →
  ∃ m' t' w', scan_block kernel m page huge (huge / page) t w = Some (m', t', w') ∧
    quiet m m' w w' ∧ scan_inv m' w' ∧ next m < next m'.
Proof.
  intros [Hok _] Hun. destruct (scan_block_safe m t w Hok Hun)
    as (m' & t' & w' & Hrun & Hq & Hok' & Hadv & Hend).
  exists m', t', w'. by split_and!.
Qed.

Lemma scan_inv_frame m w w' : scan_inv m w → same_words w w' → scan_inv m w'.
Proof.
  intros [(Hst & Hn & Hp) He] Hw. split; [|done]. split; [done|]. split; [done|].
  unfold pending_ok in *. destruct (pending m) as [[s e]|]; [|done].
  split; [apply Hp|]. eapply good_run_same; [apply same_static_refl|done|apply Hp].
Qed.

Lemma scan_inv_le m w : scan_inv m w → next m ≤ pages m.
Proof. intros [(_ & Hn & _) _]. lia. Qed.

Section everything.
Context (res : Z → bool).
Hypothesis madvise_works : ∀ a n, madvise_ok kernel a n = true.
Hypothesis mincore_works : ∀ a n, 0 ≤ n →
  mincore kernel a (n * page) =
    Some (map (λ i, if res (a + i * page) then 1 else 0) (seqZ 0 n)).

Definition full_inv (m : MemoryScan) (w : World) : Prop :=
  scan_inv m w ∧ complete res m w.

Lemma full_inv_block m t w : full_inv m w → next m < pages m →
  ∃ m' t' w', scan_block kernel m page huge (huge / page) t w = Some (m', t', w') ∧
    quiet m m' w w' ∧ full_inv m' w' ∧ next m < next m'.
Proof.
  intros (Hinv & Hcm) Hun. destruct (scan_inv_block m t w Hinv Hun)
    as (m' & t' & w' & Hrun & Hq & Hinv' & Hadv).
  exists m', t', w'. split_and!; try done. split; [done|].
  eapply scan_block_complete; [exact madvise_works|exact mincore_works| | | |exact Hrun];
    try done. apply Hinv.
Qed.

Lemma full_inv_frame m w w' :
  full_inv m w → same_words w w' → log w `prefix_of` log w' → full_inv m w'.
Proof.
  intros (Hinv & Hcm) Hw [k Hl]. split; [by eapply scan_inv_frame|].
  intros p Hin Hp Hr Hz. destruct (Hcm p Hin Hp Hr) as [[(r & Hr' & Hb)|Hpend]|Hk].
  - eapply zero_words_same; [by apply same_words_sym|exact Hz].
  - left. left. exists r. rewrite Hl. split; [|done]. apply elem_of_app. by left.
  - left. by right.
  - right. eapply kept_same; [by apply same_static_refl|exact Hw|exact Hk].
Qed.

Lemma full_inv_done m w p :
  full_inv m w → ¬ unfinished m → in_extents (extents m) p → res (base m + p * page) = true →
  zero_page m w p →
  (∃ r, r ∈ log w ∧ r.1 ≤ base m + p * page ∧ base m + p * page + page ≤ r.1 + r.2) ∨
  kept res m w p.
Proof.
  intros (((Hst & Hn & _) & Hend) & Hcm) Hun Hin Hr Hz. unfold unfinished in Hun.
  assert (pending m = None) as Hp by (apply Hend; lia).
  destruct Hin as (x & Hx & Hb).
  pose proof (extents_ok_bounds _ _ _ _ (proj2 (proj2 (proj2 Hst))) Hx).
  destruct (Hcm p) as [[?|(s & e & Hs & _)]|?]; [by exists x|lia|done|done|by left| |by right].
  by rewrite Hp in Hs.
Qed.
End everything.

End safety.

(** ** Where the scan looks *)

#[global] Instance pair_le_total : Total pair_le.
Proof. intros [a b] [c d]. unfold pair_le. simpl. lia. Qed.

#[global] Instance pair_le_trans : Transitive pair_le.
Proof. intros [a b] [c d] [e f]. unfold pair_le. simpl. lia. Qed.

(** The extents are the pages outside every overlay, in order. *)
Lemma extents_loop_ok overlays from pages :
  StronglySorted pair_le overlays → Forall (λ o, o.1 < Z.min o.2 pages) overlays →
  extents_ok (from - 1) (extents_loop overlays from pages) pages.
Proof.
  revert from. induction overlays as [|[s e] os IH]; intros from Hs Hf; simpl.
  { case_bool_decide; simpl; lia. }
  apply StronglySorted_inv in Hs as [Hs _]. apply Forall_cons in Hf as [He Hf]. simpl in He.
  specialize (IH (Z.max from e) Hs Hf). case_bool_decide; [|eapply extents_ok_weaken; [|done]; lia].
  simpl. split_and!; try lia. eapply extents_ok_weaken; [|done]. lia.
Qed.

Lemma extents_loop_spec overlays from pages p :
  StronglySorted pair_le overlays →
  in_extents (extents_loop overlays from pages) p →
  from ≤ p ∧ Forall (λ o, p < o.1 ∨ o.2 ≤ p) overlays.
Proof.
  revert from. induction overlays as [|[s e] os IH]; intros from Hs; simpl.
  { case_bool_decide; intros (x & Hx & Hb).
    - apply list_elem_of_singleton in Hx as ->. simpl in *. split; [lia|done].
    - by apply elem_of_nil in Hx. }
  apply StronglySorted_inv in Hs as [Hs Hle].
  assert (in_extents (extents_loop os (Z.max from e) pages) p →
    from ≤ p ∧ Forall (λ o, p < o.1 ∨ o.2 ≤ p) ((s, e) :: os)) as Hrest.
  { intros [Hp Hos]%IH; [|done]. split; [lia|]. constructor; [simpl; lia|done]. }
  case_bool_decide; [|done]. intros (x & Hx & Hb).
  apply elem_of_cons in Hx as [->|Hx]; [|apply Hrest; by exists x].
  simpl in Hb. split; [lia|]. constructor; [simpl; lia|].
  eapply Forall_impl; [exact Hle|]. intros o [?|?]; simpl in *; lia.
Qed.

Lemma extents_loop_covers overlays from pages p :
  StronglySorted pair_le overlays → from ≤ p < pages →
  Forall (λ o, p < o.1 ∨ o.2 ≤ p) overlays → in_extents (extents_loop overlays from pages) p.
Proof.
  revert from. induction overlays as [|[s e] os IH]; intros from Hs Hp Hf; simpl.
  { rewrite bool_decide_true by lia. exists (from, pages). split; [by left|done]. }
  apply StronglySorted_inv in Hs as [Hs Hle]. apply Forall_cons in Hf as [He Hf]. simpl in He.
  destruct (decide (p < s)).
  - rewrite bool_decide_true by lia. exists (from, s). split; [by left|simpl; lia].
  - destruct (IH (Z.max from e) Hs ltac:(lia) Hf) as (x & Hx & Hb).
    exists x. split; [|done]. case_bool_decide; [by right|done].
Qed.

Section memories.
Context (page : Z).
Hypothesis page_pos : 0 < page.

(** What [wasmer_vm::linear_memories] reports: memories at page boundaries
    of the address space, with their overlays inside them. *)
Definition linear_ok (l : LinearMemory) : Prop :=
  (page | l_base l) ∧ 0 ≤ l_base l ∧
  l_base l + div_ceil (l_len l) page * page ≤ usize_max ∧
  Forall (λ o, l_base l ≤ o.1 ∧ 0 < o.2) (l_overlays l).

Definition sorted_overlays (l : LinearMemory) : list (Z * Z) :=
  merge_sort pair_le (overlay_pages page l (div_ceil (l_len l) page)).

Lemma sorted_overlays_sorted l : StronglySorted pair_le (sorted_overlays l).
Proof. apply StronglySorted_merge_sort; apply _. Qed.

Lemma sorted_overlays_elem l o :
  o ∈ sorted_overlays l ↔ o ∈ overlay_pages page l (div_ceil (l_len l) page).
Proof. unfold sorted_overlays. by rewrite (merge_sort_Permutation pair_le). Qed.

Lemma start_extents_ok l smaps :
  extents_ok (-1) (extents (start_memory page smaps l)) (div_ceil (l_len l) page).
Proof.
  apply (extents_loop_ok _ 0); [apply sorted_overlays_sorted|].
  apply Forall_forall. intros o Ho%sorted_overlays_elem. unfold overlay_pages in Ho.
  by apply list_elem_of_filter in Ho as [? _].
Qed.

(** A page of an extent shares no byte with an overlay. *)
Lemma extent_overlay_disjoint l smaps p o :
  in_extents (extents (start_memory page smaps l)) p → linear_ok l → o ∈ l_overlays l →
  l_base l + p * page + page ≤ o.1 ∨ o.1 + o.2 ≤ l_base l + p * page.
Proof.
  intros Hin (_ & _ & _ & Hov) Ho. pose proof Hin as Hin2.
  destruct Hin2 as (x & Hx & Hxb).
  pose proof (extents_ok_bounds _ _ _ _ (start_extents_ok l smaps) Hx) as Hbd.
  apply extents_loop_spec in Hin as [Hp Hf]; [|apply sorted_overlays_sorted].
  rewrite Forall_forall in Hov. destruct (Hov _ Ho) as [Hb Hl].
  set (s := (o.1 - l_base l) / page). set (e := div_ceil (o.1 - l_base l + o.2) page).
  assert (s * page ≤ o.1 - l_base l < (s + 1) * page).
  { unfold s. pose proof (Z.div_mod (o.1 - l_base l) page ltac:(lia)).
    pose proof (Z.mod_pos_bound (o.1 - l_base l) page page_pos). lia. }
  assert (o.1 - l_base l + o.2 ≤ e * page).
  { unfold e, div_ceil. set (y := o.1 - l_base l + o.2).
    pose proof (Z.div_mod (y + page - 1) page ltac:(lia)).
    pose proof (Z.mod_pos_bound (y + page - 1) page page_pos). lia. }
  destruct (decide (s < Z.min e (div_ceil (l_len l) page))) as [Hlt|Hge].
  - rewrite Forall_forall in Hf. destruct (Hf (s, e)) as [?|?]; simpl in *.
    + apply sorted_overlays_elem. apply list_elem_of_filter. split; [done|].
      apply list_elem_of_fmap. by exists o.
    + left. nia.
    + right. nia.
  - assert (e ≤ s ∨ div_ceil (l_len l) page ≤ s) as [?|?] by lia; [|left; nia].
    destruct (decide (p < s)); [left; nia|right; nia].
Qed.

Lemma start_scan_inv l smaps w :
  linear_ok l → 0 < l_len l → scan_inv page (start_memory page smaps l) w.
Proof.
  intros (Ha & Hb & Hm & _) Hl.
  assert (0 < div_ceil (l_len l) page).
  { unfold div_ceil. apply Z.div_str_pos. lia. }
  split; [|simpl; lia]. split; [|simpl; split; [lia|done]].
  split_and!; [done|done|done|]. apply start_extents_ok.
Qed.

(** The mappings of [smaps] cover the memory and hold no huge page. *)
Definition smaps_plain (smaps : list (Z * Z * bool)) (l : LinearMemory) : Prop :=
  Forall (λ m, m.2 = false) smaps ∧
  ∀ a, l_base l ≤ a < l_base l + div_ceil (l_len l) page * page →
    ∃ m, m ∈ smaps ∧ m.1.1 ≤ a < m.1.2.

Lemma start_no_huge l smaps p :
  smaps_plain smaps l → in_extents (extents (start_memory page smaps l)) p →
  may_be_huge (start_memory page smaps l) p = false.
Proof.
  intros [Hplain Hcov] (x & Hx & Hb). unfold may_be_huge.
  pose proof (extents_ok_bounds _ _ _ _ (start_extents_ok l smaps) Hx) as Hbd.
  set (hi := l_base l + div_ceil (l_len l) page * page).
  destruct (Hcov (l_base l + p * page)) as (m & Hm & Hmb); [nia|].
  assert (Forall (λ r, r.2 = false) (mappings (start_memory page smaps l))) as Hall.
  { apply Forall_forall. intros r Hr. apply list_elem_of_fmap in Hr as (m' & -> & Hm').
    apply list_elem_of_filter in Hm' as [_ Hm']. rewrite Forall_forall in Hplain.
    exact (Hplain _ Hm'). }
  destruct (List.find _ _) as [[[a b] h]|] eqn:Hf.
  - apply find_some in Hf as [Hin _]. apply list_elem_of_In in Hin.
    rewrite Forall_forall in Hall. exact (Hall _ Hin).
  - exfalso. assert (∃ r, r ∈ mappings (start_memory page smaps l) ∧ r.1.1 ≤ p < r.1.2)
      as (r & Hr & Hrb).
    { exists ((Z.max m.1.1 (l_base l) - l_base l) / page,
              div_ceil (Z.min m.1.2 hi - l_base l) page, m.2).
      split.
      - apply list_elem_of_fmap. exists m. split; [done|].
        apply list_elem_of_filter. split; [|done]. fold hi. nia.
      - simpl. split.
        + apply Z.div_le_upper_bound; nia.
        + unfold div_ceil. apply Z.lt_le_trans with (p + 1); [lia|].
          apply Z.div_le_lower_bound; [done|]. unfold hi. nia. }
    apply list_elem_of_In in Hr. eapply find_none in Hf; [|exact Hr].
    apply andb_false_iff in Hf as [Hf|Hf]; [apply Z.leb_gt in Hf|apply Z.ltb_ge in Hf]; lia.
Qed.
End memories.

(** Page and huge-page sizes of a host, and a [mincore] that fills one byte
    per page. *)
Definition sizes_ok (page huge : Z) : Prop :=
  0 < page ∧ (8 | page) ∧ (page | huge) ∧ 0 < huge.

Definition mincore_fills (kernel : Kernel) (page : Z) : Prop :=
  ∀ a n r, mincore kernel a (n * page) = Some r → Z.of_nat (length r) = n.

(** A byte range inside a private anonymous memory, clear of its overlays. *)
Definition anonymous_range (page : Z) (linear : list LinearMemory) (r : Z * Z) : Prop :=
  ∃ l, l ∈ linear ∧ l_private_anonymous l = true ∧ 0 < r.2 ∧
    l_base l ≤ r.1 ∧ r.1 + r.2 ≤ l_base l + div_ceil (l_len l) page * page ∧
    Forall (λ o, r.1 + r.2 ≤ o.1 ∨ o.1 + o.2 ≤ r.1) (l_overlays l).

Definition scanned_memories (linear : list LinearMemory) : list LinearMemory :=
  filter (λ l, l_private_anonymous l = true ∧ 0 < l_len l) linear.

(** A run of pages of one extent is clear of an overlay as a whole. *)
Lemma released_anonymous page smaps linear w r m :
  0 < page → Forall (linear_ok page) linear →
  m ∈ map (start_memory page smaps) (scanned_memories linear) →
  released_run page m w r →
  anonymous_range page linear r ∧ zero_words (mem w) r.1 r.2.
Proof.
  intros Hpg Hl Hm (s & e & -> & Hlt & ([xs xe] & Hx & Hxs & Hxe) & Hz). simpl in *.
  apply list_elem_of_fmap in Hm as (l & -> & Hin).
  apply list_elem_of_filter in Hin as [[Hpa Hlen] Hin].
  rewrite Forall_forall in Hl. pose proof (Hl _ Hin) as Hok.
  pose proof (extents_ok_bounds _ _ _ _ (start_extents_ok page l smaps) Hx) as Hb. simpl in Hb.
  split; [|done]. exists l. simpl. split_and!; [done|done|nia|nia|nia|].
  apply Forall_forall. intros o Ho.
  assert (∀ p, s ≤ p < e → l_base l + p * page + page ≤ o.1 ∨ o.1 + o.2 ≤ l_base l + p * page)
    as Hdis.
  { intros p Hp. eapply (extent_overlay_disjoint page Hpg l smaps); [|done|done].
    exists (xs, xe). split; [done|]. simpl. lia. }
  assert (0 < o.2) as Hlo.
  { destruct Hok as (_ & _ & _ & Hov). rewrite Forall_forall in Hov. by apply Hov in Ho as [_ ?]. }
  destruct (decide (l_base l + s * page + (e - s) * page ≤ o.1)) as [|Hno]; [by left|right].
  (* the last page of the run starts after the overlay; so does every earlier one *)
  cut (∀ k : nat, s < e - Z.of_nat k → o.1 + o.2 ≤ l_base l + (e - 1 - Z.of_nat k) * page).
  { intros Hk. specialize (Hk (Z.to_nat (e - s - 1)) ltac:(lia)).
    replace (e - 1 - Z.of_nat (Z.to_nat (e - s - 1))) with s in Hk by lia. done. }
  intros k Hk. induction k as [|k IH].
  - destruct (Hdis (e - 1) ltac:(lia)) as [?|?]; [nia|lia].
  - specialize (IH ltac:(lia)). destruct (Hdis (e - 1 - Z.of_nat (S k)) ltac:(lia)) as [?|?]; [nia|done].
Qed.

(** C2: Releasing the zero pages of a frozen guest is invisible to it.  However
    the scan is cut into slices, whatever [mincore] answers and whichever
    [madvise] calls fail, no slice indexes its scratch buffers out of bounds,
    every word of memory reads as before, and every range given back lies in
    one private anonymous memory, clear of its shared-file overlays, and held
    only zeros.  A clone forked between two slices therefore sees the
    template's memory exactly as it was frozen. *)
Theorem compaction_is_invisible kernel page huge smaps linear clocks w :
  sizes_ok page huge → mincore_fills kernel page → Forall (linear_ok page) linear →
  ∃ c w' done,
    slices kernel clocks (compaction_start page huge smaps linear) w = Some (c, w', done) ∧
    same_words w w' ∧
    ∃ new, log w' = log w ++ new ∧
      Forall (λ r, anonymous_range page linear r ∧ zero_words (mem w) r.1 r.2) new.
Proof.
  intros (Hp & H8 & Hd & Hh) Hmc Hl.
  destruct (slices_inv kernel page huge (scan_inv page)
    (scan_inv_block kernel page huge Hp H8 Hd Hh Hmc)
    (λ m w w' H1 H2 _, scan_inv_frame page m w w' H1 H2)
    (scan_inv_le page) clocks (compaction_start page huge smaps linear) w)
    as (c & w' & fin & Hrun & (_ & Hw & new & Hlog & Hnew) & _); [done|done| |].
  - apply Forall_forall. intros m Hm. apply list_elem_of_fmap in Hm as (l & -> & Hin).
    apply list_elem_of_filter in Hin as [[_ Hlen] Hin]. rewrite Forall_forall in Hl.
    apply start_scan_inv; [done|by apply Hl|done].
  - exists c, w', fin. split; [done|]. split; [done|]. exists new. split; [done|].
    eapply Forall_impl; [exact Hnew|]. intros r (m & Hm & Hr).
    exact (released_anonymous page smaps linear w r m Hp Hl Hm Hr).
Qed.

(** C31: The scan ends and gives back what it means to.  With one slice more
    than the guest has pages, whatever each slice's budget, the scan reports
    done.  When the kernel's calls succeed, every resident page that is zero and
    outside the overlays has then been given back, except in a block kept whole:
    one of the size and alignment of a huge page, resident throughout, not zero
    throughout, whose mapping holds huge pages or is not known.  A memory all of
    whose mappings are known and hold none keeps no such page. *)
Theorem compaction_releases_every_zero_page kernel page huge (res : Z → bool) smaps
    linear clocks w :
  sizes_ok page huge → Forall (linear_ok page) linear →
  (∀ a n, madvise_ok kernel a n = true) →
  (∀ a n, mincore kernel a (n * page) =
     if bool_decide (0 ≤ n) then Some (map (λ i, if res (a + i * page) then 1 else 0) (seqZ 0 n))
     else None) →
  sum_Z (map (λ l : LinearMemory, div_ceil (l_len l) page) (scanned_memories linear))
    < Z.of_nat (length clocks) →
  ∃ c w',
    slices kernel clocks (compaction_start page huge smaps linear) w = Some (c, w', true) ∧
    ∀ l p, l ∈ scanned_memories linear → 0 ≤ p < div_ceil (l_len l) page →
      Forall (λ o : Z * Z, p < o.1 ∨ o.2 ≤ p) (overlay_pages page l (div_ceil (l_len l) page)) →
      res (l_base l + p * page) = true →
      zero_words (mem w) (l_base l + p * page) page →
      (∃ r, r ∈ log w' ∧ r.1 ≤ l_base l + p * page ∧ l_base l + p * page + page ≤ r.1 + r.2) ∨
      (kept page huge res (start_memory page smaps l) w p ∧ ¬ smaps_plain page smaps l).
Proof.
  intros (Hp & H8 & Hd & Hh) Hl Hma Hmc Hlen.
  assert (mincore_fills kernel page) as Hmf.
  { intros a n r. rewrite Hmc. case_bool_decide; [|done]. intros [= <-].
    rewrite length_map, length_seqZ. lia. }
  assert (∀ a n, 0 ≤ n → mincore kernel a (n * page) =
    Some (map (λ i, if res (a + i * page) then 1 else 0) (seqZ 0 n))) as Hmw.
  { intros a n Hn. by rewrite Hmc, bool_decide_true. }
  destruct (slices_inv kernel page huge (full_inv page huge res)
    (full_inv_block kernel page huge Hp H8 Hd Hh Hmf res Hma Hmw)
    (full_inv_frame page huge res)
    (λ m w H, scan_inv_le page m w (proj1 H)) clocks (compaction_start page huge smaps linear) w)
    as (c & w' & fin & Hrun & (Hst & Hw & _) & Hinv & Hdone & Hfin); [done|done| |].
  { apply Forall_forall. intros m Hm. apply list_elem_of_fmap in Hm as (l & -> & Hin).
    apply list_elem_of_filter in Hin as [[_ Hll] Hin]. rewrite Forall_forall in Hl.
    split; [apply start_scan_inv; [done|by apply Hl|done]|].
    intros p (x & Hx & Hb) Hn. simpl in Hn.
    pose proof (extents_ok_bounds _ _ _ _ (start_extents_ok page l smaps) Hx). lia. }
  assert (fin = true) as ->.
  { apply Hdone. eapply Z.le_lt_trans; [|exact Hlen]. unfold remaining, compaction_start. simpl.
    rewrite map_map. unfold scanned_memories. simpl.
    apply Z.eq_le_incl. f_equal. apply map_ext. intros l. lia. }
  exists c, w'. split; [done|]. intros l p Hin Hb Hov Hr Hz.
  specialize (Hfin eq_refl).
  assert (start_memory page smaps l ∈ memories (compaction_start page huge smaps linear)) as Hm
    by (apply list_elem_of_fmap; by exists l).
  apply list_elem_of_lookup in Hm as [i Hi].
  eapply Forall2_lookup_l in Hst as (m & Hm & Hsm); [|exact Hi]. pose proof Hsm as (Hb' & _ & _ & He').
  rewrite Forall_lookup in Hinv, Hfin. change (base (start_memory page smaps l)) with (l_base l) in Hb'.
  destruct (full_inv_done page huge res m w' p) as [Hrel|Hk];
    [by eapply Hinv, Hm|by eapply Hfin, Hm| |by rewrite Hb'| |left; by rewrite <- Hb'|right].
  - rewrite He'. apply extents_loop_covers; [apply sorted_overlays_sorted|done|].
    apply Forall_forall. intros o Ho%sorted_overlays_elem. rewrite Forall_forall in Hov.
    by apply Hov.
  - unfold zero_page. rewrite Hb'. by eapply zero_words_same.
  - assert (kept page huge res (start_memory page smaps l) w p) as Hk'.
    { destruct Hsm as (? & ? & ? & ?).
      eapply kept_same; [..|exact Hk]; [by split_and!|by apply same_words_sym]. }
    split; [done|]. intros Hpl. destruct Hk' as (n & Hn & Hh' & _).
    by rewrite (start_no_huge page Hp l smaps n Hpl Hn) in Hh'.
Qed.

(** Concrete scans: a page of 16 bytes, huge pages of 64, one memory of six
    pages of which page 3 is under an overlay; word 16 holds a value. *)
Module CompactionWitness.
Definition kernel : Kernel :=
  mkKernel (λ _ n, if bool_decide (0 ≤ n / 16) then Some (map (λ _, 1) (seqZ 0 (n / 16))) else None)
    (λ _ _, true).
Definition linear : list LinearMemory := [mkLinear 32 96 true [(80, 16)]].
Definition smaps : list (Z * Z * bool) := [(0, 1024, false)].
Definition world : World := mkWorld (λ a, if a =? 48 then 7 else 0) [].
Definition one : list (nat → bool) := replicate 7 (λ _, true).

Lemma kernel_fills : mincore_fills kernel 16.
Proof.
  intros a n r. simpl. rewrite Z.div_mul by lia. case_bool_decide; [|done].
  intros [= <-]. rewrite length_map, length_seqZ. lia.
Qed.

Lemma sizes : sizes_ok 16 64.
Proof. split_and!; [lia|by exists 2|by exists 4|lia]. Qed.

Lemma linear_fits : Forall (linear_ok 16) linear.
Proof.
  repeat constructor; simpl; try lia; [by exists 2|].
  apply Z.leb_le. reflexivity.
Qed.

Lemma compaction_is_invisible_witness :
  slices kernel one (compaction_start 16 64 smaps linear) world ≠ None ∧
  ∃ c w' fin, slices kernel one (compaction_start 16 64 smaps linear) world = Some (c, w', fin) ∧
    log w' = [(32, 16); (64, 16); (96, 32)] ∧ same_words world w'.
Proof.
  split; [by vm_compute|].
  destruct (compaction_is_invisible kernel 16 64 smaps linear one world sizes kernel_fills
              linear_fits) as (c & w' & fin & Hrun & Hw & _).
  exists c, w', fin. split; [exact Hrun|]. split; [|exact Hw].
  vm_compute in Hrun. injection Hrun as _ <- _. reflexivity.
Defined.

Lemma smaps_are_plain : smaps_plain 16 smaps (mkLinear 32 96 true [(80, 16)]).
Proof.
  split; [by repeat constructor|]. intros a Ha. exists (0, 1024, false). split; [by left|].
  change (32 ≤ a < 128) in Ha. simpl. lia.
Qed.

Lemma compaction_releases_witness :
  ∃ c w', slices kernel one (compaction_start 16 64 smaps linear) world = Some (c, w', true) ∧
    ∃ r, r ∈ log w' ∧ r.1 ≤ 32 ∧ 48 ≤ r.1 + r.2.
Proof.
  edestruct (compaction_releases_every_zero_page kernel 16 64 (λ _, true) smaps linear one world)
    as (c & w' & Hrun & Hall).
  - exact sizes.
  - exact linear_fits.
  - reflexivity.
  - intros a n. simpl. by rewrite Z.div_mul by lia.
  - vm_compute. reflexivity.
  - exists c, w'. split; [exact Hrun|].
    destruct (Hall (mkLinear 32 96 true [(80, 16)]) 0) as [Hr|[_ Hn]].
    + by left.
    + by vm_compute.
    + by repeat constructor.
    + done.
    + intros a [k ->] Hk. simpl in Hk. unfold world. simpl.
      destruct (Z.eqb_spec (k * 8) 48); [lia|done].
    + exact Hr.
    + by destruct (Hn smaps_are_plain).
Defined.

(** The same pages in a mapping that holds huge pages, the first four of them one
    block: its zero pages stay, as the word makes it a block kept whole. *)
Example a_used_huge_block_is_kept :
  (λ x, log x.1.2) <$>
    slices kernel one (compaction_start 16 64 [(0, 1024, true)] [mkLinear 0 96 true []]) world =
  Some [(64, 32)].
Proof. vm_compute. reflexivity. Qed.
End CompactionWitness.
