(* ===== verification/Net.v ===== *)
(** * The guest's networking

    Models src/crates/servicecache/src/host/net.rs: the socket the manager
    passes, its adoption by the guest's bind, its replacement in a forked
    child, the refusal of every other bind and connection, and the tracking of
    accepted connections that [shut_down_sockets] relies on.

    [Arc<Mutex<LocalTcpListener>>] is a reference into [listeners]: the guest's
    [PassedListener] and [adopted] name the same cell, so replacing the socket
    in one is seen through the other.  The kernel and the embedded
    [LocalNetworking] are arguments. *)

From S2P Require Import Prelude Text.

Inductive NetworkError : Type :=
  | AddressInUse
  | PermissionDenied
  | InvalidFd
  | InvalidInput
  | Unsupported
  | IoError (errno : string).

(** A [TcpListener]: its descriptor and what [local_addr] answers. *)
Record TcpListener : Type := mkListener {
  listener_fd : Z;
  local_addr : result SocketAddr string;
}.

Definition ref : Type := nat.

Record HostNetworking : Type := mkNet {
  listen_port : N;
  passed : option TcpListener;
  adopted : option ref;
  listeners : list TcpListener;
  connections : gset Z;
}.

(** [HostNetworking::new]. *)
Definition net_new (listen_port : N) : HostNetworking := mkNet listen_port None None [] ∅.

Definition set_listener (n : HostNetworking) (listener : TcpListener)
    : result HostNetworking error :=
  match adopted n with
  | Some _ => Err ["the guest has already bound its listening socket"]
  | None =>
      match local_addr listener with
      | Err errno => Err ["the passed listener has no address"; errno]
      | Ok _ => Ok (mkNet (listen_port n) (Some listener) (adopted n) (listeners n) (connections n))
      end
  end.

(** [replace_std_listener] is the runtime's: [swap] is whether it succeeds. *)
Definition replace_listener (swap : result unit string) (n : HostNetworking)
    (listener : TcpListener) : result HostNetworking error :=
  match adopted n with
  | None => Err ["the guest has not bound its listening socket"]
  | Some r =>
      match swap with
      | Err e => Err ["failed to replace the guest's listening socket"; e]
      | Ok tt => Ok (mkNet (listen_port n) (passed n) (adopted n) (<[r := listener]> (listeners n))
                       (connections n))
      end
  end.

Definition endpoint (n : HostNetworking) : result SocketAddr error :=
  match adopted n with
  | Some r =>
      match listeners n !! r with
      | Some l =>
          match local_addr l with
          | Ok a => Ok a
          | Err e => Err ["listener address: " +:+ e]
          end
      | None => Err ["dangling listener"]
      end
  | None =>
      match passed n with
      | Some l =>
          match local_addr l with
          | Ok a => Ok a
          | Err e => Err ["passed listener has no address"; e]
          end
      | None => Err ["no listening socket was passed"]
      end
  end.

Inductive Shutdown : Type := ShutRead | ShutBoth.
Inductive Errno : Type := ENOTCONN | OtherErrno (name : string).

(** The closure [shut_down] of [shut_down_sockets]. *)
Definition shut_down (shutdown : Z → Shutdown → result unit Errno) (fd : Z) (how : Shutdown)
    : result unit error :=
  match shutdown fd how with
  | Ok tt => Ok tt
  | Err ENOTCONN => Ok tt
  | Err (OtherErrno e) => Err ["failed to shut down socket"; e]
  end.

(** The connections, in the order the set is iterated. *)
Fixpoint shut_down_all (shutdown : Z → Shutdown → result unit Errno) (fds : list Z)
    : result unit error * list (Z * Shutdown) :=
  match fds with
  | [] => (Ok tt, [])
  | fd :: fds =>
      match shut_down shutdown fd ShutBoth with
      | Err e => (Err e, [(fd, ShutBoth)])
      | Ok tt => let (r, calls) := shut_down_all shutdown fds in (r, (fd, ShutBoth) :: calls)
      end
  end.

(** [shut_down_sockets]: its result and the [shutdown] calls it made. *)
Definition shut_down_sockets (shutdown : Z → Shutdown → result unit Errno) (n : HostNetworking)
    : result unit error * list (Z * Shutdown) :=
  let listener := match adopted n with
    | Some r => match listeners n !! r with
        | Some l => match shut_down shutdown (listener_fd l) ShutRead with
            | Err e => (Err e, [(listener_fd l, ShutRead)])
            | Ok tt => (Ok tt, [(listener_fd l, ShutRead)])
            end
        | None => (Ok tt, [])
        end
    | None => (Ok tt, [])
    end in
  match listener with
  | (Err e, calls) => (Err e, calls)
  | (Ok tt, calls) =>
      let (r, more) := shut_down_all shutdown (elements (connections n)) in (r, calls ++ more)
  end.

(** ** The guest's side: [VirtualNetworking] *)

Inductive BoundSocket : Type :=
  | UnservedBoundSocket (addr : SocketAddr)
  | PassedBoundSocket (listener : option ref).

(** [bind_tcp]: [from_std] is what [LocalTcpListener::from_std_listener]
    answers. *)
Definition bind_tcp (from_std : result unit string) (n : HostNetworking) (addr : SocketAddr)
    : HostNetworking * result BoundSocket NetworkError :=
  if bool_decide (port addr ≠ listen_port n) then (n, Ok (UnservedBoundSocket addr))
  else match passed n with
  | None => (n, Err AddressInUse)
  | Some l =>
      let n := mkNet (listen_port n) None (adopted n) (listeners n) (connections n) in
      match from_std with
      | Err e => (n, Err (IoError e))
      | Ok tt =>
          let r := length (listeners n) in
          (mkNet (listen_port n) None (Some r) (listeners n ++ [l]) (connections n),
           Ok (PassedBoundSocket (Some r)))
      end
  end.

(** [VirtualTcpBoundSocket::listen] of both sockets: the socket afterwards,
    the listener, and whether [on_listen] was called. *)
Definition bound_listen (s : BoundSocket) : BoundSocket * result ref NetworkError * bool :=
  match s with
  | UnservedBoundSocket _ => (s, Err PermissionDenied, false)
  | PassedBoundSocket (Some r) => (PassedBoundSocket None, Ok r, true)
  | PassedBoundSocket None => (s, Err InvalidFd, false)
  end.

Definition bound_connect (s : BoundSocket) (peer : SocketAddr) : result unit NetworkError :=
  match s with
  | UnservedBoundSocket _ => Err PermissionDenied
  | PassedBoundSocket _ => Err Unsupported
  end.

Definition bound_addr_local (n : HostNetworking) (s : BoundSocket) : result SocketAddr NetworkError :=
  match s with
  | UnservedBoundSocket addr => Ok addr
  | PassedBoundSocket None => Err InvalidFd
  | PassedBoundSocket (Some r) =>
      match listeners n !! r with
      | Some l => match local_addr l with Ok a => Ok a | Err e => Err (IoError e) end
      | None => Err InvalidFd
      end
  end.

Definition listen_tcp (from_std : result unit string) (n : HostNetworking) (addr : SocketAddr)
    : HostNetworking * result ref NetworkError * bool :=
  match bind_tcp from_std n addr with
  | (n, Err e) => (n, Err e, false)
  | (n, Ok s) => let '(_, r, listened) := bound_listen s in (n, r, listened)
  end.

(** [connect_tcp]: [Some peer] is a connection the runtime really opens. *)
Definition connect_tcp (n : HostNetworking) (peer : SocketAddr) : option SocketAddr :=
  match endpoint n with
  | Ok e => if bool_decide (e = peer) then Some peer else None
  | Err _ => None
  end.

Definition resolve (host : string) : result (list string) NetworkError :=
  if bool_decide (string_lower host = string_lower "localhost") then Ok ["127.0.0.1"]
  else Err PermissionDenied.

(** ** Accepted connections

    One stream is accepted, tracked, released and closed by separate steps
    ([TrackedStream]'s guard is dropped before its socket), which interleave
    with those of other guest threads. *)

Inductive stage : Type := Accepted | Tracked | Released.
#[global] Instance stage_eq_dec : EqDecision stage.
Proof. solve_decision. Defined.

Record Streams : Type := mkStreams {
  net : HostNetworking;
  (** The stream objects by identity: descriptor and stage. *)
  streams : gmap nat (Z * stage);
  (** The process's open descriptors. *)
  open_fds : gset Z;
}.

Definition set_connections (n : HostNetworking) (c : gset Z) : HostNetworking :=
  mkNet (listen_port n) (passed n) (adopted n) (listeners n) c.

(** [ConnectionGuard::track]. *)
Definition track (n : HostNetworking) (fd : Z) : HostNetworking :=
  set_connections n (connections n ∪ {[fd]}).
(** [ConnectionGuard::drop]. *)
Definition untrack (n : HostNetworking) (fd : Z) : HostNetworking :=
  set_connections n (connections n ∖ {[fd]}).

Inductive stream_step : Streams → Streams → Prop :=
  (** [try_accept_local]: the kernel never hands out an open descriptor. *)
  | step_accept s i fd :
      streams s !! i = None → fd ∉ open_fds s →
      stream_step s (mkStreams (net s) (<[i := (fd, Accepted)]> (streams s))
                       ({[fd]} ∪ open_fds s))
  | step_track s i fd :
      streams s !! i = Some (fd, Accepted) →
      stream_step s (mkStreams (track (net s) fd) (<[i := (fd, Tracked)]> (streams s))
                       (open_fds s))
  | step_release s i fd :
      streams s !! i = Some (fd, Tracked) →
      stream_step s (mkStreams (untrack (net s) fd) (<[i := (fd, Released)]> (streams s))
                       (open_fds s))
  | step_close s i fd :
      streams s !! i = Some (fd, Released) →
      stream_step s (mkStreams (net s) (delete i (streams s)) (open_fds s ∖ {[fd]})).

(** ** Theorems *)

Definition stream_inv (s : Streams) : Prop :=
  (∀ i fd st, streams s !! i = Some (fd, st) → fd ∈ open_fds s) ∧
  (∀ i j fd st st', streams s !! i = Some (fd, st) → streams s !! j = Some (fd, st') → i = j) ∧
  (∀ fd, fd ∈ connections (net s) ↔ ∃ i, streams s !! i = Some (fd, Tracked)).

Lemma stream_step_inv s s' : stream_step s s' → stream_inv s → stream_inv s'.
Proof.
  intros Hstep (Hopen & Hinj & Hconn).
  destruct Hstep as [s i fd Hi Hfd|s i fd Hi|s i fd Hi|s i fd Hi]; split_and!; simpl.
  - intros j fd' st Hj. apply lookup_insert_Some in Hj as [[-> [= <- <-]]|[_ Hj]]; set_solver.
  - intros j k fd' st st' Hj Hk.
    apply lookup_insert_Some in Hj as [[<- ?]|[? Hj]];
      apply lookup_insert_Some in Hk as [[<- ?]|[? Hk]]; simplify_eq; try done.
    + by apply Hopen in Hk.
    + by apply Hopen in Hj.
    + by eapply Hinj.
  - intros fd'. rewrite Hconn. split; intros [j Hj]; exists j.
    + rewrite lookup_insert_ne; [done|]. intros ->. by rewrite Hi in Hj.
    + by apply lookup_insert_Some in Hj as [[_ ?]|[_ ?]].
  - intros j fd' st Hj.
    apply lookup_insert_Some in Hj as [[-> [= <- <-]]|[_ Hj]]; by eapply Hopen.
  - intros j k fd' st st' Hj Hk.
    apply lookup_insert_Some in Hj as [[<- ?]|[? Hj]];
      apply lookup_insert_Some in Hk as [[<- ?]|[? Hk]]; simplify_eq; try done; by eapply Hinj.
  - intros fd'. rewrite elem_of_union, elem_of_singleton, Hconn. split.
    + intros [[j Hj]| ->]; [|by exists i; rewrite lookup_insert_eq].
      exists j. rewrite lookup_insert_ne; [done|]. intros ->. by rewrite Hi in Hj.
    + intros [j Hj]. apply lookup_insert_Some in Hj as [[_ [= <-]]|[_ Hj]]; [by right|left; by exists j].
  - intros j fd' st Hj.
    apply lookup_insert_Some in Hj as [[-> [= <- <-]]|[_ Hj]]; by eapply Hopen.
  - intros j k fd' st st' Hj Hk.
    apply lookup_insert_Some in Hj as [[<- ?]|[? Hj]];
      apply lookup_insert_Some in Hk as [[<- ?]|[? Hk]]; simplify_eq; try done; by eapply Hinj.
  - intros fd'. rewrite elem_of_difference, elem_of_singleton, Hconn. split.
    + intros [[j Hj] Hne]. exists j. rewrite lookup_insert_ne; [done|].
      intros ->. rewrite Hi in Hj. by injection Hj.
    + intros [j Hj]. apply lookup_insert_Some in Hj as [[_ [=]]|[Hne Hj]].
      split; [by exists j|]. intros ->. apply Hne. by eapply Hinj.
  - intros j fd' st [Hne Hj]%lookup_delete_Some.
    apply elem_of_difference. split; [by eapply Hopen|].
    intros ->%elem_of_singleton. apply Hne. by eapply Hinj.
  - intros j k fd' st st' [_ Hj]%lookup_delete_Some [_ Hk]%lookup_delete_Some. by eapply Hinj.
  - intros fd'. rewrite Hconn. split; intros [j Hj]; exists j.
    + apply lookup_delete_Some. split; [|done]. intros ->. by rewrite Hi in Hj.
    + by apply lookup_delete_Some in Hj as [_ ?].
Qed.

Lemma shut_down_all_ok shutdown fds :
  (∀ fd how e, shutdown fd how ≠ Err (OtherErrno e)) →
  shut_down_all shutdown fds = (Ok tt, map (λ fd, (fd, ShutBoth)) fds).
Proof.
  intros Hok. induction fds as [|fd fds IH]; simpl; [done|].
  unfold shut_down. specialize (Hok fd ShutBoth).
  destruct (shutdown fd ShutBoth) as [[]|[|e]]; rewrite ?IH; try done.
  by destruct (Hok e).
Qed.

Lemma shut_down_sockets_ok shutdown n :
  (∀ fd how e, shutdown fd how ≠ Err (OtherErrno e)) →
  shut_down_sockets shutdown n =
    (Ok tt,
     match adopted n ≫= λ r, listeners n !! r with
     | Some l => [(listener_fd l, ShutRead)]
     | None => []
     end ++ map (λ fd, (fd, ShutBoth)) (elements (connections n))).
Proof.
  intros Hok. unfold shut_down_sockets. rewrite shut_down_all_ok by done.
  destruct (adopted n) as [r|]; simpl; [|done]. destruct (listeners n !! r) as [l|]; simpl; [|done].
  unfold shut_down. specialize (Hok (listener_fd l) ShutRead).
  destruct (shutdown _ _) as [[]|[|e]]; try done. by destruct (Hok e).
Qed.

(** C29: However the guest's threads interleave accepting, tracking, releasing
    and closing their connections, [shut_down_sockets] ends the guest's network
    presence exactly: unless a [shutdown] fails for another reason than the
    socket not being connected, it succeeds, stops the adopted listener, and
    shuts down both ways the open descriptors of precisely the streams the
    guest holds.  A descriptor number the kernel reuses is never forgotten on
    behalf of the stream that had it before. *)
Theorem shut_down_ends_exactly_the_held_connections n opened s shutdown :
  connections n = ∅ →
  rtc stream_step (mkStreams n ∅ opened) s →
  (∀ fd how e, shutdown fd how ≠ Err (OtherErrno e)) →
  ∃ calls, shut_down_sockets shutdown (net s) = (Ok tt, calls) ∧
    (∀ fd, (fd, ShutBoth) ∈ calls ↔ ∃ i, streams s !! i = Some (fd, Tracked)) ∧
    (∀ fd, (fd, ShutBoth) ∈ calls → fd ∈ open_fds s) ∧
    (∀ l, adopted (net s) ≫= (λ r, listeners (net s) !! r) = Some l →
      (listener_fd l, ShutRead) ∈ calls).
Proof.
  intros Hn Hsteps Hok.
  assert (stream_inv s) as (Hopen & _ & Hconn).
  { eapply rtc_invariant; [apply stream_step_inv| |exact Hsteps]. split_and!; simpl.
    - intros i fd st. by rewrite lookup_empty.
    - intros i j fd st st'. by rewrite lookup_empty.
    - intros fd. rewrite Hn. split; [set_solver|]. intros [i Hi]. by rewrite lookup_empty in Hi. }
  rewrite shut_down_sockets_ok by done. eexists. split; [reflexivity|].
  assert (∀ fd, (fd, ShutBoth) ∈ match adopted (net s) ≫= λ r, listeners (net s) !! r with
     | Some l => [(listener_fd l, ShutRead)] | None => [] end ++
     map (λ fd, (fd, ShutBoth)) (elements (connections (net s))) ↔
     ∃ i, streams s !! i = Some (fd, Tracked)) as Hboth.
  { intros fd. rewrite elem_of_app, list_elem_of_fmap, <- Hconn. split.
    - intros [Hl|(fd' & [= ->] & Hin)]; [|by apply elem_of_elements].
      destruct (adopted (net s) ≫= _); [|by apply elem_of_nil in Hl].
      by apply list_elem_of_singleton in Hl.
    - intros Hin. right. exists fd. by rewrite elem_of_elements. }
  split_and!; [done| |].
  - intros fd [i Hi]%Hboth. by eapply Hopen.
  - intros l ->. apply elem_of_app. left. by left.
Qed.

(** ** What a guest can reach *)

(** The guest's calls, on the sockets it holds. *)
Inductive GuestOp : Type :=
  | OBind (from_std : result unit string) (addr : SocketAddr)
  | OListenTcp (from_std : result unit string) (addr : SocketAddr)
  | OListen (socket : nat)
  | OConnect (peer : SocketAddr)
  | OBoundConnect (socket : nat) (peer : SocketAddr)
  | OResolve (host : string).

(** What comes of them: what the host's network really sees, and the names the
    guest gets addresses for. *)
Inductive NetAction : Type :=
  | ActListen (r : ref)
  | ActConnect (peer : SocketAddr)
  | ActResolved (host : string) (ips : list string).

Definition guest_op (n : HostNetworking) (sockets : list BoundSocket) (op : GuestOp)
    : HostNetworking * list BoundSocket * list NetAction :=
  match op with
  | OBind from_std addr =>
      match bind_tcp from_std n addr with
      | (n, Ok s) => (n, sockets ++ [s], [])
      | (n, Err _) => (n, sockets, [])
      end
  | OListenTcp from_std addr =>
      match listen_tcp from_std n addr with
      | (n, Ok r, _) => (n, sockets, [ActListen r])
      | (n, Err _, _) => (n, sockets, [])
      end
  | OListen i =>
      match sockets !! i with
      | None => (n, sockets, [])
      | Some s =>
          match bound_listen s with
          | (s, Ok r, _) => (n, <[i := s]> sockets, [ActListen r])
          | (s, Err _, _) => (n, <[i := s]> sockets, [])
          end
      end
  | OConnect peer =>
      match connect_tcp n peer with
      | Some p => (n, sockets, [ActConnect p])
      | None => (n, sockets, [])
      end
  | OBoundConnect i peer =>
      match sockets !! i with
      | None => (n, sockets, [])
      | Some s => match bound_connect s peer with
          | Ok _ => (n, sockets, [ActConnect peer])
          | Err _ => (n, sockets, [])
          end
      end
  | OResolve host =>
      match resolve host with
      | Ok ips => (n, sockets, [ActResolved host ips])
      | Err _ => (n, sockets, [])
      end
  end.

Fixpoint guest_ops (n : HostNetworking) (sockets : list BoundSocket) (ops : list GuestOp)
    : HostNetworking * list BoundSocket * list NetAction :=
  match ops with
  | [] => (n, sockets, [])
  | op :: ops =>
      let '(n, sockets, acts) := guest_op n sockets op in
      let '(n, sockets, acts') := guest_ops n sockets ops in
      (n, sockets, acts ++ acts')
  end.

(** The passed socket is either still waiting for the bind, lost to a failed
    one, or the only listener; no guest socket refers to anything else. *)
Definition reach_inv (l : TcpListener) (n : HostNetworking) (sockets : list BoundSocket) : Prop :=
  ((passed n = Some l ∧ adopted n = None ∧ listeners n = []) ∨
   (passed n = None ∧ adopted n = None ∧ listeners n = []) ∨
   (passed n = None ∧ adopted n = Some 0 ∧ listeners n = [l])) ∧
  Forall (λ s, match s with PassedBoundSocket (Some r) => r = 0 ∧ adopted n = Some 0 | _ => True end)
    sockets.

Definition allowed (a : SocketAddr) (n : HostNetworking) (act : NetAction) : Prop :=
  match act with
  | ActListen r => adopted n = Some r
  | ActConnect peer => peer = a
  | ActResolved host ips => string_lower host = "localhost" ∧ ips = ["127.0.0.1"]
  end.

Lemma endpoint_of l a n sockets e :
  local_addr l = Ok a → reach_inv l n sockets → endpoint n = Ok e → e = a.
Proof.
  intros Hl [[(Hp & Ha & Hs)|[(Hp & Ha & Hs)|(Hp & Ha & Hs)]] _]; unfold endpoint;
    rewrite Ha, ?Hp, ?Hs; simpl; rewrite ?Hl; congruence.
Qed.

Lemma bind_tcp_reach l n sockets from_std addr n' r :
  reach_inv l n sockets → bind_tcp from_std n addr = (n', r) →
  reach_inv l n' sockets ∧ (adopted n = Some 0 → adopted n' = Some 0) ∧
  match r with Ok s => reach_inv l n' [s] | Err _ => True end.
Proof.
  intros [Hn Hs] Hb. unfold bind_tcp in Hb. case_bool_decide as Hport; simplify_eq.
  { split_and!; [done|done|]. split; [done|]. by repeat constructor. }
  assert (∀ n', (adopted n = Some 0 → adopted n' = Some 0) →
    Forall (λ s, match s with PassedBoundSocket (Some r) => r = 0 ∧ adopted n' = Some 0
                 | _ => True end) sockets) as Hmono.
  { intros n2 Ha. eapply Forall_impl; [exact Hs|]. intros [|[r'|]]; naive_solver. }
  destruct Hn as [(Hp & Ha & Hl)|[(Hp & Ha & Hl)|(Hp & Ha & Hl)]];
    rewrite Hp in Hb; simplify_eq; [|split_and!; [split; [naive_solver|done]|done|done]..].
  destruct from_std as [[]|e]; rewrite ?Hl in Hb; simplify_eq/=.
  - split_and!; [|done|].
    + split; [naive_solver|]. apply Hmono. done.
    + split; [naive_solver|]. by repeat constructor.
  - split_and!; [|by rewrite Ha|done]. split; [naive_solver|]. apply Hmono. by rewrite Ha.
Qed.

Lemma guest_op_reach l a n sockets op n' sockets' acts :
  local_addr l = Ok a → reach_inv l n sockets →
  guest_op n sockets op = (n', sockets', acts) →
  reach_inv l n' sockets' ∧ (adopted n = Some 0 → adopted n' = Some 0) ∧
  Forall (allowed a n') acts.
Proof.
  intros Hl Hinv Hop. destruct op as [fs addr|fs addr|i|peer|i peer|host]; simpl in Hop.
  - destruct (bind_tcp fs n addr) as [n1 r] eqn:Hb.
    destruct (bind_tcp_reach _ _ _ _ _ _ _ Hinv Hb) as (H1 & Hm & H2).
    destruct r as [s|e]; simplify_eq; [|done].
    split_and!; [|done|done]. destruct H1 as [Hn Hs]. split; [done|].
    apply Forall_app. split; [done|apply H2].
  - unfold listen_tcp in Hop. destruct (bind_tcp fs n addr) as [n1 r] eqn:Hb.
    destruct (bind_tcp_reach _ _ _ _ _ _ _ Hinv Hb) as (H1 & Hm & H2).
    destruct r as [s|e]; simplify_eq; [|done].
    destruct s as [addr'|[r|]]; simplify_eq/=; try done.
    split_and!; [done|done|]. repeat constructor. simpl.
    destruct H2 as [_ Hf]. apply Forall_singleton in Hf as [-> ?]. done.
  - destruct (sockets !! i) as [s|] eqn:Hi; simplify_eq; [|done].
    destruct Hinv as [Hn Hs]. pose proof (proj1 (Forall_lookup _ _) Hs _ _ Hi) as Hsi.
    destruct s as [addr'|[r|]]; simplify_eq/=.
    + split_and!; [|done|done]. split; [done|]. by apply Forall_insert.
    + destruct Hsi as [-> Ha]. split_and!; [|done|by repeat constructor].
      split; [done|]. by apply Forall_insert.
    + split_and!; [|done|done]. split; [done|]. by apply Forall_insert.
  - unfold connect_tcp in Hop. destruct (endpoint n) as [e|e] eqn:He; simplify_eq; [|done].
    case_bool_decide as Heq; simplify_eq; [|done]. split_and!; [done|done|].
    repeat constructor. simpl. by eapply endpoint_of.
  - destruct (sockets !! i) as [[addr'|r]|]; by simplify_eq/=.
  - unfold resolve in Hop. case_bool_decide as Hh; simplify_eq; [|done].
    split_and!; [done|done|]. by repeat constructor.
Qed.

Lemma guest_ops_reach l a n sockets ops n' sockets' acts :
  local_addr l = Ok a → reach_inv l n sockets →
  guest_ops n sockets ops = (n', sockets', acts) →
  reach_inv l n' sockets' ∧ (adopted n = Some 0 → adopted n' = Some 0) ∧
  Forall (allowed a n') acts.
Proof.
  intros Hl. revert n sockets acts. induction ops as [|op ops IH]; intros n sockets acts Hinv;
    simpl; [intros; by simplify_eq|].
  destruct (guest_op n sockets op) as [[n1 s1] a1] eqn:H1.
  destruct (guest_ops n1 s1 ops) as [[n2 s2] a2] eqn:H2. intros; simplify_eq.
  destruct (guest_op_reach _ _ _ _ _ _ _ _ Hl Hinv H1) as (Hinv1 & Hm1 & Ha1).
  destruct (IH _ _ _ Hinv1 H2) as (Hinv2 & Hm2 & Ha2).
  split_and!; [done|tauto|]. apply Forall_app. split; [|done].
  eapply Forall_impl; [exact Ha1|]. intros [r|peer|host ips]; simpl; [|done..].
  intros Had. destruct Hinv1 as [[(_ & Ha & _)|[(_ & Ha & _)|(_ & Ha & _)]] _]; rewrite Ha in *;
    simplify_eq; auto.
Qed.

(** C28: A guest reaches nothing but its own endpoint.  Whatever it binds,
    listens on, connects to or looks up, in whatever order, the only listener it
    ever gets is the socket the manager passed, the only peer it ever connects to
    is that socket's address, and the only name it ever gets an address for is
    localhost, whatever its case, which is 127.0.0.1; and after a fork has
    replaced the socket, every listener the guest already holds serves the
    child's socket, which is then the endpoint. *)
Theorem guest_reaches_only_its_endpoint listen_port l a n0 ops n sockets acts :
  local_addr l = Ok a →
  set_listener (net_new listen_port) l = Ok n0 →
  guest_ops n0 [] ops = (n, sockets, acts) →
  Forall (λ act, match act with
    | ActListen r => listeners n !! r = Some l ∧
        (∀ l' a' n', local_addr l' = Ok a' → replace_listener (Ok tt) n l' = Ok n' →
           listeners n' !! r = Some l' ∧ endpoint n' = Ok a')
    | ActConnect peer => peer = a
    | ActResolved host ips => string_lower host = "localhost" ∧ ips = ["127.0.0.1"]
    end) acts.
Proof.
  intros Hl Hset Hrun. unfold set_listener in Hset. simpl in Hset. rewrite Hl in Hset.
  injection Hset as <-.
  eapply (guest_ops_reach l a) in Hrun as (Hinv & _ & Hacts);
    [|done|by split; [left|constructor]].
  eapply Forall_impl; [exact Hacts|]. intros [r|peer|host ips]; simpl; [|done..]. intros Hr.
  destruct Hinv as [[(_ & Ha & _)|[(_ & Ha & _)|(_ & Ha & Hls)]] _]; rewrite Ha in Hr; simplify_eq.
  rewrite Hls. split; [done|]. intros l' a' n' Hl' Hrep. unfold replace_listener in Hrep.
  rewrite Ha in Hrep. injection Hrep as <-. unfold endpoint. simpl.
  rewrite Hls. simpl. by rewrite Hl'.
Qed.

Module NetWitness.
Definition addr : SocketAddr := mkAddr "127.0.0.1" 4000.
Definition socket : TcpListener := mkListener 7 (Ok addr).
Definition served : HostNetworking := mkNet 5432 None (Some 0) [socket] ∅.

(** Two streams on one reused descriptor number, then one held. *)
Definition reused : Streams :=
  mkStreams (track (untrack (track served 9) 9) 9) {[1 := (9%Z, Tracked)]} ({[9%Z]} ∪ {[7%Z]}).

Lemma shut_down_witness :
  ∃ calls, shut_down_sockets (λ _ _, Err ENOTCONN) (net reused) = (Ok tt, calls) ∧
    (9%Z, ShutBoth) ∈ calls.
Proof.
  destruct (shut_down_ends_exactly_the_held_connections served {[7%Z]} reused (λ _ _, Err ENOTCONN))
    as (calls & Hrun & Hheld & _).
  - reflexivity.
  - set (s0 := mkStreams served ∅ {[7%Z]}).
    set (s1 := mkStreams served {[0 := (9%Z, Accepted)]} ({[9%Z]} ∪ {[7%Z]})).
    set (s2 := mkStreams (track served 9) {[0 := (9%Z, Tracked)]} ({[9%Z]} ∪ {[7%Z]})).
    set (s3 := mkStreams (untrack (track served 9) 9) {[0 := (9%Z, Released)]} ({[9%Z]} ∪ {[7%Z]})).
    set (s4 := mkStreams (untrack (track served 9) 9) ∅ {[7%Z]}).
    set (s5 := mkStreams (untrack (track served 9) 9) {[1 := (9%Z, Accepted)]} ({[9%Z]} ∪ {[7%Z]})).
    apply rtc_l with s1; [apply (step_accept s0 0 9); [done|simpl; set_solver]|].
    apply rtc_l with s2; [by apply (step_track s1 0 9)|].
    apply rtc_l with s3; [by apply (step_release s2 0 9)|].
    apply rtc_l with s4; [by apply (step_close s3 0 9)|].
    apply rtc_l with s5; [apply (step_accept s4 1 9); [done|simpl; set_solver]|].
    apply rtc_once. by apply (step_track s5 1 9).
  - done.
  - exists calls. split; [exact Hrun|]. apply Hheld. by exists 1.
Defined.

Definition ops : list GuestOp :=
  [OBind (Ok tt) (mkAddr "0.0.0.0" 80); OListen 0; OConnect (mkAddr "10.0.0.1" 4000);
   OResolve "example.com"; OResolve "LocalHost";
   OBind (Ok tt) (mkAddr "0.0.0.0" 5432); OListen 1; OListen 1; OConnect addr].

Lemma guest_reaches_witness :
  ∃ n sockets, guest_ops (mkNet 5432 (Some socket) None [] ∅) [] ops =
      (n, sockets, [ActResolved "LocalHost" ["127.0.0.1"]; ActListen 0; ActConnect addr]) ∧
    listeners n !! 0 = Some socket.
Proof.
  eexists _, _. split; [vm_compute; reflexivity|].
  exact (proj1 (Forall_inv (Forall_inv_tail (guest_reaches_only_its_endpoint 5432 socket addr _ ops _ _
    [ActResolved "LocalHost" ["127.0.0.1"]; ActListen 0; ActConnect addr] eq_refl eq_refl eq_refl)))).
Defined.
End NetWitness.
