(* ===== verification/Sockets.v ===== *)
(** * The guest's sockets

    Models the socket objects of src/crates/servicecache/src/host/net.rs that a
    guest holds: its listener ([PassedListener], a reference to the cell that
    [HostNetworking] keeps), the connections it accepts ([TrackedStream], a
    stream with a guard that keeps its descriptor in the set of connections)
    and the options of its bound sockets.  Net.v has the networking they come
    from.

    The engine library's traits are the types of calls, its own sockets
    ([LocalTcpListener], [LocalTcpStream]) are the class [LocalSockets] over the
    kernel's state [K], and an [impl] is a function that dispatches each call.  A guest
    is a [Script]: what it calls next may depend on every answer it got. *)

From S2P Require Import Prelude Net.

(** [std::task::Poll]. *)
Inductive Poll (A : Type) : Type := Pending | Ready (a : A).
Arguments Pending {A}.
Arguments Ready {A} a.

Definition waker : Type := nat.
Definition handler : Type := nat.

Inductive SocketStatus : Type := Opening | Opened | Closed | Failed.

(** [std::net::Shutdown]. *)
Inductive How : Type := Read | Write | Both.

Record LocalTcpStream : Type := mkLocal { as_raw_fd : Z }.

(** ** The calls of the traits *)

(** [VirtualIoSource], [VirtualSocket], [VirtualConnectedSocket] and
    [VirtualTcpSocket]: each call with the type of its answer. *)
Inductive StreamCall : Type → Type :=
  | SRemoveHandler : StreamCall unit
  | SPollReadReady (cx : waker) : StreamCall (Poll (result N NetworkError))
  | SPollWriteReady (cx : waker) : StreamCall (Poll (result N NetworkError))
  | SSetTtl (ttl : N) : StreamCall (result unit NetworkError)
  | STtl : StreamCall (result N NetworkError)
  | SAddrLocal : StreamCall (result SocketAddr NetworkError)
  | SStatus : StreamCall (result SocketStatus NetworkError)
  | SLastError : StreamCall (result (option NetworkError) NetworkError)
  | SSetHandler (h : handler) : StreamCall (result unit NetworkError)
  | SSetLinger (linger : option N) : StreamCall (result unit NetworkError)
  | SLinger : StreamCall (result (option N) NetworkError)
  | STrySend (data : list byte) : StreamCall (result N NetworkError)
  | STryFlush : StreamCall (result unit NetworkError)
  | SClose : StreamCall (result unit NetworkError)
  (** The bytes put into a buffer of [len]. *)
  | STryRecv (len : N) (peek : bool) : StreamCall (result (list byte) NetworkError)
  | SHostFd : StreamCall (option Z)
  | SSetRecvBufSize (size : N) : StreamCall (result unit NetworkError)
  | SRecvBufSize : StreamCall (result N NetworkError)
  | SSetSendBufSize (size : N) : StreamCall (result unit NetworkError)
  | SSendBufSize : StreamCall (result N NetworkError)
  | SSetNodelay (nodelay : bool) : StreamCall (result unit NetworkError)
  | SNodelay : StreamCall (result bool NetworkError)
  | SSetKeepalive (keepalive : bool) : StreamCall (result unit NetworkError)
  | SKeepalive : StreamCall (result bool NetworkError)
  | SSetDontroute (dontroute : bool) : StreamCall (result unit NetworkError)
  | SDontroute : StreamCall (result bool NetworkError)
  | SAddrPeer : StreamCall (result SocketAddr NetworkError)
  | SShutdown (how : How) : StreamCall (result unit NetworkError)
  | SIsClosed : StreamCall bool.

(** [VirtualTcpListener] and [VirtualIoSource] of a listener that accepts [S]. *)
Inductive ListenerCall (S : Type) : Type → Type :=
  | LHostFd : ListenerCall S (option Z)
  | LTryAccept : ListenerCall S (result (S * SocketAddr) NetworkError)
  | LSetHandler (h : handler) : ListenerCall S (result unit NetworkError)
  | LAddrLocal : ListenerCall S (result SocketAddr NetworkError)
  | LSetTtl (ttl : N) : ListenerCall S (result unit NetworkError)
  | LTtl : ListenerCall S (result N NetworkError)
  | LRemoveHandler : ListenerCall S unit
  | LPollReadReady (cx : waker) : ListenerCall S (Poll (result N NetworkError))
  | LPollWriteReady (cx : waker) : ListenerCall S (Poll (result N NetworkError)).

Arguments LHostFd {S}.
Arguments LTryAccept {S}.
Arguments LSetHandler {S} _.
Arguments LAddrLocal {S}.
Arguments LSetTtl {S} _.
Arguments LTtl {S}.
Arguments LRemoveHandler {S}.
Arguments LPollReadReady {S} _.
Arguments LPollWriteReady {S} _.

(** The library's sockets: how each answers each call, and what a call does to
    the kernel; dropping a stream closes its descriptor. *)
Class LocalSockets (K : Type) : Type := {
  local_stream : ∀ {A}, StreamCall A → LocalTcpStream → K → A * K;
  drop_stream : LocalTcpStream → K → K;
  local_listener : ∀ {A}, ListenerCall LocalTcpStream A → TcpListener → K → A * K;
}.

(** ** The wrapped sockets *)

(** The guard keeps [guard_fd] in the connections until it is dropped. *)
Record TrackedStream : Type := mkTracked { guard_fd : Z; ts_inner : LocalTcpStream }.

Record PassedListener : Type := mkPassedListener { pl_inner : ref }.

Section sockets.
Context {K : Type} `{!LocalSockets K}.

(** The [impl]s for [TrackedStream]. *)
Definition tracked_call {A} (c : StreamCall A) (t : TrackedStream) (k : K) : A * K :=
  let s := ts_inner t in
  match c with
  | SRemoveHandler => local_stream SRemoveHandler s k
  | SPollReadReady cx => local_stream (SPollReadReady cx) s k
  | SPollWriteReady cx => local_stream (SPollWriteReady cx) s k
  | SSetTtl ttl => local_stream (SSetTtl ttl) s k
  | STtl => local_stream STtl s k
  | SAddrLocal => local_stream SAddrLocal s k
  | SStatus => local_stream SStatus s k
  | SLastError => local_stream SLastError s k
  | SSetHandler h => local_stream (SSetHandler h) s k
  | SSetLinger linger => local_stream (SSetLinger linger) s k
  | SLinger => local_stream SLinger s k
  | STrySend data => local_stream (STrySend data) s k
  | STryFlush => local_stream STryFlush s k
  | SClose => local_stream SClose s k
  | STryRecv len peek => local_stream (STryRecv len peek) s k
  | SHostFd => local_stream SHostFd s k
  | SSetRecvBufSize size => local_stream (SSetRecvBufSize size) s k
  | SRecvBufSize => local_stream SRecvBufSize s k
  | SSetSendBufSize size => local_stream (SSetSendBufSize size) s k
  | SSendBufSize => local_stream SSendBufSize s k
  | SSetNodelay nodelay => local_stream (SSetNodelay nodelay) s k
  | SNodelay => local_stream SNodelay s k
  | SSetKeepalive keepalive => local_stream (SSetKeepalive keepalive) s k
  | SKeepalive => local_stream SKeepalive s k
  | SSetDontroute dontroute => local_stream (SSetDontroute dontroute) s k
  | SDontroute => local_stream SDontroute s k
  | SAddrPeer => local_stream SAddrPeer s k
  | SShutdown how => local_stream (SShutdown how) s k
  | SIsClosed => local_stream SIsClosed s k
  end.

(** Dropping a [TrackedStream]: its fields in order, the guard first. *)
Definition tracked_drop (t : TrackedStream) (n : HostNetworking) (k : K) : HostNetworking * K :=
  (untrack n (guard_fd t), drop_stream (ts_inner t) k).

(** [self.inner.lock()]: the listener in the shared cell.  The cells are never
    freed while a handle is held, so the lock always finds one. *)
Definition lock {B} (p : PassedListener) (n : HostNetworking) (f : TcpListener → B) : option B :=
  f <$> listeners n !! pl_inner p.

(** [PassedListener::try_accept]. *)
Definition try_accept (p : PassedListener) (n : HostNetworking) (k : K)
    : option (result (TrackedStream * SocketAddr) NetworkError * HostNetworking * K) :=
  '(accepted, k) ← lock p n (λ l, local_listener LTryAccept l k);
  Some match accepted with
  | Err e => (Err e, n, k)
  | Ok (stream, addr) =>
      (Ok (mkTracked (as_raw_fd stream) stream, addr), track n (as_raw_fd stream), k)
  end.

(** The other calls go to the listener in the cell. *)
Definition forward {A} (c : ListenerCall LocalTcpStream A) (p : PassedListener) (n : HostNetworking)
    (k : K) : option (A * HostNetworking * K) :=
  lock p n (λ l, let (a, k) := local_listener c l k in (a, n, k)).

(** The [impl]s for [PassedListener]. *)
Definition listener_call {A} (c : ListenerCall TrackedStream A) (p : PassedListener) (n : HostNetworking)
    (k : K) : option (A * HostNetworking * K) :=
  match c with
  | LHostFd => forward LHostFd p n k
  | LTryAccept => try_accept p n k
  | LSetHandler h => forward (LSetHandler h) p n k
  | LAddrLocal => forward LAddrLocal p n k
  | LSetTtl ttl => forward (LSetTtl ttl) p n k
  | LTtl => forward LTtl p n k
  | LRemoveHandler => forward LRemoveHandler p n k
  | LPollReadReady cx => forward (LPollReadReady cx) p n k
  | LPollWriteReady cx => forward (LPollWriteReady cx) p n k
  end.

(** [set_ttl] and [ttl] of both bound sockets; [u8::try_from] refuses what does
    not fit a byte. *)
Definition bound_set_ttl (s : BoundSocket) (ttl : N) (n : HostNetworking) (k : K)
    : option (result unit NetworkError * K) :=
  match s with
  | UnservedBoundSocket _ => Some (Ok tt, k)
  | PassedBoundSocket None => Some (Err InvalidFd, k)
  | PassedBoundSocket (Some r) =>
      l ← listeners n !! r;
      Some (if bool_decide (ttl < 256)%N then local_listener (LSetTtl ttl) l k else (Err InvalidInput, k))
  end.

Definition bound_ttl (s : BoundSocket) (n : HostNetworking) (k : K) : option (result N NetworkError) :=
  match s with
  | UnservedBoundSocket _ => Some (Ok 64%N)
  | PassedBoundSocket None => Some (Err InvalidFd)
  | PassedBoundSocket (Some r) => l ← listeners n !! r; Some (local_listener LTtl l k).1
  end.

(** ** Guests *)

(** What a guest does with its sockets, until it ends with an answer. *)
Inductive Script (R : Type) : Type :=
  | Return (r : R)
  | Listener {A} (c : ListenerCall TrackedStream A) (next : A → Script R)
  | Stream {A} (t : TrackedStream) (c : StreamCall A) (next : A → Script R)
  | Drop (t : TrackedStream) (next : Script R).

(** A guest on the host's sockets. *)
Fixpoint run_guest {R} (g : Script R) (p : PassedListener) (n : HostNetworking) (k : K)
    : option (R * HostNetworking * K) :=
  match g with
  | Return _ r => Some (r, n, k)
  | Listener _ c next => '(a, n, k) ← listener_call c p n k; run_guest (next a) p n k
  | Stream _ t c next => let (a, k) := tracked_call c t k in run_guest (next a) p n k
  | Drop _ t next => let (n, k) := tracked_drop t n k in run_guest next p n k
  end.

(** *** A guest on sockets of its own

    The reference: one listening socket, no cell, no guards, no other guest;
    only the descriptors of the connections are noted. *)
Definition own_listener {A} (c : ListenerCall TrackedStream A) (l : TcpListener) (held : gset Z) (k : K)
    : A * gset Z * K :=
  match c with
  | LTryAccept =>
      match local_listener LTryAccept l k with
      | (Err e, k) => (Err e, held, k)
      | (Ok (s, addr), k) => (Ok (mkTracked (as_raw_fd s) s, addr), held ∪ {[as_raw_fd s]}, k)
      end
  | LHostFd => let (a, k) := local_listener LHostFd l k in (a, held, k)
  | LSetHandler h => let (a, k) := local_listener (LSetHandler h) l k in (a, held, k)
  | LAddrLocal => let (a, k) := local_listener LAddrLocal l k in (a, held, k)
  | LSetTtl ttl => let (a, k) := local_listener (LSetTtl ttl) l k in (a, held, k)
  | LTtl => let (a, k) := local_listener LTtl l k in (a, held, k)
  | LRemoveHandler => let (a, k) := local_listener LRemoveHandler l k in (a, held, k)
  | LPollReadReady cx => let (a, k) := local_listener (LPollReadReady cx) l k in (a, held, k)
  | LPollWriteReady cx => let (a, k) := local_listener (LPollWriteReady cx) l k in (a, held, k)
  end.

Fixpoint run_own {R} (g : Script R) (l : TcpListener) (held : gset Z) (k : K) : R * gset Z * K :=
  match g with
  | Return _ r => (r, held, k)
  | Listener _ c next => let '(a, held, k) := own_listener c l held k in run_own (next a) l held k
  | Stream _ t c next => let (a, k) := local_stream c (ts_inner t) k in run_own (next a) l held k
  | Drop _ t next => run_own next l (held ∖ {[guard_fd t]}) (drop_stream (ts_inner t) k)
  end.

(** ** Theorems *)

Lemma set_connections_twice n c d : set_connections (set_connections n c) d = set_connections n d.
Proof. done. Qed.
Lemma set_connections_same n : set_connections n (connections n) = n.
Proof. by destruct n. Qed.

(** A call on the guest's handle is the call on the socket in its cell. *)
Lemma listener_call_own {A} (c : ListenerCall TrackedStream A) p n k l :
  listeners n !! pl_inner p = Some l →
  listener_call c p n k =
    let '(a, held, k) := own_listener c l (connections n) k in Some (a, set_connections n held, k).
Proof.
  intros Hl. destruct c; simpl; unfold try_accept, forward, lock; rewrite Hl; simpl; case_match;
    simpl; rewrite ?set_connections_same; try done.
  by case_match; [case_match|]; rewrite ?set_connections_same.
Qed.

Lemma tracked_call_own {A} (c : StreamCall A) t k : tracked_call c t k = local_stream c (ts_inner t) k.
Proof. by destruct c. Qed.

(** The same for all a guest does. *)
Lemma run_guest_own {R} (g : Script R) p n k l :
  listeners n !! pl_inner p = Some l →
  run_guest g p n k =
    let '(r, held, k) := run_own g l (connections n) k in Some (r, set_connections n held, k).
Proof.
  revert n k. induction g as [r|A c next IH|A t c next IH|t next IH]; intros n k Hl; simpl.
  - by rewrite set_connections_same.
  - rewrite (listener_call_own c p n k l Hl).
    destruct (own_listener c l (connections n) k) as [[a held] k']. simpl.
    rewrite IH by done. simpl. by destruct (run_own (next a) l held k') as [[??]?].
  - rewrite tracked_call_own. destruct (local_stream c (ts_inner t) k) as [a k']. by apply IH.
  - rewrite IH by done. simpl.
    by destruct (run_own next l (connections n ∖ {[guard_fd t]}) (drop_stream (ts_inner t) k)) as [[??]?].
Qed.

(** What a guest does leaves its listener and its cell alone. *)
Lemma run_guest_frame {R} (g : Script R) p n k l r n' k' :
  listeners n !! pl_inner p = Some l → run_guest g p n k = Some (r, n', k') →
  adopted n' = adopted n ∧ listeners n' = listeners n.
Proof.
  intros Hl. rewrite (run_guest_own g p n k l Hl).
  destruct (run_own g l (connections n) k) as [[r1 held] k1]. by intros [= _ <- _].
Qed.

(** A guest that has bound listens on the socket it was passed. *)
Lemma listen_tcp_adopts n addr n' r :
  listen_tcp (Ok tt) n addr = (n', Ok r, true) →
  adopted n' = Some r ∧ ∃ l, passed n = Some l ∧ listeners n' !! r = Some l.
Proof.
  unfold listen_tcp, bind_tcp. case_bool_decide; [done|].
  destruct (passed n) as [l|]; [|done]. simpl. intros [= <- <-]. simpl. split; [done|].
  exists l. split; [done|]. by rewrite lookup_app_r, Nat.sub_diag by lia.
Qed.

(** C18: a clone's guest is served by the clone's own socket.  Whatever a guest
    did with its listener and its connections in the template, from its first
    call on, once the clone has replaced the listening socket every call the
    guest makes on the listener it got before the fork, and on every connection,
    does and answers what it would on the new socket alone: the template's
    socket is out of its reach, and nothing about the cell or the guards shows. *)
Theorem clone_listens_on_its_own_socket {R R'} n addr r n1 (before : Script R) x n2 k1 k2
    fresh n3 (after : Script R') k3 :
  listen_tcp (Ok tt) n addr = (n1, Ok r, true) →
  run_guest before (mkPassedListener r) n1 k1 = Some (x, n2, k2) →
  replace_listener (Ok tt) n2 fresh = Ok n3 →
  run_guest after (mkPassedListener r) n3 k3 =
    let '(y, held, k) := run_own after fresh (connections n2) k3 in
    Some (y, set_connections n3 held, k).
Proof.
  intros [Ha (l & _ & Hl)]%listen_tcp_adopts Hrun Hrep.
  pose proof (run_guest_frame _ (mkPassedListener r) _ _ _ _ _ _ Hl Hrun) as [Ha2 Hl2].
  unfold replace_listener in Hrep. rewrite Ha2, Ha in Hrep. injection Hrep as <-.
  rewrite (run_guest_own after (mkPassedListener r) _ k3 fresh); [done|]. simpl. rewrite Hl2, list_lookup_insert_eq; [done|]. by eapply lookup_lt_Some.
Qed.

(** The time to live a guest sets on its bound socket: a byte, or refused with
    the socket as it was. *)
Lemma bound_set_ttl_bounds s ttl n k :
  (256 <= ttl)%N →
  bound_set_ttl s ttl n k ≠ None →
  bound_set_ttl s ttl n k = Some (match s with
    | UnservedBoundSocket _ => Ok tt
    | PassedBoundSocket None => Err InvalidFd
    | PassedBoundSocket (Some _) => Err InvalidInput
    end, k).
Proof.
  intros Ht. unfold bound_set_ttl. destruct s as [a|[r|]]; [done| |done].
  destruct (listeners n !! r) as [l|]; simpl; [|done]. by rewrite bool_decide_false by lia.
Qed.
End sockets.

Module SocketsWitness.
(** A kernel that records which sockets are used, and hands out descriptors. *)
Definition log : Type := list Z.

Definition answer_stream {A} (c : StreamCall A) : A :=
  match c with
  | SRemoveHandler => tt
  | SPollReadReady _ | SPollWriteReady _ => Pending
  | SSetTtl _ | SSetHandler _ | SSetLinger _ | STryFlush | SClose | SSetRecvBufSize _
  | SSetSendBufSize _ | SSetNodelay _ | SSetKeepalive _ | SSetDontroute _ | SShutdown _ => Ok tt
  | STtl | SRecvBufSize | SSendBufSize => Ok 64%N
  | STrySend data => Ok (N.of_nat (length data))
  | SAddrLocal | SAddrPeer => Ok (mkAddr "127.0.0.1" 4000)
  | SStatus => Ok Opened
  | SLastError | SLinger => Ok None
  | STryRecv _ _ => Ok []
  | SHostFd => None
  | SNodelay | SKeepalive | SDontroute => Ok false
  | SIsClosed => false
  end.

Definition answer_listener {A} (c : ListenerCall LocalTcpStream A) (fd : Z) : A :=
  match c with
  | LHostFd => Some fd
  | LTryAccept => Ok (mkLocal (fd + 100)%Z, mkAddr "127.0.0.1" 50000)
  | LSetHandler _ | LSetTtl _ => Ok tt
  | LAddrLocal => Ok (mkAddr "127.0.0.1" 4000)
  | LTtl => Ok 64%N
  | LRemoveHandler => tt
  | LPollReadReady _ | LPollWriteReady _ => Pending
  end.

#[local] Instance logging : LocalSockets log := {|
  local_stream A c s k := (answer_stream c, k ++ [as_raw_fd s]);
  drop_stream s k := k ++ [as_raw_fd s];
  local_listener A c l k := (answer_listener c (listener_fd l), k ++ [listener_fd l])
|}.

(** Accept one connection, answer it, and keep it. *)
Definition serve_one : Script (option TrackedStream) :=
  Listener _ LTryAccept (λ a, match a with
    | Ok (t, _) => Stream _ t (STrySend [x00]) (λ _, Return _ (Some t))
    | Err _ => Return _ None
    end).

Definition template_socket : TcpListener := mkListener 7 (Ok (mkAddr "127.0.0.1" 4000)).
Definition clone_socket : TcpListener := mkListener 9 (Ok (mkAddr "127.0.0.1" 4001)).
Definition passed_net : HostNetworking := mkNet 5432 (Some template_socket) None [] ∅.
Definition bound_net : HostNetworking := mkNet 5432 None (Some 0) [template_socket] ∅.

Lemma clone_listens_witness :
  run_guest serve_one (mkPassedListener 0) (mkNet 5432 None (Some 0) [clone_socket] {[107%Z]}) [] =
    Some (Some (mkTracked 109 (mkLocal 109)),
          mkNet 5432 None (Some 0) [clone_socket] ({[107%Z]} ∪ {[109%Z]}), [9; 109]%Z).
Proof.
  rewrite (clone_listens_on_its_own_socket passed_net (mkAddr "0.0.0.0" 5432) 0 bound_net
    serve_one (Some (mkTracked 107 (mkLocal 107)))
    (mkNet 5432 None (Some 0) [template_socket] {[107%Z]}) [] [7; 107]%Z
    clone_socket _ serve_one []).
  - reflexivity.
  - reflexivity.
  - vm_compute. reflexivity.
  - reflexivity.
Defined.
End SocketsWitness.
