(* ===== verification/Title.v ===== *)
(** * Process titles

    Models src/crates/servicecache/src/host/title.rs: the text of a host's
    title ([render]) and writing it over the process's argument memory
    ([write]).  The argument memory is a list of bytes here; Proc.v finds it in
    what /proc reports. *)

From S2P Require Import Prelude.

Inductive State : Type :=
  | Starting
  | Serving (endpoint : SocketAddr)
  | FrozenState.

Definition render (name version : string) (recipe : option (list byte)) (state : State) : string :=
  let role := match state with
    | Starting | Serving _ => "instance"
    | FrozenState => "template"
    end in
  let title := "servicecache " +:+ role +:+ " " +:+ name +:+ "@" +:+ version in
  let title := match recipe with
    | Some digest => title +:+ " recipe " +:+ foldr String.append "" (map hex_byte (take 4 digest))
    | None => title
    end in
  match state with
  | Starting => title +:+ " starting"
  | Serving endpoint => title +:+ " listening on " +:+ addr_to_string endpoint
  | FrozenState => title
  end.

Definition string_bytes (s : string) : list byte :=
  map (λ c, byte_of_N (N_of_ascii c)) (String.list_ascii_of_string s).

(** [write]: the argument memory afterwards; [None] when it was not found. *)
Definition write_title (title : list byte) (region : option (list byte)) : option (list byte) :=
  match region with
  | None => None
  | Some memory =>
      let len := length memory in
      let room := len - 1 in
      let shown := take (min (length title) room) title in
      Some (shown ++ replicate (len - length shown) x00)
  end.

(** Writing a title stays inside the argument memory and leaves it a
    terminated string: the region keeps its length, holds the title cut to the
    room there is, and is zero from there to its end, its last byte included.
    A title with room to spare is written whole, and a later shorter title
    leaves nothing of an earlier one behind. *)
Theorem write_title_exact title memory :
  0 < length memory →
  ∃ shown,
    write_title title (Some memory) = Some (shown ++ replicate (length memory - length shown) x00) ∧
    shown `prefix_of` title ∧ length shown < length memory ∧
    (length title < length memory → shown = title) ∧
    (∀ title', write_title title' (write_title title (Some memory)) =
               write_title title' (Some memory)).
Proof.
  intros Hlen. set (shown := take (min (length title) (length memory - 1)) title).
  assert (length shown = min (length title) (length memory - 1)) as Hs
    by (unfold shown; rewrite length_take; lia).
  exists shown. split_and!.
  - done.
  - apply prefix_take.
  - lia.
  - intros Hfit. unfold shown. rewrite take_ge; [done|lia].
  - intros title'. unfold write_title at 2. fold shown. unfold write_title.
    rewrite length_app, length_replicate. by replace (length shown + (length memory - length shown))
      with (length memory) by lia.
Qed.

Lemma write_title_witness :
  ∃ shown, write_title (string_bytes "servicecache host") (Some (replicate 8 x41)) =
    Some (shown ++ replicate (8 - length shown) x00) ∧ length shown < 8.
Proof.
  destruct (write_title_exact (string_bytes "servicecache host") (replicate 8 x41))
    as (shown & Hw & _ & Hl & _).
  - vm_compute. lia.
  - exists shown. split; [exact Hw|exact Hl].
Defined.
