(* ===== verification/Proc.v ===== *)
(** * What a host reads of the kernel

    Models the readers of /proc and /sys: [region] and [write] of
    src/crates/servicecache/src/host/title.rs, and [thread_count],
    [thread_names], [page_size], [huge_page_size] and [mapping_huge_pages] of
    host/freeze.rs.  The files' texts are arguments, [None] when they cannot be
    read. *)

From S2P Require Import Prelude Text Title.

(** ** The argument memory *)

(** [region]: the address and length of the arguments, from the text of
    /proc/self/stat. *)
Definition region (stat : option string) : result (N * N) error :=
  let? stat := ok_or ["/proc/self/stat"] stat in
  let? (_, after_comm) := ok_or ["unparseable /proc/self/stat"] (rsplit_once ")" stat) in
  let fields := drop (48 - 3) (words after_comm) in
  let? first := ok_or ["no arg_start in /proc/self/stat"] (head fields) in
  let? arg_start := ok_or ["invalid digit found in string"] (parse_usize first) in
  let? second := ok_or ["no arg_end in /proc/self/stat"] (head (tail fields)) in
  let? arg_end := ok_or ["invalid digit found in string"] (parse_usize second) in
  if bool_decide (arg_start = 0%N) || bool_decide (arg_end <= arg_start)%N then
    Err ["no argument region"]
  else Ok (arg_start, arg_end - arg_start)%N.

(** ** Threads *)

(** [find_map] over lines. *)
Fixpoint find_map {A} (f : string → option A) (l : list string) : option A :=
  match l with
  | [] => None
  | x :: l => match f x with Some a => Some a | None => find_map f l end
  end.

(** [thread_count], from the text of /proc/self/status. *)
Definition thread_count (status : option string) : N :=
  default 0%N
    (text ← status;
     value ← find_map (λ line, str_strip_prefix line "Threads:") (lines text);
     parse_usize (trim value)).

(** [thread_names]: a name per task that could be listed. *)
Definition thread_names (tasks : option (list (option (option string)))) : list string :=
  match tasks with
  | None => []
  | Some tasks =>
      omap (λ task, match task with
                    | None => None
                    | Some None => Some "?"
                    | Some (Some name) => Some (trim name)
                    end) tasks
  end.

(** ** Pages *)

(** [page_size]: [sysconf] answers a [long]. *)
Definition page_size (sysconf : Z) : N :=
  if bool_decide (0 <= sysconf)%Z then Z.to_N sysconf else 4096%N.

Definition huge_page_size (text : option string) : N :=
  default (N.shiftl 2 20) (text ← text; parse_usize (trim text)).

(** A mapping of /proc/self/smaps. *)
Abbreviation Mapping := (N * N * bool)%type (only parsing).

(** A header line: the range it starts with. *)
Definition header (line : string) : option (N * N) :=
  '(range, _) ← split_once " " line;
  '(start, stop) ← split_once "-" range;
  start ← from_str_radix 16 start;
  stop ← from_str_radix 16 stop;
  Some (start, stop).

(** The loop of [mapping_huge_pages]; [None] is the [?] on a size. *)
Fixpoint mappings_loop (ls : list string) (current : option (N * N)) (found : list Mapping)
    : option (list Mapping) :=
  match ls with
  | [] => Some found
  | line :: ls =>
      match str_strip_prefix line "AnonHugePages:" with
      | Some rest =>
          match current with
          | Some (start, stop) =>
              kb ← head (words rest);
              kb ← parse_usize kb;
              mappings_loop ls None (found ++ [(start, stop, bool_decide (0 < kb)%N)])
          | None => mappings_loop ls None found
          end
      | None =>
          mappings_loop ls (match header line with Some r => Some r | None => current end) found
      end
  end.

Definition mapping_huge_pages (smaps : option string) : option (list Mapping) :=
  text ← smaps; mappings_loop (lines text) None [].

(** ** Writing the title *)

(** The bytes of a region of memory, and memory with a region replaced. *)
Definition read_region (memory : N → byte) (start len : N) : list byte :=
  map (λ i, memory (start + N.of_nat i)%N) (seq 0 (N.to_nat len)).
Definition replace_region (memory : N → byte) (start : N) (bytes : list byte) (a : N) : byte :=
  if bool_decide (start <= a)%N then default (memory a) (bytes !! N.to_nat (a - start))
  else memory a.

(** [title::write] over the process's memory: nothing when there is no
    argument memory. *)
Definition write (stat : option string) (title : list byte) (memory : N → byte) : N → byte :=
  match region stat with
  | Ok (start, len) =>
      match write_title title (Some (read_region memory start len)) with
      | Some bytes => replace_region memory start bytes
      | None => memory
      end
  | Err _ => memory
  end.

(** [title::set]. *)
Definition set (stat : option string) (name version : string) (recipe : option (list byte))
    (state : State) (memory : N → byte) : N → byte :=
  write stat (string_bytes (render name version recipe state)) memory.

(** ** The argument memory is found whatever the process is called *)

(** A line of /proc/self/stat as the kernel prints it: the pid, the command's
    name in parentheses, and the fields from the third on. *)
Definition stat_line (pid comm : string) (fields : list string) : string :=
  pid +:+ " (" +:+ comm +:+ ") " +:+ join_with " " fields +:+ String newline "".

Lemma no_char_app a s t : no_char a s → no_char a t → no_char a (s +:+ t).
Proof. induction s as [|c s IH]; [done|]. rewrite append_cons. simpl. intros [Hc Hs] Ht. auto. Qed.

Lemma no_char_join a sep ws :
  no_char a sep → Forall (no_char a) ws → no_char a (join_with sep ws).
Proof.
  intros Hsep Hall. induction Hall as [|w ws Hw Hws IH]; [done|].
  destruct ws as [|v vs]; [done|].
  change (join_with sep (w :: v :: vs)) with (w +:+ sep +:+ join_with sep (v :: vs)).
  apply no_char_app; [done|]. by apply no_char_app.
Qed.

(** Trailing whitespace adds no word. *)
Lemma words_from_end s c : is_space c = true → words_from (s +:+ String c "") = words_from s.
Proof.
  intros Hc. induction s as [|d s IH].
  - change ("" +:+ String c "") with (String c ""). simpl. by rewrite Hc.
  - rewrite append_cons. simpl. by rewrite IH.
Qed.

Lemma words_end s c : is_space c = true → words (s +:+ String c "") = words s.
Proof. intros Hc. unfold words. by rewrite words_from_end. Qed.

Lemma region_of_stat pid comm before after start stop first second :
  Forall is_word (before ++ first :: second :: after) →
  Forall (no_char ")") (before ++ first :: second :: after) →
  length before = 45 → parse_usize first = Some start → parse_usize second = Some stop →
  (0 < start < stop)%N →
  region (Some (stat_line pid comm (before ++ first :: second :: after))) = Ok (start, stop - start)%N.
Proof.
  intros Hw Hp Hl H1 H2 Hlt. unfold region, stat_line. cbn [ok_or].
  set (fields := before ++ first :: second :: after) in *.
  replace (pid +:+ " (" +:+ comm +:+ ") " +:+ join_with " " fields +:+ String newline "")
    with ((pid +:+ " (" +:+ comm) +:+ String ")" (String " " (join_with " " fields +:+ String newline "")))
    by by rewrite !string_app_assoc.
  rewrite rsplit_once_at.
  2:{ split; [done|]. apply no_char_app; [|by split]. by apply no_char_join; [split|]. }
  cbn [ok_or]. rewrite words_space, words_end, words_join by done. change (48 - 3) with 45.
  unfold fields. rewrite <- Hl, drop_app_length. cbn [head tail ok_or]. rewrite H1. cbn [ok_or]. rewrite H2.
  cbn [ok_or]. by rewrite !bool_decide_false by lia.
Qed.

Lemma write_title_lookup title memory bytes i :
  write_title title (Some memory) = Some bytes →
  bytes !! i =
    if decide (i < min (length title) (length memory - 1)) then title !! i
    else if decide (i < length memory) then Some x00 else None.
Proof.
  unfold write_title. intros [= <-].
  set (n := min (length title) (length memory - 1)).
  assert (length (take n title) = n) as Hn by (rewrite length_take; lia).
  destruct (decide (i < n)) as [Hi|Hi].
  - rewrite lookup_app_l by lia. by apply lookup_take_lt.
  - rewrite lookup_app_r, Hn by lia. destruct (decide (i < length memory)) as [Hl|Hl].
    + apply lookup_replicate_2. lia.
    + apply lookup_replicate_None. lia.
Qed.

(** C40: a host's title is written over its arguments and nowhere else.  Whatever
    the process is called, parentheses, spaces and newlines included, the
    argument memory is found from the text the kernel prints; writing a title
    changes no byte outside it, puts the title, cut to leave a last zero byte,
    at its start, and zeroes all of the rest, so that nothing of an earlier
    title or of the arguments is left. *)
Theorem title_stays_in_the_arguments pid comm before after start stop first second title memory :
  Forall is_word (before ++ first :: second :: after) →
  Forall (no_char ")") (before ++ first :: second :: after) →
  length before = 45 → parse_usize first = Some start → parse_usize second = Some stop →
  (0 < start < stop)%N →
  let stat := stat_line pid comm (before ++ first :: second :: after) in
  let shown := min (length title) (N.to_nat (stop - start) - 1) in
  ∀ a, write (Some stat) title memory a =
    if decide (start <= a < stop)%N then
      let i := N.to_nat (a - start) in
      if decide (i < shown) then default x00 (title !! i) else x00
    else memory a.
Proof.
  intros Hw Hp Hl H1 H2 Hlt stat shown a. unfold write, stat.
  rewrite (region_of_stat _ _ _ _ start stop) by done.
  destruct (write_title title _) as [bytes|] eqn:Ht; [|by unfold write_title in Ht].
  assert (length (read_region memory start (stop - start)) = N.to_nat (stop - start)) as Hlen
    by (unfold read_region; by rewrite length_map, length_seq).
  unfold replace_region. rewrite (write_title_lookup _ _ _ _ Ht), Hlen.
  destruct (decide (start <= a < stop)%N) as [Ha|Ha].
  - rewrite bool_decide_true by lia. fold shown.
    destruct (decide (N.to_nat (a - start) < shown)) as [Hi|Hi].
    + destruct (lookup_lt_is_Some_2 title (N.to_nat (a - start))) as [b ->]; [unfold shown in Hi; lia|done].
    + by rewrite decide_True by lia.
  - case_bool_decide; [|done]. rewrite decide_False by (fold shown; unfold shown; lia).
    by rewrite decide_False by lia.
Qed.

(** ** Huge pages are found for every mapping *)

(** A mapping as /proc/self/smaps lists it: its header line, attributes, the
    size of its huge pages, and more attributes. *)
Record Listed : Type := mkListed {
  ls_header : string;
  ls_before : list string;
  ls_huge : string;
  ls_after : list string;
}.
Definition listed_lines (l : Listed) : list string :=
  ls_header l :: ls_before l ++ ("AnonHugePages:" +:+ ls_huge l) :: ls_after l.

(** An attribute line: not a range, and not the size of the huge pages. *)
Definition attribute (line : string) : Prop :=
  header line = None ∧ str_strip_prefix line "AnonHugePages:" = None.

Record listed_as (l : Listed) (m : Mapping) : Prop := mkListedAs {
  la_header : header (ls_header l) = Some m.1;
  la_not_huge : str_strip_prefix (ls_header l) "AnonHugePages:" = None;
  la_before : Forall attribute (ls_before l);
  la_after : Forall attribute (ls_after l);
  la_huge : ∃ kb word rest, words (ls_huge l) = word :: rest ∧ parse_usize word = Some kb ∧
    m.2 = bool_decide (0 < kb)%N;
}.

Lemma mappings_skip ls rest current found :
  Forall attribute ls → mappings_loop (ls ++ rest) current found = mappings_loop rest current found.
Proof.
  induction 1 as [|line ls [Hh Hs] Hls IH]; [done|]. cbn [app mappings_loop]. by rewrite Hs, Hh.
Qed.

Lemma mappings_listed ls ms found :
  Forall2 listed_as ls ms →
  mappings_loop (concat (map listed_lines ls)) None found = Some (found ++ ms).
Proof.
  intros Hall. revert found. induction Hall as [|l m ls ms Hl Hall IH]; intros found.
  { simpl. by rewrite app_nil_r. }
  unfold listed_lines. cbn [map concat app mappings_loop].
  destruct Hl as [Hh Hn Hb Ha (kb & word & rest & Hw & Hk & Hm)]. rewrite Hn, Hh.
  rewrite <- app_assoc, mappings_skip by done. cbn [app mappings_loop]. rewrite str_strip_prefix_app.
  destruct m as [[start stop] huge]. simpl in Hm. subst huge. cbn [fst].
  rewrite Hw. cbn [head mbind option_bind]. rewrite Hk. cbn [mbind option_bind].
  rewrite mappings_skip by done. fold listed_lines. rewrite IH. by rewrite <- app_assoc.
Qed.

(** The huge pages of every mapping are found.  From the text of
    /proc/self/smaps, in which each mapping is a header line and attributes of
    which one is the size of its huge pages, in any order and with whatever
    other attributes, [mapping_huge_pages] reads back every mapping, in order,
    with its range and whether it holds huge pages. *)
Theorem mappings_round_trip ls ms :
  Forall2 listed_as ls ms →
  Forall (no_char newline) (concat (map listed_lines ls)) →
  Forall (no_char return_) (concat (map listed_lines ls)) →
  mapping_huge_pages (Some (unlines (concat (map listed_lines ls)))) = Some ms.
Proof.
  intros Hall Hn Hr. unfold mapping_huge_pages. cbn [mbind option_bind].
  rewrite lines_unlines by done. by rewrite mappings_listed with (ms := ms).
Qed.

Module ProcWitness.
Definition zeros : list string := replicate 45 "0".
Definition stat_example : string := stat_line "42" "a) (b c" (zeros ++ ["4096"; "4100"; "0"]).

Lemma title_witness :
  map (write (Some stat_example) [x61; x62; x63; x64; x65] (λ _, xff))
    [4095; 4096; 4097; 4098; 4099; 4100]%N = [xff; x61; x62; x63; x00; xff].
Proof.
  pose proof (title_stays_in_the_arguments "42" "a) (b c" zeros ["0"] 4096 4100 "4096" "4100"
    [x61; x62; x63; x64; x65] (λ _, xff)) as H.
  rewrite (map_ext _ _ (H ltac:(repeat (constructor; [split; done|]); constructor)
    ltac:(repeat (constructor; [repeat split; done|]); constructor)
    eq_refl eq_refl eq_refl ltac:(lia))). reflexivity.
Defined.

Definition heap : Listed :=
  mkListed "7f00-7f80 rw-p 00000000 00:00 0 [heap]" ["Size:  512 kB"] "      2048 kB" ["THPeligible: 1"].
Definition code : Listed :=
  mkListed "a000-b000 r-xp 00000000 08:01 99 /usr/bin/x-y" [] "         0 kB" ["VmFlags: rd ex"].

Lemma mappings_witness :
  mapping_huge_pages (Some (unlines (listed_lines heap ++ listed_lines code ++ []))) =
    Some [(32512, 32640, true); (40960, 45056, false)]%N.
Proof.
  apply (mappings_round_trip [heap; code]).
  - constructor; [|constructor; [|constructor]].
    + split; try reflexivity; [repeat (constructor; [split; reflexivity|]); constructor..|].
      exists 2048%N, "2048", ["kB"]. split_and!; reflexivity.
    + split; try reflexivity; [repeat (constructor; [split; reflexivity|]); constructor..|].
      exists 0%N, "0", ["kB"]. split_and!; reflexivity.
  - repeat (constructor; [repeat split; discriminate|]). constructor.
  - repeat (constructor; [repeat split; discriminate|]). constructor.
Defined.
End ProcWitness.
