(* ===== verification/Tasks.v ===== *)
(** * The host's task manager

    Models src/crates/servicecache/src/host/tasks.rs: the sleep that re-arms
    itself after a fork, the count of host-side tasks a freeze looks at, and
    how guest threads are started; and, with [watch_run] of host/mod.rs, what is
    on the runtime of a host as it freezes and of its clones.

    A Tokio timer is a parameter with what its documentation promises: it does
    not fire before its deadline, and on a runtime whose driver runs it has
    fired by its granularity after it.  A runtime is a number; the one a host
    was forked from keeps its number and its driver does not run in the child.
    Times are nanoseconds. *)

From S2P Require Import Prelude.

(** ** The shared state *)

Definition u64_add (a b : N) : N := ((a + b) mod 2 ^ 64)%N.
Definition u64_sub (a b : N) : N := ((a + 2 ^ 64 - b) mod 2 ^ 64)%N.

(** [Shared]: [fetch_add] and [fetch_sub] wrap around. *)
Record Shared : Type := mkShared {
  handle : nat;
  generation : N;
  tasks_in_flight : N;
}.

(** [HostTaskManager::new]. *)
Definition new_tasks (h : nat) : Shared := mkShared h 0 0.

Definition replace_runtime (h : nat) (sh : Shared) : Shared :=
  mkShared h (u64_add (generation sh) 1) (tasks_in_flight sh).

Definition shared_tasks_in_flight (sh : Shared) : N := tasks_in_flight sh.

(** [SLEEP_SOURCE]: a [OnceLock], by the identity of the task manager. *)
Definition install_as_sleep_source (me : nat) (source : option nat) : option nat :=
  match source with Some _ => source | None => Some me end.

(** ** The fork-aware sleep *)

(** A [tokio::time::Sleep]: the runtime it is registered with, its deadline. *)
Record Timer : Type := mkTimer { t_runtime : nat; t_deadline : N }.

Record ForkAwareSleep : Type := mkSleep {
  deadline : N;
  s_generation : N;
  timer : option Timer;
}.

(** The last [Instant]: 64-bit signed seconds. *)
Definition instant_max : N := (2 ^ 63 * 1000000000 - 1)%N.

(** [sleep_now]; [Instant::now() + time] panics past the last instant. *)
Definition sleep_now (now time : N) (sh : Shared) : option ForkAwareSleep :=
  if bool_decide (now + time <= instant_max)%N
  then Some (mkSleep (now + time) (generation sh) None)
  else None.

(** [sleep_hook]: panics without a source, then is its [sleep_now]. *)
Definition sleep_hook (managers : nat → Shared) (source : option nat) (now time : N)
    : option ForkAwareSleep :=
  match source with
  | None => None
  | Some me => sleep_now now time (managers me)
  end.

(** What a poll does to timers. *)
Inductive TimerEffect : Type :=
  | Forgot (t : Timer)
  | Armed (t : Timer)
  | Polled (t : Timer).

Section sleep.
(** [Sleep::poll]: whether a timer is ready at a time, in a process where the
    driver of one runtime runs. *)
Context (timer_ready : nat → Timer → N → bool).

(** [ForkAwareSleep::poll]. *)
Definition poll (sh : Shared) (now : N) (s : ForkAwareSleep)
    : bool * list TimerEffect * ForkAwareSleep :=
  let current := generation sh in
  let '(t, effects, s) :=
    match timer s with
    | Some t =>
        if bool_decide (s_generation s = current) then (t, [], s)
        else
          let t' := mkTimer (handle sh) (deadline s) in
          (t', [Forgot t; Armed t'], mkSleep (deadline s) current (Some t'))
    | None =>
        let t' := mkTimer (handle sh) (deadline s) in
        (t', [Armed t'], mkSleep (deadline s) current (Some t'))
    end in
  (timer_ready (handle sh) t now, effects ++ [Polled t], s).

(** A sleep's life: polls at times, and forks, after each of which the child's
    copy of the sleep is followed. *)
Inductive Moment : Type :=
  | PolledAt (now : N)
  | ForkedTo (runtime : nat).

(** What each poll saw: the time, the process's runtime, the answer and the
    effects. *)
Record Seen : Type := mkSeen {
  seen_now : N;
  seen_runtime : nat;
  seen_ready : bool;
  seen_effects : list TimerEffect;
}.

Fixpoint live (moments : list Moment) (sh : Shared) (s : ForkAwareSleep) : list Seen :=
  match moments with
  | [] => []
  | PolledAt now :: moments =>
      let '(ready, effects, s) := poll sh now s in
      mkSeen now (handle sh) ready effects :: live moments sh s
  | ForkedTo runtime :: moments => live moments (replace_runtime runtime sh) s
  end.

Definition forks (moments : list Moment) : N :=
  N.of_nat (length (filter (λ m, match m with ForkedTo _ => true | _ => false end = true) moments)).

End sleep.

(** ** Host-side tasks *)

(** [task_shared]: the count as the task is spawned, and once its future has
    ended. *)
Definition task_started (sh : Shared) : Shared :=
  mkShared (handle sh) (generation sh) (u64_add (tasks_in_flight sh) 1).
Definition task_ended (sh : Shared) : Shared :=
  mkShared (handle sh) (generation sh) (u64_sub (tasks_in_flight sh) 1).

(** ** Guest threads *)

Inductive WasiThreadError : Type := Unsupported | InvalidWasmContext | OtherThreadError (n : nat).

Definition TASK_STACK_SIZE : N := N.shiftl 8 20.
Definition DRIVER_STACK_SIZE : N := N.shiftl 1 20.
Definition MAX_THREAD_PARALLELISM : N := 4.

(** [spawn_guest_thread]: [spawned] is whether the system started the thread. *)
Definition spawn_guest_thread (spawned : bool) : result unit WasiThreadError :=
  if spawned then Ok tt else Err Unsupported.

(** [task_wasm]: [ready] is what [run_task_wasm] sends, [None] when its thread
    ends without. *)
Definition task_wasm (spawned : bool) (ready : option (result unit WasiThreadError))
    : result unit WasiThreadError :=
  let? _ := spawn_guest_thread spawned in
  match ready with
  | None => Err InvalidWasmContext
  | Some r => r
  end.

Definition task_dedicated (spawned : bool) : result unit WasiThreadError :=
  spawn_guest_thread spawned.

(** [thread_parallelism]: [available_parallelism] is a non-zero count. *)
Definition thread_parallelism (available : option positive) : N :=
  N.min (match available with Some n => Npos n | None => 1 end) MAX_THREAD_PARALLELISM.

(** ** A sleep across forks *)

Lemma u64_add_lt a b : (u64_add a b < 2 ^ 64)%N.
Proof. unfold u64_add. apply N.mod_lt. lia. Qed.

(** [later] forks away from [g], modulo the counter's width. *)
Lemma u64_add_ne g k : (g < 2 ^ 64)%N → (0 < k < 2 ^ 64)%N → u64_add g k ≠ g.
Proof.
  unfold u64_add. change (2 ^ 64)%N with 18446744073709551616%N. intros Hg Hk.
  zify. Z.to_euclidean_division_equations. lia.
Qed.

Lemma u64_add_assoc g a b : u64_add (u64_add g a) b = u64_add g (a + b).
Proof.
  unfold u64_add. rewrite N.Div0.add_mod_idemp_l. by rewrite N.add_assoc.
Qed.

Lemma u64_add_0 g : (g < 2 ^ 64)%N → u64_add g 0 = g.
Proof. intros. unfold u64_add. rewrite N.add_0_r. by apply N.mod_small. Qed.

Section laws.
Context (timer_ready : nat → Timer → N → bool) (granularity : N).
(** Tokio's promises. *)
Hypothesis never_early :
  ∀ r t now, timer_ready r t now = true → (t_deadline t <= now)%N.
Hypothesis fires :
  ∀ t now, (t_deadline t + granularity <= now)%N → timer_ready (t_runtime t) t now = true.

(** The sleep's timer is of this process, or of one so few forks ago that the
    counter tells. *)
Definition armed_ok (sh : Shared) (s : ForkAwareSleep) (ahead : N) : Prop :=
  (s_generation s < 2 ^ 64)%N ∧
  match timer s with
  | None => True
  | Some t =>
      t_deadline t = deadline s ∧
      ((generation sh = s_generation s ∧ t_runtime t = handle sh) ∨
       ∃ k, (0 < k)%N ∧ (k + ahead < 2 ^ 64)%N ∧ generation sh = u64_add (s_generation s) k)
  end.

Lemma armed_ok_poll sh now s ahead ready effects s' :
  (generation sh < 2 ^ 64)%N → armed_ok sh s ahead →
  poll timer_ready sh now s = (ready, effects, s') →
  let t := mkTimer (handle sh) (deadline s) in
  armed_ok sh s' ahead ∧ deadline s' = deadline s ∧ timer s' = Some t ∧
  ready = timer_ready (handle sh) t now ∧
  (∀ e, e ∈ effects → e = Armed t ∨ e = Polled t ∨ ∃ old, e = Forgot old ∧ timer s = Some old).
Proof.
  intros Hg [Hs Ht] Hp. unfold poll in Hp. unfold armed_ok.
  destruct (timer s) as [t|] eqn:Et.
  - destruct Ht as [Hd Ht]. case_bool_decide as Hgen.
    + injection Hp as <- <- <-. destruct Ht as [[_ Hr]|(k & Hk & Hka & Hge)].
      2:{ exfalso. apply (u64_add_ne (s_generation s) k Hs ltac:(lia)). congruence. }
      destruct t as [r d]. simpl in *. subst r d. rewrite Et. split_and!; simpl; auto.
      intros e [->|[]%elem_of_nil]%elem_of_cons. auto.
    + injection Hp as <- <- <-. split_and!; simpl; auto.
      intros e. rewrite !elem_of_cons. intros [->|[->|[->|[]%elem_of_nil]]]; eauto.
  - injection Hp as <- <- <-. split_and!; simpl; auto.
    intros e. rewrite !elem_of_cons. intros [->|[->|[]%elem_of_nil]]; auto.
Qed.

Lemma armed_ok_fork sh r s ahead :
  (ahead + 1 < 2 ^ 64)%N → armed_ok sh s (ahead + 1) → armed_ok (replace_runtime r sh) s ahead.
Proof.
  intros Ha [Hs Ht]. split; [done|]. destruct (timer s) as [t|]; [|done].
  destruct Ht as [Hd Ht]. split; [done|]. right. simpl.
  destruct Ht as [[Hge _]|(k & Hk & Hka & Hge)]; rewrite Hge.
  - exists 1%N. split_and!; [lia|lia|done].
  - exists (k + 1)%N. rewrite u64_add_assoc. split_and!; [lia|lia|done].
Qed.

Lemma forks_cons m moments :
  forks (m :: moments) = (match m with ForkedTo _ => 1 | _ => 0 end + forks moments)%N.
Proof.
  unfold forks. destruct m; [by rewrite filter_cons_False by done|].
  rewrite filter_cons_True by done. simpl length. lia.
Qed.

Lemma live_seen moments sh s x :
  (generation sh < 2 ^ 64)%N → (forks moments < 2 ^ 64)%N → armed_ok sh s (forks moments) →
  x ∈ live timer_ready moments sh s →
  let t := mkTimer (seen_runtime x) (deadline s) in
  seen_ready x = timer_ready (seen_runtime x) t (seen_now x) ∧
  ∀ t', Polled t' ∈ seen_effects x ∨ Armed t' ∈ seen_effects x → t' = t.
Proof.
  revert sh s. induction moments as [|[now|r] moments IH]; intros sh s Hg Hf Hok; simpl.
  - by intros ?%elem_of_nil.
  - rewrite forks_cons in Hf, Hok. rewrite N.add_0_l in Hf, Hok.
    destruct (poll timer_ready sh now s) as [[ready effects] s'] eqn:Hp.
    pose proof (armed_ok_poll _ _ _ _ _ _ _ Hg Hok Hp) as (Hok' & Hd & _ & Hr & He).
    intros [->|Hx]%elem_of_cons.
    + simpl. split; [done|]. intros t' [Hin|Hin]; apply He in Hin; naive_solver.
    + rewrite <- Hd. by apply (IH sh s').
  - rewrite forks_cons in Hf, Hok. apply IH; [apply u64_add_lt|lia|].
    apply armed_ok_fork; [lia|]. by rewrite N.add_comm.
Qed.

(** C12: a sleep a guest started before it was frozen ends in every clone.
    Through fewer than 2^64 forks of the process that holds it, each of its
    polls arms and polls only a timer of the runtime of its own process, for
    the deadline the sleep was started with; it is not ready before that
    deadline, and it is ready at every poll that comes at least the granularity
    of the runtime's timers after it. *)
Theorem sleep_fires_in_every_clone now time sh s moments x :
  sleep_now now time sh = Some s →
  (generation sh < 2 ^ 64)%N → (forks moments < 2 ^ 64)%N →
  x ∈ live timer_ready moments sh s →
  (seen_ready x = true → (now + time <= seen_now x)%N) ∧
  ((now + time + granularity <= seen_now x)%N → seen_ready x = true) ∧
  (∀ t, Polled t ∈ seen_effects x ∨ Armed t ∈ seen_effects x →
     t = mkTimer (seen_runtime x) (now + time)).
Proof.
  unfold sleep_now. intros Hs Hg Hf Hx. case_bool_decide; [|done]. injection Hs as <-.
  apply live_seen in Hx as [-> He]; [|done..]. simpl in *. split_and!; [|apply (fires (mkTimer _ _))|done].
  apply (never_early _ (mkTimer _ _)).
Qed.
End laws.

(** A timer that fires at its deadline where its driver runs. *)
Definition exact_timer (r : nat) (t : Timer) (now : N) : bool :=
  bool_decide (t_runtime t = r) && bool_decide (t_deadline t <= now)%N.

Definition sleep_example : list Moment := [PolledAt 12; ForkedTo 1; ForkedTo 2; PolledAt 15].

Definition seen_example : Seen :=
  mkSeen 15 2 true [Forgot (mkTimer 0 15); Armed (mkTimer 2 15); Polled (mkTimer 2 15)].

Lemma sleep_fires_in_every_clone_witness :
  seen_example ∈ live exact_timer sleep_example (new_tasks 0) (mkSleep 15 0 None) ∧
  ((10 + 5 + 0 <= 15)%N → seen_ready seen_example = true).
Proof.
  assert (seen_example ∈ live exact_timer sleep_example (new_tasks 0) (mkSleep 15 0 None)) as Hx.
  { vm_compute. right. left. }
  split; [done|].
  apply (sleep_fires_in_every_clone exact_timer 0) with (sh := new_tasks 0)
    (s := mkSleep 15 0 None) (moments := sleep_example) (x := seen_example); [| | | | |done].
  - intros r t now H. unfold exact_timer in H. simp_bool. done.
  - intros t now H. unfold exact_timer. rewrite !bool_decide_true by (done || lia). done.
  - reflexivity.
  - reflexivity.
  - reflexivity.
Defined.

(** ** The tasks on the host's runtime, through freezes and forks

    Three kinds of task are spawned on the runtime: those [task_shared] hands
    over, which are counted; the watchers of [watch_run], one for each run the
    host starts, which end once their run has; and the empty task with which
    the freeze wakes the worker.

    [task_shared] may be called by any guest thread that runs: closing the
    gate keeps suspended threads from being resumed, and only once the guest is
    drained is none running.  A task's future runs on the host's runtime until
    the freeze ends the runtime's threads.  A future that panics ends without
    the count going down.  There are fewer tasks than a 64-bit counter counts.
    A fork leaves the child with a copy of the memory and none of the tasks. *)

Inductive FreezeStage : Type := Unchecked | Refused | Checked | Drained | Woken | Ended.
#[global] Instance freeze_stage_eq_dec : EqDecision FreezeStage.
Proof. solve_decision. Defined.

(** The runs of a host: those that have not ended; the guest's, which [start]
    keeps; the one [wait_run] waits for; and those with a watcher on the
    runtime of this process. *)
Record Runs : Type := mkRuns {
  going : gset nat;
  guest_run : option nat;
  waited_run : option nat;
  watching : gset nat;
}.

(** [watch_run]. *)
Definition watch_run (r : nat) (rs : Runs) : Runs :=
  mkRuns (going rs) (guest_run rs) (waited_run rs) ({[r]} ∪ watching rs).

(** The run [start] starts, and one that [prepare] or [initialize] starts and
    waits for. *)
Definition start_guest (r : nat) (rs : Runs) : Runs :=
  let rs := watch_run r (mkRuns ({[r]} ∪ going rs) (guest_run rs) (waited_run rs) (watching rs)) in
  mkRuns (going rs) (Some r) (waited_run rs) (watching rs).
Definition start_waited (r : nat) (rs : Runs) : Runs :=
  let rs := watch_run r (mkRuns ({[r]} ∪ going rs) (guest_run rs) (waited_run rs) (watching rs)) in
  mkRuns (going rs) (guest_run rs) (Some r) (watching rs).

(** The guest's run ends, [wait_run] sees it has, a watcher does. *)
Definition run_over (r : nat) (rs : Runs) : Runs :=
  mkRuns (going rs ∖ {[r]}) (guest_run rs) (waited_run rs) (watching rs).
Definition wait_over (rs : Runs) : Runs :=
  mkRuns (going rs) (guest_run rs) None (watching rs).
Definition watch_over (r : nat) (rs : Runs) : Runs :=
  mkRuns (going rs) (guest_run rs) (waited_run rs) (watching rs ∖ {[r]}).

(** In the child: none of the template's tasks, and the guest watched again. *)
Definition child_runs (rs : Runs) : Runs :=
  let rs := mkRuns (going rs) (guest_run rs) (waited_run rs) ∅ in
  match guest_run rs with Some r => watch_run r rs | None => rs end.

Record Freezing : Type := mkFreezing {
  fz_shared : Shared;
  (** The tasks of [task_shared] on the runtime, and those that no longer are
      and did not lower the count. *)
  fz_running : gset nat;
  fz_stuck : gset nat;
  fz_runs : Runs;
  fz_stage : FreezeStage;
}.

(** The check at the top of [freeze]. *)
Definition freeze_check (sh : Shared) : FreezeStage :=
  if bool_decide (0 < shared_tasks_in_flight sh)%N then Refused else Checked.

Inductive freeze_step : Freezing → Freezing → Prop :=
  | step_spawn sh running stuck rs stage id :
      stage ∉ [Drained; Woken; Ended] → id ∉ running ∪ stuck →
      (N.of_nat (size (running ∪ stuck)) + 1 < 2 ^ 64)%N →
      freeze_step (mkFreezing sh running stuck rs stage)
        (mkFreezing (task_started sh) ({[id]} ∪ running) stuck rs stage)
  | step_end sh running stuck rs stage id :
      stage ≠ Ended → id ∈ running →
      freeze_step (mkFreezing sh running stuck rs stage)
        (mkFreezing (task_ended sh) (running ∖ {[id]}) stuck rs stage)
  | step_panic sh running stuck rs stage id :
      stage ≠ Ended → id ∈ running →
      freeze_step (mkFreezing sh running stuck rs stage)
        (mkFreezing sh (running ∖ {[id]}) ({[id]} ∪ stuck) rs stage)
  | step_guest sh running stuck rs r :
      waited_run rs = None → guest_run rs = None → r ∉ watching rs →
      freeze_step (mkFreezing sh running stuck rs Unchecked)
        (mkFreezing sh running stuck (start_guest r rs) Unchecked)
  | step_run sh running stuck rs r :
      waited_run rs = None → guest_run rs ≠ Some r → r ∉ watching rs →
      freeze_step (mkFreezing sh running stuck rs Unchecked)
        (mkFreezing sh running stuck (start_waited r rs) Unchecked)
  | step_run_over sh running stuck rs stage r :
      stage ∉ [Drained; Woken; Ended] → r ∈ going rs →
      freeze_step (mkFreezing sh running stuck rs stage)
        (mkFreezing sh running stuck (run_over r rs) stage)
  | step_wait_over sh running stuck rs r :
      waited_run rs = Some r → r ∉ going rs →
      freeze_step (mkFreezing sh running stuck rs Unchecked)
        (mkFreezing sh running stuck (wait_over rs) Unchecked)
  | step_watch_over sh running stuck rs stage r :
      stage ≠ Ended → r ∈ watching rs → r ∉ going rs →
      freeze_step (mkFreezing sh running stuck rs stage)
        (mkFreezing sh running stuck (watch_over r rs) stage)
  | step_check sh running stuck rs :
      waited_run rs = None →
      freeze_step (mkFreezing sh running stuck rs Unchecked)
        (mkFreezing sh running stuck rs (freeze_check sh))
  | step_drained sh running stuck rs :
      freeze_step (mkFreezing sh running stuck rs Checked)
        (mkFreezing sh running stuck rs Drained)
  | step_woken sh running stuck rs :
      freeze_step (mkFreezing sh running stuck rs Drained)
        (mkFreezing sh running stuck rs Woken)
  | step_ended sh running stuck rs :
      freeze_step (mkFreezing sh running stuck rs Woken)
        (mkFreezing sh running stuck rs Ended)
  | step_forked sh running stuck rs h :
      freeze_step (mkFreezing sh running stuck rs Ended)
        (mkFreezing (replace_runtime h sh) ∅ (running ∪ stuck) (child_runs rs) Unchecked).



Definition freeze_init (h : nat) : Freezing :=
  mkFreezing (new_tasks h) ∅ ∅ (mkRuns ∅ None None ∅) Unchecked.
















(** A task handed over after the check and before the drain has ended is lost:
    the freeze goes on to its end with the task running, the host that is
    forked from then on does not have it, and it is counted there for good. *)
Theorem freeze_may_lose_a_task :
  ∃ z z', rtc freeze_step (freeze_init 0) z ∧ fz_stage z = Ended ∧ fz_running z = {[7]} ∧
    freeze_step z z' ∧ fz_running z' = ∅ ∧ freeze_check (fz_shared z') = Refused.
Proof.
  exists (mkFreezing (task_started (new_tasks 0)) {[7]} ∅ (mkRuns ∅ None None ∅) Ended).
  eexists. split_and!; [|done|done|apply (step_forked _ _ _ _ 1)|done|done].
  eapply rtc_l; [by apply step_check|]. cbn -[size].
  eapply rtc_l; [apply (step_spawn _ _ _ _ Checked 7); [set_solver|set_solver|done]|].
  rewrite union_empty_r_L. eapply rtc_l; [apply step_drained|].
  eapply rtc_l; [apply step_woken|]. eapply rtc_l; [apply step_ended|]. apply rtc_refl.
Qed.
