(* ===== verification/Host.v ===== *)
(** * The host process

    Models src/crates/servicecache/src/host/mod.rs and the first half of
    freeze.rs: the control loop ([serve], [tick], [handle]), every request
    ([prepare], [start], [initialize], [freeze], [fork]), the waits that refuse
    other requests meanwhile ([wait_run], [refuse_while_busy]), the event pipe,
    and what a freeze dismantles and a forked child rebuilds.

    The process is a state monad over [W]: the mutable fields of [Host], the
    trace of what it did, and the [Pass]es to come.  A [Pass] is everything the
    environment decides while a loop goes round once: what [poll] reports, the
    bytes in the event pipe, exit statuses, reaped children, the received
    frame, and the results of the runtime's calls.  A loop that needs another
    pass when none is left is [Waiting]: the process is blocked there.  Fuel
    bounds the rounds of a loop by the passes left, one of which each takes. *)

From S2P Require Import Prelude Paths Manifest Net Compaction Title Protocol.

(** ** Data *)

Inductive Phase : Type :=
  | Fresh
  | Prepared
  | PhaseRunning (is_ready : bool)
  | PhaseFrozen.
#[global] Instance phase_eq_dec : EqDecision Phase.
Proof. solve_decision. Defined.

Inductive Event : Type := Listening | RunEnded | Probed.

(** [TryFrom<u8> for Event]. *)
Definition event_try_from (byte : N) : result Event error :=
  match byte with
  | 1%N => Ok Listening
  | 2%N => Ok RunEnded
  | 3%N => Ok Probed
  | _ => Err ["unexpected byte " +:+ pretty byte +:+ " in the event pipe"]
  end.

Record Events : Type := mkEvents { listening : bool; run_ended : bool; probed : bool }.
Definition no_events : Events := mkEvents false false false.

(** [EventPipe::drain] over the bytes in the pipe. *)
Fixpoint drain (bytes : list N) (events : Events) : result Events error :=
  match bytes with
  | [] => Ok events
  | byte :: bytes =>
      let? e := event_try_from byte in
      drain bytes (match e with
        | Listening => mkEvents true (run_ended events) (probed events)
        | RunEnded => mkEvents (listening events) true (probed events)
        | Probed => mkEvents (listening events) (run_ended events) true
        end)
  end.

(** [WaitStatus], as far as [tick] looks; pids are [pid_t]. *)
Inductive WaitStatus : Type :=
  | WExited (pid status : Z)
  | WSignaled (pid signal : Z)
  | WOther.

Record GuestRun : Type := mkRun {
  run_module : path;
  run_program_name : string;
  run_args : list string;
  run_stdin : list byte;
  run_network : bool;
}.

(** The thread count read once the deadline has passed; then, for the error, a
    count read again and the threads' names. *)
Record LateCount : Type := mkLate {
  late_count : N;
  remaining : N;
  remaining_names : list string;
}.

(** What [freeze::freeze] meets: the tasks in flight, the drain, the thread
    counts read before the deadline and what is read after it, the [shutdown]
    calls, the shared-memory snapshot; then the quiescent memory and what
    [Compaction::start] reads of the process. *)
Record FreezeEnv : Type := mkFreezeEnv {
  in_flight : N;
  drained : result N string;
  thread_counts : list N;
  last_count : LateCount;
  shutdown : Z → Shutdown → result unit Errno;
  snapshot : result N string;
  quiescent : Z → Z;
  page_size : Z;
  huge_page_size : Z;
  smaps : list (Z * Z * bool);
  linear_memories : list LinearMemory;
}.

(** What [freeze::fork] and [rebuild] meet: the pid [fork] returns, and each
    step of the rebuild. *)
Record ForkEnv : Type := mkForkEnv {
  fork_pid : Z;
  fork_errno : string;
  (** [std::process::id()] in the child. *)
  own_pid : N;
  profile_after_fork : result unit string;
  set_pdeathsig : result unit string;
  reshare : result unit string;
  build_tokio : result unit string;
  swap_listener : result unit string;
  rebuild_selector : result unit string;
  resurrect : result unit string;
}.

Record Pass : Type := mkPass {
  poll_readable : result bool error;
  pipe_bytes : list N;
  read_signal : result unit error;
  (** The network calls the guest made since the last pass. *)
  guest_calls : list GuestOp;
  guest_status : option Z;
  run_status : option Z;
  reaped : list WaitStatus;
  received : result (option (Frame Request)) error;
  probe_outcome : option (result unit string);
  spawned : result unit error;
  probe_spawned : result unit error;
  (** The socket behind a received descriptor. *)
  socket_of : Z → TcpListener;
  freeze_env : FreezeEnv;
  fork_env : ForkEnv;
  slice_clock : nat → bool;
}.

Record Host : Type := mkHost {
  phase : Phase;
  networking : HostNetworking;
  sockets : list BoundSocket;
  has_guest : bool;
  has_probe : bool;
  shared_memory : option N;
  recipe : option (list byte);
  compaction : option Compaction;
  memory : World;
  title : string;
  generation : N;
}.

(** What the process did, in order.  Replies to requests, events and a clone's
    announcement all go out through [Channel::send]; the constructors tell
    them apart. *)
Inductive Action : Type :=
  | ARecv (q : Request)
  | AReply (r : Reply)
  | AEvent (r : Reply)
  (** A clone's first message, on its own channel. *)
  | AAnnounce (r : Reply)
  (** A clone that could not rebuild, on its own channel. *)
  | AOrphan (r : Reply)
  | ASpawn (run : GuestRun)
  | AProbe
  | AShutDown (calls : list (Z * Shutdown))
  | AForkParent (pid : Z)
  | AForkChild
  | ASlice.

Record W : Type := mkW {
  host : Host;
  passes : list Pass;
  trace : list Action;
}.

(** ** The monad *)

Inductive exec (A : Type) : Type :=
  | Ret (a : A)
  | Fail (e : error)
  | Waiting.
Arguments Ret {A} a.
Arguments Fail {A} e.
Arguments Waiting {A}.

Definition M (A : Type) : Type := W → exec A * W.

Definition ret {A} (a : A) : M A := λ w, (Ret a, w).
Definition fail {A} (e : error) : M A := λ w, (Fail e, w).
Definition bind {A B} (m : M A) (k : A → M B) : M B := λ w,
  match m w with
  | (Ret a, w) => k a w
  | (Fail e, w) => (Fail e, w)
  | (Waiting, w) => (Waiting, w)
  end.
Notation "'let!' x := c 'in' k" := (bind c (λ x, k))
  (at level 200, x pattern, c at level 100, k at level 200, right associativity) : result_scope.
Notation "c ;; k" := (bind c (λ _, k)) (at level 100, k at level 200, right associativity)
  : result_scope.

(** Catch an error, as a caller that matches on the [Result] does. *)
Definition try {A} (m : M A) : M (result A error) := λ w,
  match m w with
  | (Ret a, w) => (Ret (Ok a), w)
  | (Fail e, w) => (Ret (Err e), w)
  | (Waiting, w) => (Waiting, w)
  end.

Definition lift {A} (r : result A error) : M A :=
  match r with Ok a => ret a | Err e => fail e end.

Definition act (a : Action) : M unit := λ w, (Ret tt, mkW (host w) (passes w) (trace w ++ [a])).
Definition get_host : M Host := λ w, (Ret (host w), w).
Definition put_host (h : Host) : M unit := λ w, (Ret tt, mkW h (passes w) (trace w)).
Definition next_pass : M Pass := λ w,
  match passes w with
  | [] => (Waiting, w)
  | p :: ps => (Ret p, mkW (host w) ps (trace w))
  end.

(** [loop]: rounds of [body] until it answers. *)
Fixpoint loop {A} (fuel : nat) (body : M (option A)) : M A :=
  match fuel with
  | O => λ w, (Waiting, w)
  | S fuel => let! r := body in match r with Some a => ret a | None => loop fuel body end
  end.

(** A loop with as much fuel as there are passes. *)
Definition loop_passes {A} (body : M (option A)) : M A := λ w,
  loop (S (length (passes w))) body w.

(** Field updates. *)
Definition set_phase (x : Phase) (h : Host) : Host :=
  mkHost x (networking h) (sockets h) (has_guest h) (has_probe h) (shared_memory h) (recipe h)
    (compaction h) (memory h) (title h) (generation h).
Definition set_net (x : HostNetworking) (s : list BoundSocket) (h : Host) : Host :=
  mkHost (phase h) x s (has_guest h) (has_probe h) (shared_memory h) (recipe h)
    (compaction h) (memory h) (title h) (generation h).
Definition set_guest (h : Host) : Host :=
  mkHost (phase h) (networking h) (sockets h) true (has_probe h) (shared_memory h) (recipe h)
    (compaction h) (memory h) (title h) (generation h).
Definition set_probe (h : Host) : Host :=
  mkHost (phase h) (networking h) (sockets h) (has_guest h) true (shared_memory h) (recipe h)
    (compaction h) (memory h) (title h) (generation h).
Definition set_shared (x : N) (m : World) (h : Host) : Host :=
  mkHost (phase h) (networking h) (sockets h) (has_guest h) (has_probe h) (Some x) (recipe h)
    (compaction h) m (title h) (generation h).
Definition set_recipe (x : list byte) (h : Host) : Host :=
  mkHost (phase h) (networking h) (sockets h) (has_guest h) (has_probe h) (shared_memory h) (Some x)
    (compaction h) (memory h) (title h) (generation h).
Definition set_compaction (x : option Compaction) (m : World) (h : Host) : Host :=
  mkHost (phase h) (networking h) (sockets h) (has_guest h) (has_probe h) (shared_memory h) (recipe h)
    x m (title h) (generation h).
Definition set_host_title (x : string) (h : Host) : Host :=
  mkHost (phase h) (networking h) (sockets h) (has_guest h) (has_probe h) (shared_memory h) (recipe h)
    (compaction h) (memory h) x (generation h).
Definition next_generation (h : Host) : Host :=
  mkHost (phase h) (networking h) (sockets h) (has_guest h) (has_probe h) (shared_memory h) (recipe h)
    (compaction h) (memory h) (title h) (generation h + 1).

Definition modify (f : Host → Host) : M unit := let! h := get_host in put_host (f h).

(** What handling a request decided about the loop. *)
Inductive Outcome : Type := Continue | Exit | Child.

(** ** [guest_visible_path] *)

Fixpoint guest_visible_path (mounts : list (path * path)) (module : path) : option string :=
  match mounts with
  | [] => None
  | (guest, host) :: mounts =>
      match strip_prefix module host with
      | Some relative => Some (join guest relative)
      | None => guest_visible_path mounts module
      end
  end.

(** [str::replace] of a literal pattern, left to right. *)
Fixpoint str_replace (fuel : nat) (pat to s : string) : string :=
  match fuel with
  | O => s
  | S fuel =>
      match s with
      | EmptyString => EmptyString
      | String c rest =>
          match str_strip_prefix s pat with
          | Some tail => to +:+ str_replace fuel pat to tail
          | None => String c (str_replace fuel pat to rest)
          end
      end
  end.
Definition replace (pat to s : string) : string := str_replace (S (String.length s)) pat to s.

Section Host.
(** The manifest, the file system it was loaded from, SHA-256, the kernel's
    paging calls, and whether the peer still takes the [n]th message. *)
Context (manifest : Manifest) (fs : FileSystem) (sha256 : list byte → list byte)
        (kernel : Kernel) (peer : nat → bool).

(** [Channel::send] of one message. *)
Definition send_as (a : Action) : M unit := λ w,
  if peer (length (trace w)) then act a w
  else fail ["failed to send a control frame"] w.

Definition set_title (state : State) : M unit :=
  let! h := get_host in
  put_host (set_host_title
    (render (name (service manifest)) (version (service manifest)) (recipe h) state) h).

(** The guest's network calls of a pass. *)
Definition guest_runs (p : Pass) : M unit :=
  modify (λ h,
    let '(n, s, _) := guest_ops (networking h) (sockets h) (guest_calls p) in set_net n s h).

(** [wait]: one [poll]. *)
Definition wait : M (Pass * bool) :=
  let! p := next_pass in
  guest_runs p ;;
  let! readable := lift (poll_readable p) in
  ret (p, readable).

Definition program_name (module : path) : string :=
  match prepare manifest ≫= λ prepare, guest_visible_path (prepare_fs prepare) module with
  | Some name => name
  | None => match file_name module with Some name => name | None => "module" end
  end.

(** The loop over [waitpid] of [tick]. *)
Fixpoint reap (statuses : list WaitStatus) : M unit :=
  match statuses with
  | WExited pid status :: statuses =>
      send_as (AEvent (Exited RunChild status (Some (Z.abs_N pid)))) ;; reap statuses
  | WSignaled pid signal :: statuses =>
      send_as (AEvent (Exited RunChild (128 + signal) (Some (Z.abs_N pid)))) ;; reap statuses
  | _ => ret tt
  end.

Definition exit_status (status : option Z) : M (option Z) :=
  let! h := get_host in ret (if has_guest h then status else None).

Definition tick (p : Pass) : M bool :=
  lift (drain (pipe_bytes p) no_events) ;;
  lift (with_context "failed to read SIGCHLD" (read_signal p)) ;;
  let! h := get_host in
  let! status := exit_status (guest_status p) in
  match bool_decide (phase h = PhaseFrozen), status with
  | false, Some status =>
      send_as (AEvent (Exited RunGuest status None)) ;; ret true
  | _, _ => reap (reaped p) ;; ret false
  end.

Definition ready_reply : M Reply :=
  let! h := get_host in
  let! e := lift (endpoint (networking h)) in
  set_title (Serving e) ;;
  ret (Ready (addr_to_string e)).

Definition forked_reply (pid : N) : M Reply :=
  let! h := get_host in
  let! e := lift (endpoint (networking h)) in
  ret (Forked pid (addr_to_string e)).

Definition refuse (text : string) : M Outcome :=
  send_as (AReply (ReplyError text)) ;; ret Continue.

(** [channel.recv]; [None] when the manager is gone. *)
Definition receive (p : Pass) : M (option (Frame Request)) :=
  let! f := lift (received p) in
  match f with
  | None => ret None
  | Some f => act (ARecv (message f)) ;; ret (Some f)
  end.

Definition refuse_while_busy (p : Pass) (why : string) : M bool :=
  let! f := receive p in
  match f with
  | None => ret false
  | Some f =>
      if bool_decide (message f = Stop) then ret false
      else send_as (AReply (ReplyError ("busy: " +:+ why))) ;; ret true
  end.

(** [{run:?}]. *)
Definition run_debug (run : Run) : string :=
  match run with
  | RunPrepare => "Prepare"
  | RunGuest => "Guest"
  | RunInitializer => "Initializer"
  | RunChild => "Child"
  end.

(** One round of [wait_run]: [run_status] is what [exit_status(handle)]
    answers as the round begins. *)
Definition wait_run_round (run : Run) : M (option (option Z)) := λ w,
  match passes w with
  | [] => (Waiting, w)
  | p :: _ =>
      match run_status p with
      | Some status => ret (Some (Some status)) w
      | None =>
          (let! (p, readable) := wait in
           let! gone := tick p in
           if gone : bool then ret (Some None)
           else if readable : bool then
             let! go_on := refuse_while_busy p (run_debug run +:+ " is running") in
             ret (if go_on : bool then None else Some None)
           else ret None) w
      end
  end.

Definition wait_run (run : Run) : M (option Z) := loop_passes (wait_run_round run).

Definition spawn (p : Pass) (run : GuestRun) : M unit :=
  lift (spawned p) ;; act (ASpawn run).

Definition host_prepare (p : Pass) : M (option Reply) :=
  let! h := get_host in
  if bool_decide (phase h ≠ Fresh) then
    fail ["prepare is only accepted before anything has run"]
  else
    let! status :=
      match prepare manifest with
      | Some prepare =>
          match prepare_module prepare with
          | Some module =>
              let! stdin := lift (read_stdin fs prepare) in
              spawn p (mkRun module (program_name module) (prepare_args prepare) stdin false) ;;
              wait_run RunPrepare
          | None => ret (Some 0%Z)
          end
      | None => ret (Some 0%Z)
      end in
    match status with
    | Some status =>
        modify (set_phase Prepared) ;; ret (Some (Exited RunPrepare status None))
    | None => ret None
    end.

(** One round of the loop of [start]. *)
Definition start_round : M (option (option Reply)) :=
  let! (p, readable) := wait in
  let! events := lift (drain (pipe_bytes p) no_events) in
  let! h := get_host in
  let! early :=
    if listening events then
      match ready (guest manifest) with
      | Some _ =>
          if has_probe h then ret None
          else
            let! _e := lift (endpoint (networking h)) in
            lift (with_context "failed to start the readiness probe" (probe_spawned p)) ;;
            act AProbe ;; modify set_probe ;; ret None
      | None =>
          modify (set_phase (PhaseRunning true)) ;;
          let! r := ready_reply in ret (Some r)
      end
    else ret None in
  match early with
  | Some r => ret (Some (Some r))
  | None =>
      let! h := get_host in
      let! answered :=
        if probed events then
          match (if has_probe h then probe_outcome p else None) with
          | Some (Ok tt) =>
              modify (set_phase (PhaseRunning true)) ;;
              let! r := ready_reply in ret (Some r)
          | Some (Err summary) =>
              fail ["the guest did not answer its readiness probe within 30s: " +:+ summary]
          | None =>
              fail ["the guest did not answer its readiness probe within 30s: the probe ended without an outcome"]
          end
        else ret None in
      match answered with
      | Some r => ret (Some (Some r))
      | None =>
          let! status := exit_status (guest_status p) in
          match status with
          | Some status => ret (Some (Some (Exited RunGuest status None)))
          | None =>
              if readable : bool then
                let! go_on := refuse_while_busy p "the guest is starting" in
                ret (if go_on : bool then None else Some None)
              else ret None
          end
      end
  end.

Definition start (p : Pass) (fds : list Z) : M (option Reply) :=
  let! h := get_host in
  if bool_decide (phase h ≠ Fresh ∧ phase h ≠ Prepared) then
    fail ["start is only accepted once, before the guest runs"]
  else match fds with
  | [fd] =>
      let! n := lift (set_listener (networking h) (socket_of p fd)) in
      modify (λ h, set_net n (sockets h) h) ;;
      let guest := guest manifest in
      spawn p (mkRun (guest_module guest) (program_name (guest_module guest)) (guest_args guest)
                 [] true) ;;
      modify (λ h, set_phase (PhaseRunning false) (set_guest h)) ;;
      loop_passes start_round
  | _ => fail ["start needs exactly one descriptor, the listening socket"]
  end.

Definition initialize (p : Pass) (recipe : list byte) : M (option Reply) :=
  let! h := get_host in
  if bool_decide (phase h ≠ PhaseRunning true) then
    fail ["initialize is only accepted while the guest is ready"]
  else match initializer manifest with
  | None => fail ["the manifest has no initializer"]
  | Some init =>
      let! e := lift (endpoint (networking h)) in
      let args := map (λ arg, replace "{port}" (pretty (port e)) (replace "{host}" (ip e) arg))
                    (init_args init) in
      spawn p (mkRun (init_module init) (program_name (init_module init)) args recipe true) ;;
      let! status := wait_run RunInitializer in
      match status with
      | Some status =>
          (if bool_decide (status = 0%Z) then
             modify (set_recipe (sha256 recipe)) ;; set_title (Serving e)
           else ret tt) ;;
          ret (Some (Exited RunInitializer status None))
      | None => ret None
      end
  end.

(** *** freeze.rs *)

(** The wait for the last threads. *)
Fixpoint dismantle (counts : list N) (last : LateCount) : M unit :=
  match counts with
  | [] =>
      if bool_decide (late_count last = 1%N) then ret tt
      else fail [pretty (remaining last) +:+ " threads remain after dismantling: " +:+
                 join_with ", " (remaining_names last)]
  | count :: counts => if bool_decide (count = 1%N) then ret tt else dismantle counts last
  end.

Definition context {A} (message : string) (r : result A string) : M A :=
  match r with Ok a => ret a | Err e => fail [message; e] end.

(** [freeze::freeze]. *)
Definition freeze_guest (env : FreezeEnv) : M N :=
  if bool_decide (0 < in_flight env)%N then
    fail [pretty (in_flight env) +:+ " host-side task(s) in flight; a fork would lose them"]
  else
    let! coroutines := context "draining the guest" (drained env) in
    dismantle (thread_counts env) (last_count env) ;;
    let! h := get_host in
    let (r, calls) := shut_down_sockets (shutdown env) (networking h) in
    act (AShutDown calls) ;;
    lift r ;;
    let! objects := context "snapshotting shared memory" (snapshot env) in
    modify (set_shared objects (mkWorld (quiescent env) (log (memory h)))) ;;
    ret coroutines.

Definition host_freeze (p : Pass) : M Outcome :=
  let! h := get_host in
  if bool_decide (phase h ≠ PhaseRunning true) then
    refuse "freeze is only accepted while the guest is ready"
  else
    modify (set_phase PhaseFrozen) ;;
    set_title FrozenState ;;
    let env := freeze_env p in
    let! r := try (freeze_guest env) in
    match r with
    | Ok coroutines =>
        send_as (AReply (Protocol.Frozen coroutines)) ;;
        modify (λ h, set_compaction
          (Some (compaction_start (page_size env) (huge_page_size env) (smaps env)
                   (linear_memories env))) (memory h) h) ;;
        ret Continue
    | Err e => send_as (AReply (ReplyError (display_chain e))) ;; ret Exit
    end.

(** [freeze::rebuild], in the child. *)
Definition rebuild (env : ForkEnv) (listener : TcpListener) : M unit :=
  context "registering inherited guest code with the profiler" (profile_after_fork env) ;;
  context "failed to set the parent-death signal" (set_pdeathsig env) ;;
  let! h := get_host in
  match shared_memory h with
  | None => fail ["the frozen host has no shared-memory snapshot"]
  | Some _ =>
      context "resharing memory in the clone" (reshare env) ;;
      context "failed to create the tokio runtime" (build_tokio env) ;;
      modify next_generation ;;
      let! e := lift (match local_addr listener with Ok e => Ok e | Err e => Err [e] end) in
      let! n := lift (replace_listener (swap_listener env) (networking h) listener) in
      modify (λ h, set_net n (sockets h) h) ;;
      set_title (Serving e) ;;
      context "failed to rebuild the selector" (rebuild_selector env) ;;
      context "resurrecting the guest threads" (resurrect env)
  end.

(** What [freeze::fork] returns in each process. *)
Inductive ForkedIn : Type :=
  | ForkedParent (pid : N) (endpoint : SocketAddr)
  | ForkedChild (rebuilt : result unit error).

(** [freeze::fork]. *)
Definition fork_host (env : ForkEnv) (listener : TcpListener) : M ForkedIn :=
  let! e := context "the child's listening socket has no address" (local_addr listener) in
  if bool_decide (fork_pid env < 0)%Z then fail ["fork failed"; fork_errno env]
  else if bool_decide (fork_pid env = 0%Z) then
    act AForkChild ;;
    let! rebuilt := try (rebuild env listener) in
    ret (ForkedChild rebuilt)
  else
    act (AForkParent (fork_pid env)) ;;
    ret (ForkedParent (Z.abs_N (fork_pid env)) e).

Definition host_fork (p : Pass) (fds : list Z) : M Outcome :=
  let! h := get_host in
  if bool_decide (phase h ≠ PhaseFrozen) then
    refuse "fork is only accepted on a frozen host"
  else match fds with
  | [control; listener] =>
      let! r := try (fork_host (fork_env p) (socket_of p listener)) in
      match r with
      | Ok (ForkedParent pid e) =>
          send_as (AReply (Forked pid (addr_to_string e))) ;; ret Continue
      | Ok (ForkedChild (Ok tt)) =>
          modify (set_phase (PhaseRunning true)) ;; ret Child
      | Ok (ForkedChild (Err e)) =>
          try (send_as (AOrphan (ReplyError (display_chain e)))) ;; ret Exit
      | Err e => refuse (display_chain e)
      end
  | _ => refuse "fork needs two descriptors: the child's control end and its listening socket"
  end.

(** *** The control loop *)

Definition handle (p : Pass) (frame : Frame Request) : M Outcome :=
  let respond (m : M (option Reply)) : M Outcome :=
    let! reply := try m in
    match reply with
    | Ok (Some reply) => send_as (AReply reply) ;; ret Continue
    | Ok None => ret Exit
    | Err e => send_as (AReply (ReplyError (display_chain e))) ;; ret Continue
    end in
  match message frame with
  | Protocol.Prepare => respond (host_prepare p)
  | Start => respond (start p (fds frame))
  | Initialize => respond (initialize p (payload frame))
  | Freeze => host_freeze p
  | Fork => host_fork p (fds frame)
  | Stop => ret Exit
  end.

(** [compact]: one slice; [None] would be an index out of bounds. *)
Definition compact (p : Pass) : M unit :=
  let! h := get_host in
  match compaction h with
  | None => ret tt
  | Some c =>
      act ASlice ;;
      match Compaction.step kernel (slice_clock p) c (memory h) with
      | None => fail ["index out of bounds"]
      | Some (c, m, finished) =>
          put_host (set_compaction (if finished : bool then None else Some c) m h)
      end
  end.

Definition serve_round : M (option unit) :=
  let! (p, readable) := wait in
  let! ended := tick p in
  if ended : bool then ret (Some tt)
  else if negb readable then compact p ;; ret None
  else
    let! f := receive p in
    match f with
    | None => ret (Some tt)
    | Some frame =>
        let! outcome := handle p frame in
        match outcome with
        | Continue => ret None
        | Exit => ret (Some tt)
        | Child =>
            modify (λ h, set_compaction None (memory h) h) ;;
            let! r := forked_reply (own_pid (fork_env p)) in
            send_as (AAnnounce r) ;; ret None
        end
    end.

Definition serve : M unit := loop_passes serve_round.

(** [Host::new]. *)
Definition host_new (m : World) : Host :=
  mkHost Fresh (net_new (Manifest.listen_port (guest manifest))) [] false false None None None m
    (render (name (service manifest)) (version (service manifest)) None Starting) 0.
End Host.

(** ** The protocol a manager may rely on

    The specification: where the conversation is, with the phase it has
    reached.  [Open q busy] is a request being served, [busy] once a run is
    under way (or, for a fork, once the clone exists); [Refusing q] another
    request has arrived meanwhile; [Born] a clone that has yet to announce
    itself; [Over] the process ends without another message. *)

Inductive Conversation : Type :=
  | Idle
  | Open (q : Request) (busy : bool)
  | Refusing (q : Request)
  | Born
  | Over.

Record Spec : Type := mkSpec { sp_phase : Phase; sp_conv : Conversation }.
Definition spec_init : Spec := mkSpec Fresh Idle.

Definition child_exit (r : Reply) : Prop := ∃ status pid, r = Exited RunChild status (Some pid).

Inductive spec_step : Spec → Action → Spec → Prop :=
  (** Requests. *)
  | sp_request ph q : q ≠ Stop → spec_step (mkSpec ph Idle) (ARecv q) (mkSpec ph (Open q false))
  | sp_stop ph : spec_step (mkSpec ph Idle) (ARecv Stop) (mkSpec ph Over)
  (** While a run is under way every other request is refused, except stop. *)
  | sp_busy_request ph q q' : q' ≠ Stop → q ≠ Fork →
      spec_step (mkSpec ph (Open q true)) (ARecv q') (mkSpec ph (Refusing q))
  | sp_busy_refuse ph q text :
      spec_step (mkSpec ph (Refusing q)) (AReply (ReplyError text)) (mkSpec ph (Open q true))
  | sp_busy_stop ph q : q ≠ Fork →
      spec_step (mkSpec ph (Open q true)) (ARecv Stop) (mkSpec ph Over)
  (** Events: clones reaped at any quiet moment, and the guest's own end. *)
  | sp_child_idle ph r : child_exit r →
      spec_step (mkSpec ph Idle) (AEvent r) (mkSpec ph Idle)
  | sp_child_busy ph q r : child_exit r → q = Protocol.Prepare ∨ q = Initialize →
      spec_step (mkSpec ph (Open q true)) (AEvent r) (mkSpec ph (Open q true))
  | sp_guest_idle b status :
      spec_step (mkSpec (PhaseRunning b) Idle) (AEvent (Exited RunGuest status None))
        (mkSpec (PhaseRunning b) Over)
  | sp_guest_busy status :
      spec_step (mkSpec (PhaseRunning true) (Open Initialize true))
        (AEvent (Exited RunGuest status None)) (mkSpec (PhaseRunning true) Over)
  (** A refusal changes nothing. *)
  | sp_refuse ph q text : q ≠ Stop → (q = Freeze → ph ≠ PhaseRunning true) →
      spec_step (mkSpec ph (Open q false)) (AReply (ReplyError text)) (mkSpec ph Idle)
  (** Prepare: once, before anything has run. *)
  | sp_prepare_spawn run : run_network run = false →
      spec_step (mkSpec Fresh (Open Protocol.Prepare false)) (ASpawn run)
        (mkSpec Fresh (Open Protocol.Prepare true))
  | sp_prepared b status :
      spec_step (mkSpec Fresh (Open Protocol.Prepare b)) (AReply (Exited RunPrepare status None))
        (mkSpec Prepared Idle)
  | sp_prepare_error text :
      spec_step (mkSpec Fresh (Open Protocol.Prepare true)) (AReply (ReplyError text))
        (mkSpec Fresh Idle)
  (** Start: once; the guest then runs, ready or not. *)
  | sp_start_spawn ph run : ph = Fresh ∨ ph = Prepared →
      spec_step (mkSpec ph (Open Start false)) (ASpawn run)
        (mkSpec (PhaseRunning false) (Open Start true))
  | sp_start_probe :
      spec_step (mkSpec (PhaseRunning false) (Open Start true)) AProbe
        (mkSpec (PhaseRunning false) (Open Start true))
  | sp_ready endpoint :
      spec_step (mkSpec (PhaseRunning false) (Open Start true)) (AReply (Ready endpoint))
        (mkSpec (PhaseRunning true) Idle)
  | sp_start_exited status :
      spec_step (mkSpec (PhaseRunning false) (Open Start true))
        (AReply (Exited RunGuest status None)) (mkSpec (PhaseRunning false) Idle)
  | sp_start_error b text :
      spec_step (mkSpec (PhaseRunning false) (Open Start true)) (AReply (ReplyError text))
        (mkSpec (PhaseRunning b) Idle)
  (** Initialize: only while the guest is ready. *)
  | sp_init_spawn run :
      spec_step (mkSpec (PhaseRunning true) (Open Initialize false)) (ASpawn run)
        (mkSpec (PhaseRunning true) (Open Initialize true))
  | sp_initialized status :
      spec_step (mkSpec (PhaseRunning true) (Open Initialize true))
        (AReply (Exited RunInitializer status None)) (mkSpec (PhaseRunning true) Idle)
  | sp_init_error text :
      spec_step (mkSpec (PhaseRunning true) (Open Initialize true)) (AReply (ReplyError text))
        (mkSpec (PhaseRunning true) Idle)
  (** Freeze: terminal, whether it succeeds or not. *)
  | sp_freeze_sockets calls :
      spec_step (mkSpec (PhaseRunning true) (Open Freeze false)) (AShutDown calls)
        (mkSpec (PhaseRunning true) (Open Freeze false))
  | sp_frozen coroutines :
      spec_step (mkSpec (PhaseRunning true) (Open Freeze false)) (AReply (Protocol.Frozen coroutines))
        (mkSpec PhaseFrozen Idle)
  | sp_freeze_error text :
      spec_step (mkSpec (PhaseRunning true) (Open Freeze false)) (AReply (ReplyError text))
        (mkSpec PhaseFrozen Over)
  | sp_slice : spec_step (mkSpec PhaseFrozen Idle) ASlice (mkSpec PhaseFrozen Idle)
  (** Fork: the template stays frozen, the clone runs. *)
  | sp_fork_parent pid :
      spec_step (mkSpec PhaseFrozen (Open Fork false)) (AForkParent pid)
        (mkSpec PhaseFrozen (Open Fork true))
  | sp_forked pid endpoint :
      spec_step (mkSpec PhaseFrozen (Open Fork true)) (AReply (Forked pid endpoint))
        (mkSpec PhaseFrozen Idle)
  | sp_fork_child :
      spec_step (mkSpec PhaseFrozen (Open Fork false)) AForkChild (mkSpec (PhaseRunning true) Born)
  | sp_announce pid endpoint :
      spec_step (mkSpec (PhaseRunning true) Born) (AAnnounce (Forked pid endpoint))
        (mkSpec (PhaseRunning true) Idle)
  | sp_orphan text :
      spec_step (mkSpec (PhaseRunning true) Born) (AOrphan (ReplyError text))
        (mkSpec (PhaseRunning true) Over).

Inductive spec_run (s : Spec) : list Action → Spec → Prop :=
  | spec_run_nil : spec_run s [] s
  | spec_run_snoc t s1 a s2 :
      spec_run s t s1 → spec_step s1 a s2 → spec_run s (t ++ [a]) s2.

(** *** What is owed of the clones

    The same conversation with the polls in it, and the exits that have been
    reaped and not been sent yet.  A pass of a loop that ticks owes the exits its
    [waitpid]s answer with; while it owes any, nothing but the first of them, or
    the guest's own end, is sent or received, and there is no further pass.
    [start]'s own loop does not look after clones. *)

Fixpoint reports (statuses : list WaitStatus) : list Reply :=
  match statuses with
  | WExited pid status :: statuses => Exited RunChild status (Some (Z.abs_N pid)) :: reports statuses
  | WSignaled pid signal :: statuses =>
      Exited RunChild (128 + signal) (Some (Z.abs_N pid)) :: reports statuses
  | _ => []
  end.

(** The exits of a pass; none is reaped when the poll or what comes before the
    [waitpid]s fails. *)
Definition due (p : Pass) : list Reply :=
  match poll_readable p, drain (pipe_bytes p) no_events, read_signal p with
  | Ok _, Ok _, Ok _ => reports (reaped p)
  | _, _, _ => []
  end.

Inductive Move : Type :=
  | Ticked (p : Pass)
  | Passed (p : Pass)
  | Did (a : Action).

Definition is_child_exit (r : Reply) : bool :=
  match r with Exited RunChild _ (Some _) => true | _ => false end.

(** What is owed after an action, if the action is in order. *)
Definition settle (a : Action) (owed : list Reply) : option (list Reply) :=
  match a with
  | AEvent r =>
      if is_child_exit r then
        match owed with
        | r' :: owed => if decide (r = r') then Some owed else None
        | [] => None
        end
      else Some owed
  | _ => match owed with [] => Some [] | _ :: _ => None end
  end.

(** A moment at which exits are reported. *)
Definition reportable (s : Spec) : Prop :=
  sp_conv s = Idle ∨ sp_conv s = Open Protocol.Prepare true ∨ sp_conv s = Open Initialize true.

Inductive reported_run : list Move → Spec → list Reply → Prop :=
  | reported_nil : reported_run [] spec_init []
  | reported_tick ms s p :
      reported_run ms s [] → reportable s → reported_run (ms ++ [Ticked p]) s (due p)
  | reported_pass ms s p :
      reported_run ms s [] → sp_conv s = Open Start true → reported_run (ms ++ [Passed p]) s []
  | reported_did ms s owed a s' owed' :
      reported_run ms s owed → spec_step s a s' → settle a owed = Some owed' →
      reported_run (ms ++ [Did a]) s' owed'.

Definition acts : list Move → list Action :=
  mbind (λ m, match m with Did a => [a] | _ => [] end).
Definition seen : list Move → list Pass :=
  mbind (λ m, match m with Ticked p | Passed p => [p] | _ => [] end).
(** The exits reaped, and those told. *)
Definition dues : list Move → list Reply :=
  mbind (λ m, match m with Ticked p => due p | _ => [] end).
Definition told : list Action → list Reply :=
  mbind (λ a, match a with AEvent r => if is_child_exit r then [r] else [] | _ => [] end).

Lemma reported_spec ms s owed : reported_run ms s owed → spec_run spec_init (acts ms) s.
Proof.
  induction 1 as [|ms s p _ IH _|ms s p _ IH _|ms s owed a s' owed' _ IH Hs _]; [constructor|..];
    unfold acts in *; rewrite bind_app; simpl; rewrite ?app_nil_r; [done..|].
  by eapply spec_run_snoc.
Qed.

(** Each exit is told once, in order, or still owed. *)
Lemma reported_told ms s owed : reported_run ms s owed → told (acts ms) ++ owed = dues ms.
Proof.
  induction 1 as [|ms s p _ IH _|ms s p _ IH _|ms s owed a s' owed' _ IH _ Hset]; [done|..];
    unfold acts, dues, told in *; rewrite ?bind_app; simpl; rewrite ?app_nil_r in *.
  - by rewrite IH.
  - done.
  - rewrite <- IH, <- app_assoc. f_equal.
    unfold settle in Hset. destruct a as [q|r|r|r|r|run| |calls|pid| |]; try (by destruct owed; simplify_eq).
    destruct (is_child_exit r); [|by injection Hset as ->].
    destruct owed as [|r' owed]; [done|]. destruct (decide (r = r')) as [->|]; [|done].
    by injection Hset as ->.
Qed.

(** An action that reports no clone. *)
Class Plain (a : Action) : Prop := plain owed : owed = [] → settle a owed = Some [].
#[global] Hint Extern 0 (Plain _) => (intros ? ->; reflexivity) : typeclass_instances.

(** ** Reasoning about the monad *)

(** What holds after [m]: of an answer, of an error, of a block. *)
Definition wp {A} (m : M A) (Q : A → W → Prop) (E : error → W → Prop) (B : W → Prop) (w : W) : Prop :=
  match m w with
  | (Ret a, w') => Q a w'
  | (Fail e, w') => E e w'
  | (Waiting, w') => B w'
  end.

Lemma wp_bind {A B} (m : M A) (k : A → M B) Q E P w :
  wp m (λ a, wp (k a) Q E P) E P w → wp (bind m k) Q E P w.
Proof. unfold wp, bind. by destruct (m w) as [[a|e|] w']. Qed.

Lemma wp_ret {A} (a : A) (Q : A → W → Prop) E P w : Q a w → wp (ret a) Q E P w.
Proof. done. Qed.

Lemma wp_fail {A} e (Q : A → W → Prop) (E : error → W → Prop) P w : E e w → wp (fail e) Q E P w.
Proof. done. Qed.

Lemma wp_try {A} (m : M A) Q E P w :
  wp m (λ a, Q (Ok a)) (λ e, Q (Err e)) P w → wp (try m) Q E P w.
Proof. unfold wp, try. by destruct (m w) as [[a|e|] w']. Qed.

Lemma wp_lift {A} (r : result A error) (Q : A → W → Prop) (E : error → W → Prop) P w :
  (∀ a, r = Ok a → Q a w) → (∀ e, r = Err e → E e w) → wp (lift r) Q E P w.
Proof. destruct r; unfold wp, lift, ret, fail; auto. Qed.

Lemma wp_context {A} msg (r : result A string) (Q : A → W → Prop) (E : error → W → Prop) P w :
  (∀ a, r = Ok a → Q a w) → (∀ e, E e w) → wp (context msg r) Q E P w.
Proof. destruct r; unfold wp, context, ret, fail; auto. Qed.

Lemma wp_mono {A} (m : M A) (Q Q' : A → W → Prop) (E E' : error → W → Prop) (P P' : W → Prop) w :
  wp m Q E P w → (∀ a w, Q a w → Q' a w) → (∀ e w, E e w → E' e w) → (∀ w, P w → P' w) →
  wp m Q' E' P' w.
Proof. unfold wp. destruct (m w) as [[a|e|] w']; auto. Qed.

(** An invariant of the rounds holds where the loop blocks. *)
Lemma wp_loop {A} (I : W → Prop) n (body : M (option A)) Q E P w :
  (∀ w, I w → wp body (λ r w', match r with Some a => Q a w' | None => I w' end) E P w) →
  (∀ w, I w → P w) → I w → wp (loop n body) Q E P w.
Proof.
  intros Hbody HP. revert w. induction n as [|n IH]; intros w HI; simpl.
  - by apply HP.
  - apply wp_bind. eapply wp_mono; [by apply Hbody| |done|done].
    intros [a|] w' H; [by apply wp_ret|by apply IH].
Qed.

Lemma wp_loop_passes {A} (I : W → Prop) (body : M (option A)) Q E P w :
  (∀ w, I w → wp body (λ r w', match r with Some a => Q a w' | None => I w' end) E P w) →
  (∀ w, I w → P w) → I w → wp (loop_passes body) Q E P w.
Proof. intros. unfold loop_passes. by apply (wp_loop I). Qed.

(** *** Passes are used up

    Every round of every loop takes a pass, so a loop with fuel for the passes
    there are blocks only when none is left. *)

Definition drains {A} (m : M A) : Prop := ∀ w,
  match m w with
  | (Waiting, w') => passes w' = []
  | (_, w') => length (passes w') ≤ length (passes w)
  end.

(** A round that takes a pass when it asks for another. *)
Definition takes {A} (m : M (option A)) : Prop := ∀ w,
  match m w with
  | (Ret None, w') => length (passes w') < length (passes w)
  | (Waiting, w') => passes w' = []
  | (_, w') => length (passes w') ≤ length (passes w)
  end.

Lemma drains_bind {A B} (m : M A) (k : A → M B) :
  drains m → (∀ a, drains (k a)) → drains (bind m k).
Proof.
  intros Hm Hk w. unfold bind. specialize (Hm w). destruct (m w) as [[a|e|] w']; [|done|done].
  specialize (Hk a w'). destruct (k a w') as [[b|e|] w'']; [lia|lia|done].
Qed.

Lemma drains_try {A} (m : M A) : drains m → drains (try m).
Proof. intros Hm w. unfold try. specialize (Hm w). by destruct (m w) as [[a|e|] w']. Qed.

Lemma drains_ret {A} (a : A) : drains (ret a).
Proof. intros w. simpl. lia. Qed.
Lemma drains_fail {A} e : drains (A := A) (fail e).
Proof. intros w. simpl. lia. Qed.
Lemma drains_lift {A} (r : result A error) : drains (lift r).
Proof. destruct r; intros w; simpl; lia. Qed.
Lemma drains_context {A} msg (r : result A string) : drains (context msg r).
Proof. destruct r; intros w; simpl; lia. Qed.
Lemma drains_act a : drains (act a).
Proof. intros w. simpl. lia. Qed.
Lemma drains_get : drains get_host.
Proof. intros w. simpl. lia. Qed.
Lemma drains_put h : drains (put_host h).
Proof. intros w. simpl. lia. Qed.
Lemma drains_modify f : drains (modify f).
Proof. intros w. simpl. lia. Qed.
Lemma drains_send peer a : drains (send_as peer a).
Proof. intros w. unfold send_as. destruct (peer _); simpl; lia. Qed.
Lemma drains_dismantle l n : drains (dismantle l n).
Proof. induction l; simpl; case_bool_decide; (apply drains_ret || apply drains_fail || done). Qed.
Lemma drains_reap peer l : drains (reap peer l).
Proof.
  induction l as [|[]]; simpl; [apply drains_ret| | |apply drains_ret];
    (apply drains_bind; [apply drains_send|done]).
Qed.
#[local] Hint Resolve drains_bind drains_try drains_ret drains_fail drains_lift drains_context
  drains_act drains_get drains_put drains_modify drains_send drains_dismantle drains_reap
  : drains.

(** Go through a definition, case by case. *)
Ltac drains_tac :=
  repeat match goal with
  | |- drains (bind _ _) => apply drains_bind; [|intros ?]
  | |- drains (try _) => apply drains_try
  | |- drains (let _ := _ in _) => cbv zeta
  | |- drains (match ?x with _ => _ end) => destruct x
  | |- drains _ => solve [auto with drains]
  end.

Lemma drains_loop {A} n (body : M (option A)) w :
  takes body → length (passes w) < n →
  match loop n body w with
  | (Waiting, w') => passes w' = []
  | (_, w') => length (passes w') ≤ length (passes w)
  end.
Proof.
  intros Hb. revert w. induction n as [|n IH]; intros w Hl; [lia|]. simpl. unfold bind.
  specialize (Hb w). destruct (body w) as [[[a|]|e|] w'] eqn:E; simpl; [lia| |lia|done].
  specialize (IH w' ltac:(lia)). destruct (loop n body w') as [[b|e|] w'']; [lia|lia|done].
Qed.

Lemma drains_loop_passes {A} (body : M (option A)) : takes body → drains (loop_passes body).
Proof. intros Hb w. apply drains_loop; [done|lia]. Qed.

(** A round that begins with a [wait]. *)
Lemma takes_wait {A} (k : Pass * bool → M (option A)) :
  (∀ x, drains (k x)) → takes (bind wait k).
Proof.
  intros Hk w. unfold wait, bind at 1, bind at 1, next_pass.
  destruct (passes w) as [|p ps] eqn:Hps; [done|].
  set (w1 := mkW _ _ _). unfold bind at 1, guest_runs, modify, bind at 1, get_host, put_host.
  destruct (guest_ops _ _ _) as [[n1 s1] x1].
  unfold bind, lift. destruct (poll_readable p) as [b|e]; unfold ret, fail; simpl; [|lia].
  specialize (Hk (p, b) (mkW (set_net n1 s1 (host w)) ps (trace w))). simpl in Hk |- *.
  destruct (k (p, b) _) as [[[a|]|e|] w'']; lia || done.
Qed.

Section drains.
Context (manifest : Manifest) (fs : FileSystem) (sha256 : list byte → list byte)
        (kernel : Kernel) (peer : nat → bool).

Lemma drains_tick p : drains (tick peer p).
Proof. unfold tick, exit_status. drains_tac. Qed.
Lemma drains_refuse_while_busy p why : drains (refuse_while_busy peer p why).
Proof. unfold refuse_while_busy, receive. drains_tac. Qed.
#[local] Hint Resolve drains_tick drains_refuse_while_busy : drains.

Lemma drains_wait_run run : drains (wait_run peer run).
Proof.
  apply drains_loop_passes. intros w. unfold wait_run_round.
  destruct (passes w) as [|p ps] eqn:Hp; [done|].
  destruct (run_status p); [simpl; by rewrite Hp|]. rewrite <- Hp.
  apply takes_wait. intros [p' b]. drains_tac.
Qed.

Lemma drains_start_loop : drains (loop_passes (start_round manifest peer)).
Proof.
  apply drains_loop_passes, takes_wait. intros [p b].
  unfold exit_status, ready_reply, set_title. drains_tac.
Qed.
#[local] Hint Resolve drains_wait_run drains_start_loop : drains.

Lemma drains_handle p frame : drains (handle manifest fs sha256 peer p frame).
Proof.
  unfold handle, host_prepare, start, initialize, host_freeze, host_fork, freeze_guest, fork_host,
    rebuild, refuse, spawn, set_title. drains_tac.
Qed.
#[local] Hint Resolve drains_handle : drains.

Lemma drains_serve : drains (serve manifest fs sha256 kernel peer).
Proof.
  apply drains_loop_passes, takes_wait. intros [p b].
  unfold compact, receive, forked_reply. drains_tac.
Qed.
End drains.

(** ** The host refines the protocol *)

Section refinement.
Context (manifest : Manifest) (fs : FileSystem) (sha256 : list byte → list byte)
        (kernel : Kernel) (peer : nat → bool) (passes0 : list Pass).

(** The conversation so far, with the passes taken and what is owed. *)
Definition at_owing (s : Spec) (owed : list Reply) (w : W) : Prop :=
  ∃ ms, reported_run ms s owed ∧ acts ms = trace w ∧ passes0 = seen ms ++ passes w.
Definition at_ (s : Spec) (w : W) : Prop := at_owing s [] w.
(** Exits stay untold only when the guest has ended or the peer is gone. *)
Definition accepted (w : W) : Prop :=
  ∃ s owed, at_owing s owed w ∧
    (owed = [] ∨ sp_conv s = Over ∨ peer (length (trace w)) = false).
(** The peer has stopped taking messages. *)
Definition lost (w : W) : Prop := accepted w ∧ peer (length (trace w)) = false.

(** The phase, whether there is a guest, whether a scan is under way. *)
Definition core_of (h : Host) : Phase * bool * bool :=
  (phase h, has_guest h, match compaction h with Some _ => true | None => false end).
Definition core (w : W) : Phase * bool * bool := core_of (host w).
Definition St (c : Phase * bool * bool) (s : Spec) (w : W) : Prop := core w = c ∧ at_ s w.

(** A guest only once started, a scan only while frozen. *)
Definition sane (c : Phase * bool * bool) : Prop :=
  (c.1.2 = true → c.1.1 ≠ Fresh ∧ c.1.1 ≠ Prepared) ∧ (c.2 = true → c.1.1 = PhaseFrozen).

Lemma at_accepted s w : at_ s w → accepted w.
Proof. intros H. exists s, []. split; [done|by left]. Qed.

Lemma St_accepted c s w : St c s w → accepted w.
Proof. intros [_ H]. by eapply at_accepted. Qed.

(** One more action. *)
Lemma at_did a s s' owed owed' w :
  at_owing s owed w → spec_step s a s' → settle a owed = Some owed' →
  at_owing s' owed' (mkW (host w) (passes w) (trace w ++ [a])).
Proof.
  intros (ms & Hr & Ha & Hp) Hs Hset. exists (ms ++ [Did a]). split_and!; simpl.
  - by eapply reported_did.
  - unfold acts in *. rewrite bind_app, Ha. done.
  - unfold seen in *. rewrite bind_app. simpl. by rewrite app_nil_r.
Qed.

Lemma wp_act a s s' (Q : unit → W → Prop) E P w `{!Plain a} :
  at_ s w → spec_step s a s' →
  (∀ w', host w' = host w → at_ s' w' → Q tt w') → wp (act a) Q E P w.
Proof. intros Hat Hstep HQ. apply HQ; [done|]. by eapply at_did; [..|apply plain]. Qed.

Lemma wp_send_owing a s s' owed owed' (Q : unit → W → Prop) (E : error → W → Prop) P w :
  at_owing s owed w → spec_step s a s' → settle a owed = Some owed' →
  (∀ w', host w' = host w → at_owing s' owed' w' → Q tt w') →
  (∀ e w', lost w' → E e w') → wp (send_as peer a) Q E P w.
Proof.
  intros Hat Hstep Hset HQ HE. unfold wp, send_as. destruct (peer _) eqn:Hp.
  - apply HQ; [done|]. by eapply at_did.
  - apply HE. split; [|done]. exists s, owed. auto.
Qed.

Lemma wp_send a s s' (Q : unit → W → Prop) (E : error → W → Prop) P w `{!Plain a} :
  at_ s w → spec_step s a s' →
  (∀ w', host w' = host w → at_ s' w' → Q tt w') →
  (∀ e w', lost w' → E e w') → wp (send_as peer a) Q E P w.
Proof. intros Hat Hstep. eapply wp_send_owing; [exact Hat|exact Hstep|by apply plain]. Qed.

Lemma wp_modify f (Q : unit → W → Prop) E P w :
  Q tt (mkW (f (host w)) (passes w) (trace w)) → wp (modify f) Q E P w.
Proof. done. Qed.

Lemma wp_get (Q : Host → W → Prop) E P w : Q (host w) w → wp get_host Q E P w.
Proof. done. Qed.

Lemma wp_put h (Q : unit → W → Prop) E P w :
  Q tt (mkW h (passes w) (trace w)) → wp (put_host h) Q E P w.
Proof. done. Qed.

(** A poll lets the guest's network calls happen and changes nothing else; the
    pass it takes owes its exits where the loop ticks, unless it failed. *)
Definition owes (s : Spec) (p : Pass) (owed : list Reply) : Prop :=
  reportable s ∧ owed = due p ∨ sp_conv s = Open Start true ∧ owed = [].

Lemma at_passed s p owed ps h w :
  at_ s w → passes w = p :: ps → owes s p owed → at_owing s owed (mkW h ps (trace w)).
Proof.
  intros (ms & Hr & Ha & Hp) Hps [[Ht ->]|[Ht ->]].
  - exists (ms ++ [Ticked p]). split_and!; [by apply reported_tick| |].
    + unfold acts in *. rewrite bind_app, Ha. apply app_nil_r.
    + unfold seen in *. rewrite bind_app. simpl. rewrite <- app_assoc. simpl. by rewrite <- Hps.
  - exists (ms ++ [Passed p]). split_and!; [by apply reported_pass| |].
    + unfold acts in *. rewrite bind_app, Ha. apply app_nil_r.
    + unfold seen in *. rewrite bind_app. simpl. rewrite <- app_assoc. simpl. by rewrite <- Hps.
Qed.

Lemma wp_wait c s (Q : Pass * bool → W → Prop) (E : error → W → Prop) (P : W → Prop) w :
  reportable s ∨ sp_conv s = Open Start true →
  St c s w → P w → (∀ e w', St c s w' → E e w') →
  (∀ p b w', core w' = c → (∀ owed, owes s p owed → at_owing s owed w') →
     poll_readable p = Ok b → Q (p, b) w') → wp wait Q E P w.
Proof.
  intros Hs [Hc Ha] HP HE HQ. unfold wait. apply wp_bind. unfold wp at 1, next_pass.
  destruct (passes w) as [|p ps] eqn:Hps; [done|]. apply wp_bind. unfold guest_runs. apply wp_modify.
  apply wp_bind. cbn [host].
  destruct (guest_ops _ _ _) as [[n k] x].
  apply wp_lift; [intros b Hb; apply wp_ret, HQ|intros e He; apply HE].
  - done.
  - intros owed Ho. by apply (at_passed s p owed ps _ w).
  - done.
  - split; [done|]. unfold at_. eapply (at_passed s p [] ps _ w); [done..|].
    unfold owes, due. rewrite He. by destruct Hs; [left|right].
Qed.

(** *** The event loop's reports *)

(** The host is in this state, owing these exits. *)
Definition Owing (c : Phase * bool * bool) (s : Spec) (owed : list Reply) (w : W) : Prop :=
  core w = c ∧ at_owing s owed w.

Lemma reap_spec statuses c s (Q : unit → W → Prop) (E : error → W → Prop) P w :
  reportable s → Owing c s (reports statuses) w → (∀ w', St c s w' → Q tt w') →
  (∀ e w', lost w' → E e w') →
  wp (reap peer statuses) Q E P w.
Proof.
  intros Hr Hst HQ HE. revert w Hst.
  assert (∀ r, child_exit r → spec_step s (AEvent r) s) as Hev.
  { intros r Hc. destruct s as [ph conv]. destruct Hr as [Hr|[Hr|Hr]]; simpl in Hr; subst conv.
    - by apply sp_child_idle.
    - apply sp_child_busy; auto.
    - apply sp_child_busy; auto. }
  induction statuses as [|[pid st|pid sg|] l IH]; intros w [Hc Ha]; simpl;
    [by apply HQ| | |by apply HQ]; apply wp_bind; eapply wp_send_owing; try done.
  - apply Hev. by eexists _, _.
  - simpl. by rewrite decide_True.
  - intros w' Hh Ha'. apply IH. split; [|done]. unfold core. by rewrite Hh.
  - apply Hev. by eexists _, _.
  - simpl. by rewrite decide_True.
  - intros w' Hh Ha'. apply IH. split; [|done]. unfold core. by rewrite Hh.
Qed.

(** The guest's own end may be reported. *)
Definition guest_may_end (c : Phase * bool * bool) (s : Spec) : Prop :=
  c.1.2 = true → c.1.1 ≠ PhaseFrozen →
  ∃ b, s = mkSpec (PhaseRunning b) Idle ∨
       (b = true ∧ s = mkSpec (PhaseRunning true) (Open Initialize true)).

Lemma tick_spec p b c s (Q : bool → W → Prop) (E : error → W → Prop) P w :
  reportable s → guest_may_end c s → poll_readable p = Ok b → Owing c s (due p) w →
  (∀ w', St c s w' → Q false w') → (∀ w', accepted w' → Q true w') →
  (∀ e w', St c s w' ∨ lost w' → E e w') →
  wp (tick peer p) Q E P w.
Proof.
  intros Hr Hg Hb Hst HQ HQ' HE. pose proof Hst as [Hc Ha]. unfold tick. unfold due in Hst, Ha.
  rewrite Hb in Hst, Ha.
  apply wp_bind, wp_lift; [intros ev Hev|intros e He; apply HE; left; by rewrite He in Hst].
  rewrite Hev in Hst, Ha.
  apply wp_bind. destruct (read_signal p) as [[]|]; [|by apply HE; left].
  apply wp_lift; [intros _ _|done].
  apply wp_bind, wp_get, wp_bind. unfold exit_status. apply wp_bind, wp_get, wp_ret.
  assert (∀ Q', (∀ w', St c s w' → Q' tt w') → wp (reap peer (reaped p)) Q' E P w) as Hreap.
  { intros Q' HQ1. eapply reap_spec; try done. intros e w' Hl. apply HE. by right. }
  case_bool_decide as Hf.
  { apply wp_bind, Hreap. intros w' Hs. by apply wp_ret, HQ. }
  destruct (has_guest (host w)) eqn:Hgu; [|apply wp_bind, Hreap; intros w' Hs; by apply wp_ret, HQ].
  destruct (guest_status p) as [status|];
    [|apply wp_bind, Hreap; intros w' Hs; by apply wp_ret, HQ].
  unfold core in Hc. destruct (Hg) as (b' & Hs); [by rewrite <- Hc|by rewrite <- Hc|].
  assert (∀ s', spec_step s (AEvent (Exited RunGuest status None)) s' → sp_conv s' = Over →
    wp (send_as peer (AEvent (Exited RunGuest status None)) ;; ret true) Q E P w) as Hend.
  { intros s' Hs' Hov. apply wp_bind. eapply wp_send_owing; [exact Ha|exact Hs'|done| |].
    - intros w' _ Ha'. apply wp_ret, HQ'. eexists _, _. split; [exact Ha'|auto].
    - intros e w' Hl. apply HE. by right. }
  destruct Hs as [->|[-> ->]]; eapply Hend; [apply sp_guest_idle|done|apply sp_guest_busy|done].
Qed.

(** *** Waiting for a run *)

(** [refuse_while_busy]: back in the run, or the end. *)
Lemma refuse_while_busy_spec p why c ph q (Q : bool → W → Prop) (E : error → W → Prop) P w :
  q ≠ Fork → St c (mkSpec ph (Open q true)) w →
  (∀ w', St c (mkSpec ph (Open q true)) w' → Q true w') →
  (∀ w', at_ (mkSpec ph Over) w' ∨ at_ (mkSpec ph (Open q true)) w' → Q false w') →
  (∀ e w', St c (mkSpec ph (Open q true)) w' ∨ lost w' → E e w') →
  wp (refuse_while_busy peer p why) Q E P w.
Proof.
  intros Hq [Hc Ha] HQ HQ' HE. unfold refuse_while_busy, receive.
  apply wp_bind, wp_bind, wp_lift; [|intros e _; apply HE; by left].
  intros [f|] _; [|apply wp_ret, wp_ret, HQ'; by right].
  apply wp_bind. destruct (decide (message f = Stop)) as [Hs|Hs].
  - eapply wp_act; [apply _|exact Ha|rewrite Hs; by apply sp_busy_stop|].
    intros w1 Hh Ha1. apply wp_ret. rewrite bool_decide_true by done.
    apply wp_ret, HQ'. by left.
  - eapply wp_act; [apply _|exact Ha|by apply (sp_busy_request ph q)|].
    intros w1 Hh Ha1. apply wp_ret. rewrite bool_decide_false by done.
    apply wp_bind. eapply wp_send; [apply _|exact Ha1|apply sp_busy_refuse| |].
    + intros w2 Hh2 Ha2. apply wp_ret, HQ. split; [|done]. unfold core. by rewrite Hh2, Hh.
    + intros e w2 Hl. apply HE. by right.
Qed.

Lemma wait_run_spec run c ph q (Q : option Z → W → Prop) (E : error → W → Prop) (P : W → Prop) w :
  let s := mkSpec ph (Open q true) in
  q ≠ Fork → reportable s → guest_may_end c s → St c s w →
  (∀ status w', St c s w' → Q (Some status) w') →
  (∀ w', accepted w' → Q None w') →
  (∀ e w', St c s w' ∨ lost w' → E e w') → (∀ w', St c s w' → P w') →
  wp (wait_run peer run) Q E P w.
Proof.
  intros s Hq Hr Hg Hst HQ HQ' HE HP. apply (wp_loop_passes (St c s)); [|done|done].
  clear w Hst. intros w Hst. unfold wp, wait_run_round.
  destruct (passes w) as [|p ps] eqn:Hps; [by apply HP|].
  destruct (run_status p) as [status|]; [by apply HQ|].
  fold (wp (let! (p, readable) := wait in
           let! gone := tick peer p in
           if gone : bool then ret (Some None)
           else if readable : bool then
             let! go_on := refuse_while_busy peer p (run_debug run +:+ " is running") in
             ret (if go_on : bool then None else Some None)
           else ret None)
    (λ r w', match r with Some a => Q a w' | None => St c s w' end) E P w).
  apply wp_bind, (wp_wait c s); [by left|done|by apply HP|intros; apply HE; by left|].
  intros p' b w1 Hc1 Ha1 Hb1. apply wp_bind, (tick_spec p' b c s); try done.
  - split; [done|]. apply Ha1. by left.
  - intros w2 Hst2. destruct b; [|by apply wp_ret].
    apply wp_bind, (refuse_while_busy_spec p' _ c ph q); try done.
    intros w3 Hor. apply wp_ret, HQ'. destruct Hor; by eapply at_accepted.
Qed.

(** *** The requests *)

(** What a block, an end and a round of the loop look like from outside. *)
Definition blocked (w : W) : Prop :=
  ∃ s, at_ s w ∧
    ((sp_conv s = Idle ∧ phase (host w) = sp_phase s) ∨
     (∃ q, sp_conv s = Open q true ∧ q ≠ Fork ∧ phase (host w) = sp_phase s)).

Definition idle (w : W) : Prop :=
  at_ (mkSpec (phase (host w)) Idle) w ∧ sane (core w).

Lemma idle_blocked w : idle w → blocked w.
Proof. intros [Ha _]. eexists. split; [exact Ha|]. by left. Qed.

Lemma St_blocked c q w : q ≠ Fork → St c (mkSpec c.1.1 (Open q true)) w → blocked w.
Proof.
  intros Hq [Hc Ha]. eexists. split; [exact Ha|]. right. exists q.
  split_and!; [done|done|]. by rewrite <- Hc.
Qed.

(** The answer to a request served by [respond]: the reply fits, and so
    does any error. *)
Definition answers (r : Reply) (w : W) : Prop :=
  ∃ s, at_ s w ∧ spec_step s (AReply r) (mkSpec (phase (host w)) Idle) ∧ sane (core w).

Definition errs (w : W) : Prop := (∀ text, answers (ReplyError text) w) ∨ lost w.

Lemma St_phase c s w : St c s w → phase (host w) = c.1.1.
Proof. intros [<- _]. done. Qed.

Lemma St_host c s w w' s' : St c s w → host w' = host w → at_ s' w' → St c s' w'.
Proof. intros [Hc _] Hh Ha. split; [|done]. unfold core. by rewrite Hh. Qed.

Lemma St_answers c s r w :
  sane c → St c s w → spec_step s (AReply r) (mkSpec c.1.1 Idle) → answers r w.
Proof.
  intros Hc Hst Hs. exists s. rewrite (St_phase _ _ _ Hst). destruct Hst as [-> Ha]. done.
Qed.

Lemma errs_open c q w :
  q ≠ Stop → q ≠ Freeze → sane c → St c (mkSpec c.1.1 (Open q false)) w → errs w.
Proof.
  intros Hs Hf Hg Hst. left. intros text. eapply St_answers; [done|exact Hst|by apply sp_refuse].
Qed.

Lemma host_prepare_spec p c w :
  sane c → St c (mkSpec c.1.1 (Open Protocol.Prepare false)) w →
  wp (host_prepare manifest fs peer p)
    (λ r w', match r with Some r => answers r w' | None => accepted w' end)
    (λ _, errs) blocked w.
Proof.
  intros Hs Hst. unfold host_prepare.
  apply wp_bind, wp_get. rewrite (St_phase _ _ _ Hst). case_bool_decide as Hf.
  { apply wp_fail. by eapply (errs_open c Protocol.Prepare). }
  destruct c as [[ph g] k]. simpl in Hf, Hst.
  assert (ph = Fresh) as -> by (destruct (decide (ph = Fresh)); [done|by destruct Hf]).
  destruct g; [by destruct (proj1 Hs eq_refl)|]. destruct k; [by discriminate (proj2 Hs eq_refl)|].
  set (c := (Fresh, false, false)) in *.
  assert (∀ b w', St c (mkSpec Fresh (Open Protocol.Prepare b)) w' → errs w') as Herr.
  { intros b w' Hst'. destruct b; [|by eapply (errs_open c Protocol.Prepare)].
    left. intros text. eapply St_answers; [done|exact Hst'|by apply sp_prepare_error]. }
  assert (∀ b status w', St c (mkSpec Fresh (Open Protocol.Prepare b)) w' →
    wp (modify (set_phase Prepared) ;; ret (Some (Exited RunPrepare status None)))
      (λ r w', match r with Some r => answers r w' | None => accepted w' end)
      (λ _, errs) blocked w') as Hfin.
  { intros b status w' [Hc' Ha']. apply wp_bind, wp_modify, wp_ret.
    eapply (St_answers (Prepared, false, false)); [done| |by eapply sp_prepared].
    split; [|exact Ha']. unfold core, core_of, c in *. simpl in *. congruence. }
  apply wp_bind. destruct (prepare manifest) as [prep|]; [|by apply wp_ret, (Hfin false)].
  destruct (prepare_module prep) as [module|]; [|by apply wp_ret, (Hfin false)].
  apply wp_bind, wp_lift; [|intros; by eapply (Herr false)]. intros stdin _.
  apply wp_bind. unfold spawn. apply wp_bind, wp_lift; [|intros; by eapply (Herr false)].
  intros _ _. eapply wp_act; [apply _|apply Hst|by apply sp_prepare_spawn|]. intros w1 Hh Ha1.
  eapply (wait_run_spec _ c Fresh Protocol.Prepare);
    [done|by right; left|done|by eapply St_host| | | |].
  - intros status w2 Hst2. by eapply (Hfin true).
  - intros w2 Hac. by apply wp_ret.
  - intros e w2 [Hst2|Hl]; [by eapply (Herr true)|by right].
  - intros w2 Hst2. by apply (St_blocked c Protocol.Prepare).
Qed.

Lemma initialize_spec p recipe c w :
  sane c → St c (mkSpec c.1.1 (Open Initialize false)) w →
  wp (initialize manifest sha256 peer p recipe)
    (λ r w', match r with Some r => answers r w' | None => accepted w' end)
    (λ _, errs) blocked w.
Proof.
  intros Hs Hst. unfold initialize.
  apply wp_bind, wp_get. rewrite (St_phase _ _ _ Hst). case_bool_decide as Hf.
  { apply wp_fail. by eapply (errs_open c Initialize). }
  destruct c as [[ph g] k]. simpl in Hf, Hst.
  assert (ph = PhaseRunning true) as ->
    by (destruct (decide (ph = PhaseRunning true)); [done|by destruct Hf]).
  set (c := (PhaseRunning true, g, k)) in *.
  destruct (initializer manifest) as [init|];
    [|apply wp_fail; by eapply (errs_open c Initialize)].
  apply wp_bind, wp_lift; [|intros; by eapply (errs_open c Initialize)]. intros e _.
  apply wp_bind. unfold spawn.
  apply wp_bind, wp_lift; [|intros; by eapply (errs_open c Initialize)].
  intros _ _. eapply wp_act; [apply _|apply Hst|by apply sp_init_spawn|]. intros w1 Hh Ha1.
  apply wp_bind.
  eapply (wait_run_spec _ c (PhaseRunning true) Initialize);
    [done|by right; right|by intros _ _; exists true; right|by eapply St_host| | | |].
  - intros status w2 Hst2. apply wp_bind. case_bool_decide.
    + apply wp_bind, wp_modify. unfold set_title. apply wp_bind, wp_get, wp_put, wp_ret.
      eapply (St_answers c); [done| |by apply sp_initialized]. exact Hst2.
    + apply wp_ret, wp_ret. eapply (St_answers c); [done|exact Hst2|by apply sp_initialized].
  - intros w2 Hac. by apply wp_ret.
  - intros e' w2 [Hst2|Hl]; [|by right]. left. intros text.
    eapply (St_answers c); [done|exact Hst2|by apply sp_init_error].
  - intros w2 Hst2. by apply (St_blocked c Initialize).
Qed.

Definition starting (w : W) : Prop :=
  St (PhaseRunning false, true, false) (mkSpec (PhaseRunning false) (Open Start true)) w.

Lemma starting_errs w : starting w → errs w.
Proof.
  intros Hst. left. intros text. eapply St_answers; [|exact Hst|apply sp_start_error]. done.
Qed.

(** Becoming ready: the phase moves, then the endpoint is read. *)
Lemma become_ready_spec (Q : option Reply → W → Prop) P w :
  starting w → (∀ r w', answers r w' → Q (Some r) w') →
  wp (modify (set_phase (PhaseRunning true)) ;; let! r := ready_reply manifest in ret (Some r))
    Q (λ _, errs) P w.
Proof.
  intros [Hc Ha] HQ. apply wp_bind, wp_modify, wp_bind. unfold ready_reply.
  assert (∀ h t, core_of h = (PhaseRunning false, true, false) →
    core_of (set_host_title t (set_phase (PhaseRunning true) h)) =
    (PhaseRunning true, true, false)) as Hcore.
  { unfold core_of. simpl. intros h t. congruence. }
  apply wp_bind, wp_get, wp_bind, wp_lift.
  - intros e _. apply wp_bind. unfold set_title. apply wp_bind, wp_get, wp_put, wp_ret, wp_ret, HQ.
    eapply St_answers; [|split; [by apply Hcore|exact Ha]|apply sp_ready]. done.
  - intros e _. left. intros text.
    eapply St_answers; [|split; [by apply (Hcore _ "")|exact Ha]|apply sp_start_error]. done.
Qed.

Lemma start_round_spec w :
  starting w →
  wp (start_round manifest peer)
    (λ r w', match r with
     | Some (Some r) => answers r w'
     | Some None => accepted w'
     | None => starting w'
     end) (λ _, errs) blocked w.
Proof.
  intros Hst. unfold start_round.
  apply wp_bind, (wp_wait (PhaseRunning false, true, false)
    (mkSpec (PhaseRunning false) (Open Start true)));
    [by right|done|by apply (St_blocked (PhaseRunning false, true, false) Start)|
     intros; by apply starting_errs|].
  clear w Hst. intros p b w Hc Ha _.
  assert (starting w) as Hst by (split; [done|]; apply Ha; by right). clear Hc Ha.
  apply wp_bind, wp_lift; [|intros; by apply starting_errs]. intros ev _.
  apply wp_bind, wp_get, wp_bind.
  (* after the first part of the round: an answer, or still starting *)
  eapply wp_mono with
    (Q := λ r w', match r with Some r => answers r w' | None => starting w' end)
    (E := λ _, errs) (P := blocked); [| |done|done].
  { destruct (listening ev); [|by apply wp_ret].
    destruct (ready (guest manifest)) as [probe|].
    - destruct (has_probe (host w)); [by apply wp_ret|].
      apply wp_bind, wp_lift; [|intros; by apply starting_errs]. intros e _.
      apply wp_bind, wp_lift; [|intros; by apply starting_errs]. intros _ _.
      apply wp_bind. eapply wp_act; [apply _|apply Hst|apply sp_start_probe|].
      intros w1 Hh Ha1. apply wp_bind, wp_modify, wp_ret.
      eapply St_host in Ha1; [|exact Hst|exact Hh]. exact Ha1.
    - by apply become_ready_spec. }
  clear w Hst. intros [r|] w Hst; [by apply wp_ret|].
  apply wp_bind, wp_get, wp_bind.
  eapply wp_mono with
    (Q := λ r w', match r with Some r => answers r w' | None => starting w' end)
    (E := λ _, errs) (P := blocked); [| |done|done].
  { destruct (probed ev); [|by apply wp_ret].
    destruct (if has_probe (host w) then _ else _) as [[[]|summary]|].
    - by apply become_ready_spec.
    - by apply wp_fail, starting_errs.
    - by apply wp_fail, starting_errs. }
  clear w Hst. intros [r|] w Hst; [by apply wp_ret|].
  apply wp_bind. unfold exit_status. apply wp_bind, wp_get, wp_ret.
  destruct (if has_guest (host w) then _ else _) as [status|].
  { apply wp_ret. eapply St_answers; [|exact Hst|apply sp_start_exited]. done. }
  destruct b; [|by apply wp_ret].
  apply wp_bind, (refuse_while_busy_spec p _ (PhaseRunning false, true, false) (PhaseRunning false) Start);
    try done.
  - intros w' Hor. apply wp_ret. destruct Hor; by eapply at_accepted.
  - intros e w' [Hst'|Hl]; [by apply starting_errs|by right].
Qed.

Lemma start_spec p fds c w :
  sane c → St c (mkSpec c.1.1 (Open Start false)) w →
  wp (start manifest peer p fds)
    (λ r w', match r with Some r => answers r w' | None => accepted w' end)
    (λ _, errs) blocked w.
Proof.
  intros Hs Hst. unfold start.
  assert (∀ e w', St c (mkSpec c.1.1 (Open Start false)) w' → wp (A := option Reply) (fail e)
    (λ r w', match r with Some r => answers r w' | None => accepted w' end)
    (λ _, errs) blocked w') as Hfail.
  { intros e w' Hst'. apply wp_fail. by eapply (errs_open c Start). }
  apply wp_bind, wp_get. rewrite (St_phase _ _ _ Hst). case_bool_decide as Hf; [by apply Hfail|].
  assert (c.1.1 = Fresh ∨ c.1.1 = Prepared) as Hph.
  { destruct (decide (c.1.1 = Fresh)); [by left|].
    destruct (decide (c.1.1 = Prepared)); [by right|]. by destruct Hf. }
  destruct fds as [|fd [|]]; [by apply Hfail| |by apply Hfail].
  apply wp_bind, wp_lift; [|intros; by eapply (errs_open c Start)]. intros n _.
  apply wp_bind, wp_modify, wp_bind. unfold spawn.
  apply wp_bind, wp_lift; [|intros; by eapply (errs_open c Start)].
  intros _ _. eapply wp_act; [apply _|apply Hst|by apply sp_start_spawn|].
  intros w1 Hh Ha1. apply wp_bind, wp_modify.
  apply (wp_loop_passes starting).
  - intros w2 Hst2. eapply wp_mono; [by apply start_round_spec| |done|done].
    by intros [[r|]|] w3.
  - intros w2 Hst2. by apply (St_blocked (PhaseRunning false, true, false) Start).
  - split; [|exact Ha1]. unfold core, core_of. simpl. rewrite Hh. simpl.
    destruct Hst as [Hc _]. destruct Hs as [_ Hk]. rewrite <- Hc in Hk, Hph. simpl in Hk, Hph.
    destruct (compaction (host w)); [|done]. specialize (Hk eq_refl). by destruct Hph; congruence.
Qed.

Lemma dismantle_spec counts last (Q : unit → W → Prop) (E : error → W → Prop) P w :
  Q tt w → (∀ e, E e w) → wp (dismantle counts last) Q E P w.
Proof.
  intros HQ HE. induction counts as [|n l IH]; simpl; case_bool_decide; [done|apply HE|done|done].
Qed.

Lemma freeze_guest_spec env c w :
  c.1.1 = PhaseFrozen → St c (mkSpec (PhaseRunning true) (Open Freeze false)) w →
  let ok := St c (mkSpec (PhaseRunning true) (Open Freeze false)) in
  wp (freeze_guest env) (λ _, ok) (λ _, ok) (λ _, False) w.
Proof.
  intros Hp Hst ok. unfold freeze_guest. case_bool_decide; [by apply wp_fail|].
  apply wp_bind, wp_context; [|done]. intros co _.
  apply wp_bind, dismantle_spec; [|done].
  apply wp_bind, wp_get. destruct (shut_down_sockets _ _) as [r calls].
  apply wp_bind. eapply wp_act; [apply _|apply Hst|apply sp_freeze_sockets|]. intros w1 Hh Ha1.
  assert (ok w1) as Hok1 by (by eapply St_host).
  apply wp_bind, wp_lift; [|done]. intros _ _.
  apply wp_bind, wp_context; [|done]. intros objects _.
  apply wp_bind, wp_modify, wp_ret. exact Hok1.
Qed.

(** The end of a request handled as a whole: the loop goes on, the process
    ends, or it is a clone. *)
Definition outcome_ok (o : Outcome) (w : W) : Prop :=
  match o with
  | Continue => idle w
  | Exit => accepted w
  | Child => phase (host w) = PhaseRunning true ∧ at_ (mkSpec (PhaseRunning true) Born) w
  end.

Lemma refuse_spec text c q w :
  q ≠ Stop → (q = Freeze → c.1.1 ≠ PhaseRunning true) → sane c →
  St c (mkSpec c.1.1 (Open q false)) w →
  wp (refuse peer text) outcome_ok (λ _, accepted) blocked w.
Proof.
  intros Hs Hf Hg Hst. unfold refuse. apply wp_bind.
  eapply wp_send; [apply _|apply Hst|by apply sp_refuse| |by intros e w' [Hac _]].
  intros w1 Hh Ha1. apply wp_ret. split; [by rewrite Hh, (St_phase _ _ _ Hst)|].
  unfold core. rewrite Hh. change (sane (core w)). by destruct Hst as [-> _].
Qed.

Lemma host_freeze_spec p c w :
  sane c → St c (mkSpec c.1.1 (Open Freeze false)) w →
  wp (host_freeze manifest peer p) outcome_ok (λ _, accepted) blocked w.
Proof.
  intros Hg Hst. unfold host_freeze.
  apply wp_bind, wp_get. rewrite (St_phase _ _ _ Hst). case_bool_decide as Hf.
  { by eapply (refuse_spec _ c Freeze). }
  destruct c as [[ph g] k]. simpl in *.
  assert (ph = PhaseRunning true) as ->
    by (destruct (decide (ph = PhaseRunning true)); [done|by destruct Hf]).
  apply wp_bind, wp_modify, wp_bind. unfold set_title. apply wp_bind, wp_get, wp_put.
  apply wp_bind, wp_try.
  eapply wp_mono; [apply (freeze_guest_spec _ (PhaseFrozen, g, k))| | |]; simpl.
  - done.
  - split; [|apply Hst]. destruct Hst as [Hc _]. unfold core, core_of in *. simpl in *. congruence.
  - intros co w1 Hst1. apply wp_bind.
    eapply wp_send; [apply _|apply Hst1|apply sp_frozen| |by intros e w' [Hac _]].
    intros w2 Hh2 Ha2. apply wp_bind, wp_modify, wp_ret.
    assert (phase (host w2) = PhaseFrozen) as Hp2 by (rewrite Hh2; by apply (St_phase _ _ _ Hst1)).
    simpl. unfold idle, sane, core, core_of. simpl. by rewrite Hp2.
  - intros e w1 Hst1. apply wp_bind.
    eapply wp_send; [apply _|apply Hst1|apply sp_freeze_error| |by intros e' w' [Hac _]].
    intros w2 Hh2 Ha2. apply wp_ret. by eapply at_accepted.
  - done.
Qed.

Lemma rebuild_spec env listener w :
  let same w' := core w' = core w ∧ trace w' = trace w ∧ passes w' = passes w in
  wp (rebuild manifest env listener) (λ _, same) (λ _, same) (λ _, False) w.
Proof.
  intros same. unfold rebuild.
  apply wp_bind, wp_context; [intros _ _|done]. apply wp_bind, wp_context; [intros _ _|done].
  apply wp_bind, wp_get. destruct (shared_memory (host w)); [|by apply wp_fail].
  apply wp_bind, wp_context; [intros _ _|done]. apply wp_bind, wp_context; [intros _ _|done].
  apply wp_bind, wp_modify. apply wp_bind, wp_lift; [intros e _|done].
  apply wp_bind, wp_lift; [intros n' _|done]. apply wp_bind, wp_modify, wp_bind.
  unfold set_title. apply wp_bind, wp_get, wp_put.
  apply wp_bind, wp_context; [intros _ _|done]. apply wp_context; done.
Qed.

Lemma host_fork_spec p fds c w :
  sane c → St c (mkSpec c.1.1 (Open Fork false)) w →
  wp (host_fork manifest peer p fds) outcome_ok (λ _, accepted) blocked w.
Proof.
  intros Hg Hst. unfold host_fork.
  apply wp_bind, wp_get. rewrite (St_phase _ _ _ Hst). case_bool_decide as Hf.
  { by eapply (refuse_spec _ c Fork). }
  destruct c as [[ph g] k]. simpl in Hf, Hst.
  assert (ph = PhaseFrozen) as ->
    by (destruct (decide (ph = PhaseFrozen)); [done|by destruct Hf]).
  set (c := (PhaseFrozen, g, k)) in *.
  destruct fds as [|control [|listener [|]]]; try by eapply (refuse_spec _ c Fork).
  apply wp_bind, wp_try. unfold fork_host.
  apply wp_bind, wp_context; [|intros; by eapply (refuse_spec _ c Fork)].
  intros e _. case_bool_decide; [apply wp_fail; by eapply (refuse_spec _ c Fork)|].
  case_bool_decide.
  - apply wp_bind. eapply wp_act; [apply _|apply Hst|apply sp_fork_child|]. intros w1 Hh Ha1.
    apply wp_bind, wp_try. eapply wp_mono; [by apply rebuild_spec| | |done]; simpl.
    + intros [] w2 (Hp2 & Ht2 & Hps2). apply wp_ret. apply wp_bind, wp_modify, wp_ret. simpl.
      split; [done|]. unfold at_, at_owing in *. simpl. by rewrite Ht2, Hps2.
    + intros e' w2 (Hp2 & Ht2 & Hps2). apply wp_ret. apply wp_bind, wp_try.
      assert (at_ (mkSpec (PhaseRunning true) Born) w2) as Ha2
        by (unfold at_, at_owing in *; by rewrite Ht2, Hps2).
      eapply wp_send; [apply _|exact Ha2|apply sp_orphan| |].
      * intros w3 _ Ha3. by eapply wp_ret, at_accepted.
      * intros e3 w3 [Hac _]. by apply wp_ret.
  - apply wp_bind. eapply wp_act; [apply _|apply Hst|apply sp_fork_parent|]. intros w1 Hh Ha1.
    apply wp_ret, wp_bind.
    eapply wp_send; [apply _|exact Ha1|apply sp_forked| |by intros e' w' [Hac _]].
    intros w2 Hh2 Ha2. apply wp_ret. rewrite Hh in Hh2.
    eapply St_host in Ha2; [|exact Hst|exact Hh2].
    split; [|by destruct Ha2 as [-> _]]. rewrite (St_phase _ _ _ Ha2). apply Ha2.
Qed.

Lemma handle_spec p frame c w :
  sane c →
  St c (if decide (message frame = Stop) then mkSpec c.1.1 Over
        else mkSpec c.1.1 (Open (message frame) false)) w →
  wp (handle manifest fs sha256 peer p frame) outcome_ok (λ _, accepted) blocked w.
Proof.
  intros Hs Hst. unfold handle.
  assert (∀ m, wp m (λ r w', match r with Some r => answers r w' | None => accepted w' end)
      (λ _, errs) blocked w →
    wp (let! reply := try m in
        match reply with
        | Ok (Some reply) => send_as peer (AReply reply) ;; ret Continue
        | Ok None => ret Exit
        | Err e => send_as peer (AReply (ReplyError (display_chain e))) ;; ret Continue
        end) outcome_ok (λ _, accepted) blocked w) as Hrespond.
  { intros m Hm. apply wp_bind, wp_try. eapply wp_mono; [exact Hm| | |done].
    - intros [r|] w1 Hw1; [|by apply wp_ret]. destruct Hw1 as (s & Ha1 & Hs1 & Hg1).
      apply wp_bind. eapply wp_send; [apply _|exact Ha1|exact Hs1| |by intros e w' [Hac _]].
      intros w2 Hh2 Ha2. apply wp_ret. split; unfold core in *; by rewrite Hh2.
    - intros e w1 [Hans|[Hac Hpeer]].
      + destruct (Hans (display_chain e)) as (s & Ha1 & Hs1 & Hg1).
        apply wp_bind. eapply wp_send; [apply _|exact Ha1|exact Hs1| |by intros e' w' [Hac _]].
        intros w2 Hh2 Ha2. apply wp_ret. split; unfold core in *; by rewrite Hh2.
      + apply wp_bind. unfold wp, send_as. by rewrite Hpeer. }
  destruct (message frame); simpl in Hst.
  - by eapply Hrespond, host_prepare_spec.
  - by eapply Hrespond, start_spec.
  - by eapply Hrespond, initialize_spec.
  - by eapply host_freeze_spec.
  - by eapply host_fork_spec.
  - by eapply wp_ret, St_accepted.
Qed.

Lemma compact_spec p w :
  idle w → wp (compact kernel p) (λ _, idle) (λ _, accepted) blocked w.
Proof.
  intros [Ha Hs]. unfold compact. apply wp_bind, wp_get.
  destruct (compaction (host w)) as [c|] eqn:Hco; [|by apply wp_ret].
  assert (phase (host w) = PhaseFrozen) as Hf.
  { apply (proj2 Hs). unfold core, core_of. by rewrite Hco. }
  rewrite Hf in Ha. apply wp_bind.
  eapply wp_act; [apply _|exact Ha|apply sp_slice|]. intros w1 Hh Ha1.
  destruct (step _ _ _ _) as [[[c' m'] fin]|]; [|apply wp_fail; by eapply at_accepted].
  apply wp_put. unfold idle, sane, core, core_of, at_. simpl. rewrite Hf. by split_and!.
Qed.

Lemma serve_round_spec w :
  idle w →
  wp (serve_round manifest fs sha256 kernel peer)
    (λ r w', match r with Some _ => accepted w' | None => idle w' end)
    (λ _, accepted) blocked w.
Proof.
  intros Hid. pose proof Hid as [Ha Hs]. set (c := core w) in *.
  set (s := mkSpec (phase (host w)) Idle) in *.
  unfold serve_round. apply wp_bind, (wp_wait c s);
    [by left; left|done|by apply idle_blocked|intros; by eapply St_accepted|].
  intros p b w1 Hc1 Ha1 Hb1. apply wp_bind, (tick_spec p b c s).
  - by left.
  - intros Hg Hf. unfold c, core, core_of in Hg, Hf. simpl in Hg, Hf.
    destruct (proj1 Hs Hg) as [Hn1 Hn2].
    destruct (phase (host w)) as [| |b'|] eqn:Hp; try done. exists b'. by left.
  - done.
  - split; [done|]. apply Ha1. left. split; [by left|done].
  - intros w2 Hst2.
    assert (∀ w', St c s w' → idle w') as Hidle.
    { intros w' Hst'. split; [rewrite (St_phase _ _ _ Hst'); apply Hst'|by destruct Hst' as [-> _]]. }
    destruct b; simpl negb; cbv iota.
    2:{ apply wp_bind. eapply wp_mono; [by apply compact_spec, Hidle| |done|done].
        intros [] w3 Hid3. by apply wp_ret. }
    apply wp_bind. unfold receive. apply wp_bind, wp_lift; [|intros; by eapply St_accepted].
    intros [frame|] _; [|by eapply wp_ret, wp_ret, St_accepted].
    apply wp_bind. eapply (wp_act _ _ (if decide (message frame = Stop) then mkSpec c.1.1 Over
        else mkSpec c.1.1 (Open (message frame) false))); [apply _|apply Hst2| |].
    { destruct (decide (message frame = Stop)) as [->|Hns]; [apply sp_stop|by apply sp_request]. }
    intros w3 Hh3 Ha3. apply wp_ret, wp_bind.
    eapply wp_mono; [apply (handle_spec p frame c); [done|by eapply St_host]| |done|done].
    intros [| |] w4 Ho; [by apply wp_ret|by apply wp_ret|].
    destruct Ho as [Hp4 Ha4]. apply wp_bind, wp_modify, wp_bind. unfold forked_reply.
    apply wp_bind, wp_get, wp_bind, wp_lift; [|intros; by eapply at_accepted].
    intros e _. apply wp_ret, wp_bind.
    eapply wp_send; [apply _|exact Ha4|apply sp_announce| |by intros e' w' [Hac _]].
    intros w5 Hh5 Ha5. apply wp_ret. unfold idle, sane, core, core_of. rewrite Hh5. simpl.
    by rewrite Hp4.
  - intros w2 Hac. by apply wp_ret.
  - intros e w2 [Hst2|[Hac _]]; [by eapply St_accepted|done].
Qed.
End refinement.

Lemma serve_spec manifest fs sha256 kernel peer passes m :
  wp (serve manifest fs sha256 kernel peer) (λ _, accepted peer passes) (λ _, accepted peer passes)
    (blocked passes) (mkW (host_new manifest m) passes []).
Proof.
  apply (wp_loop_passes (idle passes)).
  - intros w' Hid.
    eapply wp_mono; [by apply (serve_round_spec manifest fs sha256 kernel peer)| |done|done].
    by intros [|] w''.
  - apply idle_blocked.
  - split; [|done]. exists []. split_and!; [constructor|done|done].
Qed.

Lemma serve_accepted manifest fs sha256 kernel peer passes m :
  ∃ s, spec_run spec_init
    (trace (serve manifest fs sha256 kernel peer (mkW (host_new manifest m) passes [])).2) s.
Proof.
  pose proof (serve_spec manifest fs sha256 kernel peer passes m) as Hwp. unfold wp in Hwp.
  destruct (serve _ _ _ _ _ _) as [[[]|e|] w]; simpl;
    [destruct Hwp as (s & owed & (ms & Hr & <- & _) & _)..|
     destruct Hwp as (s & (ms & Hr & <- & _) & _)]; exists s; by eapply reported_spec.
Qed.

(** C3: The host process refines its protocol.  Whatever the manager sends,
    whatever the guest, its runs, its clones and the kernel do, and however
    long the process runs, the messages it sends are those of [spec_step]: each
    request gets exactly one reply of the kind that request calls for in that
    phase (or an error), unsolicited events only report clones and the guest's
    own end, nothing follows a [stop], a failed freeze or the guest's end.  The
    exits it sends are, in order and each once, those of the clones it reaped,
    taking the passes of its loops one by one: what a tick reaped is sent before
    anything else is received, answered or polled for, and is left untold only
    when the guest has ended or the manager no longer takes messages.  The
    process blocks only when the environment has nothing more to say, and then
    waits idle, or with one run under way, in the phase the conversation says,
    with every exit told. *)
Theorem host_refines_protocol manifest fs sha256 kernel peer passes m :
  match serve manifest fs sha256 kernel peer (mkW (host_new manifest m) passes []) with
  | (r, w) =>
      ∃ s ms owed, spec_run spec_init (trace w) s ∧
        reported_run ms s owed ∧ acts ms = trace w ∧ passes = seen ms ++ Host.passes w ∧
        told (trace w) ++ owed = dues ms ∧
        (owed = [] ∨ sp_conv s = Over ∨ peer (length (trace w)) = false) ∧
        (r = Waiting → owed = [] ∧ Host.passes w = [] ∧ phase (host w) = sp_phase s ∧
          (sp_conv s = Idle ∨ ∃ q, sp_conv s = Open q true ∧ q ≠ Fork))
  end.
Proof.
  destruct (serve _ _ _ _ _ _) as [r w] eqn:Hrun.
  pose proof (serve_spec manifest fs sha256 kernel peer passes m) as Hwp.
  pose proof (drains_serve manifest fs sha256 kernel peer (mkW (host_new manifest m) passes []))
    as Hdr. rewrite Hrun in Hdr.
  unfold wp in Hwp. rewrite Hrun in Hwp.
  assert (∀ s ms owed, reported_run ms s owed → acts ms = trace w →
    spec_run spec_init (trace w) s ∧ told (trace w) ++ owed = dues ms) as Hboth
    by (intros s ms owed Hr <-; split; [by eapply reported_spec|by eapply reported_told]).
  destruct r as [[]|e|].
  - destruct Hwp as (s & owed & (ms & Hr & Ha & Hp) & Ho). exists s, ms, owed.
    destruct (Hboth _ _ _ Hr Ha). by split_and!.
  - destruct Hwp as (s & owed & (ms & Hr & Ha & Hp) & Ho). exists s, ms, owed.
    destruct (Hboth _ _ _ Hr Ha). by split_and!.
  - destruct Hwp as (s & (ms & Hr & Ha & Hp) & Hw). exists s, ms, [].
    destruct (Hboth _ _ _ Hr Ha). split_and!; try done; [by left|]. intros _.
    destruct Hw as [[Hi Hph]|(q & Ho & Hq & Hph)]; split_and!; eauto.
Qed.

(** ** A frozen template *)

Lemma spec_run_app s t1 t2 s2 :
  spec_run s (t1 ++ t2) s2 → ∃ s1, spec_run s t1 s1 ∧ spec_run s1 t2 s2.
Proof.
  revert s2. induction t2 as [|a t2 IH] using rev_ind; intros s2 Hrun.
  - rewrite app_nil_r in Hrun. exists s2. split; [done|constructor].
  - rewrite app_assoc in Hrun. inversion Hrun as [Hnil|t s1 a' s2' Hr Hs Heq]; subst.
    + by destruct (app_cons_not_nil (t1 ++ t2) [] a).
    + apply app_inj_tail in Heq as [-> ->]. apply IH in Hr as (s3 & H1 & H2).
      exists s3. split; [done|]. by eapply spec_run_snoc.
Qed.

Lemma spec_run_one s a s' : spec_run s [a] s' → spec_step s a s'.
Proof.
  intros Hrun. inversion Hrun as [|t s1 a' s2 Hr Hs Heq]; subst.
  assert (t = [] ∧ a' = a) as [-> ->] by (apply app_inj_tail; by rewrite Heq).
  inversion Hr as [|t' ? ? ? ? ? Heq']; subst; [done|].
  by destruct (app_cons_not_nil t' [] a0).
Qed.

Lemma spec_run_cons s a t s2 :
  spec_run s (a :: t) s2 → ∃ s1, spec_step s a s1 ∧ spec_run s1 t s2.
Proof.
  intros Hrun. apply (spec_run_app s [a] t) in Hrun as (s1 & H1 & H2).
  exists s1. by split; [apply spec_run_one|].
Qed.

(** Where a template that is not forked into a clone stays. *)
Definition template_state (s : Spec) : Prop :=
  sp_phase s = PhaseFrozen ∧
  (sp_conv s = Idle ∨ sp_conv s = Over ∨ (∃ q, sp_conv s = Open q false) ∨ sp_conv s = Open Fork true).

Lemma template_step s a s' :
  template_state s → spec_step s a s' → a ≠ AForkChild →
  template_state s' ∧ (∀ run, a ≠ ASpawn run) ∧
  (∀ q, a = ARecv q → q ≠ Stop → sp_conv s' = Open q false).
Proof.
  intros [Hp Hc] Hs Hn. destruct Hs; simpl in *; subst; try done;
    try (destruct Hc as [?|[?|[[? ?]|?]]]; simplify_eq; fail).
  all: try (by destruct H).
  all: unfold template_state; simpl; split_and!; try done; try (intros; congruence); eauto 6.
Qed.

Lemma template_run s t s' :
  template_state s → spec_run s t s' → AForkChild ∉ t →
  template_state s' ∧ (∀ run, ASpawn run ∉ t).
Proof.
  intros Hs Hrun Hn. induction Hrun as [|t s1 a s2 Hr IH Hstep].
  - split; [done|]. intros run. apply not_elem_of_nil.
  - apply not_elem_of_app in Hn as [Hn1 Hn2]. destruct (IH Hn1) as [Hs1 Hsp].
    destruct (template_step _ _ _ Hs1 Hstep) as (Hs2 & Ha & _); [set_solver|].
    split; [done|]. intros run [?|Hin]%elem_of_app; [by eapply Hsp|].
    apply list_elem_of_singleton in Hin. by eapply Ha.
Qed.

(** A refused request: the next message is an error. *)
Lemma template_refuses q t s' :
  q ≠ Fork → q ≠ Stop → spec_run (mkSpec PhaseFrozen (Open q false)) t s' →
  t = [] ∨ ∃ text t', t = AReply (ReplyError text) :: t'.
Proof.
  intros Hf Hst. destruct t as [|a t]; [by left|]. intros Hrun. right.
  apply spec_run_cons in Hrun as (s1 & Hs & _). inversion Hs; subst; eauto; naive_solver.
Qed.

(** C5: Freezing is terminal.  After the host has answered [frozen], and for as
    long as the process is not itself a forked clone, it never starts a run
    again, whatever is asked of it, and every request other than [fork] and
    [stop] is answered with an error before anything else happens. *)
Theorem frozen_template_only_forks manifest fs sha256 kernel peer passes m :
  let w := (serve manifest fs sha256 kernel peer (mkW (host_new manifest m) passes [])).2 in
  ∀ t1 coroutines t2,
    trace w = t1 ++ AReply (Protocol.Frozen coroutines) :: t2 → AForkChild ∉ t2 →
    (∀ run, ASpawn run ∉ t2) ∧
    (∀ before q after, t2 = before ++ ARecv q :: after → q ≠ Fork → q ≠ Stop →
       after = [] ∨ ∃ text rest, after = AReply (ReplyError text) :: rest).
Proof.
  intros w t1 co t2 Ht Hn.
  destruct (serve_accepted manifest fs sha256 kernel peer passes m) as (s & Hrun).
  fold w in Hrun. rewrite Ht in Hrun. apply spec_run_app in Hrun as (s1 & _ & Hrun).
  apply spec_run_cons in Hrun as (s2 & Hstep & Hrun).
  assert (template_state s2) as Hs2 by (inversion Hstep; subst; split; simpl; auto).
  split; [by eapply template_run|].
  intros before q after -> Hf Hst. apply not_elem_of_app in Hn as [Hn1 Hn2].
  apply spec_run_app in Hrun as (s3 & Hb & Hrun).
  destruct (template_run _ _ _ Hs2 Hb Hn1) as [Hs3 _].
  apply spec_run_cons in Hrun as (s4 & Hr & Hrun).
  destruct (template_step _ _ _ Hs3 Hr) as (Hs4 & _ & Hopen); [done|].
  eapply (template_refuses q); [done|done|]. destruct s4 as [ph conv], Hs4 as [Hph _].
  simpl in *. rewrite Hph, (Hopen q) in Hrun by done. exact Hrun.
Qed.
