(* ===== verification/Events.v ===== *)
(** * The event pipe

    Models [EventPipe] of src/crates/servicecache/src/host/mod.rs: the bytes
    other threads announce events with ([notifier]), the reads of [drain], and
    the pipe as the processes of a template share it.  [rebuild] keeps the
    descriptors a clone inherits, so a template and all its descendants write
    to one pipe and drain one pipe.  A byte carries here who wrote it, which
    the processes do not see. *)

From S2P Require Import Prelude Protocol Host.

(** ** One pipe *)

(** [event as u8]. *)
Definition event_byte (e : Event) : N :=
  match e with Listening => 1 | RunEnded => 2 | Probed => 3 end.

Lemma event_byte_decodes e : event_try_from (event_byte e) = Ok e.
Proof. by destruct e. Qed.

(** The room of a pipe, and the buffer [drain] reads into. *)
Definition PIPE_CAPACITY : nat := 65536.
Definition DRAIN_BUFFER : nat := 64.

Lemma capacity_pos : 0 < PIPE_CAPACITY.
Proof. apply Nat.ltb_lt. by vm_compute. Qed.

(** [EventPipe::notifier]: the write end does not block, and what a full pipe
    does not take is dropped. *)
Definition notify {A} (x : A) (pipe : list A) : list A :=
  if bool_decide (length pipe < PIPE_CAPACITY) then pipe ++ [x] else pipe.

(** [EventPipe::drain], read by read: what it answers and leaves in the pipe.
    A read of an empty pipe fails, which ends it. *)
Fixpoint drain_reads (fuel : nat) (pipe : list N) (events : Events)
    : result Events error * list N :=
  match fuel with
  | O => (Ok events, pipe)
  | S fuel =>
      match take DRAIN_BUFFER pipe with
      | [] => (Ok events, pipe)
      | buffer =>
          match drain buffer events with
          | Err e => (Err e, drop DRAIN_BUFFER pipe)
          | Ok events => drain_reads fuel (drop DRAIN_BUFFER pipe) events
          end
      end
  end.

Lemma drain_app a b events :
  drain (a ++ b) events = match drain a events with Ok events => drain b events | Err e => Err e end.
Proof.
  revert events. induction a as [|x a IH]; intros events; [done|]. simpl.
  destruct (event_try_from x); [apply IH|done].
Qed.

(** The reads are one drain of everything in the pipe. *)
Lemma drain_reads_spec fuel pipe events :
  length pipe < fuel →
  (drain_reads fuel pipe events).1 = drain pipe events ∧
  (is_ok (drain pipe events) = true → (drain_reads fuel pipe events).2 = []).
Proof.
  revert pipe events. induction fuel as [|fuel IH]; intros pipe events Hf; [lia|].
  destruct pipe as [|x pipe]; [done|]. cbn [drain_reads].
  assert (drain (x :: pipe) events =
          match drain (x :: take 63 pipe) events with
          | Ok events => drain (drop DRAIN_BUFFER (x :: pipe)) events | Err e => Err e end) as ->.
  { rewrite <- drain_app. by rewrite <- (take_drop DRAIN_BUFFER (x :: pipe)) at 1. }
  change (take DRAIN_BUFFER (x :: pipe)) with (x :: take 63 pipe). cbv iota.
  destruct (drain (x :: take 63 pipe) events) as [events'|e]; [|done].
  apply IH. rewrite length_drop. unfold DRAIN_BUFFER. simpl in *. lia.
Qed.

Definition reports (e : Event) (events : Events) : bool :=
  match e with
  | Listening => listening events
  | RunEnded => run_ended events
  | Probed => probed events
  end.

(** A drain of announced bytes succeeds, and reports exactly what is there. *)
Lemma drain_announced es events :
  ∃ events', drain (map event_byte es) events = Ok events' ∧
    ∀ e, reports e events' = true ↔ reports e events = true ∨ e ∈ es.
Proof.
  revert events. induction es as [|x es IH]; intros events; simpl.
  { exists events. split; [done|]. set_solver. }
  rewrite event_byte_decodes. edestruct IH as (events' & -> & He). exists events'. split; [done|].
  intros e. rewrite He, elem_of_cons. destruct e, x; naive_solver.
Qed.

(** ** The pipe of a template and its descendants *)

Record Member : Type := mkMember {
  m_phase : Phase;
  (** In the loop of [start]. *)
  m_starting : bool;
}.

Record Family : Type := mkFamily {
  members : gmap nat Member;
  pipe : list (nat * Event);
  (** Every byte the pipe took, and every byte read, with its reader. *)
  announced : list (nat * Event);
  taken : list (nat * (nat * Event));
}.

Definition set_member (p : nat) (m : Member) (f : Family) : Family :=
  mkFamily (<[p := m]> (members f)) (pipe f) (announced f) (taken f).

Inductive family_step : Family → Family → Prop :=
  (** [prepare] is answered. *)
  | fam_prepared f p :
      members f !! p = Some (mkMember Fresh false) →
      family_step f (set_member p (mkMember Prepared false) f)
  (** [start] spawns the guest and waits, until it answers or fails. *)
  | fam_start f p ph :
      members f !! p = Some (mkMember ph false) → ph = Fresh ∨ ph = Prepared →
      family_step f (set_member p (mkMember (PhaseRunning false) true) f)
  | fam_started f p b :
      members f !! p = Some (mkMember (PhaseRunning false) true) →
      family_step f (set_member p (mkMember (PhaseRunning b) false) f)
  (** [freeze]. *)
  | fam_freeze f p :
      members f !! p = Some (mkMember (PhaseRunning true) false) →
      family_step f (set_member p (mkMember PhaseFrozen false) f)
  (** [fork]: the child runs, on the same pipe. *)
  | fam_fork f p c :
      members f !! p = Some (mkMember PhaseFrozen false) → members f !! c = None →
      family_step f (set_member c (mkMember (PhaseRunning true) false) f)
  (** A thread of a process that is not frozen announces an event. *)
  | fam_notify f p m e :
      members f !! p = Some m → m_phase m ≠ PhaseFrozen →
      length (pipe f) < PIPE_CAPACITY →
      family_step f
        (mkFamily (members f) (notify (p, e) (pipe f)) (announced f ++ [(p, e)]) (taken f))
  (** Any process reads, at most the buffer. *)
  | fam_read f p m n :
      members f !! p = Some m → n ≤ DRAIN_BUFFER →
      family_step f
        (mkFamily (members f) (drop n (pipe f)) (announced f)
           (taken f ++ map (pair p) (take n (pipe f)))).

Definition family_new (p : nat) : Family := mkFamily {[p := mkMember Fresh false]} [] [] [].

(** A process that has not served yet is alone. *)
Definition young (m : Member) : Prop :=
  m_phase m = Fresh ∨ m_phase m = Prepared ∨ m_starting m = true.
#[global] Instance young_dec m : Decision (young m).
Proof. unfold young. apply _. Defined.

Definition alone (f : Family) : Prop :=
  ∀ p m, members f !! p = Some m → young m →
    members f = {[p := m]} ∧
    Forall (λ b, b.1 = p) (announced f) ∧ Forall (λ t, t.1 = p) (taken f).

Definition fifo (f : Family) : Prop := announced f = map snd (taken f) ++ pipe f.

Lemma fifo_step f f' : family_step f f' → fifo f → fifo f'.
Proof.
  unfold fifo. intros Hs Hf. destruct Hs as [| | | | |f p m e Hp _ Hl|f p m n Hp _]; simpl; try done.
  - unfold notify. rewrite bool_decide_true, Hf by done. by rewrite app_assoc.
  - rewrite map_app, map_map, map_id, <- app_assoc, take_drop. done.
Qed.

Lemma alone_set f p m m' :
  alone f → members f !! p = Some m → (young m' → young m) → alone (set_member p m' f).
Proof.
  intros Ha Hp Hy q x Hq Hyx. simpl in Hq. destruct (decide (p = q)) as [<-|Hne].
  - rewrite lookup_insert_eq in Hq. injection Hq as <-.
    destruct (Ha p m Hp (Hy Hyx)) as (Hm & Hr). simpl. split; [|done].
    by rewrite Hm, insert_singleton_eq.
  - rewrite lookup_insert_ne in Hq by done. destruct (Ha q x Hq Hyx) as (Hm & _).
    rewrite Hm in Hp. by rewrite lookup_singleton_ne in Hp.
Qed.

Lemma alone_step f f' : family_step f f' → alone f → alone f'.
Proof.
  intros Hs Ha.
  destruct Hs as [f p Hp|f p ph Hp Hph|f p b Hp|f p Hp|f p c Hp Hc|f p m e Hp Hm Hl|f p m n Hp Hn].
  - eapply alone_set; [done|done|]. intros _. by left.
  - eapply alone_set; [done|done|]. intros _. destruct Hph; [by left|by right; left].
  - eapply alone_set; [done|done|]. intros _. by right; right.
  - eapply alone_set; [done|done|]. intros [|[|]]; done.
  - intros q x Hq Hy. simpl in Hq. destruct (decide (c = q)) as [<-|Hne].
    { rewrite lookup_insert_eq in Hq. injection Hq as <-. by destruct Hy as [|[|]]. }
    rewrite lookup_insert_ne in Hq by done. destruct (Ha q x Hq Hy) as (Hm & _).
    rewrite Hm in Hp. apply lookup_singleton_Some in Hp as [-> ->].
    by destruct Hy as [|[|]].
  - intros q x Hq Hy. simpl in *. destruct (Ha q x Hq Hy) as (Hms & Han & Ht).
    split_and!; [done| |done]. rewrite Hms in Hp. apply lookup_singleton_Some in Hp as [<- _].
    apply Forall_app. by repeat constructor.
  - intros q x Hq Hy. simpl in *. destruct (Ha q x Hq Hy) as (Hms & Han & Ht).
    split_and!; [done|done|]. rewrite Hms in Hp. apply lookup_singleton_Some in Hp as [<- _].
    apply Forall_app. split; [done|]. rewrite Forall_map. by apply Forall_true.
Qed.

Lemma family_inv p f : rtc family_step (family_new p) f → fifo f ∧ alone f.
Proof.
  intros Hr. apply (rtc_invariant family_step (λ f, fifo f ∧ alone f)) in Hr; [done| |].
  - intros x y Hs [? ?]. split; [by eapply fifo_step|by eapply alone_step].
  - split; [done|]. intros q m Hq _. simpl in *. apply lookup_singleton_Some in Hq as [<- <-].
    by repeat constructor.
Qed.

(** [start] misses no announcement.  It knows that its guest listens, and that
    the probe has ended, from the pipe alone.  While it waits, the process is
    the only one with the pipe: what was announced was announced by its own
    threads and, in order, either read by it or is still there, and then its
    next drain succeeds and reports it. *)
Theorem start_misses_no_announcement root f p m :
  rtc family_step (family_new root) f →
  members f !! p = Some m → m_starting m = true →
  announced f = map snd (taken f) ++ pipe f ∧
  Forall (λ b, b.1 = p) (announced f) ∧ Forall (λ t, t.1 = p) (taken f) ∧
  ∃ events,
    drain_reads (S (length (pipe f))) (map (event_byte ∘ snd) (pipe f)) no_events =
      (Ok events, []) ∧
    ∀ e, reports e events = true ↔ (p, e) ∈ pipe f.
Proof.
  intros [Hf Ha]%family_inv Hp Hs. destruct (Ha p m Hp) as (_ & Han & Ht); [by right; right|].
  split_and!; [done|done|done|].
  destruct (drain_announced (map snd (pipe f)) no_events) as (events & Hd & He).
  rewrite map_map in Hd. exists events.
  change (map (λ x : nat * Event, event_byte x.2) (pipe f))
    with (map (event_byte ∘ snd) (pipe f)) in Hd.
  destruct (drain_reads_spec (S (length (pipe f))) (map (event_byte ∘ snd) (pipe f)) no_events)
    as [H1 H2]; [rewrite length_map; lia|].
  rewrite Hd in H1, H2. split.
  - rewrite (surjective_pairing (drain_reads _ _ _)). by rewrite H1, H2.
  - intros e. rewrite He. split.
    + intros [?|Hin]; [by destruct e|]. apply list_elem_of_fmap in Hin as ([q x] & -> & Hin).
      unfold fifo in Hf. rewrite Hf, Forall_app in Han. destruct Han as [_ Han].
      rewrite Forall_forall in Han. specialize (Han _ Hin). simpl in Han. by subst q.
    + intros Hin. right. apply list_elem_of_fmap. by exists (p, e).
Qed.

(** The pipe is shared from the first fork on: a clone's announcement that its
    run has ended can be taken by its template.  The clone still learns of it,
    from the run's status, at its next tick. *)
Lemma run_end_may_be_drained_elsewhere :
  ∃ f, rtc family_step (family_new 1) f ∧ announced f = [(2, RunEnded)] ∧
    taken f = [(1, (2, RunEnded))] ∧ pipe f = [].
Proof.
  eexists. split.
  - eapply rtc_l; [by apply (fam_start _ 1 Fresh); [|left]|].
    eapply rtc_l; [by apply (fam_started _ 1 true)|].
    eapply rtc_l; [by apply (fam_freeze _ 1)|].
    eapply rtc_l; [by apply (fam_fork _ 1 2)|].
    eapply rtc_l; [apply (fam_notify _ 2 (mkMember (PhaseRunning true) false) RunEnded);
      [done|done|apply capacity_pos]|].
    eapply rtc_l; [eapply (fam_read _ 1 _ 64); [done|unfold DRAIN_BUFFER; lia]|].
    apply rtc_refl.
  - by split_and!.
Qed.

Module EventsWitness.
(** A guest that has begun to listen. *)
Definition listening_family : Family :=
  mkFamily {[1 := mkMember (PhaseRunning false) true]} [(1, Listening)] [(1, Listening)] [].

Lemma listening_reachable : rtc family_step (family_new 1) listening_family.
Proof.
  eapply rtc_l; [by apply (fam_start _ 1 Fresh); [|left]|].
  eapply rtc_l; [apply (fam_notify _ 1 (mkMember (PhaseRunning false) true) Listening);
    [done|done|apply capacity_pos]|].
  apply rtc_refl.
Qed.

Lemma start_misses_no_announcement_witness :
  ∃ events, drain_reads 2 [1%N] no_events = (Ok events, []) ∧ listening events = true.
Proof.
  destruct (start_misses_no_announcement 1 listening_family 1 (mkMember (PhaseRunning false) true)
              listening_reachable eq_refl eq_refl) as (_ & _ & _ & events & Hd & He).
  exists events. split; [exact Hd|]. apply (He Listening). apply elem_of_cons. by left.
Defined.
End EventsWitness.
