(* ===== verification/Threads.v ===== *)
(** * The threads of a host, through freezes and forks

    Models the dismantling of [freeze] and the rebuilding of [rebuild] in
    src/crates/servicecache/src/host/freeze.rs at the level of threads: the
    main thread, which runs the freeze and the fork; the guest's threads; the
    selector's thread; and the one worker of the Tokio runtime [build_tokio]
    makes, which runs [tokio_park_hook] each time before it parks and ends
    itself there once [TOKIO_EXIT] is set.  The main thread's steps are the
    source's statements in their order; the other threads' steps come at any
    time.  [fork] leaves the child with the calling thread only and a copy of
    the flags.

    Tokio's part is its documented behaviour: a worker with a task in its queue
    runs it before it parks and does not stay parked, and the hook runs before
    the worker goes to sleep.  A parked worker with nothing in its queue may
    sleep on: only a timer, an event or chance wakes it, and no theorem counts
    on one of these.  wasmer's part: no guest thread is started once the guest
    is drained.  What the freeze does after the count of the threads and the
    steps of the rebuild that start no thread are in Host.v. *)

From S2P Require Import Prelude.

(** ** State *)

(** The worker: running, past its park hook, asleep, or ended. *)
Inductive Worker : Type := WRunning | WParking | WParked | WGone.
#[global] Instance worker_eq_dec : EqDecision Worker.
Proof. solve_decision. Defined.

(** Where the main thread is. *)
Inductive Control : Type :=
  | Serving
  (** In [freeze], before each of its statements. *)
  | CloseGate | DrainGuest | HaltSelector | StoreExit | WakeWorker | CountThreads
  | FrozenHere
  (** [freeze] returned an error; the host is unusable. *)
  | FreezeFailed
  (** In [rebuild], before each of its statements. *)
  | StoreNoExit | BuildTokio | RebuildSelector | Resurrect
  | Dead.
#[global] Instance control_eq_dec : EqDecision Control.
Proof. solve_decision. Defined.

Record Threads : Type := mkThreads {
  control : Control;
  (** [TOKIO_EXIT]. *)
  tokio_exit : bool;
  gate_closed : bool;
  drained : bool;
  guest_threads : nat;
  selector_thread : bool;
  (** The runtime's worker; none in a child that has yet to build one. *)
  worker : option Worker;
  (** A task is in the worker's queue. *)
  queued : bool;
}.

Definition live (w : option Worker) : nat :=
  match w with Some WGone | None => 0 | Some _ => 1 end.

(** [thread_count]: what [/proc/self/status] says. *)
Definition thread_count (t : Threads) : nat :=
  1 + guest_threads t + (if selector_thread t then 1 else 0) + live (worker t).

(** ** Steps *)

(** [tokio_park_hook]. *)
Definition tokio_park_hook (tokio_exit : bool) : Worker :=
  if tokio_exit then WGone else WParking.

(** [build_tokio]: a runtime of one worker, with the hook. *)
Definition build_tokio : option Worker := Some WRunning.

(** The next statement of [freeze], from closing the gate on; [late] says
    whether the time the statement allows ([DRAIN_TIMEOUT], the deadline of
    [DISMANTLE_TIMEOUT]) has passed. *)
Definition freeze_next (late : bool) (t : Threads) : Threads :=
  match t with
  | mkThreads control exit gate drained guests selector worker queued =>
    match control with
    | CloseGate => mkThreads DrainGuest exit true drained guests selector worker queued
    | DrainGuest =>
        if late then mkThreads FreezeFailed exit gate drained guests selector worker queued
        else mkThreads HaltSelector exit gate true guests selector worker queued
    | HaltSelector => mkThreads StoreExit exit gate drained guests false worker queued
    | StoreExit => mkThreads WakeWorker true gate drained guests selector worker queued
    | WakeWorker => mkThreads CountThreads exit gate drained guests selector worker true
    | CountThreads =>
        if bool_decide (thread_count t = 1)
        then mkThreads FrozenHere exit gate drained guests selector worker queued
        else if late then mkThreads FreezeFailed exit gate drained guests selector worker queued
        else t
    | _ => t
    end
  end.

(** The next statement of [rebuild]; [resurrected] is how many threads
    [resurrect_all] starts. *)
Definition rebuild_next (resurrected : nat) (t : Threads) : Threads :=
  match t with
  | mkThreads control exit gate drained guests selector worker queued =>
    match control with
    | StoreNoExit => mkThreads BuildTokio false gate drained guests selector worker queued
    | BuildTokio => mkThreads RebuildSelector exit gate drained guests selector build_tokio false
    | RebuildSelector => mkThreads Resurrect exit gate drained guests true worker queued
    | Resurrect => mkThreads Serving exit false false (guests + resurrected) selector worker queued
    | _ => t
    end
  end.

(** The main thread's next statement. *)
Definition main_step (resurrected : nat) (late : bool) (t : Threads) : Threads :=
  match control t with
  | StoreNoExit | BuildTokio | RebuildSelector | Resurrect => rebuild_next resurrected t
  | _ => freeze_next late t
  end.

(** The child of [fork]. *)
Definition fork_child (t : Threads) : Threads :=
  mkThreads StoreNoExit (tokio_exit t) (gate_closed t) (drained t) 0 false None (queued t).

Definition set_worker (w : Worker) (q : bool) (t : Threads) : Threads :=
  mkThreads (control t) (tokio_exit t) (gate_closed t) (drained t) (guest_threads t)
    (selector_thread t) (Some w) q.
Definition set_guests (n : nat) (t : Threads) : Threads :=
  mkThreads (control t) (tokio_exit t) (gate_closed t) (drained t) n
    (selector_thread t) (worker t) (queued t).
Definition set_control (c : Control) (t : Threads) : Threads :=
  mkThreads c (tokio_exit t) (gate_closed t) (drained t) (guest_threads t)
    (selector_thread t) (worker t) (queued t).

(** What the other threads do by themselves: a step listed here is taken in the
    end when nothing else is. *)
Inductive thread_step : Threads → Threads → Prop :=
  | guest_starts t n :
      guest_threads t = S n → drained t = false →
      thread_step t (set_guests (S (S n)) t)
  | guest_ends t n : guest_threads t = S n → thread_step t (set_guests n t)
  | worker_hook t :
      worker t = Some WRunning → queued t = false →
      thread_step t (set_worker (tokio_park_hook (tokio_exit t)) false t)
  | worker_sleeps t : worker t = Some WParking → thread_step t (set_worker WParked (queued t) t)
  | worker_wakes t :
      worker t = Some WParked → queued t = true → thread_step t (set_worker WRunning true t)
  | worker_runs t :
      worker t = Some WRunning → queued t = true → thread_step t (set_worker WRunning false t).

(** What may also wake a parked worker: a timer, an event or nothing at all.
    It may happen and need not. *)
Inductive stray_wake : Threads → Threads → Prop :=
  | worker_stirs t : worker t = Some WParked → stray_wake t (set_worker WRunning (queued t) t).

(** The steps of the other threads, wakes by chance included. *)
Definition waiting_step (t t' : Threads) : Prop := thread_step t t' ∨ stray_wake t t'.

(** A host's life, followed into any child: the threads, the main thread's
    statements, a request to freeze, tasks of the guest, a fork, and the
    failures that end the process. *)
Inductive step : Threads → Threads → Prop :=
  | step_thread t t' : thread_step t t' → step t t'
  | step_stray t t' : stray_wake t t' → step t t'
  | step_main n late t : step t (main_step n late t)
  | step_request t : control t = Serving → step t (set_control CloseGate t)
  | step_task t w :
      drained t = false → worker t = Some w → w ≠ WGone → step t (set_worker w true t)
  | step_fork t : control t = FrozenHere → step t (fork_child t)
  | step_dies t : step t (set_control Dead t).

(** [Host::new], with a guest of [n] threads started. *)
Definition threads_new (n : nat) : Threads :=
  mkThreads Serving false false false n true build_tokio false.

(** ** The invariant *)

Definition worker_ok (t : Threads) : Prop :=
  match control t with
  | Serving | CloseGate | DrainGuest | HaltSelector | StoreExit | RebuildSelector | Resurrect =>
      tokio_exit t = false ∧ live (worker t) = 1
  | WakeWorker => tokio_exit t = true ∧ worker t ≠ None
  | CountThreads =>
      tokio_exit t = true ∧
      (worker t ∈ [Some WGone; Some WRunning] ∨
       worker t ∈ [Some WParking; Some WParked] ∧ queued t = true)
  | FrozenHere => live (worker t) = 0
  | FreezeFailed => True
  | StoreNoExit => worker t = None
  | BuildTokio => tokio_exit t = false ∧ worker t = None
  | Dead => True
  end.

Definition drained_ok (t : Threads) : Prop :=
  match control t with
  | Serving | CloseGate | DrainGuest | FreezeFailed | Dead => True
  | HaltSelector => drained t = true
  | StoreExit | WakeWorker | CountThreads => drained t = true ∧ selector_thread t = false
  | FrozenHere => drained t = true ∧ thread_count t = 1
  | StoreNoExit | BuildTokio | RebuildSelector | Resurrect =>
      drained t = true ∧ guest_threads t = 0
  end.

Definition threads_ok (t : Threads) : Prop := worker_ok t ∧ drained_ok t.

Lemma live_1 w : live w = 1 ↔ w ∈ [Some WRunning; Some WParking; Some WParked].
Proof. destruct w as [[]|]; simpl; set_solver. Qed.

Ltac thread_cases :=
  repeat match goal with
  | H : _ ∧ _ |- _ => destruct H
  | H : _ ∨ _ |- _ => destruct H
  | H : _ ∈ _ :: _ |- _ => apply elem_of_cons in H
  | H : _ ∈ [] |- _ => by apply elem_of_nil in H
  end; subst; simpl in *; try done.

Lemma threads_ok_thread t t' : thread_step t t' → threads_ok t → threads_ok t'.
Proof.
  intros Hs [Hw Hd]. unfold threads_ok, worker_ok, drained_ok, thread_count in *.
  destruct Hs; destruct t as [c e g d gs s w q]; simpl in *; subst; simpl in *.
  - split; [done|]. destruct c; thread_cases.
  - split; [done|]. destruct c; thread_cases; lia.
  - destruct c, e; simpl in *; thread_cases; split_and?; auto; set_solver.
  - destruct c; simpl in *; thread_cases; split_and?; auto; set_solver.
  - destruct c; simpl in *; thread_cases; split_and?; auto; set_solver.
  - destruct c; simpl in *; thread_cases; split_and?; auto; set_solver.
Qed.

Lemma threads_ok_stray t t' : stray_wake t t' → threads_ok t → threads_ok t'.
Proof.
  intros Hs [Hw Hd]. unfold threads_ok, worker_ok, drained_ok, thread_count in *.
  destruct Hs; destruct t as [c e g d gs s w q]; simpl in *; subst; simpl in *.
  destruct c; simpl in *; thread_cases; split_and?; auto; set_solver.
Qed.

Lemma threads_ok_main n late t : threads_ok t → threads_ok (main_step n late t).
Proof.
  intros [Hw Hd]. destruct t as [c e g d gs s w q].
  unfold threads_ok, worker_ok, drained_ok, main_step in *.
  destruct c, late; simpl in *; thread_cases; auto.
  all: try (destruct w as [[]|]; simpl in *; split_and?; auto; (done || set_solver)).
  all: case_bool_decide as Hc; simpl; [|split_and?; auto; set_solver].
  all: unfold thread_count in *; simpl in *; split_and?; auto; lia.
Qed.

Lemma threads_ok_step t t' : step t t' → threads_ok t → threads_ok t'.
Proof.
  intros Hs Hok. destruct Hs as [t t' Hs|t t' Hs|n late t|t Hc|t w Hd Hw Hg|t Hc|t].
  - by eapply threads_ok_thread.
  - by eapply threads_ok_stray.
  - by apply threads_ok_main.
  - destruct Hok as [Hw Hd]. unfold threads_ok, worker_ok, drained_ok in *. simpl. by rewrite Hc in Hw.
  - destruct Hok as [Hok Hok']. unfold threads_ok, worker_ok, drained_ok, thread_count in *. simpl.
    rewrite Hw in *. destruct (control t); thread_cases; split_and?; auto; try congruence;
    by destruct w.
  - destruct Hok as [_ Hd]. unfold threads_ok, worker_ok, drained_ok in *. rewrite Hc in Hd.
    by destruct Hd.
  - by split.
Qed.

Lemma threads_ok_reachable n t : rtc step (threads_new n) t → threads_ok t.
Proof.
  intros Hr. apply (rtc_invariant step threads_ok) in Hr; [done|apply threads_ok_step|].
  by repeat split.
Qed.

(** ** A serving host has its runtime *)

(** C10: A host's runtime lives until its own freeze.  Whatever freezes and forks
    it descends from, a host that serves, or freezes and has yet to set
    [TOKIO_EXIT], has a worker that has not ended and cannot end at its next
    park; and a host that is frozen is one thread. *)
Theorem runtime_lives_until_its_freeze n t :
  rtc step (threads_new n) t →
  (control t ∈ [Serving; CloseGate; DrainGuest; HaltSelector; StoreExit] →
     live (worker t) = 1 ∧ tokio_park_hook (tokio_exit t) ≠ WGone) ∧
  (control t = FrozenHere → thread_count t = 1).
Proof.
  intros [Hw Hd]%threads_ok_reachable. unfold worker_ok, drained_ok in *. split.
  - intros Hc. destruct (control t); try set_solver; by destruct Hw as [-> ->].
  - intros Hc. rewrite Hc in Hd. apply Hd.
Qed.

(** ** The dismantling ends *)

(** Steps the threads can still take once they are waited for. *)
Definition worker_left (w : option Worker) (q : bool) : nat :=
  match w, q with
  | Some WParking, _ => 5
  | Some WParked, _ => 4
  | Some WRunning, true => 3
  | Some WRunning, false => 2
  | Some WGone, _ | None, _ => 0
  end.
Definition work_left (t : Threads) : nat :=
  guest_threads t + worker_left (worker t) (queued t).

Lemma waited_step t t' :
  threads_ok t → control t = CountThreads → waiting_step t t' →
  threads_ok t' ∧ control t' = CountThreads ∧ work_left t' < work_left t.
Proof.
  intros Hok Hc Hs. split.
  { destruct Hs; [by eapply threads_ok_thread|by eapply threads_ok_stray]. }
  destruct Hok as [Hw Hd]. unfold worker_ok, drained_ok in *. rewrite Hc in Hw, Hd.
  split; [destruct Hs as [Hs|Hs]; by destruct Hs|]. unfold work_left.
  destruct Hs as [Hs|Hs]; destruct Hs; destruct t as [c e g d gs s w q]; simpl in *; subst;
    thread_cases; try lia.
  all: destruct q; lia.
Qed.

Lemma waited_steps t t' :
  threads_ok t → control t = CountThreads → rtc waiting_step t t' →
  threads_ok t' ∧ control t' = CountThreads.
Proof.
  intros Hok Hc Hr.
  apply (rtc_invariant waiting_step (λ t, threads_ok t ∧ control t = CountThreads)) in Hr;
    [done| |done]. intros x y Hs [Hx Hcx]. by destruct (waited_step _ _ Hx Hcx Hs) as (? & ? & _).
Qed.

Lemma waited_stuck t :
  threads_ok t → control t = CountThreads → (∀ t', ¬ thread_step t t') → thread_count t = 1.
Proof.
  intros [Hw Hd] Hc Hstuck. unfold worker_ok, drained_ok, thread_count in *.
  rewrite Hc in Hw, Hd. destruct Hd as [_ ->].
  destruct (guest_threads t) eqn:Hg; [|by destruct (Hstuck _ (guest_ends t _ Hg))].
  destruct (worker t) as [[]|] eqn:Ew; simpl; try done; exfalso.
  - destruct (queued t) eqn:Hq;
      [by eapply Hstuck, worker_runs|by eapply Hstuck, worker_hook].
  - by eapply Hstuck, worker_sleeps.
  - eapply Hstuck, worker_wakes; [done|]. destruct Hw as [_ [Hw|[_ Hw]]]; [set_solver|done].
Qed.

(** The count, from what it finds. *)
Lemma count_next late t :
  control t = CountThreads →
  control (main_step 0 late t) =
  (if bool_decide (thread_count t = 1) then FrozenHere
   else if late then FreezeFailed else CountThreads).
Proof.
  intros Hc. destruct t as [c e g d gs s w q]. simpl in Hc. subst c.
  cbn [main_step freeze_next control]. case_bool_decide; [done|]. by destruct late.
Qed.

(** C8: The dismantling ends.  Once the freeze waits for the last threads, the
    threads can take only finitely many more steps, however they are scheduled
    and whatever else wakes the runtime's worker; when none of them has a step
    it must take, the next count finds one thread and the host is frozen, the
    deadline passed or not: the one task the freeze queues is enough to bring
    a sleeping worker to its park hook, no other wake is needed.  The freeze
    fails at a count only when the deadline has passed and another thread is
    still there. *)
Theorem dismantling_ends n t :
  rtc step (threads_new n) t → control t = CountThreads →
  (∀ k t', nsteps waiting_step k t t' → k ≤ work_left t) ∧
  (∀ t' late, rtc waiting_step t t' →
     ((∀ t'', ¬ thread_step t' t'') → control (main_step 0 late t') = FrozenHere) ∧
     (control (main_step 0 late t') = FreezeFailed ↔ late = true ∧ thread_count t' ≠ 1)).
Proof.
  intros Hok%threads_ok_reachable Hc. split.
  - intros k t' Hk. induction Hk as [t|k t t1 t' Hs _ IH]; [lia|].
    destruct (waited_step _ _ Hok Hc Hs) as (Hok1 & Hc1 & Hl). specialize (IH Hok1 Hc1). lia.
  - intros t' late [Hok' Hc']%waited_steps; [|done..]. rewrite (count_next _ _ Hc'). split.
    + intros Hstuck. rewrite bool_decide_true; [done|by apply waited_stuck].
    + case_bool_decide; destruct late; naive_solver.
Qed.

(** ** A template and its clone *)

Module ThreadsWitness.
(** A guest of one thread whose worker sleeps as the freeze begins. *)
Definition asleep : Threads := mkThreads Serving false false false 1 true (Some WParked) false.
Definition counting : Threads :=
  mkThreads CountThreads true true true 1 false (Some WParked) true.

Lemma asleep_reachable : rtc step (threads_new 1) asleep.
Proof.
  eapply rtc_l; [apply step_thread, worker_hook; reflexivity|].
  eapply rtc_l; [apply step_thread, worker_sleeps; reflexivity|]. apply rtc_refl.
Qed.

Lemma counting_reachable : rtc step (threads_new 1) counting.
Proof.
  etrans; [apply asleep_reachable|].
  eapply rtc_l; [apply step_request; reflexivity|].
  do 5 (eapply rtc_l; [apply (step_main 0 false)|]). apply rtc_refl.
Qed.

(** The clone of the template that follows. *)
Definition cloned : Threads := mkThreads Serving false false false 1 true (Some WRunning) false.

Lemma cloned_reachable : rtc step (threads_new 1) cloned.
Proof.
  etrans; [apply counting_reachable|].
  eapply rtc_l; [eapply step_thread, guest_ends; reflexivity|].
  eapply rtc_l; [eapply step_thread, worker_wakes; reflexivity|].
  eapply rtc_l; [eapply step_thread, worker_runs; reflexivity|].
  eapply rtc_l; [eapply step_thread, worker_hook; reflexivity|].
  eapply rtc_l; [apply (step_main 0 false)|]. eapply rtc_l; [apply step_fork; reflexivity|].
  do 4 (eapply rtc_l; [apply (step_main 1 false)|]). apply rtc_refl.
Qed.

(** The threads have all ended. *)
Definition settled : Threads := mkThreads CountThreads true true true 0 false (Some WGone) false.

Lemma settled_reachable : rtc waiting_step counting settled.
Proof.
  eapply rtc_l; [left; eapply guest_ends; reflexivity|].
  eapply rtc_l; [left; eapply worker_wakes; reflexivity|].
  eapply rtc_l; [left; eapply worker_runs; reflexivity|].
  eapply rtc_l; [left; eapply worker_hook; reflexivity|]. apply rtc_refl.
Qed.

Lemma settled_stuck : ∀ t, ¬ thread_step settled t.
Proof. intros t Hs. inversion Hs; simplify_eq/=. Qed.

(** The template freezes even at a count past its deadline; at the first
    count, with the worker asleep, the deadline decides. *)
Lemma dismantling_ends_witness :
  control (main_step 0 true settled) = FrozenHere ∧
  control (main_step 0 true counting) = FreezeFailed ∧
  (∀ k t', nsteps waiting_step k counting t' → k ≤ 5).
Proof.
  split_and!.
  - apply (dismantling_ends 1 counting counting_reachable eq_refl);
      [exact settled_reachable|exact settled_stuck].
  - apply (dismantling_ends 1 counting counting_reachable eq_refl); [apply rtc_refl|].
    split; [reflexivity|discriminate].
  - apply (dismantling_ends 1 counting counting_reachable eq_refl).
Defined.

Lemma runtime_lives_witness :
  live (worker cloned) = 1 ∧ tokio_park_hook (tokio_exit cloned) ≠ WGone.
Proof.
  apply (runtime_lives_until_its_freeze 1 cloned cloned_reachable). set_solver.
Defined.
End ThreadsWitness.
