(* ===== verification/Clone.v ===== *)
(** * What a host keeps and a clone inherits

    Theorems about the host of src/crates/servicecache/src/host/mod.rs beyond
    its protocol: when it says it is ready, what an initializer leaves behind,
    and that the memory a template was frozen with is the memory its clones
    start from. *)

From S2P Require Import Prelude Paths Manifest Net Compaction Title Protocol Host.

(** ** Frames: what a computation leaves alone *)

Section keeps.
Context (R : relation W) `{!PreOrder R}.

Definition keeps {A} (m : M A) : Prop := ∀ w, R w (m w).2.

Lemma keeps_bind {A B} (m : M A) (k : A → M B) :
  keeps m → (∀ a, keeps (k a)) → keeps (bind m k).
Proof.
  intros Hm Hk w. unfold bind. specialize (Hm w).
  destruct (m w) as [[a|e|] w'] eqn:E; [|done|done].
  etrans; [exact Hm|]. apply Hk.
Qed.
Lemma keeps_try {A} (m : M A) : keeps m → keeps (try m).
Proof. intros Hm w. unfold try. specialize (Hm w). by destruct (m w) as [[a|e|] w']. Qed.
Lemma keeps_ret {A} (a : A) : keeps (ret a).
Proof. intros w. reflexivity. Qed.
Lemma keeps_fail {A} e : keeps (A := A) (fail e).
Proof. intros w. reflexivity. Qed.
Lemma keeps_lift {A} (r : result A error) : keeps (lift r).
Proof. destruct r; intros w; reflexivity. Qed.
Lemma keeps_context {A} msg (r : result A string) : keeps (context msg r).
Proof. destruct r; intros w; reflexivity. Qed.
Lemma keeps_get : keeps get_host.
Proof. intros w. reflexivity. Qed.
Lemma keeps_loop {A} n (body : M (option A)) : keeps body → keeps (loop n body).
Proof.
  intros Hb. induction n as [|n IH]; [intros w; reflexivity|]. simpl.
  apply keeps_bind; [done|]. intros [a|]; [apply keeps_ret|done].
Qed.
Lemma keeps_loop_passes {A} (body : M (option A)) : keeps body → keeps (loop_passes body).
Proof. intros Hb w. by apply keeps_loop. Qed.
Lemma keeps_dismantle l n : keeps (dismantle l n).
Proof. induction l; simpl; case_bool_decide; (apply keeps_ret || apply keeps_fail || done). Qed.
Lemma keeps_send peer a : keeps (act a) → keeps (send_as peer a).
Proof. intros Ha w. unfold send_as. destruct (peer _); [apply Ha|reflexivity]. Qed.
Lemma keeps_modify f : (∀ w, R w (mkW (f (host w)) (passes w) (trace w))) → keeps (modify f).
Proof. intros Hf w. apply Hf. Qed.
End keeps.

Create HintDb keeps.
#[global] Hint Resolve keeps_try keeps_ret keeps_fail keeps_lift keeps_context keeps_get
  keeps_loop_passes keeps_dismantle keeps_send : keeps.

(** Go through a definition, case by case. *)
Ltac keeps_tac :=
  repeat match goal with
  | |- keeps _ (bind _ _) => apply keeps_bind; [apply _|..|intros ?]
  | |- keeps _ (try _) => apply keeps_try
  | |- keeps _ (let _ := _ in _) => cbv zeta
  | |- keeps _ (match ?x with _ => _ end) => destruct x
  | |- keeps _ (loop_passes _) => apply keeps_loop_passes; [apply _|]
  | |- keeps _ _ => solve [auto with keeps typeclass_instances]
  end.

(** *** Everything but the guest's network calls *)

Definition rest (h : Host) :=
  (phase h, has_guest h, has_probe h, shared_memory h, recipe h, compaction h, memory h, title h,
   generation h).

Definition calm : relation W := λ w w', rest (host w') = rest (host w).

#[global] Instance calm_preorder : PreOrder calm.
Proof. split; [by intros w|]. intros w1 w2 w3 H1 H2. unfold calm in *. by rewrite H2, H1. Qed.

Lemma calm_act a : keeps calm (act a).
Proof. by intros w. Qed.
#[global] Hint Resolve calm_act : keeps.

Lemma calm_wait : keeps calm wait.
Proof.
  unfold wait. apply keeps_bind; [apply _| |intros p].
  - intros w. unfold next_pass. by destruct (passes w).
  - apply keeps_bind; [apply _| |intros _; keeps_tac].
    intros w. unfold guest_runs, modify, bind, get_host, put_host, calm. simpl.
    by destruct (guest_ops _ _ _) as [[n s] x].
Qed.

Lemma calm_reap peer l : keeps calm (reap peer l).
Proof. induction l as [|[]]; simpl; keeps_tac. Qed.
#[global] Hint Resolve calm_wait calm_reap : keeps.

Lemma calm_tick peer p : keeps calm (tick peer p).
Proof. unfold tick, exit_status. keeps_tac. Qed.

Lemma calm_refuse_while_busy peer p why : keeps calm (refuse_while_busy peer p why).
Proof. unfold refuse_while_busy, receive. keeps_tac. Qed.
#[global] Hint Resolve calm_tick calm_refuse_while_busy : keeps.

Lemma calm_wait_run peer run : keeps calm (wait_run peer run).
Proof.
  apply keeps_loop_passes; [apply _|]. intros w. unfold wait_run_round.
  destruct (passes w) as [|p ps]; [reflexivity|]. destruct (run_status p); [reflexivity|].
  revert w. fold (keeps (A := option (option Z)) calm
    (let! (p, readable) := wait in
     let! gone := tick peer p in
     if gone : bool then ret (Some None)
     else if readable : bool then
       let! go_on := refuse_while_busy peer p (run_debug run +:+ " is running") in
       ret (if go_on : bool then None else Some None)
     else ret None)). keeps_tac.
Qed.

(** ** Initializers *)

(** What an initializer leaves behind.  When [initialize] answers with the
    initializer's status, the recipe's digest is recorded, and the process
    title names it together with the endpoint, exactly if the status is zero;
    otherwise the host is as it was.  Nothing else about it changes. *)
Theorem initialize_records_recipe manifest sha256 peer p recipe_bytes w status w' :
  initialize manifest sha256 peer p recipe_bytes w =
    (Ret (Some (Exited RunInitializer status None)), w') →
  ∃ e, endpoint (networking (host w)) = Ok e ∧
    recipe (host w') = (if bool_decide (status = 0%Z) then Some (sha256 recipe_bytes)
                        else recipe (host w)) ∧
    title (host w') =
      (if bool_decide (status = 0%Z) then
         render (name (service manifest)) (version (service manifest)) (Some (sha256 recipe_bytes))
           (Serving e)
       else title (host w)) ∧
    (phase (host w'), compaction (host w'), memory (host w')) =
    (phase (host w), compaction (host w), memory (host w)).
Proof.
  unfold initialize, bind at 1, get_host. case_bool_decide; [done|].
  destruct (initializer manifest) as [init|]; [|done].
  unfold bind at 1, lift at 1. destruct (endpoint (networking (host w))) as [e|e]; [|done].
  unfold ret at 1, spawn, bind at 1. cbv zeta.
  unfold bind at 1, lift. destruct (spawned p) as [[]|e']; [|done].
  unfold ret at 1, act. set (w1 := mkW _ _ _).
  pose proof (calm_wait_run peer RunInitializer w1) as Hcalm. unfold bind at 1.
  destruct (wait_run peer RunInitializer w1) as [[[st|]|e'|] w2]; [|done..]. simpl in Hcalm.
  unfold calm, rest in Hcalm. simpl in Hcalm. injection Hcalm as Hph _ _ _ Hre Hco Hme Hti _.
  intros Hrun. exists e. split; [done|].
  unfold set_title, modify, bind, get_host, put_host, ret in Hrun.
  case_bool_decide as Hst; cbn -[render] in Hrun; injection Hrun as <- <-; cbn -[render].
  - rewrite bool_decide_true by done. split_and!; done || congruence.
  - rewrite bool_decide_false by done. split_and!; congruence.
Qed.

(** ** Readiness *)

Lemma drain_events bytes ev ev' :
  drain bytes ev = Ok ev' →
  (listening ev' = true → listening ev = true ∨ 1%N ∈ bytes) ∧
  (probed ev' = true → probed ev = true ∨ 3%N ∈ bytes).
Proof.
  revert ev. induction bytes as [|b bytes IH]; intros ev; simpl; [intros [= ->]; auto|].
  intros Hd. inv_ok. destruct (IH _ Hd) as [Hl Hp].
  destruct b as [|[[|[]|]|[[]|[]|]|]]; try done; simplify_eq/=; set_solver.
Qed.

(** What a [ready] reply from a round on the pass [p] rests on. *)
Definition served (manifest : Manifest) (p : Pass) (e : string) (w : W) : Prop :=
  phase (host w) = PhaseRunning true ∧
  (∃ a, endpoint (networking (host w)) = Ok a ∧ e = addr_to_string a) ∧
  match ready (guest manifest) with
  | None => 1%N ∈ pipe_bytes p
  | Some _ => 3%N ∈ pipe_bytes p ∧ probe_outcome p = Some (Ok tt) ∧ has_probe (host w) = true
  end.

Lemma become_ready_served manifest w :
  wp (modify (set_phase (PhaseRunning true)) ;; let! r := ready_reply manifest in ret (Some r))
    (λ r w', ∃ a, r = Some (Ready (addr_to_string a)) ∧ endpoint (networking (host w')) = Ok a ∧
       phase (host w') = PhaseRunning true ∧ passes w' = passes w ∧
       has_probe (host w') = has_probe (host w))
    (λ _ _, True) (λ _, True) w.
Proof.
  apply wp_bind, wp_modify, wp_bind. unfold ready_reply.
  apply wp_bind, wp_get, wp_bind, wp_lift; [|done]. intros a Ha. apply wp_bind.
  unfold set_title. apply wp_bind, wp_get, wp_put, wp_ret, wp_ret. exists a. done.
Qed.

Lemma wp_keeps {A} (R : relation W) (m : M A) (Q : A → W → Prop) (E : error → W → Prop)
    (P : W → Prop) w :
  keeps R m → (∀ a w', R w w' → Q a w') → (∀ e w', R w w' → E e w') → (∀ w', R w w' → P w') →
  wp m Q E P w.
Proof. intros Hk HQ HE HP. unfold wp. specialize (Hk w). destruct (m w) as [[a|e|] w']; auto. Qed.

Lemma wp_wait_pass (Q : Pass * bool → W → Prop) w :
  (∀ p b w', passes w = p :: passes w' → rest (host w') = rest (host w) → Q (p, b) w') →
  wp wait Q (λ _ _, True) (λ _, True) w.
Proof.
  intros HQ. unfold wait. apply wp_bind. unfold wp at 1, next_pass.
  destruct (passes w) as [|p ps] eqn:Hps; [done|]. apply wp_bind. unfold guest_runs. apply wp_modify.
  apply wp_bind, wp_lift; [|done]. intros b _. apply wp_ret, HQ; [done|].
  simpl. by destruct (guest_ops _ _ _) as [[n s] x].
Qed.

Definition same_passes : relation W := λ w w', passes w' = passes w.
#[global] Instance same_passes_preorder : PreOrder same_passes.
Proof. split; [by intros w|]. unfold same_passes. intros w1 w2 w3. congruence. Qed.

Lemma same_passes_act a : keeps same_passes (act a).
Proof. by intros w. Qed.
#[global] Hint Resolve same_passes_act : keeps.

(** The rounds of [start]: each takes one pass, and one that answers ready
    does so on what that pass showed. *)
Definition probe_declared (manifest : Manifest) (w : W) : Prop :=
  has_probe (host w) = true → ready (guest manifest) ≠ None.

Definition round_part (manifest : Manifest) (p : Pass) (w : W) (r : option Reply) (w' : W) : Prop :=
  passes w' = passes w ∧ probe_declared manifest w' ∧
  match r with Some (Ready e) => served manifest p e w' | Some _ => False | None => True end.

Lemma start_round_ready manifest peer w :
  probe_declared manifest w →
  wp (start_round manifest peer)
    (λ r w', match r with
     | Some (Some (Ready e)) => ∃ p, passes w = p :: passes w' ∧ served manifest p e w'
     | None => (∃ p, passes w = p :: passes w') ∧ probe_declared manifest w'
     | _ => True
     end) (λ _ _, True) (λ _, True) w.
Proof.
  intros Hpd. unfold start_round. apply wp_bind, wp_wait_pass. intros p b w1 Hp1 Hrest.
  assert (probe_declared manifest w1) as Hpd1.
  { unfold probe_declared. unfold rest in Hrest. injection Hrest. intros _ _ _ _ _ _ -> _ _. done. }
  apply wp_bind, wp_lift; [|done]. intros ev Hev. apply drain_events in Hev as [Hl Hpr].
  apply wp_bind, wp_get, wp_bind.
  eapply wp_mono with (E := λ _ _, True) (P := λ _, True) (Q := round_part manifest p w1);
    [| |done|done].
  { destruct (listening ev) eqn:Hls; [|by apply wp_ret]. destruct (Hl eq_refl) as [?|H1]; [done|].
    destruct (ready (guest manifest)) as [pr|] eqn:Hrd.
    - destruct (has_probe (host w1)); [by apply wp_ret|].
      apply wp_bind, wp_lift; [|done]. intros a Ha. apply wp_bind, wp_lift; [|done]. intros _ _.
      split_and!; [done| |done]. intros _. by rewrite Hrd.
    - eapply wp_mono; [apply become_ready_served| |done|done].
      intros r w2 (a & -> & Hend & Hph & Hps & Hhp). split_and!; [done| |].
      + unfold probe_declared. by rewrite Hhp.
      + unfold served. rewrite Hrd. split_and!; eauto. }
  intros [r|] w2 (Hp2 & Hpd2 & Hr); [apply wp_ret; destruct r; try done; exists p; by rewrite Hp1, Hp2|].
  apply wp_bind, wp_get, wp_bind.
  eapply wp_mono with (E := λ _ _, True) (P := λ _, True) (Q := round_part manifest p w1);
    [| |done|done].
  { destruct (probed ev) eqn:Hpb; [|by apply wp_ret]. destruct (Hpr eq_refl) as [?|H3]; [done|].
    destruct (has_probe (host w2)) eqn:Hhp; [|by apply wp_fail].
    destruct (probe_outcome p) as [[[]|summary]|] eqn:Hout; [|by apply wp_fail|by apply wp_fail].
    eapply wp_mono; [apply become_ready_served| |done|done].
    intros r w3 (a & -> & Hend & Hph & Hps & Hhp3). split_and!; [congruence| |].
    - unfold probe_declared. by rewrite Hhp3.
    - unfold served. split_and!; [done|by exists a|].
      specialize (Hpd2 Hhp). destruct (ready (guest manifest)); [|done].
      split_and!; [done|done|congruence]. }
  intros [r|] w3 (Hp3 & Hpd3 & Hr3); [apply wp_ret; destruct r; try done; exists p; by rewrite Hp1, Hp3|].
  apply wp_bind. unfold exit_status. apply wp_bind, wp_get, wp_ret.
  destruct (if has_guest (host w3) then _ else _) as [status|]; [by apply wp_ret|].
  destruct b; [|apply wp_ret; split; [|done]; exists p; by rewrite Hp1, Hp3].
  apply wp_bind, (wp_keeps (λ w w', same_passes w w' ∧ calm w w')); [|simpl|done|done].
  - intros w4. split; [|apply calm_refuse_while_busy].
    revert w4. fold (keeps same_passes (refuse_while_busy peer p "the guest is starting")).
    unfold refuse_while_busy, receive. keeps_tac.
  - intros [|] w4 [Hsp Hcalm]; apply wp_ret; [|done]. split.
    + exists p. by rewrite Hp1, Hsp, Hp3.
    + unfold probe_declared. unfold calm, rest in Hcalm. injection Hcalm.
      intros _ _ _ _ _ _ -> _ _. done.
Qed.

(** C30: Ready means serving.  When [start] answers [ready], the host is in the
    ready phase and names the address of the socket the guest holds; the reply
    rests on the last pass it took: the guest's listen was announced on the
    event pipe, or, when the manifest declares a probe, that probe had been
    started and its outcome was a match.  Listening alone is never enough for a
    guest with a probe. *)
Theorem ready_means_serving manifest peer p fds w e w' :
  has_probe (host w) = false →
  start manifest peer p fds w = (Ret (Some (Ready e)), w') →
  ∃ used q, passes w = used ++ q :: passes w' ∧ served manifest q e w'.
Proof.
  intros Hnp. unfold start, bind at 1, get_host. case_bool_decide; [done|].
  destruct fds as [|fd [|]]; [done| |done].
  unfold bind at 1, lift at 1. destruct (set_listener _ _) as [n|]; [|done].
  unfold ret at 1, bind at 1, modify at 1, bind at 1, get_host at 1, put_host at 1. cbv zeta.
  unfold spawn, bind at 1.
  unfold bind at 1, lift at 1. destruct (spawned p) as [[]|]; [|done].
  unfold ret at 1, act, bind at 1, modify, bind at 1, get_host, put_host. simpl.
  set (w1 := mkW _ _ _). intros Hrun.
  assert (wp (loop_passes (start_round manifest peer))
    (λ r w', match r with
     | Some (Ready e) => ∃ used q, passes w = used ++ q :: passes w' ∧ served manifest q e w'
     | _ => True end) (λ _ _, True) (λ _, True) w1) as Hwp.
  { apply (wp_loop_passes (λ w2, (∃ used, passes w = used ++ passes w2) ∧ probe_declared manifest w2));
      [|done|].
    - intros w2 [[used Hu] Hpd]. eapply wp_mono; [by apply start_round_ready| |done|done].
      intros [[[]|]|] w3; simpl; try done.
      + intros (q & Hq & Hs). exists used, q. by rewrite Hu, Hq.
      + intros [[q Hq] Hpd3]. split; [|done]. exists (used ++ [q]). by rewrite Hu, Hq, <- app_assoc.
    - split; [by exists []|]. unfold probe_declared. simpl. by rewrite Hnp. }
  unfold wp in Hwp. rewrite Hrun in Hwp. exact Hwp.
Qed.

(** ** The frozen memory *)

(** Until sockets are shut down, which only a freeze does, the memory and the
    scan are left alone. *)
Definition unshut : relation W := λ w w',
  ∃ new, trace w' = trace w ++ new ∧
    ((∃ calls, AShutDown calls ∈ new) ∨
     (memory (host w') = memory (host w) ∧ compaction (host w') = compaction (host w))).

#[global] Instance unshut_preorder : PreOrder unshut.
Proof.
  split.
  - intros w. exists []. rewrite app_nil_r. auto.
  - intros w1 w2 w3 (n1 & T1 & H1) (n2 & T2 & H2). exists (n1 ++ n2).
    rewrite T2, T1, <- app_assoc. split; [done|].
    destruct H1 as [[c H1]|[M1 C1]]; [left; exists c; apply elem_of_app; by left|].
    destruct H2 as [[c H2]|[M2 C2]]; [left; exists c; apply elem_of_app; by right|].
    right. split; congruence.
Qed.

Lemma unshut_act a : keeps unshut (act a).
Proof. intros w. exists [a]. auto. Qed.

Lemma unshut_modify f :
  (∀ h, memory (f h) = memory h ∧ compaction (f h) = compaction h) → keeps unshut (modify f).
Proof. intros Hf w. exists []. simpl. rewrite app_nil_r. auto. Qed.

Lemma unshut_title manifest state : keeps unshut (set_title manifest state).
Proof. intros w. exists []. simpl. rewrite app_nil_r. auto. Qed.
#[global] Hint Resolve unshut_act unshut_title : keeps.
#[global] Hint Extern 1 (keeps unshut (modify _)) =>
  (apply unshut_modify; intros ?; simpl; done) : keeps.

Lemma unshut_wait : keeps unshut wait.
Proof.
  unfold wait. apply keeps_bind; [apply _| |intros p].
  - intros w. exists []. unfold next_pass. destruct (passes w); simpl; rewrite app_nil_r; auto.
  - apply keeps_bind; [apply _| |intros _; keeps_tac].
    apply unshut_modify. intros h. by destruct (guest_ops _ _ _) as [[n s] x].
Qed.

Lemma unshut_reap peer l : keeps unshut (reap peer l).
Proof. induction l as [|[]]; simpl; keeps_tac. Qed.
#[global] Hint Resolve unshut_wait unshut_reap : keeps.

Lemma unshut_tick peer p : keeps unshut (tick peer p).
Proof. unfold tick, exit_status. keeps_tac. Qed.

Lemma unshut_refuse_while_busy peer p why : keeps unshut (refuse_while_busy peer p why).
Proof. unfold refuse_while_busy, receive. keeps_tac. Qed.
#[global] Hint Resolve unshut_tick unshut_refuse_while_busy : keeps.

Lemma unshut_wait_run peer run : keeps unshut (wait_run peer run).
Proof.
  apply keeps_loop_passes; [apply _|]. intros w. unfold wait_run_round.
  destruct (passes w) as [|p ps]; [reflexivity|]. destruct (run_status p); [reflexivity|].
  revert w. fold (keeps (A := option (option Z)) unshut
    (let! (p, readable) := wait in
     let! gone := tick peer p in
     if gone : bool then ret (Some None)
     else if readable : bool then
       let! go_on := refuse_while_busy peer p (run_debug run +:+ " is running") in
       ret (if go_on : bool then None else Some None)
     else ret None)). keeps_tac.
Qed.
#[global] Hint Resolve unshut_wait_run : keeps.

Lemma unshut_shut w w1 w2 new calls :
  trace w1 = trace w ++ new → AShutDown calls ∈ new → trace w1 `prefix_of` trace w2 → unshut w w2.
Proof.
  intros T1 Hin [n2 T2]. exists (new ++ n2). rewrite T2, T1, <- app_assoc. split; [done|].
  left. exists calls. apply elem_of_app. by left.
Qed.

(** The only change of memory in a freeze comes after the sockets went. *)
Lemma unshut_freeze_guest env w :
  wp (freeze_guest env)
    (λ _ w', ∃ new calls, trace w' = trace w ++ new ∧ AShutDown calls ∈ new)
    (λ _ w', unshut w w') (λ w', unshut w w') w.
Proof.
  unfold freeze_guest. case_bool_decide; [apply wp_fail; reflexivity|].
  apply wp_bind, wp_context; [intros c _|reflexivity].
  apply wp_bind, dismantle_spec; [|reflexivity].
  apply wp_bind, wp_get. destruct (shut_down_sockets _ _) as [r calls].
  set (w1 := mkW (host w) (passes w) (trace w ++ [AShutDown calls])).
  assert (unshut w w1) as Hu by apply unshut_act.
  apply wp_bind. change (wp (lift r ;; (let! objects := context "snapshotting shared memory"
    (snapshot env) in
      modify (set_shared objects (mkWorld (quiescent env) (log (memory (host w))))) ;; ret c))
    (λ _ w', ∃ new calls, trace w' = trace w ++ new ∧ AShutDown calls ∈ new)
    (λ _ w', unshut w w') (λ w', unshut w w') w1).
  apply wp_bind, wp_lift; [intros _ _|done]. apply wp_bind, wp_context; [intros o _|done].
  apply wp_bind, wp_modify, wp_ret. exists [AShutDown calls], calls. split; [done|by left].
Qed.

Lemma unshut_host_freeze manifest peer p : keeps unshut (host_freeze manifest peer p).
Proof.
  unfold host_freeze. apply keeps_bind; [apply _|keeps_tac|]. intros h.
  destruct (bool_decide _); [unfold refuse; keeps_tac|].
  apply keeps_bind; [apply _|keeps_tac|intros _]. apply keeps_bind; [apply _|keeps_tac|intros _].
  intros w. unfold bind at 1, try.
  pose proof (unshut_freeze_guest (freeze_env p) w) as Hf. unfold wp in Hf.
  destruct (freeze_guest (freeze_env p) w) as [[c|e|] w1]; [| |done].
  - destruct Hf as (new & calls & T1 & Hin). eapply unshut_shut; [exact T1|exact Hin|].
    unfold bind, send_as. destruct (peer _); simpl; [by apply prefix_app_r|done].
  - etrans; [exact Hf|]. revert w1 Hf. intros w1 _. revert w1.
    fold (keeps (A := Outcome) unshut (send_as peer (AReply (ReplyError (display_chain e))) ;; ret Exit)).
    keeps_tac.
Qed.
#[global] Hint Resolve unshut_host_freeze : keeps.

Lemma unshut_handle manifest fs sha256 peer p frame :
  keeps unshut (handle manifest fs sha256 peer p frame).
Proof.
  unfold handle, host_prepare, start, initialize, host_fork, fork_host, rebuild, refuse, spawn,
    start_round, exit_status, ready_reply.
  keeps_tac.
Qed.

(** A scan under way over the memory [m]. *)
Definition scanning (kernel : Kernel) (c : option Compaction) (m : World) : Prop :=
  match c with
  | None => True
  | Some c =>
      sizes_ok (Compaction.page c) (huge_page c) ∧ mincore_fills kernel (Compaction.page c) ∧
      Forall (λ x, scan_inv (Compaction.page c) x m) (memories c)
  end.

Lemma compact_stable kernel p w :
  scanning kernel (compaction (host w)) (memory (host w)) →
  wp (compact kernel p)
    (λ _ w', (∃ new, trace w' = trace w ++ new) ∧ same_words (memory (host w)) (memory (host w')) ∧
       scanning kernel (compaction (host w')) (memory (host w')))
    (λ _ _, False) (λ _, False) w.
Proof.
  intros Hs. unfold compact. apply wp_bind, wp_get.
  destruct (compaction (host w)) as [c|] eqn:Hc.
  - destruct Hs as (Hsz & Hmc & Hall). pose proof Hsz as (Hp & H8 & Hd & Hh).
    destruct (step_inv kernel (Compaction.page c) (huge_page c) (scan_inv (Compaction.page c))
      (scan_inv_block kernel _ _ Hp H8 Hd Hh Hmc)
      (λ m w w' H1 H2 _, scan_inv_frame _ m w w' H1 H2) (scan_inv_le _)
      (slice_clock p) c (memory (host w)) eq_refl eq_refl Hall)
      as (c' & m' & fin & Hstep & Hp' & Hh' & (_ & Hw & _) & Hall' & _).
    apply wp_bind. unfold wp at 1, act.
    destruct (step _ _ _ _) as [[[c1 m1] f1]|]; [|done]. injection Hstep as -> -> ->.
    apply wp_put. simpl. split_and!; [by eexists|done|].
    destruct fin; [done|]. simpl. by rewrite Hp', Hh'.
  - apply wp_ret. split_and!; [exists []; by rewrite app_nil_r|apply same_words_refl|by rewrite Hc].
Qed.

(** What [serve] keeps between two freezes. *)
Definition steady (kernel : Kernel) (w0 w : W) : Prop :=
  ∃ new, trace w = trace w0 ++ new ∧
    ((∃ calls, AShutDown calls ∈ new) ∨
     (same_words (memory (host w0)) (memory (host w)) ∧
      scanning kernel (compaction (host w)) (memory (host w)))).

Lemma steady_unshut kernel w0 w w' : steady kernel w0 w → unshut w w' → steady kernel w0 w'.
Proof.
  intros (n1 & T1 & H1) (n2 & T2 & H2). exists (n1 ++ n2). rewrite T2, T1, <- app_assoc.
  split; [done|]. destruct H1 as [[c H1]|[M1 C1]]; [left; exists c; apply elem_of_app; by left|].
  destruct H2 as [[c H2]|[M2 C2]]; [left; exists c; apply elem_of_app; by right|].
  right. by rewrite M2, C2.
Qed.

Lemma steady_grow kernel w0 w w' :
  steady kernel w0 w → trace w `prefix_of` trace w' →
  (scanning kernel (compaction (host w)) (memory (host w)) →
   same_words (memory (host w)) (memory (host w')) ∧
   scanning kernel (compaction (host w')) (memory (host w'))) →
  steady kernel w0 w'.
Proof.
  intros (n1 & T1 & H1) [n2 T2] Hk. exists (n1 ++ n2). rewrite T2, T1, <- app_assoc.
  split; [done|]. destruct H1 as [[c H1]|[M1 C1]]; [left; exists c; apply elem_of_app; by left|].
  right. destruct (Hk C1). split; [by eapply same_words_trans|done].
Qed.

Lemma wp_steady {A} kernel w0 (m : M A) (Q : A → W → Prop) w :
  keeps unshut m → steady kernel w0 w → (∀ a w', steady kernel w0 w' → Q a w') →
  wp m Q (λ _, steady kernel w0) (steady kernel w0) w.
Proof.
  intros Hk Hs HQ. apply (wp_keeps unshut); [done|..]; intros; try apply HQ;
    by eapply steady_unshut.
Qed.

Lemma serve_round_steady manifest fs sha256 kernel peer w0 w :
  steady kernel w0 w →
  wp (serve_round manifest fs sha256 kernel peer)
    (λ _, steady kernel w0) (λ _, steady kernel w0) (steady kernel w0) w.
Proof.
  intros Hs. unfold serve_round. apply wp_bind, wp_steady; [apply unshut_wait|done|].
  intros [p b] w1 Hs1. apply wp_bind, wp_steady; [apply unshut_tick|done|].
  intros [|] w2 Hs2; [by apply wp_ret|]. destruct b; simpl negb; cbv iota.
  - apply wp_bind, wp_steady; [unfold receive; keeps_tac|done|].
    intros [frame|] w3 Hs3; [|by apply wp_ret].
    apply wp_bind, wp_steady; [apply unshut_handle|done|].
    intros [| |] w4 Hs4; [by apply wp_ret|by apply wp_ret|].
    apply wp_bind, wp_modify.
    assert (steady kernel w0 (mkW (set_compaction None (memory (host w4)) (host w4)) (passes w4)
              (trace w4))) as Hs5.
    { eapply steady_grow; [exact Hs4|done|]. intros _. split; [apply same_words_refl|done]. }
    apply wp_bind, wp_steady; [unfold forked_reply; keeps_tac|done|]. intros r w6 Hs6.
    apply wp_bind, wp_steady; [keeps_tac|done|]. intros _ w7 Hs7. by apply wp_ret.
  - apply wp_bind. destruct Hs2 as (new & T2 & [[c Hc]|[M2 C2]]).
    + apply (wp_keeps (λ w w', trace w `prefix_of` trace w')).
      * unfold compact. intros w'. unfold bind, get_host.
        destruct (compaction (host w')); [|done]. simpl.
        destruct (step _ _ _ _) as [[[c1 m1] f1]|]; simpl; by apply prefix_app_r.
      * intros [] w3 [n3 T3]. apply wp_ret. exists (new ++ n3). rewrite T3, T2, <- app_assoc.
        split; [done|]. left. exists c. apply elem_of_app. by left.
      * intros _ w3 [n3 T3]. exists (new ++ n3). rewrite T3, T2, <- app_assoc.
        split; [done|]. left. exists c. apply elem_of_app. by left.
      * intros w3 [n3 T3]. exists (new ++ n3). rewrite T3, T2, <- app_assoc.
        split; [done|]. left. exists c. apply elem_of_app. by left.
    + eapply wp_mono; [by apply (compact_stable kernel p)| |done|done].
      intros [] w3 ([n3 T3] & M3 & C3). apply wp_ret. exists (new ++ n3).
      rewrite T3, T2, <- app_assoc. split; [done|]. right. split; [by eapply same_words_trans|done].
Qed.

(** C4: A clone starts from the memory its template was frozen with.  From the
    moment a freeze is answered and the scan for zero pages prepared, through
    any requests, forks, slices of the scan and clock readings, in the template
    and in every clone forked from it, no word of the memory changes on the
    host's account until a clone is itself frozen (which shuts its sockets
    down). *)
Theorem frozen_memory_is_stable manifest fs sha256 kernel peer page huge smaps linear w0 :
  sizes_ok page huge → mincore_fills kernel page → Forall (linear_ok page) linear →
  compaction (host w0) = Some (compaction_start page huge smaps linear) →
  match serve manifest fs sha256 kernel peer w0 with
  | (_, w) =>
      ∃ new, trace w = trace w0 ++ new ∧
        ((∀ calls, AShutDown calls ∉ new) → same_words (memory (host w0)) (memory (host w)))
  end.
Proof.
  intros Hsz Hmc Hl Hc.
  assert (wp (serve manifest fs sha256 kernel peer) (λ _, steady kernel w0) (λ _, steady kernel w0)
            (steady kernel w0) w0) as Hwp.
  { apply (wp_loop_passes (steady kernel w0)); [|done|].
    - intros w Hs. eapply wp_mono; [by apply serve_round_steady| |done|done]. by intros [|] w'.
    - exists []. rewrite app_nil_r. split; [done|]. right. split; [apply same_words_refl|].
      rewrite Hc. split_and!; [done|done|]. apply Forall_forall. intros x Hx.
      apply list_elem_of_fmap in Hx as (l & -> & Hin). apply list_elem_of_filter in Hin as [[_ Hlen] Hin].
      rewrite Forall_forall in Hl. apply start_scan_inv; [apply Hsz|by apply Hl|done]. }
  unfold wp in Hwp. destruct (serve _ _ _ _ _ _) as [r w].
  assert (steady kernel w0 w) as (new & Ht & H) by (by destruct r).
  exists new. split; [done|]. intros Hno. destruct H as [[calls Hin]|[Hw _]]; [|done].
  by destruct (Hno calls).
Qed.

(** A concrete life: a guest with a probe starts, is ready, and is
    initialized. *)
Module CloneWitness.
Definition manifest : Manifest :=
  mkManifest (mkService "db" "1" []) None
    (mkGuest "/p/db.wasm" [] 5432 (Some (mkReadyProbe [] (λ _, true))))
    (Some (mkInitializer "/p/init.wasm" ["{host}:{port}"])) "/p".

Definition linear : list LinearMemory := [mkLinear 32 96 true [(80, 16)%Z]].
Definition freeze_env : FreezeEnv :=
  mkFreezeEnv 0 (Ok 1%N) [3%N] (mkLate 1 1 []) (λ _ _, Ok tt) (Ok 0%N) (λ a, if (a =? 48)%Z then 7%Z else 0%Z)
    16 64 [] linear.
Definition fork_env : ForkEnv :=
  mkForkEnv 77 "" 0 (Ok tt) (Ok tt) (Ok tt) (Ok tt) (Ok tt) (Ok tt) (Ok tt).
Definition addr : SocketAddr := mkAddr "127.0.0.1" 4000.

(** A pass with these pipe bytes, guest calls, run status and frame. *)
Definition pass (bytes : list N) (ops : list GuestOp) (run : option Z)
    (frame : option (Frame Request)) (outcome : option (result unit string)) : Pass :=
  mkPass (Ok (match frame with Some _ => true | None => false end)) bytes (Ok tt) ops None run []
    (Ok frame) outcome (Ok tt) (Ok tt) (λ fd, mkListener fd (Ok addr)) freeze_env fork_env
    (λ _, true).

Definition quiet_pass : Pass := pass [] [] None None None.
Definition bound : list GuestOp := [OListenTcp (Ok tt) (mkAddr "0.0.0.0" 5432)].
Definition w_new : W := mkW (host_new manifest (mkWorld (λ _, 0%Z) [])) [] [].
Definition start_passes : list Pass :=
  [quiet_pass; pass [1%N] bound None None None; pass [] [] None (Some (mkFrame Freeze [] [])) None;
   pass [3%N] [] None None (Some (Ok tt)); quiet_pass].

Definition w_start : W := mkW (host w_new) start_passes [].

Lemma ready_means_serving_witness :
  ∃ w', start manifest (λ _, true) quiet_pass [9%Z] w_start =
      (Ret (Some (Ready "127.0.0.1:4000")), w') ∧
    ∃ used q, passes w_start = used ++ q :: passes w' ∧
      served manifest q "127.0.0.1:4000" w'.
Proof.
  eexists. split; [vm_compute; reflexivity|].
  eapply (ready_means_serving manifest (λ _, true) quiet_pass [9%Z] w_start);
    [reflexivity|vm_compute; reflexivity].
Defined.

(** The same host once ready. *)
Definition ready_host : Host :=
  mkHost (PhaseRunning true) (mkNet 5432 None (Some 0) [mkListener 9 (Ok addr)] ∅)
    [] true true None None None (mkWorld (λ _, 0%Z) []) "" 0.
Definition w_ready : W := mkW ready_host [quiet_pass; pass [] [] (Some 0%Z) None None] [].

Lemma initialize_witness :
  ∃ w', initialize manifest (λ b, b) (λ _, true) quiet_pass [x41] w_ready =
      (Ret (Some (Exited RunInitializer 0 None)), w') ∧
    recipe (host w') = Some [x41].
Proof.
  eexists. split; [vm_compute; reflexivity|].
  edestruct (initialize_records_recipe manifest (λ b, b) (λ _, true) quiet_pass [x41] w_ready 0)
    as (e & _ & Hr & _); [vm_compute; reflexivity|]. exact Hr.
Defined.

Definition kernel : Kernel := CompactionWitness.kernel.
Definition frozen_host : Host :=
  mkHost PhaseFrozen (mkNet 5432 None (Some 0) [mkListener 9 (Ok addr)] ∅)
    [] true true (Some 0%N) None (Some (compaction_start 16 64 [] linear))
    (mkWorld (λ a, if (a =? 48)%Z then 7%Z else 0%Z) []) "" 0.
Definition w_frozen : W :=
  mkW frozen_host [quiet_pass; pass [] [] None (Some (mkFrame Fork [] [5%Z; 6%Z])) None;
                   quiet_pass; quiet_pass] [].
Definition fs : FileSystem :=
  {| canonicalize := λ p, Ok p; is_file := λ _, true; is_dir := λ _, true;
     read_to_string := λ _, Ok ""; fs_read := λ _, Ok [] |}.

(** A host started, frozen, forked into two clones and then told of their ends,
    one by a status and one by a signal, in one pass. *)
Definition turn (pid : Z) (statuses : list WaitStatus) (frame : option (Frame Request)) : Pass :=
  mkPass (Ok (match frame with Some _ => true | None => false end)) [] (Ok tt) [] None None statuses
    (Ok frame) None (Ok tt) (Ok tt) (λ fd, mkListener fd (Ok addr)) freeze_env
    (mkForkEnv pid "" 0 (Ok tt) (Ok tt) (Ok tt) (Ok tt) (Ok tt) (Ok tt) (Ok tt)) (λ _, true).
Definition forks (pid : Z) : Pass := turn pid [] (Some (mkFrame Fork [] [5%Z; 6%Z])).
Definition life_passes : list Pass :=
  [turn 0 [] (Some (mkFrame Start [] [9%Z])); quiet_pass; pass [1%N] bound None None None;
   pass [3%N] [] None None (Some (Ok tt)); turn 0 [] (Some (mkFrame Freeze [] [])); forks 77;
   quiet_pass; forks 78; turn 0 [WExited 77 0; WSignaled 78 9] None; quiet_pass].
Local Notation lived :=
  (serve manifest fs (λ b, b) kernel (λ _, true)
    (mkW (host_new manifest (mkWorld (λ _, 0%Z) [])) life_passes [])).

Lemma host_life_witness :
  told (trace lived.2) = [Exited RunChild 0 (Some 77%N); Exited RunChild 137 (Some 78%N)] ∧
  ∃ s ms, spec_run spec_init (trace lived.2) s ∧ reported_run ms s [] ∧ acts ms = trace lived.2 ∧
    seen ms = life_passes ∧
    dues ms = [Exited RunChild 0 (Some 77%N); Exited RunChild 137 (Some 78%N)] ∧
    sp_phase s = PhaseFrozen.
Proof.
  pose proof (host_refines_protocol manifest fs (λ b, b) kernel (λ _, true) life_passes
    (mkWorld (λ _, 0%Z) [])) as Hr.
  assert (lived.1 = Waiting) as Hw by (vm_compute; reflexivity).
  assert (phase (host lived.2) = PhaseFrozen) as Hp by (vm_compute; reflexivity).
  assert (told (trace lived.2) = [Exited RunChild 0 (Some 77%N); Exited RunChild 137 (Some 78%N)])
    as Ht by (vm_compute; reflexivity).
  split; [exact Ht|]. destruct lived as [r w]. cbn [fst snd] in *.
  destruct Hr as (s & ms & owed & Hs & Hr & Ha & Hps & Hd & _ & Hend).
  destruct (Hend Hw) as (-> & Hnil & Hph & _). rewrite Hnil, app_nil_r in Hps.
  rewrite Ht, app_nil_r in Hd. exists s, ms. split_and!; congruence.
Defined.

Lemma frozen_memory_witness :
  ∃ w, (serve manifest fs (λ b, b) kernel (λ _, true) w_frozen).2 = w ∧
    same_words (memory (host w_frozen)) (memory (host w)).
Proof.
  pose proof (frozen_memory_is_stable manifest fs (λ b, b) kernel (λ _, true) 16 64 [] linear w_frozen
    CompactionWitness.sizes CompactionWitness.kernel_fills CompactionWitness.linear_fits eq_refl)
    as Hst.
  destruct (serve manifest fs (λ b, b) kernel (λ _, true) w_frozen) as [r w] eqn:Hrun.
  exists w. split; [reflexivity|]. destruct Hst as (new & Ht & Hw). apply Hw.
  vm_compute in Hrun. injection Hrun as _ <-. simpl in Ht. subst new.
  intros calls Hin. repeat (apply elem_of_cons in Hin as [Hin|Hin]; [discriminate Hin|]).
  by apply elem_of_nil in Hin.
Defined.

(** A whole life of a template: started, ready, frozen, and asked to start
    again. *)
Definition life : list Pass :=
  [pass [] [] None (Some (mkFrame Start [] [9%Z])) None; pass [1%N] bound None None None;
   pass [3%N] [] None None (Some (Ok tt)); quiet_pass;
   pass [] [] None (Some (mkFrame Freeze [] [])) None;
   pass [] [] None (Some (mkFrame Start [] [9%Z])) None].
Definition until_frozen : list Action :=
  [ARecv Start; ASpawn (mkRun "/p/db.wasm" "db.wasm" [] [] true); AProbe;
   AReply (Ready "127.0.0.1:4000"); ARecv Freeze; AShutDown [(9%Z, ShutRead)]].
Definition refused_start : list Action :=
  [ARecv Start; AReply (ReplyError "start is only accepted once, before the guest runs")].

Lemma frozen_template_witness :
  (∀ run, ASpawn run ∉ refused_start) ∧
  (∀ before q after, refused_start = before ++ ARecv q :: after → q ≠ Fork → q ≠ Stop →
     after = [] ∨ ∃ text rest, after = AReply (ReplyError text) :: rest).
Proof.
  refine (frozen_template_only_forks manifest fs (λ b, b) kernel (λ _, true) life
    (mkWorld (λ _, 0%Z) []) until_frozen 1 refused_start _ _).
  - vm_compute. reflexivity.
  - intros Hin. apply elem_of_cons in Hin as [Hin|Hin]; [discriminate Hin|].
    apply elem_of_cons in Hin as [Hin|Hin]; [discriminate Hin|]. by apply elem_of_nil in Hin.
Defined.
End CloneWitness.
