(* ===== verification/Runtime.v ===== *)
(** * The file system a guest gets, and running a module by itself

    Models src/crates/servicecache/src/runtime.rs: the read-only wrapper around
    a host directory, the mounts of a guest, and [Runtime], which loads a module
    or runs it to its end with isolated input, output, files and network.

    A host directory's file system, the files it opens, the in-memory root and
    the table of mounts are the virtual-fs library's, and compiling and running
    a module Wasmer's: what they answer is an argument.  A [FileSystem] call is
    a value, so that a guest's calls are a list of them.  The wrapper hands out
    the host's own file where it lets an open through; what can be asked of such
    a file is an argument too. *)

From S2P Require Import Prelude Paths.

(** ** File-system calls *)

Inductive FsError : Type := PermissionDenied | OtherFsError (code : nat).

(** [OpenOptionsConfig]. *)
Record OpenOptionsConfig : Type := mkConfig {
  o_read : bool;
  o_write : bool;
  o_create_new : bool;
  o_create : bool;
  o_append : bool;
  o_truncate : bool;
}.

(** The calls of the traits [FileSystem] and [FileOpener]. *)
Inductive FsCall : Type :=
  | Readlink (p : path)
  | ReadDir (p : path)
  | CreateDir (p : path)
  | CreateSymlink (source target : path)
  | HardLink (source target : path)
  | RemoveDir (p : path)
  | Rename (from to : path)
  | MetadataOf (p : path)
  | SymlinkMetadata (p : path)
  | RemoveFile (p : path)
  | OpenFile (p : path) (configuration : OpenOptionsConfig).

(** A call that asks only to read. *)
Definition opens_to_read (c : OpenOptionsConfig) : bool :=
  negb (o_write c || o_create c || o_create_new c || o_append c || o_truncate c).

Definition reads (c : FsCall) : bool :=
  match c with
  | Readlink _ | ReadDir _ | MetadataOf _ | SymlinkMetadata _ => true
  | OpenFile _ c => opens_to_read c
  | _ => false
  end.

Section files.
(** What a directory's file system answers with, and the host's disk. *)
Context {Answer Disk : Type}.

(** A file system: [FileSystem::...(&self, ..)] over the disk. *)
Definition FileSystemFn : Type := FsCall → Disk → result Answer FsError * Disk.

(** [ReadOnlyFileSystem]. *)
Definition read_only (inner : FileSystemFn) : FileSystemFn := λ call disk,
  match call with
  | Readlink p => inner (Readlink p) disk
  | ReadDir p => inner (ReadDir p) disk
  | CreateDir _ => (Err PermissionDenied, disk)
  | CreateSymlink _ _ => (Err PermissionDenied, disk)
  | HardLink _ _ => (Err PermissionDenied, disk)
  | RemoveDir _ => (Err PermissionDenied, disk)
  | Rename _ _ => (Err PermissionDenied, disk)
  | MetadataOf p => inner (MetadataOf p) disk
  | SymlinkMetadata p => inner (SymlinkMetadata p) disk
  | RemoveFile _ => (Err PermissionDenied, disk)
  | OpenFile p c =>
      if o_write c || o_create c || o_create_new c || o_append c || o_truncate c
      then (Err PermissionDenied, disk)
      else inner (OpenFile p c) disk
  end.

(** ** Mounts *)

Record ReadOnlyMount : Type := mkMount { m_guest : path; m_host : path }.

(** The file systems a guest's table of mounts holds, besides its in-memory
    root. *)
Inductive Mounted : Type := ReadOnlyHost (inner : FileSystemFn).

Definition mounted_call (m : Mounted) : FileSystemFn :=
  match m with ReadOnlyHost inner => read_only inner end.

(** [MountFileSystem]: an in-memory root, empty at first, and mounts in the
    order they were made. *)
Record MountFileSystem : Type := mkMounts { mounts : list (path * Mounted) }.

Section mounting.
(** [HostFileSystem::new], and whether the table takes a mount. *)
Context (open_host : path → result FileSystemFn string).
Context (takes_mount : MountFileSystem → path → result unit string).

(** The loop of [read_only_mounts]. *)
Fixpoint mount_all (ms : list ReadOnlyMount) (fs : MountFileSystem) : result MountFileSystem error :=
  match ms with
  | [] => Ok fs
  | m :: ms =>
      match open_host (m_host m) with
      | Err e => Err ["failed to open host mount " +:+ m_host m; e]
      | Ok host =>
          match takes_mount fs (m_guest m) with
          | Err e => Err ["failed to mount " +:+ m_host m +:+ " at " +:+ m_guest m; e]
          | Ok _ => mount_all ms (mkMounts (mounts fs ++ [(m_guest m, ReadOnlyHost host)]))
          end
      end
  end.

Definition read_only_mounts (ms : list ReadOnlyMount) : result MountFileSystem error :=
  mount_all ms (mkMounts []).
End mounting.

(** The calls of the trait [VirtualFile], and what one does on the file an open
    answered with. *)
Context {FileCall : Type} (on_file : Answer → FileCall → Disk → result Answer FsError * Disk).

(** What a guest calls: a mount of the table, or a file it has opened. *)
Inductive GuestCall : Type :=
  | OnMount (mount : nat) (c : FsCall)
  | OnFile (file : nat) (c : FileCall).

Definition opened (c : FsCall) (answer : result Answer FsError) : list Answer :=
  match c, answer with OpenFile _ _, Ok file => [file] | _, _ => [] end.

(** What a guest's calls do, from the files it has open: their answers, the
    files it has then, and the disk. *)
Fixpoint run_calls (fs : MountFileSystem) (files : list Answer) (calls : list GuestCall) (disk : Disk)
    : list (result Answer FsError) * (list Answer * Disk) :=
  match calls with
  | [] => ([], (files, disk))
  | OnMount i c :: calls =>
      match mounts fs !! i with
      | None => run_calls fs files calls disk
      | Some (_, m) =>
          let (answer, disk) := mounted_call m c disk in
          let (answers, after) := run_calls fs (files ++ opened c answer) calls disk in
          (answer :: answers, after)
      end
  | OnFile n c :: calls =>
      match files !! n with
      | None => run_calls fs files calls disk
      | Some file =>
          let (answer, disk) := on_file file c disk in
          let (answers, after) := run_calls fs files calls disk in
          (answer :: answers, after)
      end
  end.
End files.
Arguments GuestCall : clear implicits.
Arguments FileSystemFn : clear implicits.
Arguments Mounted : clear implicits.
Arguments MountFileSystem : clear implicits.

(** ** Running a module *)

Record RunRequest : Type := mkRunRequest {
  rr_module : path;
  rr_args : list string;
  rr_stdin : list byte;
  rr_mounts : list ReadOnlyMount;
}.

Record RunOutput : Type := mkRunOutput {
  out_status : Z;
  out_stdout : list byte;
  out_stderr : list byte;
}.

(** The networking implementations a guest may be given. *)
Inductive Networking : Type := UnsupportedNetworking | HostNetworkingOf (id : nat).

(** A directory opened for the guest before it starts. *)
Record Preopen : Type := mkPreopen {
  pre_dir : path;
  pre_alias : option path;
  pre_read : bool;
  pre_write : bool;
  pre_create : bool;
}.

(** What [WasiEnv::builder] is given. *)
Record GuestConfig (F : Type) : Type := mkGuestConfig {
  g_program : string;
  g_args : list string;
  g_stdin : list byte;
  g_files : F;
  g_network : Networking;
  g_http_client : bool;
  g_mapped : list (string * path);
  g_preopens : list Preopen;
}.
Arguments mkGuestConfig {F}.
Arguments g_program {F}.
Arguments g_args {F}.
Arguments g_stdin {F}.
Arguments g_files {F}.
Arguments g_network {F}.
Arguments g_http_client {F}.
Arguments g_mapped {F}.
Arguments g_preopens {F}.

Definition root_preopens : list Preopen :=
  [mkPreopen "/" (Some ".") true true true; mkPreopen "/" None true true true].

(** How [_start] ended. *)
Inductive Started : Type :=
  | Returned
  | ExitCode (code : Z)
  | Trapped (e : error).

Section runtime.
Context {Module Answer Disk : Type}.
(** [ModuleCache::load] with the engine's compiler, and [Module::from_file]. *)
Context (cache_load : option (path → result Module error)).
Context (from_file : path → result Module error).

(** [Runtime::module] and [Runtime::load]. *)
Definition runtime_module (p : path) : result Module error :=
  match cache_load with
  | Some load => load p
  | None => with_context ("failed to compile " +:+ p) (from_file p)
  end.

Definition runtime_load (p : path) : result unit error :=
  let? _ := with_context ("failed to load WASIX module " +:+ p) (runtime_module p) in Ok tt.

(** What a run meets: the task runtime, the mounts, buffering the input, the
    instance, its export and its end, and what the pipes hold. *)
Record RunWorld : Type := mkRunWorld {
  rw_runtime : result unit error;
  rw_open : path → result (FileSystemFn Answer Disk) string;
  rw_mount : MountFileSystem Answer Disk → path → result unit string;
  rw_stdin : result unit error;
  rw_preopen : result unit error;
  rw_instantiate : GuestConfig (MountFileSystem Answer Disk) → Module → result unit error;
  rw_start : result unit error;
  rw_call : Started;
  rw_stdout : result (list byte) error;
  rw_stderr : result (list byte) error;
}.

(** [Path::file_name], when it is UTF-8. *)
Definition program_of (file_name : path → option string) (p : path) : string :=
  default "module" (file_name p).

Definition run_config (file_name : path → option string) (r : RunRequest)
    (files : MountFileSystem Answer Disk) : GuestConfig (MountFileSystem Answer Disk) :=
  let program := program_of file_name (rr_module r) in
  mkGuestConfig program (rr_args r) (rr_stdin r) files UnsupportedNetworking false
    [(program, rr_module r)] root_preopens.

(** [Runtime::run]. *)
Definition runtime_run (file_name : path → option string) (r : RunRequest) (w : RunWorld)
    : result RunOutput error :=
  let? _ := with_context "failed to create WASIX task runtime" (rw_runtime w) in
  let? module := runtime_module (rr_module r) in
  let? files := read_only_mounts (rw_open w) (rw_mount w) (rr_mounts r) in
  let? _ := with_context "failed to buffer guest stdin" (rw_stdin w) in
  let? _ := rw_preopen w in
  let? _ := with_context "failed to instantiate WASIX module"
              (rw_instantiate w (run_config file_name r files) module) in
  let? _ := with_context "WASIX module does not export _start" (rw_start w) in
  let? status :=
    match rw_call w with
    | Returned => Ok 0%Z
    | ExitCode code => Ok code
    | Trapped e => Err ("WASIX module execution failed" :: e)
    end in
  let? stdout := with_context "failed to read guest stdout" (rw_stdout w) in
  let? stderr := with_context "failed to read guest stderr" (rw_stderr w) in
  Ok (mkRunOutput status stdout stderr).
End runtime.

(** ** The host's files stay as they are *)

Section safety.
Context {Answer Disk : Type}.
Implicit Types (inner : FileSystemFn Answer Disk) (disk : Disk).

(** Documented of a host directory's file system: to look is not to change. *)
Definition looking_keeps inner : Prop :=
  ∀ c disk, reads c = true → (inner c disk).2 = disk.

Lemma read_only_reads inner c disk : reads c = true → read_only inner c disk = inner c disk.
Proof.
  destruct c as [| | | | | | | | | |p c]; simpl; try done. unfold opens_to_read.
  by destruct (_ || _ || _ || _ || _).
Qed.

Lemma read_only_writes inner c disk :
  reads c = false → read_only inner c disk = (Err PermissionDenied, disk).
Proof.
  destruct c as [| | | | | | | | | |p c]; simpl; try done. unfold opens_to_read.
  by destruct (_ || _ || _ || _ || _).
Qed.

Lemma read_only_keeps inner c disk : looking_keeps inner → (read_only inner c disk).2 = disk.
Proof.
  intros Hl. destruct (reads c) eqn:Hc; [by rewrite read_only_reads, Hl|by rewrite read_only_writes].
Qed.

Lemma mount_all_spec open_host takes ms fs fs' :
  mount_all (Answer := Answer) (Disk := Disk) open_host takes ms fs = Ok fs' →
  ∃ hosts, mounts fs' = mounts fs ++ zip (m_guest <$> ms) (ReadOnlyHost <$> hosts) ∧
    Forall2 (λ m host, open_host (m_host m) = Ok host) ms hosts.
Proof.
  revert fs. induction ms as [|m ms IH]; intros fs; simpl.
  { intros [= <-]. exists []. by rewrite app_nil_r. }
  destruct (open_host (m_host m)) as [host|e] eqn:Ho; [|done].
  destruct (takes fs (m_guest m)) as [|e]; [|done].
  intros (hosts & Hm & Hf)%IH. exists (host :: hosts). split; [|by constructor].
  rewrite Hm. simpl. by rewrite <- app_assoc.
Qed.

Lemma read_only_mounts_at open_host takes ms fs i p m :
  read_only_mounts (Answer := Answer) (Disk := Disk) open_host takes ms = Ok fs →
  mounts fs !! i = Some (p, m) →
  ∃ host inner, ms !! i = Some (mkMount p host) ∧ m = ReadOnlyHost inner ∧ open_host host = Ok inner.
Proof.
  intros (hosts & Hm & Hf)%mount_all_spec Hi. simpl in Hm. rewrite Hm in Hi.
  apply lookup_zip_with_Some in Hi as (p' & m' & [= <- <-] & Hp & Hh).
  apply list_lookup_fmap_Some in Hp as ([g h] & -> & Hmt), Hh as (inner & -> & Hho).
  exists h, inner. split_and!; [done|done|]. exact (Forall2_lookup_lr _ _ _ i _ _ Hf Hmt Hho).
Qed.

Lemma read_only_mounts_guests open_host takes ms fs :
  read_only_mounts (Answer := Answer) (Disk := Disk) open_host takes ms = Ok fs →
  (mounts fs).*1 = m_guest <$> ms.
Proof.
  intros (hosts & Hm & Hf)%mount_all_spec. simpl in Hm. rewrite Hm, fst_zip; [done|].
  rewrite !length_fmap. by rewrite (Forall2_length _ _ _ Hf).
Qed.

(** The files of this table's mounts. *)
Context {FileCall : Type} (on_file : Answer → FileCall → Disk → result Answer FsError * Disk).
Implicit Types (calls : list (GuestCall FileCall)) (files : list Answer).

(** The calls on an open file that only read from it, and what is documented of
    them. *)
Context (only_reads : FileCall → bool).
Definition reading_keeps : Prop :=
  ∀ file c disk, only_reads c = true → (on_file file c disk).2 = disk.

(** A guest's call that asks an open file for nothing but reading. *)
Definition spares_files (c : GuestCall FileCall) : Prop :=
  match c with OnMount _ _ => True | OnFile _ c => only_reads c = true end.

(** A file a directory gave to an open that asks to read only. *)
Definition opened_to_read (inner : FileSystemFn Answer Disk) (file : Answer) : Prop :=
  ∃ p c disk, opens_to_read c = true ∧ (inner (OpenFile p c) disk).1 = Ok file.

Lemma opened_reads inner c disk file :
  file ∈ opened c (read_only inner c disk).1 → opened_to_read inner file.
Proof.
  destruct c as [| | | | | | | | | |p c]; simpl; try (by intros ?%elem_of_nil).
  destruct (o_write c || o_create c || o_create_new c || o_append c || o_truncate c) eqn:Hc; simpl;
    [by intros ?%elem_of_nil|].
  destruct (inner (OpenFile p c) disk) as [[a|e] d] eqn:Ho; simpl; [|by intros ?%elem_of_nil].
  intros ->%list_elem_of_singleton. exists p, c, disk. unfold opens_to_read. by rewrite Hc, Ho.
Qed.

Lemma run_calls_files fs files calls disk file :
  file ∈ (run_calls on_file fs files calls disk).2.1 →
  file ∈ files ∨ ∃ i p inner, mounts fs !! i = Some (p, ReadOnlyHost inner) ∧ opened_to_read inner file.
Proof.
  revert files disk. induction calls as [|[i c|n c] calls IH]; intros files disk; simpl; [by left|..].
  - destruct (mounts fs !! i) as [[p [inner]]|] eqn:Hi; [|by apply IH]. simpl.
    pose proof (opened_reads inner c disk file) as Hop.
    destruct (read_only inner c disk) as [answer disk1]. simpl in Hop.
    specialize (IH (files ++ opened c answer) disk1).
    destruct (run_calls on_file fs _ calls disk1). simpl in *. intros Hin%IH.
    destruct Hin as [[?|Hin]%elem_of_app|?]; [by left| |by right]. right. exists i, p, inner. auto.
  - destruct (files !! n) as [f|]; [|by apply IH].
    destruct (on_file f c disk) as [answer disk1]. specialize (IH files disk1).
    by destruct (run_calls on_file fs files calls disk1).
Qed.

(** What one of these calls does beyond reading, on one of these files. *)
Definition file_changes (P : Answer → Prop) calls (disk disk' : Disk) : Prop :=
  ∃ file n c, P file ∧ OnFile n c ∈ calls ∧ only_reads c = false ∧ disk' = (on_file file c disk).2.

(** Nothing else changes the disk. *)
Lemma run_calls_changes (P : Answer → Prop) fs all files calls disk :
  (∀ i p inner, mounts fs !! i = Some (p, ReadOnlyHost inner) →
     looking_keeps inner ∧ ∀ file, opened_to_read inner file → P file) →
  reading_keeps → calls ⊆ all → Forall P files →
  rtc (file_changes P all) disk (run_calls on_file fs files calls disk).2.2.
Proof.
  intros Hfs Hr. revert files disk.
  induction calls as [|[i c|n c] calls IH]; intros files disk Hsub Hf; [done|..]; simpl;
    assert (calls ⊆ all) as Hsub' by set_solver.
  - destruct (mounts fs !! i) as [[p [inner]]|] eqn:Hi; [|by apply IH].
    destruct (Hfs _ _ _ Hi) as [Hlook Hopen].
    pose proof (read_only_keeps inner c disk Hlook) as Hk.
    pose proof (λ file, opened_reads inner c disk file) as Hop. simpl.
    destruct (read_only inner c disk) as [answer disk1]. simpl in Hk, Hop. subst disk1.
    specialize (IH (files ++ opened c answer) disk Hsub').
    destruct (run_calls on_file fs _ calls disk). apply IH, Forall_app. split; [done|].
    apply Forall_forall. auto.
  - destruct (files !! n) as [file|] eqn:Hn; [|by apply IH].
    assert (rtc (file_changes P all) disk (on_file file c disk).2) as Hstep.
    { destruct (only_reads c) eqn:Hc; [by rewrite Hr|]. apply rtc_once. exists file, n, c.
      split_and!; [by eapply (Forall_lookup_1 P)|set_solver|done|done]. }
    destruct (on_file file c disk) as [answer disk1]. specialize (IH files disk1 Hsub' Hf).
    destruct (run_calls on_file fs files calls disk1). by etrans.
Qed.

(** C25: the file system a guest is given does not let it change a package.
    Every mount is a host directory's behind the read-only wrapper, in the order
    asked for; a call on one that would write (links, renames, removals,
    directories, opens to write, create, append or truncate) is answered with
    permission denied and leaves the disk, and one that reads is answered as the
    directory answers it.  Every file a guest can come to have open from a
    mount was opened by the directory to read only.  Whatever sequence of calls
    a guest makes on the mounts and on the files it has opened there, nothing
    changes the disk but calls on such a file that ask it for more than reading,
    given that reading a file and looking at a directory change nothing: an open
    file is the directory's own, with no wrapper around it.  If the guest makes
    none of these, the disk is as it was. *)
Theorem mounts_change_only_through_open_files open_host takes ms fs :
  read_only_mounts (Answer := Answer) (Disk := Disk) open_host takes ms = Ok fs →
  (∀ p inner, open_host p = Ok inner → looking_keeps inner) → reading_keeps →
  (mounts fs).*1 = m_guest <$> ms ∧
  (∀ calls disk,
     rtc (file_changes (λ file, ∃ m inner, m ∈ ms ∧ open_host (m_host m) = Ok inner ∧
            opened_to_read inner file) calls)
       disk (run_calls on_file fs [] calls disk).2.2) ∧
  (∀ calls disk, Forall spares_files calls → (run_calls on_file fs [] calls disk).2.2 = disk) ∧
  (∀ calls disk file, file ∈ (run_calls on_file fs [] calls disk).2.1 →
     ∃ m inner, m ∈ ms ∧ open_host (m_host m) = Ok inner ∧ opened_to_read inner file) ∧
  (∀ i p m, mounts fs !! i = Some (p, m) → ∃ host inner,
     open_host host = Ok inner ∧ mkMount p host ∈ ms ∧
     ∀ c disk, mounted_call m c disk =
       if reads c then inner c disk else (Err PermissionDenied, disk)).
Proof.
  intros Hfs Hl Hrk.
  assert (∀ calls disk,
    rtc (file_changes (λ file, ∃ m inner, m ∈ ms ∧ open_host (m_host m) = Ok inner ∧
           opened_to_read inner file) calls)
      disk (run_calls on_file fs [] calls disk).2.2) as Hch.
  { intros calls disk. apply run_calls_changes; [|done|done|constructor]. intros i p inner Hi.
    eapply read_only_mounts_at in Hi as (host & inner' & Hmt & [= <-] & Ho); [|done].
    split; [by eapply Hl|]. intros file Hop. exists (mkMount p host), inner.
    split_and!; [by eapply list_elem_of_lookup_2|done|done]. }
  split_and!; [by eapply read_only_mounts_guests|done|..].
  - intros calls disk Hall. destruct (Hch calls disk) as [|? ? ? (file & n & c & _ & Hin & Hc & _) _];
      [done|]. rewrite Forall_forall in Hall. apply Hall in Hin. simpl in Hin. congruence.
  - intros calls disk file [?%elem_of_nil|(i & p & inner & Hi & Ho)]%run_calls_files; [done|].
    eapply read_only_mounts_at in Hi as (host & inner' & Hmt & [= <-] & Hh); [|done].
    exists (mkMount p host), inner. split_and!; [by eapply list_elem_of_lookup_2|done|done].
  - intros i p m Hi. eapply read_only_mounts_at in Hi as (host & inner & Hmt & -> & Ho); [|done].
    exists host, inner. split_and!; [done|by eapply list_elem_of_lookup_2|]. intros c disk. simpl.
    destruct (reads c) eqn:Hc; [by apply read_only_reads|by apply read_only_writes].
Qed.
End safety.

(** ** A run by itself *)

Section runs.
Context {Module Answer Disk : Type}.
Context (cache_load : option (path → result Module error)) (from_file : path → result Module error).
Context (file_name : path → option string).

(** A run that is reported ran the requested module with its arguments and
    input, on read-only mounts and without a network, and reports the status
    it ended with and everything it wrote. *)
Lemma runtime_run_ok r (w : RunWorld (Module := Module) (Answer := Answer) (Disk := Disk)) out :
  runtime_run cache_load from_file file_name r w = Ok out →
  ∃ module files,
    runtime_module cache_load from_file (rr_module r) = Ok module ∧
    read_only_mounts (rw_open w) (rw_mount w) (rr_mounts r) = Ok files ∧
    (let c := run_config file_name r files in
     rw_instantiate w c module = Ok tt ∧ g_args c = rr_args r ∧ g_stdin c = rr_stdin r ∧
     g_network c = UnsupportedNetworking ∧ g_http_client c = false) ∧
    (rw_call w = Returned ∧ out_status out = 0%Z ∨ rw_call w = ExitCode (out_status out)) ∧
    rw_stdout w = Ok (out_stdout out) ∧ rw_stderr w = Ok (out_stderr out).
Proof.
  unfold runtime_run. intros H.
  repeat match type of H with
  | match ?c with Ok _ => _ | Err _ => _ end = Ok _ =>
      let E := fresh "E" in destruct c eqn:E; [|discriminate H]
  end.
  injection H as <-.
  repeat match goal with
  | E : with_context _ ?c = Ok _ |- _ =>
      let E' := fresh "E" in destruct c eqn:E'; [|discriminate E]; injection E as ->
  end.
  repeat match goal with u : unit |- _ => destruct u end.
  eexists _, _. split_and!; try done. simpl.
  destruct (rw_call w); simplify_eq; auto.
Qed.
End runs.

Module RuntimeWitness.
(** A disk that counts what was done to it, and files of which one can ask more
    than reading. *)
Inductive file_call : Type := ReadSome | UnlinkIt.
Definition counting : FileSystemFn unit nat := λ c n,
  if reads c then (Ok tt, n) else (Ok tt, S n).
Definition counting_file (_ : unit) (c : file_call) (n : nat) : result unit FsError * nat :=
  match c with ReadSome => (Ok tt, n) | UnlinkIt => (Ok tt, S n) end.
Definition reads_file (c : file_call) : bool := match c with ReadSome => true | UnlinkIt => false end.
Definition open_demo (p : path) : result (FileSystemFn unit nat) string :=
  if decide (p = "/pkg/share") then Ok counting else Err "No such file or directory".
Definition table : MountFileSystem unit nat := mkMounts [("/usr/share/db", ReadOnlyHost counting)].
Definition asks : list (GuestCall file_call) :=
  [OnMount 0 (RemoveFile "a"); OnMount 0 (OpenFile "a" (mkConfig true false false false false false));
   OnFile 0 ReadSome; OnMount 0 (OpenFile "a" (mkConfig true true false false false true));
   OnMount 0 (Rename "a" "b")].

Lemma mounted_witness :
  run_calls counting_file table [] asks 5 =
  ([Err PermissionDenied; Ok tt; Ok tt; Err PermissionDenied; Err PermissionDenied], ([tt], 5)).
Proof.
  destruct (mounts_change_only_through_open_files counting_file reads_file open_demo (λ _ _, Ok tt)
    [mkMount "/usr/share/db" "/pkg/share"] table eq_refl) as (_ & _ & H & _).
  - intros p inner. unfold open_demo. destruct (decide (p = "/pkg/share")); [|discriminate].
    intros [= <-] c disk Hc. unfold counting. by rewrite Hc.
  - intros file [] disk Hc; [reflexivity|discriminate Hc].
  - assert (Forall (spares_files reads_file) asks) as Hall by (repeat constructor).
    specialize (H asks 5 Hall).
    match goal with |- ?x = _ => destruct x as [answers [files disk]] eqn:E end.
    simpl in H. subst disk. vm_compute in E. by injection E as <- <-.
Defined.

(** Nothing stands between a guest and such a file: were one able to remove
    itself, a guest could have it do so. *)
Example open_files_are_not_wrapped :
  (run_calls counting_file table [] (asks ++ [OnFile 0 UnlinkIt]) 5).2.2 = 6.
Proof. vm_compute. reflexivity. Qed.
End RuntimeWitness.
