(* ===== verification/Guest.v ===== *)
(** * Guests: their engine, their modules and what each run is given

    Models src/crates/servicecache/src/host/guest.rs: the profiling mode of the
    engine, the modules a host has loaded, the configuration of each run, and
    the status a finished run reports; and what follows for the runs of the host
    of Host.v.  The engine, the WASIX environment and the table of mounts are
    the libraries'. *)

From S2P Require Import Prelude Paths Manifest Net Compaction Title Protocol Host Clone Runtime.

(** ** The engine *)

Inductive ProfileMode : Type := JitDump | PerfMap | ProfileOff.

(** [engine]: whether each of the two variables is set. *)
Definition engine_mode (jitdump perfmap : bool) : ProfileMode :=
  if jitdump then JitDump else if perfmap then PerfMap else ProfileOff.

(** [CompileError]. *)
Inductive CompileError : Type :=
  | Resource (message : string)
  | OtherCompileError (message : string).

(** [compile_module]: on a pool of its own, gone when it returns. *)
Definition compile_module {Module} (pool : result unit string)
    (from_binary : list byte → result Module CompileError) (bytes : list byte)
    : result Module CompileError :=
  match pool with
  | Err e => Err (Resource e)
  | Ok _ => from_binary bytes
  end.

(** The compiler [spawn] gives the modules a guest starts by itself: they go
    through the cache too; of an error the outermost message is kept. *)
Definition compile_child {Module} (load_bytes : list byte → string → result Module error)
    (bytes : list byte) : result Module CompileError :=
  match load_bytes bytes "spawned WASIX module" with
  | Ok m => Ok m
  | Err e => Err (Resource (default "" (head e)))
  end.

(** ** Modules, once per path *)

Section modules.
Context {Module : Type}.

(** [GuestRuntime::modules], and the loads made through the cache, in order. *)
Record Modules : Type := mkModules {
  known : gmap path Module;
  loads : list (path * result Module error);
}.

(** [GuestRuntime::module]; [answer] is what the cache answers, if asked. *)
Definition load_module (p : path) (answer : result Module error) (ms : Modules)
    : result Module error * Modules :=
  match known ms !! p with
  | Some m => (Ok m, ms)
  | None =>
      let ms := mkModules (known ms) (loads ms ++ [(p, answer)]) in
      match answer with
      | Err e => (Err e, ms)
      | Ok m => (Ok m, mkModules (<[p := m]> (known ms)) (loads ms))
      end
  end.

(** The calls of a host's life, each with what the cache would answer. *)
Fixpoint load_modules (calls : list (path * result Module error)) (ms : Modules)
    : list (result Module error) * Modules :=
  match calls with
  | [] => ([], ms)
  | (p, answer) :: calls =>
      let (r, ms) := load_module p answer ms in
      let (rs, ms) := load_modules calls ms in
      (r :: rs, ms)
  end.
End modules.
Arguments Modules : clear implicits.

(** ** A run's configuration *)

(** [GuestRuntime], besides its engine, cache and modules. *)
Record GuestRuntime (F : Type) : Type := mkGuestRuntime {
  gr_files : F;
  gr_networking : nat;
  gr_extensions : gset string;
}.
Arguments mkGuestRuntime {F}.
Arguments gr_files {F}.
Arguments gr_networking {F}.
Arguments gr_extensions {F}.

(** Where a run's output goes. *)
Inductive Output : Type := ToStderr | Captured.

(** What [spawn] sets besides the configuration every run has. *)
Record SpawnConfig (F : Type) : Type := mkSpawnConfig {
  sc_guest : GuestConfig F;
  sc_stdout : Output;
  sc_stderr : Output;
  sc_asynchronous_threading : bool;
  sc_extensions : option (gset string);
}.
Arguments mkSpawnConfig {F}.
Arguments sc_guest {F}.
Arguments sc_stdout {F}.
Arguments sc_stderr {F}.
Arguments sc_asynchronous_threading {F}.
Arguments sc_extensions {F}.

(** [GuestRuntime::new]. *)
Definition guest_runtime_new {Answer Disk}
    (open_host : path → result (FileSystemFn Answer Disk) string)
    (takes_mount : MountFileSystem Answer Disk → path → result unit string)
    (ms : list ReadOnlyMount) (networking : nat) (extensions : list string)
    : result (GuestRuntime (MountFileSystem Answer Disk)) error :=
  let? files := read_only_mounts open_host takes_mount ms in
  Ok (mkGuestRuntime files networking (list_to_set extensions)).

(** The mounts and extensions [Host::new] gives it. *)
Definition manifest_mounts (m : Manifest) : list ReadOnlyMount :=
  match prepare m with
  | Some p => map (λ x, mkMount x.1 x.2) (prepare_fs p)
  | None => []
  end.

Section spawn.
Context {F : Type}.

Definition spawn_config (g : GuestRuntime F) (run : GuestRun) : SpawnConfig F :=
  mkSpawnConfig
    (mkGuestConfig (run_program_name run) (run_args run) (run_stdin run) (gr_files g)
       (if run_network run then HostNetworkingOf (gr_networking g) else UnsupportedNetworking)
       false [] root_preopens)
    ToStderr ToStderr false (Some (gr_extensions g)).

(** [GuestRuntime::spawn]: the module, then the input, the environment and the
    start, each of which may fail. *)
Definition guest_spawn {Module} (g : GuestRuntime F) (run : GuestRun) (answer : result Module error)
    (stdin preopen : result unit error) (build : SpawnConfig F → result unit error)
    (exec : Module → SpawnConfig F → result nat error) (ms : Modules Module)
    : result nat error * Modules Module :=
  let (module, ms) := load_module (run_module run) answer ms in
  ((let? module := module in
    let? _ := with_context "failed to buffer the guest's stdin" stdin in
    let? _ := preopen in
    let? _ := with_context ("failed to build the environment for " +:+ run_program_name run)
                (build (spawn_config g run)) in
    with_context ("failed to start " +:+ run_program_name run) (exec module (spawn_config g run))), ms).
End spawn.

(** ** Exit statuses *)

(** [TaskStatus]; a runtime error carries an exit code or none. *)
Inductive TaskStatus : Type :=
  | TaskPending
  | TaskRunning
  | FinishedOk (code : Z)
  | FinishedErr (code : option Z).

(** [exit_status]. *)
Definition task_exit_status (s : TaskStatus) : option Z :=
  match s with
  | FinishedOk code => Some code
  | FinishedErr code => Some (default 128%Z code)
  | _ => None
  end.

(** ** Each module is loaded once *)

Section once.
Context {Module : Type}.
Implicit Types ms : Modules Module.

Definition loaded (p : path) (l : list (path * result Module error)) : list Module :=
  omap (λ x, if decide (x.1 = p) then result_ok x.2 else None) l.

(** The successful loads of a path are what is known of it. *)
Definition modules_ok ms : Prop := ∀ p, loaded p (loads ms) = option_list (known ms !! p).

Lemma loaded_snoc p l q r :
  loaded p (l ++ [(q, r)]) = loaded p l ++ (if decide (q = p) then option_list (result_ok r) else []).
Proof.
  unfold loaded. rewrite omap_app. f_equal. simpl. destruct (decide (q = p)); [|done]. by destruct r.
Qed.

Lemma load_module_ok p answer ms :
  modules_ok ms →
  let (r, ms') := load_module p answer ms in
  modules_ok ms' ∧ known ms ⊆ known ms' ∧ ∀ m, r = Ok m → known ms' !! p = Some m.
Proof.
  intros Hok. unfold load_module. destruct (known ms !! p) as [m|] eqn:Hp.
  { split_and!; [done|done|]. by intros m' [= <-]. }
  destruct answer as [m|e]; simpl.
  - split_and!.
    + intros q. simpl. rewrite loaded_snoc, Hok. destruct (decide (p = q)) as [<-|Hne].
      * by rewrite Hp, lookup_insert_eq.
      * by rewrite lookup_insert_ne, app_nil_r.
    + by apply insert_subseteq.
    + intros m' [= <-]. apply lookup_insert_eq.
  - split_and!; [|done|done]. intros q. simpl. rewrite loaded_snoc, Hok.
    by destruct (decide (p = q)); rewrite app_nil_r.
Qed.

Lemma load_modules_ok calls ms :
  modules_ok ms →
  let (rs, ms') := load_modules calls ms in
  modules_ok ms' ∧ known ms ⊆ known ms' ∧
  Forall2 (λ c r, ∀ m, r = Ok m → known ms' !! c.1 = Some m) calls rs.
Proof.
  revert ms. induction calls as [|[p answer] calls IH]; intros ms Hok; simpl.
  { split_and!; [done|done|constructor]. }
  pose proof (load_module_ok p answer ms Hok) as Hl. destruct (load_module p answer ms) as [r ms1].
  destruct Hl as (Hok1 & Hsub1 & Hr). specialize (IH ms1 Hok1).
  destruct (load_modules calls ms1) as [rs ms2]. destruct IH as (Hok2 & Hsub2 & Hrs).
  split_and!; [done|by etrans|]. constructor; [|done]. simpl. intros m Hm.
  eapply lookup_weaken; [by apply Hr|done].
Qed.

(** A host loads each module once.  Over its whole life, however often its
    runs ask for modules and whatever the cache answers, each path is loaded
    successfully at most once, and every run of a path is given the module of
    that one load, even if the file has changed since. *)
Theorem each_module_is_loaded_once calls :
  let (rs, ms) := load_modules calls (mkModules (Module := Module) ∅ []) in
  (∀ p, length (loaded p (loads ms)) ≤ 1) ∧
  Forall2 (λ c r, ∀ m, r = Ok m → loaded c.1 (loads ms) = [m]) calls rs.
Proof.
  pose proof (load_modules_ok calls (mkModules ∅ [])) as Hl.
  destruct (load_modules calls _) as [rs ms].
  destruct Hl as (Hok & _ & Hrs); [intros p; simpl; by rewrite lookup_empty|]. split.
  - intros p. rewrite (Hok p). by destruct (known ms !! p); simpl; lia.
  - eapply Forall2_impl; [exact Hrs|]. intros [p a] r Hr m Hm. simpl in *.
    by rewrite (Hok p), (Hr m Hm).
Qed.
End once.

(** ** What a host runs *)

(** The runs a manifest declares: the prepare step, without the network; the
    guest; the initializer, on a recipe. *)
Definition declared (m : Manifest) (run : GuestRun) : Prop :=
  (∃ pr, prepare m = Some pr ∧ prepare_module pr = Some (run_module run) ∧
     run_args run = prepare_args pr ∧ run_network run = false) ∨
  (run_module run = guest_module (guest m) ∧ run_args run = guest_args (guest m) ∧
     run_stdin run = [] ∧ run_network run = true) ∨
  (∃ init, initializer m = Some init ∧ run_module run = init_module init ∧
     length (run_args run) = length (init_args init) ∧ run_network run = true).

Definition declared_action (m : Manifest) (a : Action) : Prop :=
  match a with ASpawn run => declared m run | _ => True end.

Definition declares (m : Manifest) : relation W := λ w w',
  Forall (declared_action m) (trace w) → Forall (declared_action m) (trace w').

#[global] Instance declares_preorder m : PreOrder (declares m).
Proof. split; [by intros w H|]. intros w1 w2 w3 H1 H2 H. unfold declares in *. auto. Qed.

Section declared_runs.
Context (manifest : Manifest) (fs : FileSystem) (sha256 : list byte → list byte) (kernel : Kernel).
Context (peer : nat → bool).
Notation kept := (keeps (declares manifest)).

Lemma declares_act a : declared_action manifest a → kept (act a).
Proof. intros Ha w H. simpl. apply Forall_app. split; [done|]. by constructor. Qed.
Lemma declares_reply r : kept (act (AReply r)).
Proof. by apply declares_act. Qed.
Lemma declares_event r : kept (act (AEvent r)).
Proof. by apply declares_act. Qed.
Lemma declares_announce r : kept (act (AAnnounce r)).
Proof. by apply declares_act. Qed.
Lemma declares_orphan r : kept (act (AOrphan r)).
Proof. by apply declares_act. Qed.
Lemma declares_recv q : kept (act (ARecv q)).
Proof. by apply declares_act. Qed.
Lemma declares_probe : kept (act AProbe).
Proof. by apply declares_act. Qed.
Lemma declares_slice : kept (act ASlice).
Proof. by apply declares_act. Qed.
Lemma declares_shut_down calls : kept (act (AShutDown calls)).
Proof. by apply declares_act. Qed.
Lemma declares_fork_parent pid : kept (act (AForkParent pid)).
Proof. by apply declares_act. Qed.
Lemma declares_fork_child : kept (act AForkChild).
Proof. by apply declares_act. Qed.
Lemma declares_modify f : kept (modify f).
Proof. apply keeps_modify. by intros w H. Qed.
Lemma declares_put h : kept (put_host h).
Proof. by intros w H. Qed.
Lemma declares_next_pass : kept next_pass.
Proof. intros w. unfold next_pass. destruct (passes w); exact (λ H, H). Qed.
#[local] Hint Resolve declares_reply declares_event declares_announce declares_orphan declares_recv
  declares_probe declares_slice declares_shut_down declares_fork_parent declares_fork_child
  declares_modify declares_put declares_next_pass : keeps.

Lemma declares_wait : kept wait.
Proof. unfold wait, guest_runs. keeps_tac. Qed.
Lemma declares_reap l : kept (reap peer l).
Proof. induction l as [|[]]; simpl; keeps_tac. Qed.
#[local] Hint Resolve declares_wait declares_reap : keeps.
Lemma declares_tick p : kept (tick peer p).
Proof. unfold tick, exit_status. keeps_tac. Qed.
Lemma declares_refuse_while_busy p why : kept (refuse_while_busy peer p why).
Proof. unfold refuse_while_busy, receive. keeps_tac. Qed.
#[local] Hint Resolve declares_tick declares_refuse_while_busy : keeps.
Lemma declares_wait_run run : kept (wait_run peer run).
Proof.
  apply keeps_loop_passes; [apply _|]. intros w. unfold wait_run_round.
  destruct (passes w) as [|p ps]; [reflexivity|]. destruct (run_status p); [reflexivity|].
  revert w. match goal with |- ∀ w, _ w (?m w).2 => change (kept m) end. keeps_tac.
Qed.
#[local] Hint Resolve declares_wait_run : keeps.

Lemma declares_spawn p run : declared manifest run → kept (spawn p run).
Proof. intros Hd. unfold spawn. keeps_tac. by apply declares_act. Qed.

Lemma declares_host_prepare p : kept (host_prepare manifest fs peer p).
Proof.
  unfold host_prepare. destruct (prepare manifest) as [pr|] eqn:Hp; [|keeps_tac].
  destruct (prepare_module pr) as [m|] eqn:Hm; [|keeps_tac].
  assert (∀ stdin, kept (spawn p (mkRun m (program_name manifest m) (prepare_args pr) stdin false))) as Hs.
  { intros stdin. apply declares_spawn. left. by exists pr. }
  keeps_tac.
Qed.

Lemma declares_start_round : kept (start_round manifest peer).
Proof.
  unfold start_round, ready_reply, set_title, exit_status. keeps_tac.
Qed.
#[local] Hint Resolve declares_start_round : keeps.

Lemma declares_start p fds : kept (start manifest peer p fds).
Proof.
  unfold start. cbv zeta.
  assert (kept (spawn p (mkRun (guest_module (guest manifest))
    (program_name manifest (guest_module (guest manifest))) (guest_args (guest manifest)) [] true))) as Hs.
  { apply declares_spawn. right. by left. }
  keeps_tac.
Qed.

Lemma declares_initialize p recipe : kept (initialize manifest sha256 peer p recipe).
Proof.
  unfold initialize. destruct (initializer manifest) as [init|] eqn:Hi; [|keeps_tac]. cbv zeta.
  assert (∀ e, kept (spawn p (mkRun (init_module init) (program_name manifest (init_module init))
    (map (λ arg, replace "{port}" (pretty (port e)) (replace "{host}" (ip e) arg)) (init_args init))
    recipe true))) as Hs.
  { intros e. apply declares_spawn. right. right. exists init. split_and!; try done. simpl. apply length_map. }
  unfold set_title. keeps_tac.
Qed.
#[local] Hint Resolve declares_host_prepare declares_start declares_initialize : keeps.

Lemma declares_refuse text : kept (refuse peer text).
Proof. unfold refuse. keeps_tac. Qed.
#[local] Hint Resolve declares_refuse : keeps.

Lemma declares_host_freeze p : kept (host_freeze manifest peer p).
Proof. unfold host_freeze, freeze_guest, set_title. keeps_tac. Qed.

Lemma declares_host_fork p fds : kept (host_fork manifest peer p fds).
Proof. unfold host_fork, fork_host, rebuild, set_title. keeps_tac. Qed.
#[local] Hint Resolve declares_host_freeze declares_host_fork : keeps.

Lemma declares_handle p frame : kept (handle manifest fs sha256 peer p frame).
Proof. unfold handle. keeps_tac. Qed.

Lemma declares_compact p : kept (compact kernel p).
Proof.
  unfold compact. keeps_tac.
Qed.
#[local] Hint Resolve declares_handle declares_compact : keeps.

Lemma declares_serve : kept (serve manifest fs sha256 kernel peer).
Proof. unfold serve, serve_round, receive, forked_reply. keeps_tac. Qed.
End declared_runs.

(** ** A host from its start *)

(** What starting a host meets: [die_with_parent], the two calls of
    [child_signal], [build_tokio] and [EventPipe::new]. *)
Record HostMeets : Type := mkHostMeets {
  hm_die : result unit error;
  hm_block : result unit error;
  hm_signals : result unit error;
  hm_tokio : result unit error;
  hm_pipe : result unit error;
}.

(** [host::run], with [Host::new] and all that [Host::serve] does.  The title it
    writes first is Proc.v's, the hooks of [enable_suspension] the engine's. *)
Definition host_run {Answer Disk} (load : path → result Manifest error)
    (open_host : path → result (FileSystemFn Answer Disk) string)
    (takes_mount : MountFileSystem Answer Disk → path → result unit string) (networking : nat)
    (meets : HostMeets) (fs : FileSystem) (sha256 : list byte → list byte) (kernel : Kernel)
    (peer : nat → bool) (memory : Compaction.World) (passes : list Pass) (manifest : path)
    : result (Manifest * GuestRuntime (MountFileSystem Answer Disk) * (exec unit * W)) error :=
  let? _ := with_context "failed to set the parent-death signal" (hm_die meets) in
  let? m := load manifest in
  let? _ := with_context "failed to block SIGCHLD" (hm_block meets) in
  let? _ := with_context "failed to open a descriptor for SIGCHLD" (hm_signals meets) in
  let? _ := with_context "failed to create the tokio runtime" (hm_tokio meets) in
  let? _ := with_context "failed to create the event pipe" (hm_pipe meets) in
  let? g := guest_runtime_new open_host takes_mount (manifest_mounts m) networking
              (extensions (service m)) in
  Ok (m, g, serve m fs sha256 kernel peer (mkW (host_new m memory) passes [])).

Lemma host_run_serves {Answer Disk} load (open_host : path → result (FileSystemFn Answer Disk) string)
    takes networking meets fs sha256 kernel peer memory passes p m g out :
  host_run load open_host takes networking meets fs sha256 kernel peer memory passes p = Ok (m, g, out) →
  load p = Ok m ∧
  guest_runtime_new open_host takes (manifest_mounts m) networking (extensions (service m)) = Ok g ∧
  out = serve m fs sha256 kernel peer (mkW (host_new m memory) passes []).
Proof. unfold host_run. intros H. inv_ok. done. Qed.

(** C26: what a host runs, and with what.  Whatever its manager asks and its
    guest does, each run a host starts is one its manifest declares; each is
    given the manifest's read-only mounts and nothing else of the disk, only the
    extensions the manifest names, and no HTTP client; and only the guest and
    the initializer are given the network, the prepare step is not. *)
Theorem host_runs_are_confined {Answer Disk} load
    (open_host : path → result (FileSystemFn Answer Disk) string) takes networking meets fs sha256 kernel
    peer memory passes p manifest g x w run :
  host_run load open_host takes networking meets fs sha256 kernel peer memory passes p
    = Ok (manifest, g, (x, w)) →
  ASpawn run ∈ trace w →
  declared manifest run ∧
  let c := spawn_config g run in
  (g_network (sc_guest c) = UnsupportedNetworking ∨
   run_module run = guest_module (guest manifest) ∨
   ∃ init, initializer manifest = Some init ∧ run_module run = init_module init) ∧
  g_http_client (sc_guest c) = false ∧
  sc_extensions c = Some (list_to_set (extensions (service manifest))) ∧
  (mounts (g_files (sc_guest c))).*1 = m_guest <$> manifest_mounts manifest ∧
  Forall (λ m, ∃ host inner, m.2 = ReadOnlyHost inner ∧ open_host host = Ok inner ∧
    mkMount m.1 host ∈ manifest_mounts manifest) (mounts (g_files (sc_guest c))).
Proof.
  intros (_ & Hg & Hw)%host_run_serves Hrun.
  pose proof (declares_serve manifest fs sha256 kernel peer (mkW (host_new manifest memory) passes [])
    ltac:(constructor)) as Hall.
  rewrite <- Hw in Hall. rewrite Forall_forall in Hall. specialize (Hall _ Hrun). simpl in Hall.
  unfold guest_runtime_new in Hg. inv_ok.
  split; [done|]. simpl. split_and!; [|done|done| |].
  - destruct Hall as [(pr & _ & _ & _ & ->)|[(-> & _)|(init & ? & -> & _)]]; eauto.
  - by eapply read_only_mounts_guests.
  - apply Forall_forall. intros [q m] [i Hi]%list_elem_of_lookup_1.
    eapply read_only_mounts_at in Hi as (host & inner & Hmt & -> & Ho); [|done].
    exists host, inner. split_and!; [done|done|]. by eapply list_elem_of_lookup_2.
Qed.

Module GuestWitness.
Import CloneWitness.
Definition run0 : GuestRun := mkRun "/p/db.wasm" (program_name manifest "/p/db.wasm") [] [] true.
Definition asked_to_start : list Pass := [pass [] [] None (Some (mkFrame Start [] [9%Z])) None].
Definition runtime0 : GuestRuntime (MountFileSystem unit nat) := mkGuestRuntime (mkMounts []) 1 ∅.

Definition no_files : FileSystem :=
  Build_FileSystem (λ _, Err []) (λ _, false) (λ _, false) (λ _, Err []) (λ _, Err []).
Definition started : HostMeets := mkHostMeets (Ok tt) (Ok tt) (Ok tt) (Ok tt) (Ok tt).
Definition lived :=
  host_run (λ _, Ok manifest) RuntimeWitness.open_demo (λ _ _, Ok tt) 1 started no_files (λ b, b) kernel
    (λ _, true) (mkWorld (λ _, 0%Z) []) asked_to_start "/p/service.toml".

Lemma confined_witness :
  match lived with
  | Ok (m, _, (_, w)) => ASpawn run0 ∈ trace w ∧ declared m run0
  | Err _ => False
  end.
Proof.
  destruct lived as [[[m g] [x w]]|e] eqn:E; [|vm_compute in E; discriminate E].
  assert (ASpawn run0 ∈ trace w) as Hrun by (vm_compute in E; injection E as _ _ _ <-; right; left).
  split; [exact Hrun|].
  exact (proj1 (host_runs_are_confined _ _ _ _ _ _ _ _ _ _ _ _ _ _ _ _ run0 E Hrun)).
Defined.
End GuestWitness.
