(* ===== verification/Manager.v ===== *)
(** * The manager's side of a host process

    Models src/crates/servicecache/src/manager.rs: [HostProcess] and its
    requests.  The channel is the list of what its [recv]s answer, a message,
    the end of the stream or an error; a call that needs one more than there
    are is blocked.  Sending may fail; what was sent is recorded. *)

From S2P Require Import Prelude Text Net Protocol Host.

(** What one [recv] answers. *)
Definition incoming : Type := result (option Reply) error.

Record HostProcess : Type := mkProcess {
  hp_pid : N;
  hp_incoming : list incoming;
  (** Present for a host this manager spawned. *)
  hp_child : bool;
  hp_events : list Reply;
  hp_endpoint : option SocketAddr;
  hp_sent : list Request;
}.

Definition set_incoming (h : HostProcess) (i : list incoming) (e : list Reply) : HostProcess :=
  mkProcess (hp_pid h) i (hp_child h) e (hp_endpoint h) (hp_sent h).
Definition set_endpoint (h : HostProcess) (e : SocketAddr) : HostProcess :=
  mkProcess (hp_pid h) (hp_incoming h) (hp_child h) (hp_events h) (Some e) (hp_sent h).
Definition add_sent (h : HostProcess) (q : Request) : HostProcess :=
  mkProcess (hp_pid h) (hp_incoming h) (hp_child h) (hp_events h) (hp_endpoint h) (hp_sent h ++ [q]).

Definition closed_channel (pid : N) : error :=
  ["host " +:+ pretty pid +:+ " closed its control channel"].
Definition refused (pid : N) (text : string) : error :=
  ["host " +:+ pretty pid +:+ " refused: " +:+ text].
Definition guest_exited (pid : N) (status : Z) : error :=
  ["the guest in host " +:+ pretty pid +:+ " exited with status " +:+ pretty status].

(** [{other:?}] of a reply. *)
Definition reply_debug (r : Reply) : string :=
  match r with
  | Ready endpoint => "Ready { endpoint: " +:+ string_debug endpoint +:+ " }"
  | Exited run status pid =>
      "Exited { run: " +:+ run_debug run +:+ ", status: " +:+ pretty status +:+ ", pid: " +:+
      match pid with None => "None" | Some pid => "Some(" +:+ pretty pid +:+ ")" end +:+ " }"
  | Protocol.Frozen coroutines => "Frozen { coroutines: " +:+ pretty coroutines +:+ " }"
  | Forked pid endpoint =>
      "Forked { pid: " +:+ pretty pid +:+ ", endpoint: " +:+ string_debug endpoint +:+ " }"
  | ReplyError text => "Error { text: " +:+ string_debug text +:+ " }"
  end.

(** [endpoint.parse()], with its error. *)
Definition parse_endpoint (parse : string → option SocketAddr) (text : string)
    : result SocketAddr error :=
  with_context ("bad endpoint from the host: " +:+ text)
    (ok_or ["invalid socket address syntax"] (parse text)).

(** The loop of [reply]: the answer, what is left, the events so far. *)
Fixpoint reply_loop (pid : N) (i : list incoming) (events : list Reply)
    : option (result Reply error * list incoming * list Reply) :=
  match i with
  | [] => None
  | Err e :: i => Some (Err e, i, events)
  | Ok None :: i => Some (Err (closed_channel pid), i, events)
  | Ok (Some message) :: i =>
      match message with
      | ReplyError text => Some (Err (refused pid text), i, events)
      | Exited RunGuest status _ => Some (Err (guest_exited pid status), i, events)
      | Exited RunChild _ _ => reply_loop pid i (events ++ [message])
      | other => Some (Ok other, i, events)
      end
  end.

(** [HostProcess::reply]; [None] while blocked. *)
Definition reply (h : HostProcess) : option (result Reply error * HostProcess) :=
  match reply_loop (hp_pid h) (hp_incoming h) (hp_events h) with
  | None => None
  | Some (r, i, e) => Some (r, set_incoming h i e)
  end.

(** [HostProcess::request]; [sent] is whether the send succeeds. *)
Definition request (sent : result unit error) (h : HostProcess) (q : Request)
    : option (result Reply error * HostProcess) :=
  match sent with
  | Err e => Some (Err e, h)
  | Ok tt => reply (add_sent h q)
  end.

Definition manager_prepare (sent : result unit error) (h : HostProcess)
    : option (result Z error * HostProcess) :=
  match request sent h Protocol.Prepare with
  | None => None
  | Some (Ok (Exited RunPrepare status _), h) => Some (Ok status, h)
  | Some (Ok other, h) => Some (Err ["unexpected reply to prepare: " +:+ reply_debug other], h)
  | Some (Err e, h) => Some (Err e, h)
  end.

(** [start]: [bind] is the loopback listener, [parse] the address parser. *)
Definition manager_start (bind : result unit string) (parse : string → option SocketAddr)
    (sent : result unit error) (h : HostProcess) : option (result SocketAddr error * HostProcess) :=
  match bind with
  | Err e => Some (Err ["failed to bind a listener"; e], h)
  | Ok tt =>
      match request sent h Start with
      | None => None
      | Some (Ok (Ready text), h) =>
          match parse_endpoint parse text with
          | Ok a => Some (Ok a, set_endpoint h a)
          | Err e => Some (Err e, h)
          end
      | Some (Ok other, h) => Some (Err ["unexpected reply to start: " +:+ reply_debug other], h)
      | Some (Err e, h) => Some (Err e, h)
      end
  end.

Definition manager_endpoint (h : HostProcess) : result SocketAddr error :=
  ok_or ["host " +:+ pretty (hp_pid h) +:+ " has no endpoint yet"] (hp_endpoint h).

Definition manager_freeze (sent : result unit error) (h : HostProcess)
    : option (result N error * HostProcess) :=
  match request sent h Freeze with
  | None => None
  | Some (Ok (Protocol.Frozen coroutines), h) => Some (Ok coroutines, h)
  | Some (Ok other, h) => Some (Err ["unexpected reply to freeze: " +:+ reply_debug other], h)
  | Some (Err e, h) => Some (Err e, h)
  end.

Definition manager_initialize (sent : result unit error) (h : HostProcess)
    : option (result Z error * HostProcess) :=
  match request sent h Initialize with
  | None => None
  | Some (Ok (Exited RunInitializer status _), h) => Some (Ok status, h)
  | Some (Ok other, h) => Some (Err ["unexpected reply to initialize: " +:+ reply_debug other], h)
  | Some (Err e, h) => Some (Err e, h)
  end.

(** [fork]: [sockets] is the making of the channel pair and the listener,
    [own] what the clone's channel will answer. *)
Definition manager_fork (sockets : result unit error) (parse : string → option SocketAddr)
    (sent : result unit error) (own : list incoming) (h : HostProcess)
    : option (result (HostProcess * SocketAddr) error * HostProcess) :=
  match sockets with
  | Err e => Some (Err e, h)
  | Ok tt =>
      match request sent h Fork with
      | None => None
      | Some (Ok (Forked pid text), h) =>
          match parse_endpoint parse text with
          | Err e => Some (Err e, h)
          | Ok endpoint =>
              match reply (mkProcess pid own false [] (Some endpoint) []) with
              | None => None
              | Some (Ok (Forked _ _), child) => Some (Ok (child, endpoint), h)
              | Some (Ok other, _) =>
                  Some (Err ["unexpected announcement from clone " +:+ pretty pid +:+ ": " +:+
                             reply_debug other], h)
              | Some (Err e, _) => Some (Err e, h)
              end
          end
      | Some (Ok other, h) => Some (Err ["unexpected reply to fork: " +:+ reply_debug other], h)
      | Some (Err e, h) => Some (Err e, h)
      end
  end.

Definition unexpected_from (pid : N) (other : Reply) : error :=
  ["unexpected reply from host " +:+ pretty pid +:+ ": " +:+ reply_debug other].

Definition read_event (h : HostProcess) : option (result Reply error * HostProcess) :=
  match hp_incoming h with
  | [] => None
  | m :: i =>
      let h := set_incoming h i (hp_events h) in
      match m with
      | Err e => Some (Err e, h)
      | Ok None => Some (Err (closed_channel (hp_pid h)), h)
      | Ok (Some (ReplyError text)) => Some (Err (refused (hp_pid h) text), h)
      | Ok (Some (Exited run status pid)) => Some (Ok (Exited run status pid), h)
      | Ok (Some other) => Some (Err (unexpected_from (hp_pid h) other), h)
      end
  end.

(** [wait_exit], over the messages there are. *)
Fixpoint wait_exit_loop (pid : N) (i : list incoming) (events : list Reply)
    : option (result Z error * list incoming * list Reply) :=
  match i with
  | [] => None
  | Err e :: i => Some (Err e, i, events)
  | Ok None :: i => Some (Err (closed_channel pid), i, events)
  | Ok (Some (ReplyError text)) :: i => Some (Err (refused pid text), i, events)
  | Ok (Some (Exited RunGuest status _)) :: i => Some (Ok status, i, events)
  | Ok (Some (Exited run status clone)) :: i =>
      wait_exit_loop pid i (events ++ [Exited run status clone])
  | Ok (Some other) :: i => Some (Err (unexpected_from pid other), i, events)
  end.

Definition wait_exit (h : HostProcess) : option (result Z error * HostProcess) :=
  match wait_exit_loop (hp_pid h) (hp_incoming h) (hp_events h) with
  | None => None
  | Some (r, i, e) => Some (r, set_incoming h i e)
  end.

Definition take_events (h : HostProcess) : list Reply * HostProcess :=
  (hp_events h, set_incoming h (hp_incoming h) []).

(** [wait_gone] for a clone: read until the channel ends. *)
Fixpoint drain_channel (i : list incoming) : option (result unit error) :=
  match i with
  | [] => None
  | Err e :: _ => Some (Err e)
  | Ok None :: _ => Some (Ok tt)
  | Ok (Some _) :: i => drain_channel i
  end.

(** [wait_gone]: [waited] is [child.wait()]. *)
Definition wait_gone (waited : result unit error) (h : HostProcess) : option (result unit error) :=
  if hp_child h then Some (with_context "failed to wait for the host" waited)
  else drain_channel (hp_incoming h).

(** [stop]: a failed send is ignored. *)
Definition manager_stop (sent : result unit error) (waited : result unit error) (h : HostProcess)
    : option (result unit error) :=
  wait_gone waited (match sent with Ok tt => add_sent h Stop | Err _ => h end).

(** [kill]: the signal goes to the host's process, and [wait_gone] waits. *)
Definition manager_kill (waited : result unit error) (h : HostProcess)
    : N * option (result unit error) :=
  (hp_pid h, wait_gone waited h).

(** ** What a call takes off the channel *)

(** The exit of a clone, as [logged_child_exit] (serve/templates.rs) tells it. *)
Definition child_exited (event : Reply) : bool :=
  match event with Exited RunChild _ _ => true | _ => false end.

Definition messages (l : list Reply) : list incoming := map (λ m, Ok (Some m)) l.

Lemma messages_app a b : messages (a ++ b) = messages a ++ messages b.
Proof. apply map_app. Qed.

(** What a successful [reply] takes off the channel. *)
Lemma reply_loop_ok host i events r i' events' :
  reply_loop host i events = Some (Ok r, i', events') →
  ∃ evs, i = messages evs ++ Ok (Some r) :: i' ∧ events' = events ++ evs ∧
    Forall (λ e, child_exited e = true) evs.
Proof.
  revert events. induction i as [|[[m|]|e] i IH]; intros events; simpl; try done.
  destruct m as [e|[] st pid|n|pid e|text]; try done;
    try (intros [= <- <- <-]; exists []; simpl; rewrite app_nil_r; by split_and!).
  intros (evs & -> & -> & Hall)%IH. exists (Exited RunChild st pid :: evs).
  rewrite <- app_assoc. split_and!; [done|done|]. by constructor.
Qed.

Lemma manager_fork_ok sockets parse sent own h child h' :
  manager_fork sockets parse sent own h = Some (Ok child, h') →
  ∃ evs pid e, hp_incoming h = messages evs ++ Ok (Some (Forked pid e)) :: hp_incoming h' ∧
    hp_events h' = hp_events h ++ evs ∧ Forall (λ e, child_exited e = true) evs.
Proof.
  unfold manager_fork, request. destruct sockets as [[]|]; [|done].
  destruct sent as [[]|]; [|done]. unfold reply. simpl.
  destruct (reply_loop _ (hp_incoming h) (hp_events h)) as [[[[r|e] i] ev]|] eqn:Hr; [|done..].
  apply reply_loop_ok in Hr as (evs & Hi & Hev & Hall).
  destruct r as [e|run st p|n|pid e|text]; try done.
  destruct (parse_endpoint parse e) as [a|]; [|done].
  destruct (reply_loop _ own []) as [[[[r'|e'] i'] ev']|]; [|done..].
  destruct r'; try done. intros [= <- <-]. simpl. eauto 7.
Qed.

(** ** A request gets its own reply *)

(** What of a host's trace goes out on its channel. *)
Definition wire_of (a : Action) : list Reply :=
  match a with AReply r => [r] | AEvent r => [r] | _ => [] end.
Definition wire (t : list Action) : list Reply := concat (map wire_of t).

Definition is_recv (a : Action) : Prop := ∃ q, a = ARecv q.

(** The replies a request can have. *)
Definition fitting (q : Request) (r : Reply) : Prop :=
  match q, r with
  | _, ReplyError _ => True
  | Protocol.Prepare, Exited RunPrepare _ None => True
  | Start, Ready _ => True
  | Start, Exited RunGuest _ None => True
  | Initialize, Exited RunInitializer _ None => True
  | Freeze, Protocol.Frozen _ => True
  | Fork, Forked _ _ => True
  | _, _ => False
  end.

Lemma wire_app t1 t2 : wire (t1 ++ t2) = wire t1 ++ wire t2.
Proof. unfold wire. by rewrite map_app, concat_app. Qed.

Lemma wire_cons a t : wire (a :: t) = wire_of a ++ wire t.
Proof. done. Qed.

Lemma over_run ph t s : spec_run (mkSpec ph Over) t s → s = mkSpec ph Over.
Proof.
  destruct t as [|a t]; intros Hrun.
  - inversion Hrun as [|t ? ? ? ? ? Heq]; [done|]. by destruct (app_cons_not_nil t [] a).
  - apply spec_run_cons in Hrun as (s1 & Hs & _). inversion Hs.
Qed.

Lemma spec_run_nil_inv s s' : spec_run s [] s' → s' = s.
Proof.
  intros Hrun. inversion Hrun as [|t ? a ? ? ? Heq]; [done|]. by destruct (app_cons_not_nil t [] a).
Qed.

(** A conversation that is idle stays so, sending only clones' exits, until
    the next request. *)
Lemma idle_wire t ph s :
  spec_run (mkSpec ph Idle) t s → Forall (λ a, ¬ is_recv a) t → sp_conv s = Idle →
  Forall child_exit (wire t).
Proof.
  revert ph. induction t as [|a t IH]; intros ph Hrun Hnr Hs; [constructor|].
  apply Forall_cons in Hnr as [Ha Hnr]. apply spec_run_cons in Hrun as (s1 & Hstep & Hrun).
  rewrite wire_cons. inversion Hstep; subst; simpl.
  - destruct Ha. by eexists.
  - destruct Ha. by eexists.
  - constructor; [done|]. by eapply IH.
  - apply over_run in Hrun as ->. done.
  - by eapply IH.
Qed.

(** A request being served ends in one fitting reply, clones' exits apart. *)
Lemma open_wire t ph q b s :
  spec_run (mkSpec ph (Open q b)) t s → Forall (λ a, ¬ is_recv a) t → AForkChild ∉ t →
  sp_conv s = Idle →
  ∃ evs r more, wire t = evs ++ r :: more ∧ Forall child_exit evs ∧ fitting q r ∧
    Forall child_exit more.
Proof.
  revert ph b. induction t as [|a t IH]; intros ph b Hrun Hnr Hnf Hs.
  { apply spec_run_nil_inv in Hrun as ->. done. }
  apply Forall_cons in Hnr as [Ha Hnr]. apply not_elem_of_cons in Hnf as [Hf Hnf].
  apply spec_run_cons in Hrun as (s1 & Hstep & Hrun). rewrite wire_cons.
  assert (∀ ph', spec_run (mkSpec ph' Idle) t s → Forall child_exit (wire t)) as Hidle.
  { intros ph' Hr. by eapply idle_wire. }
  assert (∀ r ph', spec_run (mkSpec ph' Idle) t s → fitting q r →
    ∃ evs r' more, [r] ++ wire t = evs ++ r' :: more ∧ Forall child_exit evs ∧ fitting q r' ∧
      Forall child_exit more) as Hreply.
  { intros r ph' Hr Hfit. exists [], r, (wire t). split_and!; eauto. }
  inversion Hstep; subst; simpl;
    try (by destruct Hf); try (by destruct Ha; eexists);
    try (by apply (Hreply _ _ Hrun));
    try (by apply over_run in Hrun as ->);
    try (by apply (IH _ _ Hrun)).
  - destruct (IH _ _ Hrun Hnr Hnf Hs) as (evs & r' & more & Hw & He & Hfit & Hm).
    exists (r :: evs), r', more. rewrite Hw. split_and!; auto.
  - apply (Hreply (ReplyError text) _ Hrun). by destruct q.
Qed.

Lemma reply_loop_events host evs i events :
  Forall child_exit evs →
  reply_loop host (map (λ m, Ok (Some m)) evs ++ i) events = reply_loop host i (events ++ evs).
Proof.
  intros He. revert events. induction He as [|r evs (st & pid & ->) _ IH]; intros events; simpl.
  - by rewrite app_nil_r.
  - rewrite IH. by rewrite <- app_assoc.
Qed.

(** C33: A request gets its own reply, and no clone's exit is lost.  Against a
    host that keeps to its protocol, while the manager sends one request at a
    time, [request] never blocks once the host has answered; it consumes exactly
    the clones' exits that came before the answer, keeping each of them, once
    and in order, in the events it returns to its caller, and the answer itself,
    which is of a kind that fits the request; what follows is left for the next
    call. *)
Theorem request_gets_its_reply h q t ph s rest :
  q ≠ Stop →
  spec_run (mkSpec ph Idle) (ARecv q :: t) s → sp_conv s = Idle →
  Forall (λ a, ¬ is_recv a) t → AForkChild ∉ t →
  hp_incoming h = map (λ m, Ok (Some m)) (wire t) ++ rest →
  ∃ evs r more,
    wire t = evs ++ r :: more ∧ fitting q r ∧
    request (Ok tt) h q =
      Some (match r with
            | ReplyError text => Err (refused (hp_pid h) text)
            | Exited RunGuest status _ => Err (guest_exited (hp_pid h) status)
            | r => Ok r
            end,
            mkProcess (hp_pid h) (map (λ m, Ok (Some m)) more ++ rest) (hp_child h)
              (hp_events h ++ evs) (hp_endpoint h) (hp_sent h ++ [q])).
Proof.
  intros Hq Hrun Hs Hnr Hnf Hin. apply spec_run_cons in Hrun as (s1 & Hstep & Hrun).
  assert (s1 = mkSpec ph (Open q false)) as -> by (inversion Hstep; subst; done).
  destruct (open_wire _ _ _ _ _ Hrun Hnr Hnf Hs) as (evs & r & more & Hw & He & Hfit & Hm).
  exists evs, r, more. split; [done|]. split; [done|].
  unfold request, reply. simpl. rewrite Hin, Hw, map_app, <- app_assoc.
  rewrite reply_loop_events by done. simpl.
  destruct r as [e|[] st pid|n|pid e|text]; try done. by destruct q.
Qed.

Module ManagerWitness.
Definition clone_gone : Reply := Exited RunChild 0 (Some 41%N).
(** A fork, its answer, and an event after it. *)
Definition forking : list Action :=
  [AForkParent 42; AReply (Forked 42 "127.0.0.1:4000"); AEvent clone_gone].

Lemma request_witness :
  ∃ evs r more, wire forking = evs ++ r :: more ∧ fitting Fork r.
Proof.
  edestruct (request_gets_its_reply
    (mkProcess 7 (map (λ m, Ok (Some m)) (wire forking)) true [] None []) Fork forking PhaseFrozen
    (mkSpec PhaseFrozen Idle) []) as (evs & r & more & Hw & Hf & _).
  - done.
  - change (ARecv Fork :: forking)
      with (((([] ++ [ARecv Fork]) ++ [AForkParent 42]) ++
             [AReply (Forked 42 "127.0.0.1:4000")]) ++ [AEvent clone_gone]).
    eapply spec_run_snoc; [eapply spec_run_snoc; [eapply spec_run_snoc;
      [eapply spec_run_snoc; [apply spec_run_nil|by apply sp_request]|apply sp_fork_parent]|
       apply sp_forked]|]. apply sp_child_idle. by eexists _, _.
  - reflexivity.
  - repeat constructor; intros [q Hq]; discriminate Hq.
  - intros Hin. repeat (apply elem_of_cons in Hin as [Hin|Hin]; [discriminate Hin|]).
    by apply elem_of_nil in Hin.
  - rewrite app_nil_r. reflexivity.
  - exists evs, r, more. split; [exact Hw|exact Hf].
Defined.
End ManagerWitness.
