(* ===== verification/Logging.v ===== *)
(** * Log directives

    Models src/crates/servicecache/src/logging.rs and the choice [run_with] of
    cli.rs makes before it: which directives a process logs under, by its flags
    and its environment, and what it writes before each line.  The filter that
    parses directives is tracing-subscriber's. *)

From S2P Require Import Prelude.

(** The targets the Wasmer patches log under. *)
Definition PATCH_TARGETS : list string :=
  ["wasmer_vm::trap::suspend"; "virtual_mio::selector"; "virtual_net::host"].

(** [directives_for]: [verbosity] is a [u8]. *)
Definition ours (level : string) : string :=
  join_with "," (map (λ target, target +:+ "=" +:+ level) ("servicecache" :: PATCH_TARGETS)).

Definition directives_for (verbosity : N) : string :=
  match verbosity with
  | 0%N => "warn"
  | 1%N => "warn,servicecache=info"
  | 2%N => "warn," +:+ ours "debug"
  | 3%N => "info," +:+ ours "trace"
  | _ => "trace"
  end.

(** The choice at the top of [init]; [environment] is [SERVICECACHE_LOG], when
    it is set and UTF-8. *)
Definition chosen (verbosity : N) (log environment : option string) : string :=
  match log, verbosity, environment with
  | Some log, _, _ => log
  | None, 0%N, Some environment => environment
  | None, verbosity, _ => directives_for verbosity
  end.

(** [{directives:?}] is the formatter's; [DIRECTIVES] is a [OnceLock]. *)
Definition init (debug : string → string) (try_new : string → result unit string)
    (verbosity : N) (log environment DIRECTIVES : option string)
    : result unit error * option string :=
  let directives := chosen verbosity log environment in
  match try_new directives with
  | Err e => (Err ["bad log directives " +:+ debug directives; e], DIRECTIVES)
  | Ok _ => (Ok tt, match DIRECTIVES with Some d => Some d | None => Some directives end)
  end.

(** [WithPid::format_event]: the prefix, then the line. *)
Definition format_event (pid : N) (inner : string) : string := "[" +:+ pretty pid +:+ "] " +:+ inner.

(** ** The verbosity a command starts with *)

(** [run_with], before it calls [init]: [serve] starts at [-v] unless a filter
    was chosen; [environment_set] is whether [SERVICECACHE_LOG] is set at all. *)
Definition starting_verbosity (is_serve : bool) (verbose : N) (log : option string)
    (environment_set : bool) : N :=
  if is_serve && bool_decide (verbose = 0%N) && bool_decide (log = None) && negb environment_set
  then 1%N else verbose.

(** The directives a command logs under. *)
Definition logs_under (debug : string → string) (try_new : string → result unit string)
    (is_serve : bool) (verbose : N) (log environment : option string) (environment_set : bool)
    : result unit error * option string :=
  init debug try_new (starting_verbosity is_serve verbose log environment_set) log environment None.

(** A host logs like its manager.  Whatever flags and environment the
    manager was started with, the directives it ended up with, which are what it
    passes to a host with [--log], are those the host logs under, whatever the
    host's own environment says; and so on down the chain of processes. *)
Theorem hosts_log_like_their_manager debug try_new is_serve verbose log environment set d
    host_environment host_set :
  logs_under debug try_new is_serve verbose log environment set = (Ok tt, Some d) →
  logs_under debug try_new false 0 (Some d) host_environment host_set = (Ok tt, Some d).
Proof.
  unfold logs_under, init. generalize (starting_verbosity is_serve verbose log set). intros v.
  destruct (try_new (chosen v log environment)) as [[]|e] eqn:Ht; [|done].
  intros [= <-]. simpl. by rewrite Ht.
Qed.

Lemma hosts_log_like_their_manager_witness :
  logs_under (λ s, s) (λ _, Ok tt) false 0 (Some "warn,servicecache=info") (Some "trace") true
    = (Ok tt, Some "warn,servicecache=info").
Proof.
  apply (hosts_log_like_their_manager (λ s, s) (λ _, Ok tt) true 0 None None false). reflexivity.
Defined.

(** A chosen filter is used as it is; otherwise each [-v] adds targets. *)
Example verbosity_two :
  directives_for 2 =
  "warn,servicecache=debug,wasmer_vm::trap::suspend=debug,virtual_mio::selector=debug,virtual_net::host=debug".
Proof. reflexivity. Qed.
