(* ===== verification/Spawn.v ===== *)
(** * Spawning a host

    Models [HostProcess::spawn_with_binary] of src/crates/servicecache/src/manager.rs,
    with [Channel::pair] of host/protocol.rs and [run] of host/mod.rs at the other
    end: the command line of a host, the descriptors it inherits, and its death
    with the manager.

    A process's descriptors are a map from numbers to open files with their
    close-on-exec flag; what [socketpair], [dup2], [fork] and [exec] do to it is
    what POSIX says. *)

From S2P Require Import Prelude Paths Title.

(** ** The command line *)

Definition HOST_CONTROL_FD : nat := 3.

(** The padding argument. *)
Definition BUFFER_FLAG : string := "--internal-name-buffer".
Definition BUFFER_LEN : nat := 256.
Definition LABEL : string := "_SERVICECACHE_NAME_BUFFER".

(** [bytes[i] = PREFIX[i]] and [bytes[i + j] = LABEL[j]]: write [s] over [buf]
    from [at]; [None] is an index out of bounds. *)
Fixpoint write_over (buf : list ascii) (start : nat) (s : list ascii) : option (list ascii) :=
  match s with
  | [] => Some buf
  | c :: s =>
      if decide (start < length buf) then write_over (<[start := c]> buf) (S start) s else None
  end.

(** The constant as the compiler evaluates it. *)
Definition buffer_arg : option (list ascii) :=
  let prefix := String.list_ascii_of_string BUFFER_FLAG in
  bytes ← write_over (replicate BUFFER_LEN "_"%char) 0 prefix;
  bytes ← write_over bytes (length prefix) ["="%char];
  write_over bytes (S (length prefix)) (String.list_ascii_of_string LABEL).
Definition BUFFER_ARG : string := default "" (String.string_of_list_ascii <$> buffer_arg).

(** The arguments of [<binary>]. *)
Definition host_arguments (manifest cache_dir : path) (directives : option string) : list string :=
  ["host"; "--manifest"; manifest; "--control-fd"; pretty HOST_CONTROL_FD; "--cache-dir"; cache_dir;
   BUFFER_ARG] ++
  match directives with Some d => ["--log"; d] | None => [] end.

(** [HostProcess::spawn]: the manager's own binary, run as a host. *)
Definition spawn_command (current_exe : result path error) (manifest cache_dir : path)
    (directives : option string) : result (path * list string) error :=
  let? binary := with_context "failed to locate this binary" current_exe in
  Ok (binary, host_arguments manifest cache_dir directives).

(** ** Descriptors *)

Record Open : Type := mkOpen { file : nat; cloexec : bool }.
Abbreviation Table := (gmap nat Open) (only parsing).

(** The lowest number that is not taken. *)
Definition lowest (t : Table) : nat :=
  default 0 (head (filter (λ n, t !! n = None) (seq 0 (S (size t))))).

(** [socketpair] with [SOCK_CLOEXEC]; [a] and [b] are the new ends. *)
Definition pair (a b : nat) (t : Table) : nat * nat * Table :=
  let x := lowest t in
  let t := <[x := mkOpen a true]> t in
  let y := lowest t in
  (x, y, <[y := mkOpen b true]> t).

(** [dup2]: nothing when the numbers are the same, otherwise a copy without the
    flag. *)
Definition dup2 (from to : nat) (t : Table) : option Table :=
  match t !! from with
  | None => None
  | Some o => Some (if decide (from = to) then t else <[to := mkOpen (file o) false]> t)
  end.

(** [exec] closes what is flagged. *)
Definition exec_table (t : Table) : Table := filter (λ x, cloexec x.2 = false) t.

(** The manager's descriptors, its end, and the host's descriptors after its
    [exec]; standard input is [/dev/null], a file of its own. *)
Definition spawn_descriptors (a b null : nat) (t : Table) : option (nat * Table * Table) :=
  let '(ours, theirs, t) := pair a b t in
  child ← dup2 theirs HOST_CONTROL_FD (<[0 := mkOpen null false]> t);
  Some (ours, delete theirs t, exec_table child).

(** ** Death with the manager *)

(** What a new process does about its parent, and what may happen to that. *)
Inductive Moment : Type := Prctl | Getppid | ParentDies.

Record Child : Type := mkChild { armed : bool; orphan : bool; ended : bool }.
Definition forked_child : Child := mkChild false false false.

(** The kernel sends the signal when the parent dies after [prctl]; a process
    that looks exits when its parent is no longer the one it had. *)
Definition child_step (c : Child) (m : Moment) : Child :=
  if ended c then c
  else match m with
  | Prctl => mkChild true (orphan c) false
  | Getppid => mkChild (armed c) (orphan c) (orphan c)
  | ParentDies => mkChild (armed c) true (armed c)
  end.
Definition child_run (ms : list Moment) : Child := foldl child_step forked_child ms.

(** The calls of the hook [spawn_with_binary] runs between fork and exec, and
    those of [rebuild] in a clone. *)
Definition hook_calls : list Moment := [Prctl; Getppid].
Definition rebuild_calls : list Moment := [Prctl].

(** The hook: [Err] with what failed, [Ok false] to exit. *)
Definition pre_exec (theirs : nat) (prctl : bool) (getppid parent : N) (t : Table)
    : result (bool * Table) string :=
  match dup2 theirs HOST_CONTROL_FD t with
  | None => Err "dup2"
  | Some t =>
      if negb prctl then Err "prctl"
      else Ok (bool_decide (getppid = parent), t)
  end.

(** ** The padding *)

(** The argument is as long as it is meant to be, starts with its flag and
    an equals sign, and is never an index out of bounds. *)
Lemma buffer_arg_exact :
  String.length BUFFER_ARG = BUFFER_LEN ∧
  BUFFER_ARG = BUFFER_FLAG +:+ "=" +:+ LABEL +:+
    String.string_of_list_ascii (replicate (256 - 23 - 25) "_"%char).
Proof. split; vm_compute; reflexivity. Qed.

(** ** The host finds its channel *)

Lemma lowest_spec t n : (∀ k, k < n → is_Some (t !! k)) → t !! n = None → lowest t = n.
Proof.
  intros Hk Hn. unfold lowest.
  assert (n ≤ size t) as Hle.
  { assert (set_seq 0 n ⊆@{gset nat} dom t) as Hsub.
    { intros k. rewrite elem_of_set_seq, elem_of_dom. intros [_ Hlt]. apply Hk. lia. }
    apply subseteq_size in Hsub. rewrite size_dom in Hsub.
    by rewrite size_set_seq in Hsub. }
  replace (S (size t)) with (n + S (size t - n)) by lia.
  rewrite seq_app, filter_app. simpl. rewrite filter_cons_True by done.
  assert (filter (λ m, t !! m = None) (seq 0 n) = []) as ->; [|done].
  destruct (filter _ (seq 0 n)) as [|k l] eqn:E; [done|].
  assert (k ∈ filter (λ m, t !! m = None) (seq 0 n)) as Hin by (rewrite E; left).
  apply list_elem_of_filter in Hin as [Hnone Hseq%elem_of_seq].
  destruct (Hk k) as [? Hs]; [lia|]. congruence.
Qed.

(** The first number a process has free. *)
Lemma lowest_free t : t !! lowest t = None ∧ ∀ k, k < lowest t → is_Some (t !! k).
Proof.
  assert (∃ n, t !! n = None ∧ ∀ k, k < n → is_Some (t !! k)) as (n & Hn & Hk).
  { pose proof (is_fresh (dom t : gset nat)) as Hf. apply not_elem_of_dom in Hf.
    revert Hf. generalize (fresh (dom t : gset nat)). intros n.
    induction n as [n IH] using lt_wf_ind. intros Hn.
    destruct (decide (Forall (λ k, is_Some (t !! k)) (seq 0 n))) as [Hall|Hex].
    - exists n. split; [done|]. intros k Hlt. rewrite Forall_forall in Hall. apply Hall, elem_of_seq. lia.
    - apply not_Forall_Exists in Hex; [|apply _]. apply Exists_exists in Hex as (k & Hk & Hnone).
      apply elem_of_seq in Hk. apply (IH k); [lia|]. by apply eq_None_not_Some. }
  by rewrite (lowest_spec t n Hk Hn).
Qed.

(** A host finds its channel, and no other descriptor of the manager's.  In
    a manager whose standard descriptors are open, as Rust's runtime sees to,
    whatever else it has open, the host's descriptor 3 is its end of the
    channel, standard input is /dev/null, and every other descriptor the host
    has is one of the manager's own that was not flagged to close; the manager
    keeps its end under a number it had free, and does not keep the host's. *)
Theorem spawned_host_finds_its_channel a b null (t : Table) :
  (∀ k, k < 3 → is_Some (t !! k)) →
  ∃ ours manager host,
    spawn_descriptors a b null t = Some (ours, manager, host) ∧
    host !! HOST_CONTROL_FD = Some (mkOpen b false) ∧
    host !! 0 = Some (mkOpen null false) ∧
    (∀ n, n ≠ 0 → n ≠ HOST_CONTROL_FD →
       host !! n = (o ← t !! n; if cloexec o then None else Some o)) ∧
    t !! ours = None ∧ manager = <[ours := mkOpen a true]> t.
Proof.
  intros Hstd. unfold spawn_descriptors, pair. set (x := lowest t). set (t1 := <[x := mkOpen a true]> t).
  set (y := lowest t1).
  destruct (lowest_free t) as [Hx Hxk]. destruct (lowest_free t1) as [Hy Hyk]. fold x in Hx, Hxk. fold y in Hy, Hyk.
  assert (3 ≤ x) as Hx3.
  { destruct (decide (3 ≤ x)); [done|]. destruct (Hstd x) as [? Hs]; [lia|]. congruence. }
  assert (x ≠ y) as Hxy by (intros Heq; unfold t1 in Hy; rewrite Heq, lookup_insert_eq in Hy; done).
  assert (x < y) as Hlt.
  { destruct (decide (x < y)); [done|]. assert (y < x) as Hyx by lia. destruct (Hxk y Hyx) as [? Hs].
    unfold t1 in Hy. rewrite lookup_insert_ne in Hy by done. congruence. }
  unfold dup2. rewrite lookup_insert_ne, lookup_insert_eq by lia. cbn [mbind option_bind file].
  rewrite decide_False by (unfold HOST_CONTROL_FD; lia).
  eexists _, _, _. split; [done|]. unfold exec_table. split_and!.
  - apply map_lookup_filter_Some. split; [by rewrite lookup_insert_eq|done].
  - apply map_lookup_filter_Some. split; [|done]. rewrite lookup_insert_ne by done. by rewrite lookup_insert_eq.
  - intros n H0 H3. rewrite map_lookup_filter, lookup_insert_ne, lookup_insert_ne by done.
    destruct (decide (n = y)) as [->|Hny].
    { rewrite lookup_insert_eq. simpl. unfold t1 in Hy. rewrite lookup_insert_ne in Hy by done. by rewrite Hy. }
    rewrite lookup_insert_ne by done. unfold t1. destruct (decide (n = x)) as [->|Hnx].
    { rewrite lookup_insert_eq. simpl. by rewrite Hx. }
    rewrite lookup_insert_ne by done. destruct (t !! n) as [[f []]|]; done.
  - done.
  - unfold t1 in *. by rewrite delete_insert_id.
Qed.

Module SpawnWitness.
Definition std : Table := {[0 := mkOpen 10 false; 1 := mkOpen 11 false; 2 := mkOpen 12 false]}.
Lemma spawned_witness :
  ∃ ours manager host, spawn_descriptors 20 21 22 std = Some (ours, manager, host) ∧
    host !! HOST_CONTROL_FD = Some (mkOpen 21 false) ∧ manager !! 3 = Some (mkOpen 20 true).
Proof.
  destruct (spawned_host_finds_its_channel 20 21 22 std) as (ours & manager & host & H & Hc & _).
  - intros [|[|[|k]]] Hk; [by eexists..|lia].
  - exists ours, manager, host. split; [exact H|]. split; [exact Hc|].
    vm_compute in H. injection H as <- <- <-. reflexivity.
Defined.

(** With a standard descriptor closed, the host's end gets number 3 itself:
    [dup2] then does nothing, and the host is left without its channel. *)
Example closed_standard_input :
  (λ x, x.2 !! HOST_CONTROL_FD) <$> spawn_descriptors 20 21 22 (delete 0 std) = Some None.
Proof. vm_compute. reflexivity. Qed.
End SpawnWitness.

(** A host dies with its manager: whenever the manager dies after the fork, the
    host has ended once both have happened; otherwise it lives. *)
Lemma host_dies_with_its_manager l r :
  l ++ r = hook_calls →
  ended (child_run (l ++ ParentDies :: r)) = true ∧ ended (child_run hook_calls) = false.
Proof.
  unfold hook_calls. intros H. split; [|done].
  destruct l as [|a [|b [|c l]]]; simplify_eq/=; try done.
Qed.

(** A clone asks for the signal and does not look: when its template dies before
    it has asked, it lives on. *)
Lemma clone_may_outlive_its_template :
  ended (child_run (ParentDies :: rebuild_calls)) = false ∧
  orphan (child_run (ParentDies :: rebuild_calls)) = true.
Proof. done. Qed.
