(* ===== verification/Owner.v ===== *)
(** * The owner thread of a template

    Models the owner side of src/crates/servicecache/src/serve/templates.rs:
    bringing a template to frozen ([base_owner], [recipe_owner],
    [freeze_and_serve]), serving forks ([serve_forks]) and draining the exits
    its host reports ([drain_events]).

    The host is the [HostProcess] of Manager.v.  One [Turn] is one round of the
    loop of [serve_forks]: what [recv_timeout] returned, the time, and what the
    calls made in that round meet.  Times are seconds from the freeze. *)

From S2P Require Import Prelude Net Protocol Host Manager Api.

(** ** Draining events *)

(** What one [poll] of the host's channel answers. *)
Inductive Polled : Type := NothingReady | SomethingReady | Interrupted | PollFailed.

(** [drain_events]: the exits counted, [None] when the channel is gone, and
    the process afterwards; no answer while it still polls or reads. *)
Fixpoint drain_events (polls : list Polled) (h : HostProcess) (exits : N)
    : option (option N * HostProcess) :=
  match polls with
  | [] => None
  | NothingReady :: _ => Some (Some exits, h)
  | Interrupted :: polls => drain_events polls h exits
  | PollFailed :: _ => Some (None, h)
  | SomethingReady :: polls =>
      match read_event h with
      | None => None
      | Some (Ok event, h) => drain_events polls h (if child_exited event then exits + 1 else exits)
      | Some (Err _, h) => Some (None, h)
      end
  end.

(** ** Serving forks *)

Inductive Received : Type := CommandFork | TimedOut | Disconnected.

Record Turn : Type := mkTurn {
  t_received : Received;
  (** [Instant::now()] when the round looks at the clock. *)
  t_now : N;
  (** What [host.fork()] meets. *)
  t_sockets : result unit error;
  t_sent : result unit error;
  t_own : list incoming;
  (** The [poll]s of [drain_events]. *)
  t_polls : list Polled;
}.

Inductive Ending : Type :=
  | ForkFailed
  | HostGone
  | Expired
  | Stopped.

(** The owner's variables, with what it has answered so far. *)
Record Owner : Type := mkOwner {
  o_host : HostProcess;
  o_children : N;
  o_idle_since : N;
  o_alive : bool;
  (** Answers to fork commands, in order. *)
  o_answers : list (result (HostProcess * SocketAddr) error);
}.

(** [usize::saturating_sub]. *)
Definition saturating_sub (a b : N) : N := a - b.

(** How one turn ends: the loop goes on, the thread ends, or [host.fork()] or
    [drain_events] still waits for the host. *)
Inductive turned : Type :=
  | GoesOn (o : Owner)
  | Ends (o : Owner) (how : Ending)
  | Waits.

Section serve.
Context (parse : string → option SocketAddr) (ttl : N).

(** The events taken after a fork. *)
Definition count_exits (events : list Reply) (children : N) : N :=
  foldl (λ c e, if child_exited e then saturating_sub c 1 else c) children events.

Definition serve_turn (t : Turn) (o : Owner) : turned :=
  match t_received t with
  | CommandFork =>
      match manager_fork (t_sockets t) parse (t_sent t) (t_own t) (o_host o) with
      | None => Waits
      | Some (Err e, h) =>
          Ends (mkOwner h (o_children o) (o_idle_since o) false (o_answers o ++ [Err e])) ForkFailed
      | Some (Ok forked, h) =>
          let children := (o_children o + 1)%N in
          let (events, h) := take_events h in
          let children := count_exits events children in
          GoesOn (mkOwner h children
                    (if bool_decide (children = 0%N) then t_now t else o_idle_since o)
                    (o_alive o) (o_answers o ++ [Ok forked]))
      end
  | TimedOut =>
      match drain_events (t_polls t) (o_host o) 0 with
      | None => Waits
      | Some (None, h) =>
          Ends (mkOwner h (o_children o) (o_idle_since o) false (o_answers o)) HostGone
      | Some (Some exits, h) =>
          let children :=
            if bool_decide (0 < exits)%N then saturating_sub (o_children o) exits
            else o_children o in
          let idle_since :=
            if bool_decide (0 < exits ∧ children = 0)%N then t_now t else o_idle_since o in
          let o := mkOwner h children idle_since (o_alive o) (o_answers o) in
          if bool_decide (children = 0 ∧ ttl <= t_now t - idle_since)%N then
            Ends (mkOwner h children idle_since false (o_answers o)) Expired
          else GoesOn o
      end
  | Disconnected =>
      Ends (mkOwner (o_host o) (o_children o) (o_idle_since o) false (o_answers o)) Stopped
  end.

Fixpoint serve_turns (turns : list Turn) (o : Owner) : turned :=
  match turns with
  | [] => GoesOn o
  | t :: turns =>
      match serve_turn t o with
      | GoesOn o => serve_turns turns o
      | r => r
      end
  end.

(** [serve_forks], from the freeze at time [now]. *)
Definition serve_forks (now : N) (h : HostProcess) (turns : list Turn) : turned :=
  serve_turns turns (mkOwner h 0 now true []).

(** ** Bringing a template up *)

(** How the owner leaves its host: [kill]ed or [stop]ped, both of which wait for
    it to go, or only dropped, which closes the channel. *)
Inductive Left : Type :=
  | NoHost
  | KilledHost (h : HostProcess)
  | StoppedHost (h : HostProcess)
  | DroppedHost (h : HostProcess).

(** What the owner tells its creator and does with its host; then the serving;
    [Pending] while a request is still unanswered. *)
Inductive owned : Type :=
  | Refused (p : Problem) (left : Left)
  | GaveUp (left : Left)
  | Serving_ (r : turned)
  | Pending.

Definition freeze_and_serve (sent : result unit error) (listening : bool) (now : N)
    (h : HostProcess) (turns : list Turn) : owned :=
  match manager_freeze sent h with
  | None => Pending
  | Some (Err e, h) => Refused (bring_up_failed e) (DroppedHost h)
  | Some (Ok _, h) =>
      if listening then Serving_ (serve_forks now h turns) else GaveUp (StoppedHost h)
  end.

Definition recipe_owner (sent_init sent_freeze : result unit error) (listening : bool) (now : N)
    (h : HostProcess) (turns : list Turn) : owned :=
  match manager_initialize sent_init h with
  | None => Pending
  | Some (Ok 0%Z, h) => freeze_and_serve sent_freeze listening now h turns
  | Some (Ok status, h) => Refused (initializer_failed status) (KilledHost h)
  | Some (Err e, h) => Refused (bring_up_failed e) (KilledHost h)
  end.

Definition base_owner (spawned : result HostProcess error) (has_prepare : bool)
    (sent_prepare : result unit error) (bound : result unit string)
    (sent_start sent_freeze : result unit error) (listening : bool) (now : N)
    (turns : list Turn) : owned :=
  match spawned with
  | Err e => Refused (bring_up_failed e) NoHost
  | Ok h =>
      let start h :=
        match manager_start bound parse sent_start h with
        | None => Pending
        | Some (Err e, h) => Refused (bring_up_failed e) (KilledHost h)
        | Some (Ok _, h) => freeze_and_serve sent_freeze listening now h turns
        end in
      if has_prepare then
        match manager_prepare sent_prepare h with
        | None => Pending
        | Some (Ok 0%Z, h) => start h
        | Some (Ok status, h) => Refused (prepare_failed status) (KilledHost h)
        | Some (Err e, h) => Refused (bring_up_failed e) (KilledHost h)
        end
      else start h
  end.
End serve.

(** How an owner that served leaves its host. *)
Definition ending_left (how : Ending) (h : HostProcess) : Left :=
  match how with
  | ForkFailed | HostGone => KilledHost h
  | Expired | Stopped => StoppedHost h
  end.

(** How an owner that has ended leaves its host. *)
Definition left_of (o : owned) : option Left :=
  match o with
  | Refused _ l | GaveUp l => Some l
  | Serving_ (Ends o how) => Some (ending_left how (o_host o))
  | Serving_ (GoesOn _) | Serving_ Waits | Pending => None
  end.

(** ** The ledger *)

Definition is_fork (m : incoming) : bool :=
  match m with Ok (Some (Forked _ _)) => true | _ => false end.
Definition is_exit (m : incoming) : bool :=
  match m with Ok (Some r) => child_exited r | _ => false end.

Definition count (f : incoming → bool) (i : list incoming) : N :=
  N.of_nat (length (List.filter f i)).
Definition forks : list incoming → N := count is_fork.
Definition exits : list incoming → N := count is_exit.

Lemma count_app f a b : count f (a ++ b) = (count f a + count f b)%N.
Proof. unfold count. rewrite List.filter_app, length_app. lia. Qed.

Lemma forks_children evs : Forall (λ e, child_exited e = true) evs → forks (messages evs) = 0%N.
Proof.
  unfold forks, count. induction 1 as [|e evs He _ IH]; [done|]. simpl.
  destruct e as [|[] ? ?| | |]; try done.
Qed.

Lemma exits_children evs :
  Forall (λ e, child_exited e = true) evs → exits (messages evs) = N.of_nat (length evs).
Proof.
  unfold exits, count. induction 1 as [|e evs He _ IH]; [done|]. simpl. rewrite He. simpl. lia.
Qed.

(** The host never reports an exit before it has answered the fork of that
    clone. *)
Definition exits_follow_forks (i : list incoming) : Prop :=
  ∀ past rest, i = past ++ rest → (exits past <= forks past)%N.

Lemma count_exits_all events children :
  Forall (λ e, child_exited e = true) events →
  count_exits events children = (children - N.of_nat (length events))%N.
Proof.
  unfold count_exits. intros Hall. revert children.
  induction Hall as [|e events He _ IH]; intros children; simpl; [lia|].
  rewrite He, IH. unfold saturating_sub. lia.
Qed.

Section ledger.
Context (parse : string → option SocketAddr) (ttl : N).

Definition oks (answers : list (result (HostProcess * SocketAddr) error)) : N :=
  N.of_nat (length (List.filter is_ok answers)).

(** The invariant of the loop, after the turns [past]. *)
Definition ledger (h0 : HostProcess) (past : list Turn) (o : Owner) : Prop :=
  ∃ consumed,
    hp_incoming h0 = consumed ++ hp_incoming (o_host o) ∧ hp_events (o_host o) = [] ∧
    o_children o = (forks consumed - exits consumed)%N ∧ forks consumed = oks (o_answers o) ∧
    o_alive o = true ∧
    (o_children o = 0%N → Forall (λ t, t_received t = CommandFork → (t_now t <= o_idle_since o)%N) past).

Lemma read_event_ok h r h' :
  read_event h = Some (Ok r, h') →
  hp_incoming h = Ok (Some r) :: hp_incoming h' ∧ hp_events h' = hp_events h ∧
  (∃ run st pid, r = Exited run st pid).
Proof.
  unfold read_event. destruct (hp_incoming h) as [|[[[]|]|] i]; try done.
  intros [= <- <-]. simpl. eauto 7.
Qed.

Lemma drain_events_some polls h n e h' :
  drain_events polls h n = Some (Some e, h') →
  ∃ evs, hp_incoming h = messages evs ++ hp_incoming h' ∧ hp_events h' = hp_events h ∧
    forks (messages evs) = 0%N ∧ e = (n + exits (messages evs))%N.
Proof.
  revert h n. induction polls as [|[| | |] polls IH]; intros h n; simpl; try done.
  - intros [= <- <-]. exists []. simpl. split_and!; try done. unfold exits, count. simpl. lia.
  - destruct (read_event h) as [[[r|e'] h1]|] eqn:Hr; [|done..].
    apply read_event_ok in Hr as (Hi & Hev & run & st & pid & ->).
      intros (evs & Hi1 & Hev1 & Hf & ->)%IH. exists (Exited run st pid :: evs).
      split_and!; [by rewrite Hi, Hi1|congruence|done|].
      unfold exits, count in *. simpl. destruct run; simpl; lia.
  - apply IH.
Qed.

(** What a turn leaves: the invariant, or an end, and an expiry only of what is
    unused. *)
Definition turn_kept (h0 : HostProcess) (past : list Turn) (t : Turn) (r : turned) : Prop :=
  match r with
  | GoesOn o' => ledger h0 (past ++ [t]) o'
  | Ends o' Expired => o_alive o' = false ∧
      ∃ consumed, hp_incoming h0 = consumed ++ hp_incoming (o_host o') ∧
        forks consumed = exits consumed ∧
        Forall (λ t', t_received t' = CommandFork → (t_now t' + ttl <= t_now t)%N) past
  | Ends o' _ => o_alive o' = false
  | Waits => True
  end.

Lemma fork_turn_ledger h0 past t o :
  t_received t = CommandFork →
  exits_follow_forks (hp_incoming h0) → ledger h0 past o →
  (∀ t', t' ∈ past → (t_now t' <= t_now t)%N) → turn_kept h0 past t (serve_turn parse ttl t o).
Proof.
  intros Hrec Hco (consumed & Hin & Hev & Hch & Hok & Hal & Hidle) Hclock.
  unfold serve_turn. rewrite Hrec.
  destruct (manager_fork _ _ _ _ _) as [[[child|e] h']|] eqn:Hf; [|done|done].
  apply manager_fork_ok in Hf as (evs & pid & e & Hi & He & Hall).
  rewrite Hev in He. simpl in He.
  unfold take_events. rewrite He, (count_exits_all evs) by done.
  exists (consumed ++ messages evs ++ [Ok (Some (Forked pid e))]).
  assert (forks (consumed ++ messages evs ++ [Ok (Some (Forked pid e))]) = (forks consumed + 1)%N) as Hfk.
  { unfold forks. rewrite !count_app. pose proof (forks_children evs Hall) as H0.
    unfold forks in H0. rewrite H0. unfold count at 2. simpl. lia. }
  assert (exits (consumed ++ messages evs ++ [Ok (Some (Forked pid e))]) =
          (exits consumed + N.of_nat (length evs))%N) as Hex.
  { unfold exits. rewrite !count_app. pose proof (exits_children evs Hall) as H0.
    unfold exits in H0. rewrite H0. unfold count at 2. simpl. lia. }
  assert (exits (consumed ++ messages evs) <= forks (consumed ++ messages evs))%N as Hle.
  { eapply Hco. by rewrite Hin, Hi, app_assoc. }
  unfold forks, exits in Hle. rewrite !count_app in Hle. fold forks exits in Hle.
  rewrite (forks_children evs Hall), (exits_children evs Hall) in Hle.
  split_and!; simpl.
  - by rewrite Hin, Hi, <- !app_assoc.
  - done.
  - rewrite Hfk, Hex, Hch. lia.
  - rewrite Hfk, Hok. unfold oks. rewrite List.filter_app, length_app. simpl. lia.
  - done.
  - intros Hz. rewrite bool_decide_true by done. apply Forall_app. split.
    + apply Forall_forall. intros t' Ht' _. by apply Hclock.
    + constructor; [lia|done].
Qed.

Lemma timeout_turn_ledger h0 past t o :
  t_received t = TimedOut →
  exits_follow_forks (hp_incoming h0) → ledger h0 past o →
  (∀ t', t' ∈ past → (t_now t' <= t_now t)%N) → turn_kept h0 past t (serve_turn parse ttl t o).
Proof.
  intros Hrec Hco (consumed & Hin & Hev & Hch & Hok & Hal & Hidle) Hclock.
  unfold serve_turn. rewrite Hrec.
  destruct (drain_events _ _ _) as [[[n|] h']|] eqn:Hd; [|done..].
  apply drain_events_some in Hd as (evs & Hi & He & Hf & Hn). rewrite N.add_0_l in Hn.
  assert (exits (consumed ++ messages evs) <= forks (consumed ++ messages evs))%N as Hle.
  { eapply Hco. by rewrite Hin, Hi, app_assoc. }
  assert (forks (consumed ++ messages evs) = forks consumed) as Hfk
    by (unfold forks in *; rewrite count_app; lia).
  assert (exits (consumed ++ messages evs) = (exits consumed + n)%N) as Hex
    by (unfold exits in *; rewrite count_app; lia).
  assert (∀ c, (if bool_decide (0 < n)%N then saturating_sub c n else c) = (c - n)%N) as Hsat.
  { intros c. case_bool_decide; unfold saturating_sub; lia. }
  rewrite Hsat. clear Hsat. set (children := (o_children o - n)%N).
  set (idle := if bool_decide (0 < n ∧ children = 0)%N then t_now t else o_idle_since o).
  assert (children = 0%N →
    Forall (λ t', t_received t' = CommandFork → (t_now t' <= idle)%N) past) as Hnew.
  { intros Hz. unfold idle. case_bool_decide as Hd.
    - apply Forall_forall. intros t' Ht' _. by apply Hclock.
    - apply Hidle. unfold children in Hz. destruct (decide (n = 0%N)); [lia|].
      destruct Hd. split; [lia|done]. }
  case_bool_decide as Hexp.
  - split; [done|]. exists (consumed ++ messages evs). simpl.
    split_and!; [by rewrite Hin, Hi, <- app_assoc| |].
    + rewrite Hfk, Hex. rewrite Hfk, Hex in Hle. unfold children in Hexp. lia.
    + destruct Hexp as [Hz Ht]. specialize (Hnew Hz). rewrite Forall_forall in Hnew.
      apply Forall_forall. intros t' Ht' Hr. specialize (Hnew t' Ht' Hr).
      specialize (Hclock t' Ht'). lia.
  - exists (consumed ++ messages evs). simpl. split_and!.
    + by rewrite Hin, Hi, <- app_assoc.
    + congruence.
    + rewrite Hfk, Hex. unfold children. lia.
    + by rewrite Hfk.
    + done.
    + intros Hz. apply Forall_app. split; [by apply Hnew|].
      constructor; [by rewrite Hrec|done].
Qed.

Lemma serve_turn_ledger h0 past t o :
  exits_follow_forks (hp_incoming h0) → ledger h0 past o →
  (∀ t', t' ∈ past → (t_now t' <= t_now t)%N) → turn_kept h0 past t (serve_turn parse ttl t o).
Proof.
  intros Hco Hl Hclock. destruct (t_received t) eqn:Hrec;
    [by apply fork_turn_ledger|by apply timeout_turn_ledger|].
  unfold serve_turn. by rewrite Hrec.
Qed.

(** A clock that never goes back. *)
Definition clock_ok (turns : list Turn) : Prop :=
  StronglySorted (λ t t', t_now t <= t_now t')%N turns.

Lemma clock_before past t turns t' :
  clock_ok (past ++ t :: turns) → t' ∈ past → (t_now t' <= t_now t)%N.
Proof.
  intros Hc Ht'. apply list_elem_of_split in Ht' as (l1 & l2 & ->).
  unfold clock_ok in Hc. rewrite <- !app_assoc in Hc. apply StronglySorted_app in Hc as [_ Hc].
  simpl in Hc. destruct Hc as [_ Hc]. apply StronglySorted_inv in Hc as [_ Hf].
  rewrite Forall_forall in Hf. apply Hf. apply elem_of_app. right. by left.
Qed.

Lemma serve_turns_ledger h0 past turns o :
  exits_follow_forks (hp_incoming h0) → ledger h0 past o → clock_ok (past ++ turns) →
  match serve_turns parse ttl turns o with
  | GoesOn o' => ledger h0 (past ++ turns) o'
  | Ends o' _ => o_alive o' = false
  | Waits => True
  end.
Proof.
  intros Hco. revert past o. induction turns as [|t turns IH]; intros past o Hl Hc; simpl.
  { by rewrite app_nil_r. }
  assert (∀ t', t' ∈ past → (t_now t' <= t_now t)%N) as Hclock
    by (intros t'; by apply (clock_before _ _ turns)).
  pose proof (serve_turn_ledger h0 past t o Hco Hl Hclock) as Ht.
  destruct (serve_turn parse ttl t o) as [o'|o' [] |]; try done.
  - assert (clock_ok ((past ++ [t]) ++ turns)) as Hc' by (by rewrite <- app_assoc).
    specialize (IH _ _ Ht Hc'). by rewrite <- app_assoc in IH.
  - by destruct Ht.
Qed.
End ledger.

(** The freeze, as the turn before the first. *)
Definition freeze_turn (now : N) : Turn := mkTurn CommandFork now (Ok tt) (Ok tt) [] [].

Lemma serve_forks_ledger parse ttl now h turns :
  hp_events h = [] → exits_follow_forks (hp_incoming h) → clock_ok (freeze_turn now :: turns) →
  match serve_forks parse ttl now h turns with
  | GoesOn o => ledger h (freeze_turn now :: turns) o
  | Ends o _ => o_alive o = false
  | Waits => True
  end.
Proof.
  intros Hev Hco Hclock.
  apply (serve_turns_ledger parse ttl h [freeze_turn now] turns); [done| |done].
  exists []. simpl. split_and!; try done. intros _. constructor; [simpl; lia|done].
Qed.

(** *** Since when a template is unused *)

Section idle.
Context (parse : string → option SocketAddr) (ttl : N).

Lemma serve_turns_app a b o :
  serve_turns parse ttl (a ++ b) o =
  match serve_turns parse ttl a o with GoesOn o' => serve_turns parse ttl b o' | r => r end.
Proof.
  revert o. induction a as [|t a IH]; intros o; simpl; [done|].
  by destruct (serve_turn parse ttl t o).
Qed.

(** After a turn with no clone alive, the time kept is that of the turn, or
    there was none before and it is the time kept then. *)
Lemma turn_idle t o o' :
  serve_turn parse ttl t o = GoesOn o' ∨ serve_turn parse ttl t o = Ends o' Expired →
  o_children o' = 0%N →
  o_idle_since o' = t_now t ∨ o_children o = 0%N ∧ o_idle_since o' = o_idle_since o.
Proof.
  unfold serve_turn. destruct (t_received t).
  - destruct (manager_fork _ _ _ _ _) as [[[child|e] h']|]; [|by intros [?|?]..].
    destruct (take_events h') as [events h1]. intros [[= <-]|?]; [|done]. simpl.
    intros Hz. rewrite bool_decide_true by done. by left.
  - destruct (drain_events _ _ _) as [[[n|] h']|]; [|by intros [?|?]..].
    set (children := if bool_decide (0 < n)%N then _ else _).
    set (idle := if bool_decide (0 < n ∧ children = 0)%N then _ else _).
    assert (children = 0%N → idle = t_now t ∨ o_children o = 0%N ∧ idle = o_idle_since o) as H.
    { intros Hz. unfold idle. case_bool_decide as Hb; [by left|right]. split; [|done].
      unfold children in *. case_bool_decide as Hn; [|done]. by destruct Hb. }
    case_bool_decide; intros [[= <-]|[= <-]]; try done; by apply H.
  - by intros [?|?].
Qed.

(** A clone was counted as alive only before some turn at the time or
    earlier. *)
Definition busy_until (o0 : Owner) (turns : list Turn) (time : N) : Prop :=
  ∀ past rest o, turns = past ++ rest → serve_turns parse ttl past o0 = GoesOn o →
    (0 < o_children o)%N → ∃ t rest', rest = t :: rest' ∧ (t_now t <= time)%N.

(** At a turn's own time every turn so far was there; a state with no clone
    alive is not one of those in question. *)
Lemma busy_until_turn o0 turns t o time :
  clock_ok (turns ++ [t]) → serve_turns parse ttl turns o0 = GoesOn o →
  t_now t = time ∨ o_children o = 0%N ∧ busy_until o0 turns time →
  ∀ past rest o1, turns = past ++ rest → serve_turns parse ttl past o0 = GoesOn o1 →
    (0 < o_children o1)%N → ∃ t' rest', rest ++ [t] = t' :: rest' ∧ (t_now t' <= time)%N.
Proof.
  intros Hc Ho Htime past rest o1 Hp Ho1 Hpos. destruct Htime as [<-|[Hz Hb]].
  - destruct rest as [|t' rest]; [exists t, []; by split; [|lia]|].
    exists t', (rest ++ [t]). split; [done|]. apply (clock_before turns _ []); [done|].
    subst turns. apply elem_of_app. right. by left.
  - destruct (Hb past rest o1 Hp Ho1 Hpos) as (t' & rest' & -> & Hle). by exists t', (rest' ++ [t]).
Qed.

Lemma idle_since_last_use o0 turns o :
  o_children o0 = 0%N → clock_ok turns → serve_turns parse ttl turns o0 = GoesOn o →
  o_children o = 0%N → busy_until o0 turns (o_idle_since o).
Proof.
  intros H0. revert o. induction turns as [|t turns IH] using rev_ind; intros o Hc Ho Hz.
  - intros past rest o1 Hp Ho1 Hpos. symmetry in Hp. apply app_eq_nil in Hp as [-> ->].
    injection Ho1 as <-. lia.
  - rewrite serve_turns_app in Ho.
    destruct (serve_turns parse ttl turns o0) as [o1| |] eqn:Ho1; [|done..]. simpl in Ho.
    destruct (serve_turn parse ttl t o1) as [o2| |] eqn:Ht; [|done..]. injection Ho as <-.
    assert (t_now t = o_idle_since o2 ∨
            o_children o1 = 0%N ∧ busy_until o0 turns (o_idle_since o2)) as Htime.
    { destruct (turn_idle t o1 o2 (or_introl Ht) Hz) as [?|[Hz1 ->]]; [by left|right].
      split; [done|]. apply IH; try done. unfold clock_ok in *. by apply StronglySorted_app in Hc as (_ & ? & _). }
    intros past rest o3 Hp Ho3 Hpos. destruct rest as [|x rest _] using rev_ind.
    + rewrite app_nil_r in Hp. subst past. rewrite serve_turns_app, Ho1 in Ho3. simpl in Ho3.
      rewrite Ht in Ho3. injection Ho3 as <-. lia.
    + rewrite app_assoc in Hp. apply app_inj_tail in Hp as [Hp <-].
      by apply (busy_until_turn o0 turns t o1 (o_idle_since o2) Hc Ho1 Htime past rest o3).
Qed.

(** An owner that expires at a turn. *)
Lemma serve_turns_expired turns o0 o :
  serve_turns parse ttl turns o0 = Ends o Expired →
  ∃ before t after o1, turns = before ++ t :: after ∧ serve_turns parse ttl before o0 = GoesOn o1 ∧
    serve_turn parse ttl t o1 = Ends o Expired.
Proof.
  revert o0. induction turns as [|t turns IH]; intros o0; simpl; [done|].
  destruct (serve_turn parse ttl t o0) as [o1|o1 how|] eqn:Ht; [| |done].
  - intros (before & t' & after & o2 & -> & Hb & Ht')%IH. exists (t :: before), t', after, o2.
    split_and!; [done| |done]. simpl. by rewrite Ht.
  - intros [= <- ->]. by exists [], t, turns, o0.
Qed.

Lemma expired_turn t o o' :
  serve_turn parse ttl t o = Ends o' Expired →
  o_children o' = 0%N ∧ (ttl <= t_now t - o_idle_since o')%N.
Proof.
  unfold serve_turn. destruct (t_received t); [| |done].
  - by destruct (manager_fork _ _ _ _ _) as [[[child|e] h']|].
  - destruct (drain_events _ _ _) as [[[n|] h']|]; [|done..].
    case_bool_decide as Hd; [|done]. by intros [= <-].
Qed.

Lemma expired_since o0 before t o1 o :
  o_children o0 = 0%N → clock_ok (before ++ [t]) → serve_turns parse ttl before o0 = GoesOn o1 →
  serve_turn parse ttl t o1 = Ends o Expired →
  ∀ past rest o2, before = past ++ rest → serve_turns parse ttl past o0 = GoesOn o2 →
    (0 < o_children o2)%N → ∃ t' rest', rest ++ [t] = t' :: rest' ∧ (t_now t' + ttl <= t_now t)%N.
Proof.
  intros H0 Hc Ho1 Ht past rest o2 Hp Ho2 Hpos. destruct (expired_turn _ _ _ Ht) as [Hz Hle].
  assert (t_now t = o_idle_since o ∨
          o_children o1 = 0%N ∧ busy_until o0 before (o_idle_since o)) as Htime.
  { destruct (turn_idle t o1 o (or_intror Ht) Hz) as [?|[Hz1 ->]]; [by left|right].
    split; [done|]. apply idle_since_last_use; try done.
    unfold clock_ok in *. by apply StronglySorted_app in Hc as (_ & ? & _). }
  destruct (busy_until_turn o0 before t o1 _ Hc Ho1 Htime past rest o2 Hp Ho2 Hpos)
    as (t' & rest' & Hr & Hle').
  exists t', rest'. split; [done|]. assert (t_now t' <= t_now t)%N; [|lia].
  destruct rest as [|x rest]; injection Hr as -> _; [lia|]. apply (clock_before before _ []); [done|].
  subst before. apply elem_of_app. right. by left.
Qed.
End idle.

(** C19: A template expires only when nothing descends from it and nothing has
    for the TTL.  If the owner ends a template as expired, the exits its host
    reported account for every clone it was ever asked to fork, and the flag
    that keeps it from being handed out again is cleared.  It froze at least the
    TTL before; every fork it served was at least the TTL before; and whenever
    its count said that a clone was alive, the turn after that, the first that
    can have seen the last exit, was at least the TTL before: so the time runs
    from the last exit it counted, not from a fork. *)
Theorem template_expires_only_unused parse ttl now h turns o :
  hp_events h = [] → exits_follow_forks (hp_incoming h) → clock_ok (freeze_turn now :: turns) →
  serve_forks parse ttl now h turns = Ends o Expired →
  o_alive o = false ∧
  ∃ before t after consumed, turns = before ++ t :: after ∧
    hp_incoming h = consumed ++ hp_incoming (o_host o) ∧ forks consumed = exits consumed ∧
    (now + ttl <= t_now t)%N ∧
    (∀ t', t' ∈ before → t_received t' = CommandFork → (t_now t' + ttl <= t_now t)%N) ∧
    ∀ past rest o1, before = past ++ rest → serve_forks parse ttl now h past = GoesOn o1 →
      (0 < o_children o1)%N →
      ∃ t' rest', rest ++ [t] = t' :: rest' ∧ (t_now t' + ttl <= t_now t)%N.
Proof.
  intros Hev Hco Hclock Hrun. unfold serve_forks in Hrun.
  apply serve_turns_expired in Hrun as (before & t & after & o1 & -> & Hb & Ht).
  rewrite app_comm_cons in Hclock. pose proof Hclock as Hc.
  rewrite (app_assoc _ [t] after : _ = (_ ++ [t]) ++ after) in Hc.
  unfold clock_ok in Hc. apply StronglySorted_app in Hc as (_ & Hc & _).
  pose proof Hc as Hc1. apply StronglySorted_app in Hc1 as (_ & Hc1 & _).
  pose proof (serve_forks_ledger parse ttl now h before Hev Hco Hc1) as Hl.
  unfold serve_forks in Hl. rewrite Hb in Hl.
  pose proof (serve_turn_ledger parse ttl h _ t o1 Hco Hl (λ t', clock_before _ _ after t' Hclock)) as Hk.
  rewrite Ht in Hk. destruct Hk as (Ha & consumed & Hi & Hf & Hall). split; [done|].
  apply Forall_cons in Hall as [Hnow Hall]. rewrite Forall_forall in Hall.
  exists before, t, after, consumed. split_and!; auto.
  eapply expired_since; [done| |exact Hb|exact Ht]. by apply StronglySorted_inv in Hc as [? _].
Qed.

(** C16: The owner's count is the number of live descendants.  After any
    commands and timeouts, while the owner goes on, its count of children is
    the number of forks its host answered less the number of exits its host
    reported, over exactly the messages read so far, none of which is lost or
    counted twice; each answered fork was handed to one requester; and the
    template can still be handed out. *)
Theorem owner_counts_live_descendants parse ttl now h turns o :
  hp_events h = [] → exits_follow_forks (hp_incoming h) → clock_ok (freeze_turn now :: turns) →
  serve_forks parse ttl now h turns = GoesOn o →
  ∃ consumed, hp_incoming h = consumed ++ hp_incoming (o_host o) ∧
    o_children o = (forks consumed - exits consumed)%N ∧
    (exits consumed <= forks consumed)%N ∧
    forks consumed = oks (o_answers o) ∧ o_alive o = true.
Proof.
  intros Hev Hco Hclock Hrun. pose proof (serve_forks_ledger parse ttl now h turns Hev Hco Hclock) as H.
  rewrite Hrun in H. destruct H as (consumed & Hi & _ & Hc & Hf & Ha & _).
  exists consumed. split_and!; [done|done| |done|done]. by eapply Hco.
Qed.

Module OwnerWitness.
Definition addr : SocketAddr := mkAddr "127.0.0.1" 4000.
Definition parse (s : string) : option SocketAddr := Some addr.
Definition forked (pid : N) : incoming := Ok (Some (Forked pid "127.0.0.1:4000")).
Definition gone (pid : N) : incoming := Ok (Some (Exited RunChild 0 (Some pid))).
(** Two forks, the first clone's exit arriving during the second. *)
Definition channel : list incoming := [forked 2; gone 2; forked 3; gone 3].
Definition process : HostProcess := mkProcess 1 channel true [] None [].
Definition fork_turn (now : N) : Turn := mkTurn CommandFork now (Ok tt) (Ok tt) [forked 9] [].
Definition tick_turn (now : N) (polls : list Polled) : Turn :=
  mkTurn TimedOut now (Ok tt) (Ok tt) [] polls.
Definition turns : list Turn :=
  [fork_turn 1; tick_turn 2 [NothingReady]; fork_turn 3; tick_turn 4 [NothingReady];
   tick_turn 5 [SomethingReady; NothingReady]; tick_turn 8 [NothingReady];
   tick_turn 15 [NothingReady]].

Lemma coherent : exits_follow_forks channel.
Proof.
  intros past rest Heq. unfold channel in Heq.
  do 4 (destruct past as [|? past]; [vm_compute; discriminate|
    simpl in Heq; injection Heq as <- Heq]).
  destruct past as [|? past]; [vm_compute; discriminate|discriminate Heq].
Qed.

Lemma clock : clock_ok (freeze_turn 0 :: turns).
Proof. repeat constructor; vm_compute; discriminate. Qed.

Lemma expires_witness :
  ∃ o, serve_forks parse 10 0 process turns = Ends o Expired ∧ o_alive o = false.
Proof.
  eexists. split; [vm_compute; reflexivity|].
  eapply (template_expires_only_unused parse 10 0 process turns);
    [reflexivity|exact coherent|exact clock|vm_compute; reflexivity].
Defined.

Lemma counts_witness :
  ∃ o, serve_forks parse 10 0 process (take 3 turns) = GoesOn o ∧ o_children o = 1%N ∧
    ∃ consumed, channel = consumed ++ hp_incoming (o_host o) ∧
      o_children o = (forks consumed - exits consumed)%N.
Proof.
  eexists. split; [vm_compute; reflexivity|]. split; [reflexivity|].
  edestruct (owner_counts_live_descendants parse 10 0 process (take 3 turns))
    as (consumed & Hi & Hc & _);
    [reflexivity|exact coherent|repeat constructor; vm_compute; discriminate|vm_compute; reflexivity|].
  exists consumed. split; [exact Hi|exact Hc].
Defined.
End OwnerWitness.
