(* ===== verification/System.v ===== *)
(** * An owner and its host together

    The owner thread of Owner.v at one end of the control channel, a host process
    of Host.v at the other: what the owner reads is what the host has sent, in
    order, and then nothing more or an end.  The theorem is about the two
    programs, with no assumption about either: what an owner takes for a serving
    template is a host that is frozen, and each clone it hands out was forked
    after the freeze. *)

From S2P Require Import Prelude Net Protocol Manifest Paths Compaction Host Clone Manager Owner Api.

(** The end of a channel: whatever its reads answer, it is no message. *)
Definition no_message (m : incoming) : Prop := ∀ r, m ≠ Ok (Some r).

(** The clones a host forked in a trace. *)
Definition is_fork_parent (a : Action) : bool := match a with AForkParent _ => true | _ => false end.
Definition forked_in (t : list Action) : N := N.of_nat (length (List.filter is_fork_parent t)).

(** ** Reading what a host wrote *)

Lemma messages_split a tail evs r i :
  Forall no_message tail → messages a ++ tail = messages evs ++ Ok (Some r) :: i →
  ∃ b, a = evs ++ r :: b ∧ i = messages b ++ tail.
Proof.
  intros Ht. revert a. induction evs as [|e evs IH]; intros [|x a]; simpl.
  - intros Heq. destruct tail as [|m tail]; [done|]. injection Heq as -> _.
    apply Forall_cons in Ht as [Hm _]. by destruct (Hm r).
  - intros [= -> <-]. eauto.
  - intros Heq. destruct tail as [|m tail]; [done|]. injection Heq as -> _.
    apply Forall_cons in Ht as [Hm _]. by destruct (Hm e).
  - intros [= -> Heq]. apply IH in Heq as (b & -> & ->). eauto.
Qed.

(** A successful request took one message, behind clones' exits. *)
Lemma request_ok sent h q r h' :
  request sent h q = Some (Ok r, h') →
  ∃ evs, hp_incoming h = messages evs ++ Ok (Some r) :: hp_incoming h'.
Proof.
  unfold request, reply. destruct sent as [[]|]; [|done]. simpl.
  destruct (reply_loop _ _ _) as [[[x i] ev]|] eqn:Hr; [|done]. intros [= -> <-].
  apply reply_loop_ok in Hr as (evs & Hi & _). by exists evs.
Qed.

Lemma request_reads sent h q r h' a tail :
  Forall no_message tail → hp_incoming h = messages a ++ tail →
  request sent h q = Some (Ok r, h') →
  ∃ evs b, a = evs ++ r :: b ∧ hp_incoming h' = messages b ++ tail.
Proof.
  intros Ht Hi [evs He]%request_ok. rewrite Hi in He. apply messages_split in He as (b & -> & ->); eauto.
Qed.

(** Where in a trace a message was sent. *)
Lemma wire_split t a r b :
  wire t = a ++ r :: b → ∃ t1 x t2, t = t1 ++ x :: t2 ∧ wire t1 = a ∧ wire_of x = [r] ∧ wire t2 = b.
Proof.
  revert a. induction t as [|x t IH]; intros a; [by destruct a|]. rewrite wire_cons.
  assert (wire_of x = [] ∨ ∃ r', wire_of x = [r']) as [Hx|[r' Hx]] by (destruct x; simpl; eauto);
    rewrite Hx; simpl.
  - intros (t1 & y & t2 & -> & <- & Hy & Hb)%IH. exists (x :: t1), y, t2.
    by rewrite wire_cons, Hx.
  - destruct a as [|r'' a]; simpl; intros [= -> Heq].
    + exists [], x, t. by rewrite Hx.
    + apply IH in Heq as (t1 & y & t2 & -> & <- & Hy & Hb). exists (x :: t1), y, t2.
      by rewrite wire_cons, Hx.
Qed.

Lemma forks_no_message tail : Forall no_message tail → forks tail = 0%N.
Proof.
  induction 1 as [|m tail Hm _ IH]; [done|]. unfold forks, count in *. simpl.
  destruct m as [[[]|]|]; try done; by destruct (Hm _ eq_refl).
Qed.

(** ** Each clone answered for was forked *)

Definition midway (s : Spec) : N := match sp_conv s with Open Fork true => 1 | _ => 0 end.

Lemma forks_step s a s' :
  template_state s → spec_step s a s' → a ≠ AForkChild →
  (forks (messages (wire_of a)) + midway s' <= forked_in [a] + midway s)%N.
Proof.
  intros [Hp Hc] Hstep Hn. unfold midway, forks, count, forked_in.
  destruct Hstep; try match goal with H : child_exit _ |- _ => destruct H as (st & pid & ->) end;
    simpl in *; try done; try lia;
    destruct Hc as [?|[?|[[? ?]|?]]]; simplify_eq/=; try lia; by destruct q.
Qed.

Lemma forks_wire s t s' :
  template_state s → spec_run s t s' → AForkChild ∉ t →
  (forks (messages (wire t)) + midway s' <= forked_in t + midway s)%N.
Proof.
  intros Hs Hrun Hn. induction Hrun as [|t s1 a s2 Hr IH Hstep]; [unfold forks, count; simpl; lia|].
  apply not_elem_of_app in Hn as [Hn1 Hn2]. specialize (IH Hn1).
  destruct (template_run _ _ _ Hs Hr Hn1) as [Hs1 _].
  assert (a ≠ AForkChild) as Ha by (intros ->; apply Hn2; by left).
  pose proof (forks_step _ _ _ Hs1 Hstep Ha) as H1.
  assert (wire (t ++ [a]) = wire t ++ wire_of a) as -> by (rewrite wire_app, wire_cons; by rewrite app_nil_r).
  unfold forks, forked_in in *. rewrite messages_app, count_app, List.filter_app, length_app. lia.
Qed.

(** ** What an owner's turns take off the channel *)

(** A call leaves a part of what was to come. *)
Definition reads_of (h h' : HostProcess) : Prop := ∃ past, hp_incoming h = past ++ hp_incoming h'.

Lemma reply_loop_past host i events r i' events' :
  reply_loop host i events = Some (r, i', events') → ∃ past, i = past ++ i'.
Proof.
  revert events. induction i as [|[[m|]|e] i IH]; intros events; simpl; [done| | |].
  - destruct m as [e|[] st pid|n|pid e|text];
      try (intros [= _ <- _]; by eexists [_]). intros [past ->]%IH. by exists (Ok (Some (Exited RunChild st pid)) :: past).
  - intros [= _ <- _]. by eexists [_].
  - intros [= _ <- _]. by eexists [_].
Qed.

Lemma request_past sent h q r h' : request sent h q = Some (r, h') → reads_of h h'.
Proof.
  unfold request, reply. destruct sent as [[]|]; [|intros [= _ <-]; by exists []]. simpl.
  destruct (reply_loop _ _ _) as [[[x i] ev]|] eqn:Hr; [|done]. intros [= _ <-].
  by apply reply_loop_past in Hr.
Qed.

Lemma manager_fork_past sockets parse sent own h r h' :
  manager_fork sockets parse sent own h = Some (r, h') → reads_of h h'.
Proof.
  unfold manager_fork. destruct sockets as [[]|]; [|intros [= _ <-]; by exists []].
  destruct (request sent h Fork) as [[[x|e] h1]|] eqn:Hr; [| |done]; apply request_past in Hr.
  - destruct x; try (by intros [= _ <-]). destruct (parse_endpoint parse _); [|by intros [= _ <-]].
    destruct (reply _) as [[[[]|] ?]|]; try done; by intros [= _ <-].
  - by intros [= _ <-].
Qed.

Lemma drain_events_past polls h n r h' : drain_events polls h n = Some (r, h') → reads_of h h'.
Proof.
  revert h n. induction polls as [|[| | |] polls IH]; intros h n; simpl;
    try done; try (intros [= _ <-]; by exists []); [|by apply IH].
  unfold read_event. destruct (hp_incoming h) as [|m i] eqn:Hi; [done|].
  destruct m as [[[]|]|]; try (intros [= _ <-]; eexists [_]; by rewrite Hi).
  intros [past Hp]%IH. eexists (_ :: past). rewrite Hi. simpl in *. by rewrite Hp.
Qed.

Section turns.
Context (parse : string → option SocketAddr) (ttl : N).

(** What an owner has answered with a clone is among the forks it has read. *)
Definition accounted (h0 : HostProcess) (o : Owner) : Prop :=
  ∃ past, hp_incoming h0 = past ++ hp_incoming (o_host o) ∧ (oks (o_answers o) <= forks past)%N.

Lemma accounted_read h0 o h answers :
  accounted h0 o → reads_of (o_host o) h → oks answers = oks (o_answers o) →
  ∀ children idle alive, accounted h0 (mkOwner h children idle alive answers).
Proof.
  intros (past & Hi & Ho) [more Hm] Ha children idle alive. exists (past ++ more).
  simpl. rewrite Hi, Hm, app_assoc, Ha. split; [done|]. unfold forks in *. rewrite count_app. lia.
Qed.

Lemma oks_app a b : oks (a ++ b) = (oks a + oks b)%N.
Proof. unfold oks. rewrite List.filter_app, length_app. lia. Qed.

Lemma serve_turn_accounted h0 t o :
  accounted h0 o →
  match serve_turn parse ttl t o with
  | GoesOn o' | Ends o' _ => accounted h0 o'
  | Waits => True
  end.
Proof.
  intros Ho. unfold serve_turn. destruct (t_received t).
  - destruct (manager_fork _ _ _ _ _) as [[[child|e] h]|] eqn:Hf; [| |done].
    + apply manager_fork_ok in Hf as (evs & pid & e & Hi & _). unfold take_events.
      destruct Ho as (past & Hin & Hok). eexists (past ++ messages evs ++ [Ok (Some (Forked pid e))]).
      simpl. rewrite Hin, Hi, <- !app_assoc. split; [done|]. rewrite oks_app.
      unfold forks in *. rewrite !count_app. unfold oks at 2, count at 3. simpl. lia.
    + eapply accounted_read; [exact Ho|by eapply manager_fork_past|]. rewrite oks_app. unfold oks at 2. simpl. lia.
  - destruct (drain_events _ _ _) as [[[n|] h]|] eqn:Hd; [| |done]; apply drain_events_past in Hd.
    + case_bool_decide; by eapply accounted_read.
    + by eapply accounted_read.
  - eapply accounted_read; [exact Ho|by exists []|done].
Qed.

Lemma serve_turns_accounted h0 turns o :
  accounted h0 o →
  match serve_turns parse ttl turns o with
  | GoesOn o' | Ends o' _ => accounted h0 o'
  | Waits => True
  end.
Proof.
  revert o. induction turns as [|t turns IH]; intros o Ho; simpl; [done|].
  pose proof (serve_turn_accounted h0 t o Ho) as Ht.
  destruct (serve_turn parse ttl t o); [by apply IH|done..].
Qed.

(** What [freeze_and_serve] and [base_owner] read, when they come to serve. *)
Lemma freeze_and_serve_reads sent listening now h turns res a tail :
  Forall no_message tail → hp_incoming h = messages a ++ tail →
  freeze_and_serve parse ttl sent listening now h turns = Serving_ res →
  ∃ evs n b, a = evs ++ Protocol.Frozen n :: b ∧
    match res with
    | GoesOn o | Ends o _ => (oks (o_answers o) <= forks (messages b))%N
    | Waits => True
    end.
Proof.
  intros Ht Hi. unfold freeze_and_serve, manager_freeze.
  destruct (request sent h Freeze) as [[[r|e] h1]|] eqn:Hr; [|done..].
  destruct (request_reads _ _ _ _ _ _ _ Ht Hi Hr) as (evs & b & -> & Hi1).
  destruct r as [| |n| |]; try done. destruct listening; [|done]. intros [= <-].
  exists evs, n, b. split; [done|].
  pose proof (serve_turns_accounted h1 turns (mkOwner h1 0 now true [])) as Hacc.
  unfold serve_forks. destruct (serve_turns parse ttl turns _) as [o|o how|]; [| |done].
  all: destruct Hacc as (past & Hp & Hle); [exists []; by split|].
  all: rewrite Hi1 in Hp; etrans; [exact Hle|].
  all: assert (forks (messages b) = (forks past + forks (hp_incoming (o_host o)))%N) as ->; [|lia].
  all: pose proof (forks_no_message tail Ht) as Htail; unfold forks in *.
  all: by rewrite <- count_app, <- Hp, count_app, Htail, N.add_0_r.
Qed.

(** What the answers of an owner amount to. *)
Definition answered (res : turned) (n : N) : Prop :=
  match res with GoesOn o | Ends o _ => (oks (o_answers o) <= n)%N | Waits => True end.

(** [base_owner] from [start] on. *)
Definition start_and_serve (bound : result unit string) (sent_start sent_freeze : result unit error)
    (listening : bool) (now : N) (turns : list Turn) (h : HostProcess) : owned :=
  match manager_start bound parse sent_start h with
  | None => Pending
  | Some (Err e, h) => Refused (bring_up_failed e) (KilledHost h)
  | Some (Ok _, h) => freeze_and_serve parse ttl sent_freeze listening now h turns
  end.

Lemma start_and_serve_reads bound sent_start sent_freeze listening now turns h res a tail :
  Forall no_message tail → hp_incoming h = messages a ++ tail →
  start_and_serve bound sent_start sent_freeze listening now turns h = Serving_ res →
  ∃ evs n b, a = evs ++ Protocol.Frozen n :: b ∧ (∃ e, Ready e ∈ evs) ∧ answered res (forks (messages b)).
Proof.
  intros Ht Hi. unfold start_and_serve, manager_start. destruct bound as [[]|]; [|done].
  destruct (request sent_start h Start) as [[[r|e] h1]|] eqn:Hr; [|done..].
  destruct (request_reads _ _ _ _ _ _ _ Ht Hi Hr) as (evs & b & -> & Hi1).
  destruct r as [e| | | |]; try done. destruct (parse_endpoint parse e) as [addr|]; [|done]. intros Hf.
  destruct (freeze_and_serve_reads _ _ _ (set_endpoint h1 addr) _ _ b tail Ht Hi1 Hf)
    as (evs' & n & b' & -> & Hres).
  exists (evs ++ Ready e :: evs'), n, b'. rewrite <- app_assoc. split_and!; [done| |done].
  exists e. apply elem_of_app. right. by left.
Qed.

Lemma base_owner_reads h has_prepare sent_prepare bound sent_start sent_freeze listening now turns
    res a tail :
  Forall no_message tail → hp_incoming h = messages a ++ tail →
  base_owner parse ttl (Ok h) has_prepare sent_prepare bound sent_start sent_freeze listening now turns
    = Serving_ res →
  ∃ evs n b, a = evs ++ Protocol.Frozen n :: b ∧ (∃ e, Ready e ∈ evs) ∧
    (has_prepare = true → ∃ pid, Exited RunPrepare 0 pid ∈ evs) ∧ answered res (forks (messages b)).
Proof.
  intros Ht. unfold base_owner.
  pose proof (λ h a, start_and_serve_reads bound sent_start sent_freeze listening now turns h res a tail Ht)
    as Hstart.
  intros Hi. destruct has_prepare.
  - unfold manager_prepare. destruct (request sent_prepare h Protocol.Prepare) as [[[r|e] h1]|] eqn:Hr; [|done..].
    destruct (request_reads _ _ _ _ _ _ _ Ht Hi Hr) as (evs & b & -> & Hi1).
    destruct r as [|[] status pid| | |]; try done. destruct status; [|done..]. intros Hs.
    destruct (Hstart h1 b Hi1 Hs) as (evs' & n & b' & -> & (e & He) & Hres).
    exists (evs ++ Exited RunPrepare 0 pid :: evs'), n, b'. rewrite <- app_assoc.
    split_and!; [done| | |done].
    + exists e. apply elem_of_app. right. by right.
    + intros _. exists pid. apply elem_of_app. right. by left.
  - intros Hs. destruct (Hstart h a Hi Hs) as (evs & n & b & -> & He & Hres). exists evs, n, b. by split_and!.
Qed.
End turns.

(** ** A template is a frozen host *)

(** In a host's trace, what is sent when the protocol has it as a reply is a
    reply. *)
Lemma reply_sent s t1 x t2 s' r :
  spec_run s (t1 ++ x :: t2) s' → wire_of x = [r] → (∀ run status pid, r ≠ Exited run status pid) →
  x = AReply r ∧ ∃ s1 s2, spec_run s t1 s1 ∧ spec_step s1 (AReply r) s2 ∧ spec_run s2 t2 s'.
Proof.
  intros (s1 & H1 & H2)%spec_run_app Hx Hr. apply spec_run_cons in H2 as (s2 & Hs & H2).
  assert (x = AReply r) as ->; [|eauto 6].
  destruct x; simplify_eq/=; [done|]. inversion Hs; subst;
    try (match goal with H : child_exit _ |- _ => destruct H as (st & pid & ->) end);
    by edestruct Hr.
Qed.

(** From where a host says it is frozen on, it starts no run, and it forks every
    clone it answers for. *)
Lemma frozen_since s t1 x t2 s' n :
  spec_run s (t1 ++ x :: t2) s' → wire_of x = [Protocol.Frozen n] → AForkChild ∉ t2 →
  x = AReply (Protocol.Frozen n) ∧ (∀ run, ASpawn run ∉ t2) ∧
  (forks (messages (wire t2)) <= forked_in t2)%N.
Proof.
  intros Hrun Hx Hn. destruct (reply_sent _ _ _ _ _ _ Hrun Hx) as (-> & s1 & s2 & _ & Hstep & Hafter);
    [done|].
  assert (s2 = mkSpec PhaseFrozen Idle) as -> by by inversion Hstep.
  assert (template_state (mkSpec PhaseFrozen Idle)) as Hts by (split; [done|by left]).
  destruct (template_run _ _ _ Hts Hafter Hn) as [_ Hspawn]. split_and!; [done|done|].
  pose proof (forks_wire _ _ _ Hts Hafter Hn) as Hf. unfold midway in Hf at 2. simpl in Hf. lia.
Qed.

(** C6: what an owner serves as a template is a frozen host.  An owner reads its
    host's channel; whatever the manifest, the guest, the kernel and the
    requests, once it serves forks, the host at the other end, if the manifest
    asks for it, has prepared with status zero, has answered that it was ready,
    and is frozen since: it has started no run after that; and the owner has
    answered no more clones than the host has forked since it froze. *)
Theorem owned_template_is_a_frozen_host manifest fs sha256 kernel peer passes m parse ttl h tail
    has_prepare sent_prepare bound sent_start sent_freeze listening now turns res t :
  trace (serve manifest fs sha256 kernel peer (mkW (host_new manifest m) passes [])).2 = t →
  AForkChild ∉ t → Forall no_message tail → hp_incoming h = messages (wire t) ++ tail →
  base_owner parse ttl (Ok h) has_prepare sent_prepare bound sent_start sent_freeze listening now turns
    = Serving_ res →
  ∃ before n after, t = before ++ AReply (Protocol.Frozen n) :: after ∧
    (∃ e, Ready e ∈ wire before) ∧
    (has_prepare = true → ∃ pid, Exited RunPrepare 0 pid ∈ wire before) ∧
    (∀ run, ASpawn run ∉ after) ∧
    answered res (forked_in after).
Proof.
  intros Htrace Hn Ht Hi Hown.
  destruct (base_owner_reads _ _ _ _ _ _ _ _ _ _ _ _ _ _ Ht Hi Hown) as (evs & n & b & Hw & Hr & Hp & Hres).
  destruct (wire_split _ _ _ _ Hw) as (t1 & x & t2 & Htr & <- & Hx & <-).
  destruct (serve_accepted manifest fs sha256 kernel peer passes m) as (s & Hrun).
  rewrite Htrace, Htr in Hrun.
  assert (AForkChild ∉ t2) as Hn2.
  { rewrite Htr in Hn. apply not_elem_of_app in Hn as [_ Hn]. by apply not_elem_of_cons in Hn as [_ Hn]. }
  destruct (frozen_since _ _ _ _ _ _ Hrun Hx Hn2) as (-> & Hspawn & Hf).
  exists t1, n, t2. split_and!; [done|done|done|done|].
  unfold answered in *. destruct res; [lia..|done].
Qed.

Module SystemWitness.
Import CloneWitness.
(** Started, ready, frozen and forked once; then the owner's side of it. *)
Definition life : list Pass :=
  [pass [] [] None (Some (mkFrame Start [] [9%Z])) None; pass [1%N] bound None None None;
   pass [3%N] [] None None (Some (Ok tt)); quiet_pass;
   pass [] [] None (Some (mkFrame Freeze [] [])) None;
   pass [] [] None (Some (mkFrame Fork [] [5%Z; 6%Z])) None; quiet_pass].
Definition sent : list Action :=
  trace (serve manifest fs (λ b, b) kernel (λ _, true)
           (mkW (host_new manifest (mkWorld (λ _, 0%Z) [])) life [])).2.
Definition its_process : HostProcess := mkProcess 1 (messages (wire sent)) true [] None [].
Definition forks_once : list Turn := [OwnerWitness.fork_turn 1].
Definition serves : owned :=
  base_owner OwnerWitness.parse 300 (Ok its_process) false (Ok tt) (Ok tt) (Ok tt) (Ok tt) true 0 forks_once.

Lemma no_fork_child t :
  forallb (λ a, match a with AForkChild => false | _ => true end) t = true → AForkChild ∉ t.
Proof. intros Ht Hin. apply list_elem_of_In in Hin. by rewrite forallb_forall in Ht; apply Ht in Hin. Qed.

Lemma channel : hp_incoming its_process = messages (wire sent) ++ [].
Proof. rewrite app_nil_r. reflexivity. Qed.

Lemma no_child : AForkChild ∉ sent.
Proof. apply no_fork_child. vm_compute. reflexivity. Qed.

Lemma sent_eq :
  trace (serve manifest fs (λ b, b) kernel (λ _, true)
           (mkW (host_new manifest (mkWorld (λ _, 0%Z) [])) life [])).2 = sent.
Proof. unfold sent. reflexivity. Qed.

Lemma serves_eq :
  base_owner OwnerWitness.parse 300 (Ok its_process) false (Ok tt) (Ok tt) (Ok tt) (Ok tt) true 0 forks_once
    = serves.
Proof. unfold serves. reflexivity. Qed.

Lemma frozen_host_witness :
  match serves with
  | Serving_ (GoesOn o) => oks (o_answers o) = 1%N ∧
      ∃ before n after, sent = before ++ AReply (Protocol.Frozen n) :: after ∧ (1 <= forked_in after)%N
  | _ => False
  end.
Proof.
  assert (match serves with Serving_ (GoesOn o) => bool_decide (oks (o_answers o) = 1%N) | _ => false end
    = true) as Hs by (vm_compute; reflexivity).
  destruct serves as [| |[o| |]|] eqn:E; try discriminate Hs.
  apply bool_decide_eq_true_1 in Hs. split; [exact Hs|].
  destruct (owned_template_is_a_frozen_host manifest fs (λ b, b) kernel (λ _, true) life
    (mkWorld (λ _, 0%Z) []) OwnerWitness.parse 300 its_process [] false (Ok tt) (Ok tt) (Ok tt) (Ok tt)
    true 0 forks_once (GoesOn o) sent) as (before & n & after & Ht & _ & _ & _ & Ho).
  - exact sent_eq.
  - exact no_child.
  - constructor.
  - exact channel.
  - rewrite serves_eq. exact E.
  - exists before, n, after. split; [exact Ht|]. unfold answered in Ho. rewrite Hs in Ho. exact Ho.
Defined.
End SystemWitness.
