(* ===== verification/Lineage.v ===== *)
(** * A recipe's template and the base template it comes from

    The owner of a recipe template ([recipe_owner], Owner.v) has no host of its
    own to spawn: its host is a clone of the base template, forked by the base's
    owner ([manager_fork]) and handed over with the channel the clone announced
    itself on.  Here the three programs are put together: the manager's fork,
    the clone's side of the host (Host.v, from the fork on), and the owner. *)

From S2P Require Import Prelude Net Protocol Manifest Paths Compaction Host Clone Manager Owner Api System.

(** What a clone sends on its own channel. *)
Definition own_wire_of (a : Action) : list Reply :=
  match a with AReply r | AEvent r | AAnnounce r | AOrphan r => [r] | _ => [] end.
Definition own_wire (t : list Action) : list Reply := concat (map own_wire_of t).

Lemma own_wire_cons a t : own_wire (a :: t) = own_wire_of a ++ own_wire t.
Proof. done. Qed.

(** ** A clone's own trace *)

(** Only a clone that has just been forked announces itself. *)
Lemma settled_wire t s s' :
  spec_run s t s' → sp_conv s ≠ Born → AForkChild ∉ t → own_wire t = wire t.
Proof.
  revert s. induction t as [|a t IH]; intros s Hrun Hb Hn; [done|].
  apply spec_run_cons in Hrun as (s1 & Hstep & Hrun). apply not_elem_of_cons in Hn as [Ha Hn].
  rewrite own_wire_cons, wire_cons, (IH s1 Hrun); [|by destruct Hstep|done].
  by destruct Hstep.
Qed.

(** What a clone's channel holds for a manager whose fork succeeded. *)
Lemma born_wire t s' evs r b :
  spec_run (mkSpec (PhaseRunning true) Born) t s' → AForkChild ∉ t →
  own_wire t = evs ++ r :: b → Forall (λ e, child_exited e = true) evs →
  (∃ pid e, r = Forked pid e) →
  ∃ rest, t = AAnnounce r :: rest ∧ wire rest = b ∧
    spec_run (mkSpec (PhaseRunning true) Idle) rest s'.
Proof.
  intros Hrun Hn Hw He (pid & e & ->). destruct t as [|a rest]; [by destruct evs|].
  apply not_elem_of_cons in Hn as [_ Hn]. apply spec_run_cons in Hrun as (s1 & Hstep & Hrun).
  rewrite own_wire_cons in Hw. inversion Hstep; subst; simpl in Hw.
  - destruct evs as [|x evs]; simpl in Hw; injection Hw as ? ?; [|subst x; by inversion He].
    simplify_eq. exists rest. split_and!; [done| |done].
    by rewrite <- (settled_wire _ _ _ Hrun).
  - destruct evs as [|x evs]; simpl in Hw; injection Hw as ? ?; [done|subst x; by inversion He].
Qed.

(** A run of the initializer that is under way was started. *)
Lemma initializing_spawned s t s' :
  spec_run s t s' → sp_conv s = Idle →
  sp_conv s' = Open Initialize true ∨ sp_conv s' = Refusing Initialize →
  ∃ run, ASpawn run ∈ t.
Proof.
  intros Hrun Hi. induction Hrun as [|t s1 a s2 Hr IH Hstep]; intros Hs2.
  - rewrite Hi in Hs2. by destruct Hs2.
  - assert (sp_conv s1 = Open Initialize true ∨ sp_conv s1 = Refusing Initialize ∨
            ∃ run, a = ASpawn run) as [H|[H|[run ->]]].
    { destruct Hstep; simpl in *; destruct Hs2; simplify_eq; eauto. }
    + destruct (IH (or_introl H)) as [run Hin]. exists run. apply elem_of_app. by left.
    + destruct (IH (or_intror H)) as [run Hin]. exists run. apply elem_of_app. by left.
    + exists run. apply elem_of_app. right. by left.
Qed.

(** An initializer's status was reported by a host that ran it. *)
Lemma initialized_spawned s t s' status pid :
  spec_run s t s' → sp_conv s = Idle → Exited RunInitializer status pid ∈ wire t →
  ∃ run, ASpawn run ∈ t.
Proof.
  intros Hrun Hi Hin. apply list_elem_of_split in Hin as (a & b & Hw).
  apply wire_split in Hw as (t1 & x & t2 & -> & _ & Hx & _).
  apply spec_run_app in Hrun as (s1 & H1 & H2). apply spec_run_cons in H2 as (s2 & Hstep & _).
  destruct (initializing_spawned _ _ _ H1 Hi) as [run Hin].
  - left. destruct Hstep; simplify_eq/=; try done;
      try (match goal with H : child_exit _ |- _ => destruct H as (? & ? & ?) end; done).
  - exists run. apply elem_of_app. by left.
Qed.

(** A conversation that has come to a frozen host, and has not failed to get
    there, has said so. *)
Lemma frozen_said t s :
  spec_run spec_init t s → sp_phase s = PhaseFrozen → sp_conv s ≠ Over →
  ∃ n, AReply (Protocol.Frozen n) ∈ t.
Proof.
  intros Hrun. induction Hrun as [|t s1 a s2 Hr IH Hstep]; intros Hp Hc; [done|].
  assert ((∃ n, a = AReply (Protocol.Frozen n)) ∨ sp_phase s1 = PhaseFrozen ∧ sp_conv s1 ≠ Over)
    as [[n ->]|[Hp1 Hc1]].
  { destruct Hstep; simpl in *; simplify_eq; eauto. }
  - exists n. apply elem_of_app. right. by left.
  - destruct (IH Hp1 Hc1) as [n Hin]. exists n. apply elem_of_app. by left.
Qed.

(** ** What the manager hands over *)

Lemma manager_fork_child sockets parse sent own h child endpoint h' :
  manager_fork sockets parse sent own h = Some (Ok (child, endpoint), h') →
  ∃ evs pid e, own = messages evs ++ Ok (Some (Forked pid e)) :: hp_incoming child ∧
    Forall (λ e, child_exited e = true) evs.
Proof.
  unfold manager_fork. destruct sockets as [[]|]; [|done].
  destruct (request sent h Fork) as [[[r|e] h1]|]; [|done..].
  destruct r as [| | |pid text|]; try done.
  destruct (parse_endpoint parse text) as [a|]; [|done]. unfold reply. simpl.
  destruct (reply_loop pid own []) as [[[[r|e] i] ev]|] eqn:Hr; [|done..].
  apply reply_loop_ok in Hr as (evs & -> & _ & Hall).
  destruct r as [| | |pid' e|]; try done. intros [= <- _ _]. eauto.
Qed.

Section owner.
Context (parse : string → option SocketAddr) (ttl : N).

Lemma recipe_owner_reads sent_init sent_freeze listening now h turns res a tail :
  Forall no_message tail → hp_incoming h = messages a ++ tail →
  recipe_owner parse ttl sent_init sent_freeze listening now h turns = Serving_ res →
  ∃ evs n b, a = evs ++ Protocol.Frozen n :: b ∧
    (∃ pid, Exited RunInitializer 0 pid ∈ evs) ∧ answered res (forks (messages b)).
Proof.
  intros Ht Hi. unfold recipe_owner, manager_initialize.
  destruct (request sent_init h Initialize) as [[[r|e] h1]|] eqn:Hr; [|done..].
  destruct (request_reads _ _ _ _ _ _ _ Ht Hi Hr) as (evs & b & -> & Hi1).
  destruct r as [|[] status pid| | |]; try done. destruct status; [|done..]. intros Hs.
  destruct (freeze_and_serve_reads _ _ _ _ _ _ _ _ _ _ Ht Hi1 Hs) as (evs' & n & b' & -> & Hres).
  exists (evs ++ Exited RunInitializer 0 pid :: evs'), n, b'. rewrite <- app_assoc.
  split_and!; [done| |done]. exists pid. apply elem_of_app. right. by left.
Qed.
End owner.

(** C7: What an owner serves as a recipe's template is a frozen, initialized clone
    of a frozen template.  When the base's owner has forked a clone and the
    recipe's owner comes to serve it, the process at the other end of the
    clone's channel was forked off a host that had said it was frozen; it has
    announced itself, run the initializer, which ended with status zero, and
    frozen in its turn; since then it has started no run, and its owner has
    answered no more clones than it has forked. *)
Theorem recipe_template_is_an_initialized_clone manifest fs sha256 kernel peer passes m parse ttl
    before own tail sockets sent base child endpoint base' sent_init sent_freeze listening now turns
    res :
  trace (serve manifest fs sha256 kernel peer (mkW (host_new manifest m) passes [])).2 =
    before ++ AForkChild :: own →
  AForkChild ∉ own → Forall no_message tail →
  manager_fork sockets parse sent (messages (own_wire own) ++ tail) base =
    Some (Ok (child, endpoint), base') →
  recipe_owner parse ttl sent_init sent_freeze listening now child turns = Serving_ res →
  (∃ n, AReply (Protocol.Frozen n) ∈ before) ∧
  ∃ r mid n after, own = AAnnounce r :: mid ++ AReply (Protocol.Frozen n) :: after ∧
    (∃ run, ASpawn run ∈ mid) ∧ (∃ pid, Exited RunInitializer 0 pid ∈ wire mid) ∧
    (∀ run, ASpawn run ∉ after) ∧ answered res (forked_in after).
Proof.
  intros Htrace Hn Ht Hfork Hown.
  destruct (serve_accepted manifest fs sha256 kernel peer passes m) as (s & Hrun).
  rewrite Htrace in Hrun.
  apply spec_run_app in Hrun as (s1 & Hbefore & Hrun).
  apply spec_run_cons in Hrun as (s2 & Hstep & Hrun).
  assert (s1 = mkSpec PhaseFrozen (Open Fork false) ∧ s2 = mkSpec (PhaseRunning true) Born)
    as [-> ->] by by inversion Hstep.
  split; [by eapply (frozen_said _ _ Hbefore)|].
  apply manager_fork_child in Hfork as (evs & pid & e & Hin & Hevs).
  apply messages_split in Hin as (b & Hw & Hchild); [|done].
  destruct (born_wire _ _ _ _ _ Hrun Hn Hw Hevs) as (rest & -> & <- & Hrest); [by eexists _, _|].
  destruct (recipe_owner_reads _ _ _ _ _ _ _ _ _ _ _ Ht Hchild Hown)
    as (evs' & n & b & Hb & (ipid & Hinit) & Hres).
  apply wire_split in Hb as (mid & x & after & -> & <- & Hx & <-).
  assert (AForkChild ∉ after) as Hna.
  { apply not_elem_of_cons in Hn as [_ Hn]. apply not_elem_of_app in Hn as [_ Hn].
    by apply not_elem_of_cons in Hn as [_ Hn]. }
  destruct (frozen_since _ _ _ _ _ _ Hrest Hx Hna) as (-> & Hspawn & Hf).
  apply spec_run_app in Hrest as (s3 & Hmid & _).
  exists (Forked pid e), mid, n, after. split_and!; [done| |by eexists|done|].
  - by eapply initialized_spawned.
  - unfold answered in *. destruct res; [lia..|done].
Qed.

Module LineageWitness.
Import CloneWitness.
(** The host forks, and this process is the clone. *)
Definition fork_child_env : ForkEnv :=
  mkForkEnv 0 "" 77 (Ok tt) (Ok tt) (Ok tt) (Ok tt) (Ok tt) (Ok tt) (Ok tt).
Definition born_pass : Pass :=
  mkPass (Ok true) [] (Ok tt) [] None None [] (Ok (Some (mkFrame Fork [] [5%Z; 6%Z]))) None
    (Ok tt) (Ok tt) (λ fd, mkListener fd (Ok addr)) freeze_env fork_child_env (λ _, true).

(** Started, ready, frozen; then the clone: initialized, frozen, forked once. *)
Definition lives : list Pass :=
  [pass [] [] None (Some (mkFrame Start [] [9%Z])) None; pass [1%N] bound None None None;
   pass [3%N] [] None None (Some (Ok tt)); quiet_pass;
   pass [] [] None (Some (mkFrame Freeze [] [])) None; born_pass;
   pass [] [] None (Some (mkFrame Initialize [x41] [])) None; quiet_pass;
   pass [] [] (Some 0%Z) None None; pass [] [] None (Some (mkFrame Freeze [] [])) None;
   pass [] [] None (Some (mkFrame Fork [] [7%Z; 8%Z])) None; quiet_pass].
Definition before0 : list Action :=
  [ARecv Start; ASpawn (mkRun "/p/db.wasm" "db.wasm" [] [] true); AProbe;
   AReply (Ready "127.0.0.1:4000"); ARecv Freeze; AShutDown [(9%Z, ShutRead)];
   AReply (Protocol.Frozen 1); ARecv Fork].
Definition own0 : list Action :=
  [AAnnounce (Forked 77 "127.0.0.1:4000"); ARecv Initialize;
   ASpawn (mkRun "/p/init.wasm" "init.wasm" ["127.0.0.1:4000"] [x41] true);
   AReply (Exited RunInitializer 0 None); ARecv Freeze; AShutDown [(6%Z, ShutRead)];
   AReply (Protocol.Frozen 1); ARecv Fork; AForkParent 77;
   AReply (Forked 77 "127.0.0.1:4000"); ASlice].

Lemma lived_eq :
  trace (serve manifest fs (λ b, b) kernel (λ _, true)
           (mkW (host_new manifest (mkWorld (λ _, 0%Z) [])) lives [])).2 =
  before0 ++ AForkChild :: own0.
Proof. vm_compute. reflexivity. Qed.

Lemma own0_no_child : AForkChild ∉ own0.
Proof. apply SystemWitness.no_fork_child. vm_compute. reflexivity. Qed.

(** The base's owner forks, and the recipe's owner serves one clone. *)
Definition base0 : HostProcess := mkProcess 1 [OwnerWitness.forked 77] true [] None [].
Definition base1 : HostProcess := mkProcess 1 [] true [] None [Fork].
Definition child0 : HostProcess :=
  mkProcess 77 (messages (own_wire (drop 1 own0))) false [] (Some OwnerWitness.addr) [].
Lemma forked_eq :
  manager_fork (Ok tt) OwnerWitness.parse (Ok tt) (messages (own_wire own0) ++ []) base0 =
  Some (Ok (child0, OwnerWitness.addr), base1).
Proof. vm_compute. reflexivity. Qed.

Definition serves0 : owned :=
  recipe_owner OwnerWitness.parse 300 (Ok tt) (Ok tt) true 0 child0 [OwnerWitness.fork_turn 1].
Lemma serves0_eq :
  recipe_owner OwnerWitness.parse 300 (Ok tt) (Ok tt) true 0 child0 [OwnerWitness.fork_turn 1] =
  serves0.
Proof. unfold serves0. reflexivity. Qed.

Lemma recipe_template_witness :
  match serves0 with
  | Serving_ (GoesOn o) => oks (o_answers o) = 1%N ∧
      ∃ r mid n after, own0 = AAnnounce r :: mid ++ AReply (Protocol.Frozen n) :: after ∧
        (∃ run, ASpawn run ∈ mid) ∧ (1 <= forked_in after)%N
  | _ => False
  end.
Proof.
  assert (match serves0 with Serving_ (GoesOn o) => bool_decide (oks (o_answers o) = 1%N) | _ => false end
    = true) as Hs by (vm_compute; reflexivity).
  destruct serves0 as [| |[o| |]|] eqn:E; try discriminate Hs.
  apply bool_decide_eq_true_1 in Hs. split; [exact Hs|].
  destruct (recipe_template_is_an_initialized_clone manifest fs (λ b, b) kernel (λ _, true) lives
    (mkWorld (λ _, 0%Z) []) OwnerWitness.parse 300 before0 own0 [] (Ok tt) (Ok tt) base0 child0
    OwnerWitness.addr base1 (Ok tt) (Ok tt) true 0 [OwnerWitness.fork_turn 1] (GoesOn o))
    as (_ & r & mid & n & after & Ht & Hrun & _ & _ & Ho).
  - exact lived_eq.
  - exact own0_no_child.
  - constructor.
  - exact forked_eq.
  - rewrite serves0_eq. exact E.
  - exists r, mid, n, after. split; [exact Ht|]. split; [exact Hrun|].
    unfold answered in Ho. rewrite Hs in Ho. exact Ho.
Defined.
End LineageWitness.
