(* ===== verification/Reap.v ===== *)
(** * What becomes of a template's host

    An owner thread (Owner.v) ends its host on each of its ways out.  Here it is
    followed to the process: a host the manager spawned is its child, and only
    [kill] and [stop] of manager.rs wait for it; [Child] has no destructor that
    would. *)

From S2P Require Import Prelude Net Protocol Host Manager Owner Api.

(** The handle is on the same process. *)
Definition same_process (h h' : HostProcess) : Prop :=
  hp_pid h' = hp_pid h ∧ hp_child h' = hp_child h.
#[global] Instance same_process_preorder : PreOrder same_process.
Proof. split; [by split|]. intros a b c [? ?] [? ?]. split; congruence. Qed.

(** ** Every call keeps the process *)

Lemma request_same sent h q r h' : request sent h q = Some (r, h') → same_process h h'.
Proof.
  unfold request, reply. destruct sent as [[]|]; [|by intros [= _ <-]]. simpl.
  destruct (reply_loop _ _ _) as [[[x i] ev]|]; [|done]. by intros [= _ <-].
Qed.

Ltac same_tac :=
  match goal with
  | |- context [request ?s ?h ?q] =>
      let Hr := fresh "Hr" in destruct (request s h q) as [[[?|?] ?]|] eqn:Hr;
      [apply request_same in Hr|apply request_same in Hr|done]
  end.

Lemma manager_prepare_same sent h r h' : manager_prepare sent h = Some (r, h') → same_process h h'.
Proof.
  unfold manager_prepare. same_tac; [|by intros [= _ <-]].
  by repeat case_match; intros [= _ <-].
Qed.

Lemma manager_initialize_same sent h r h' :
  manager_initialize sent h = Some (r, h') → same_process h h'.
Proof.
  unfold manager_initialize. same_tac; [|by intros [= _ <-]].
  by repeat case_match; intros [= _ <-].
Qed.

Lemma manager_freeze_same sent h r h' : manager_freeze sent h = Some (r, h') → same_process h h'.
Proof.
  unfold manager_freeze. same_tac; [|by intros [= _ <-]].
  by repeat case_match; intros [= _ <-].
Qed.

Lemma manager_start_same bind parse sent h r h' :
  manager_start bind parse sent h = Some (r, h') → same_process h h'.
Proof.
  unfold manager_start. destruct bind as [[]|]; [|by intros [= _ <-]].
  same_tac; [|by intros [= _ <-]]. by repeat case_match; intros [= _ <-].
Qed.

Lemma manager_fork_same sockets parse sent own h r h' :
  manager_fork sockets parse sent own h = Some (r, h') → same_process h h'.
Proof.
  unfold manager_fork. destruct sockets as [[]|]; [|by intros [= _ <-]].
  same_tac; [|by intros [= _ <-]]. by repeat case_match; intros [= _ <-].
Qed.

Lemma drain_events_same polls h n r h' : drain_events polls h n = Some (r, h') → same_process h h'.
Proof.
  revert h n. induction polls as [|[| | |] polls IH]; intros h n; simpl;
    try (by intros [= _ <-]); [|by apply IH].
  unfold read_event. destruct (hp_incoming h) as [|m i]; [done|].
  destruct m as [[[]|]|]; try (by intros [= _ <-]). intros Hd%IH. by etrans; [|exact Hd].
Qed.

Section turns.
Context (parse : string → option SocketAddr) (ttl : N).

Lemma serve_turn_same t o :
  match serve_turn parse ttl t o with
  | GoesOn o' | Ends o' _ => same_process (o_host o) (o_host o')
  | Waits => True
  end.
Proof.
  unfold serve_turn. destruct (t_received t).
  - destruct (manager_fork _ _ _ _ _) as [[[x|e] h]|] eqn:Hf; [| |done];
      apply manager_fork_same in Hf; done.
  - destruct (drain_events _ _ _) as [[[n|] h]|] eqn:Hd; [| |done]; apply drain_events_same in Hd; [|done].
    by case_bool_decide.
  - done.
Qed.

Lemma serve_turns_same turns o :
  match serve_turns parse ttl turns o with
  | GoesOn o' | Ends o' _ => same_process (o_host o) (o_host o')
  | Waits => True
  end.
Proof.
  revert o. induction turns as [|t turns IH]; intros o; simpl; [done|].
  pose proof (serve_turn_same t o) as Ht. destruct (serve_turn parse ttl t o) as [o'|o' how|]; [|done..].
  specialize (IH o'). destruct (serve_turns parse ttl turns o') as [o2|o2 how|]; [by etrans..|done].
Qed.

(** ** Leaving a host *)

(** The owner waits for the process of [h] to go, whatever [child.wait()]
    answers. *)
Definition waits_for (h : HostProcess) (l : Left) : Prop :=
  ∀ waited,
    let gone := Some (with_context "failed to wait for the host" waited) in
    match l with
    | KilledHost h' => manager_kill waited h' = (hp_pid h, gone)
    | StoppedHost h' => hp_pid h' = hp_pid h ∧ ∀ sent, manager_stop sent waited h' = gone
    | NoHost | DroppedHost _ => False
    end.

Lemma killed_waits h h' : hp_child h = true → same_process h h' → waits_for h (KilledHost h').
Proof. intros Hc [Hp Hs] waited. unfold manager_kill, wait_gone. by rewrite Hs, Hc, Hp. Qed.

Lemma stopped_waits h h' : hp_child h = true → same_process h h' → waits_for h (StoppedHost h').
Proof.
  intros Hc [Hp Hs] waited. split; [done|]. intros sent. unfold manager_stop, wait_gone.
  destruct sent as [[]|]; simpl; by rewrite Hs, Hc.
Qed.

(** The owner's way out after a failed freeze. *)
Definition freeze_failed (sent : result unit error) (h : HostProcess) (l : Left) : Prop :=
  ∃ h1 e h2, same_process h h1 ∧ manager_freeze sent h1 = Some (Err e, h2) ∧ l = DroppedHost h2.

Lemma freeze_and_serve_left sent listening now h h0 turns l :
  hp_child h0 = true → same_process h0 h →
  left_of (freeze_and_serve parse ttl sent listening now h turns) = Some l →
  waits_for h0 l ∨ freeze_failed sent h0 l.
Proof.
  intros Hc Hh. unfold freeze_and_serve.
  destruct (manager_freeze sent h) as [[[n|e] h']|] eqn:Hf; [| |done]; simpl.
  - apply manager_freeze_same in Hf. assert (same_process h0 h') as Hs by by etrans.
    destruct listening; simpl; intros Hl; left.
    + unfold serve_forks in Hl. pose proof (serve_turns_same turns (mkOwner h' 0 now true [])) as Ht.
      destruct (serve_turns parse ttl turns _) as [|o how|]; [done| |done]. injection Hl as <-.
      assert (same_process h0 (o_host o)) by by etrans.
      destruct how; simpl; by (apply killed_waits || apply stopped_waits).
    + injection Hl as <-. by apply stopped_waits.
  - intros [= <-]. right. by exists h, e, h'.
Qed.

(** C17: An owner waits for its host.  Whichever way the owner of a base template
    ends, before it serves or after, it has killed or stopped the host it
    spawned and waited for it to go; the one exception is a freeze that
    fails. *)
Theorem owner_waits_for_its_host h has_prepare sent_prepare bound sent_start sent_freeze listening
    now turns l :
  hp_child h = true →
  left_of (base_owner parse ttl (Ok h) has_prepare sent_prepare bound sent_start sent_freeze
             listening now turns) = Some l →
  waits_for h l ∨ freeze_failed sent_freeze h l.
Proof.
  intros Hc. unfold base_owner.
  assert (∀ h', same_process h h' →
    left_of (match manager_start bound parse sent_start h' with
             | None => Pending
             | Some (Err e, h) => Refused (bring_up_failed e) (KilledHost h)
             | Some (Ok _, h) => freeze_and_serve parse ttl sent_freeze listening now h turns
             end) = Some l → waits_for h l ∨ freeze_failed sent_freeze h l) as Hstart.
  { intros h' Hh. destruct (manager_start bound parse sent_start h') as [[[a|e] h1]|] eqn:Hs; [| |done];
      apply manager_start_same in Hs; assert (same_process h h1) by by etrans.
    - by apply freeze_and_serve_left.
    - intros [= <-]. left. by apply killed_waits. }
  destruct has_prepare; [|by apply Hstart].
  destruct (manager_prepare sent_prepare h) as [[[st|e] h1]|] eqn:Hp; [| |done];
    apply manager_prepare_same in Hp.
  - destruct st; [by apply Hstart|intros [= <-]; left; by apply killed_waits..].
  - intros [= <-]. left. by apply killed_waits.
Qed.
End turns.

Module ReapWitness.
(** A host that starts, and whose freeze fails: it says so and exits. *)
Definition failing : HostProcess :=
  mkProcess 1 [Ok (Some (Ready "127.0.0.1:4000")); Ok (Some (ReplyError "draining the guest")); Ok None]
    true [] None [].

(** A host whose channel fails as it is asked to start. *)
Definition broken : HostProcess := mkProcess 1 [Err ["gone"]] true [] None [].
Definition asked : HostProcess := mkProcess 1 [] true [] None [Start].

Lemma waits_witness : manager_kill (Ok tt) asked = (1%N, Some (Ok tt)).
Proof.
  destruct (owner_waits_for_its_host OwnerWitness.parse 300 broken false (Ok tt) (Ok tt) (Ok tt)
    (Ok tt) true 0 [] (KilledHost asked) eq_refl eq_refl) as [Hw|(? & ? & ? & _ & _ & Hd)].
  - exact (Hw (Ok tt)).
  - discriminate Hd.
Defined.
End ReapWitness.

(** A failed freeze leaves its host behind.  The owner takes a failed freeze for
    the host's own end and drops its handle: the host, the manager's child, has
    exited, as its closed channel says, and nothing ever waits for it. *)
Theorem failed_freeze_leaves_a_zombie :
  ∃ p h', base_owner OwnerWitness.parse 300 (Ok ReapWitness.failing) false (Ok tt) (Ok tt) (Ok tt)
            (Ok tt) true 0 [] = Refused p (DroppedHost h') ∧
    hp_child h' = true ∧ hp_incoming h' = [Ok None] ∧
    ∀ h l, l = DroppedHost h' → ¬ waits_for h l.
Proof.
  eexists _, _. split; [vm_compute; reflexivity|]. split_and!; [done|done|].
  intros h l -> Hw. by apply (Hw (Ok tt)).
Qed.
