(* ===== verification/Templates.v ===== *)
(** * The template cache

    Models the shared side of src/crates/servicecache/src/serve/templates.rs and
    the part of [create_instance] (serve/mod.rs) that uses it: the slots
    ([slot], [forget], [clear], [prune]), [obtain] with its two stages, forking,
    and the retry after a failed fork; as steps that concurrent requests, the
    templates' owners and the sweeper interleave.

    A [Slot] is an [Arc<Mutex<Option<Template>>>], named by a number that is
    never used again, so that a request may hold a slot that is no longer in the
    map; a template is named by a number too, and the slot it was brought up in
    is recorded with it.  A template's owner ends it once no [Template] handle, which
    is what [Sender] counts, is left ([held]).  A host dies with the process it
    was forked from, so an instance is up only while its template is, and a
    recipe's template only while its base is.  Bringing a template up, and its
    owner's ledger, are in Owner.v. *)

From S2P Require Import Prelude.
From stdpp Require Import fin_maps.

(** ** State *)

(** [Key]; [recipe] is the digest's text. *)
Record Key : Type := mkKey { k_name : string; k_version : string; k_recipe : option string }.
#[global] Instance key_eq_dec : EqDecision Key.
Proof. solve_decision. Defined.
#[global] Instance key_countable : Countable Key.
Proof.
  refine (inj_countable' (λ k, (k_name k, k_version k, k_recipe k))
            (λ '(n, v, r), mkKey n v r) _). by intros [].
Defined.

(** [Key::new]. *)
Definition key_new (sha256 : list byte → string) (name version : string) (recipe : option (list byte))
    : Key := mkKey name version (sha256 <$> recipe).

Record Slot : Type := mkSlot { content : option nat; locked : bool }.
Definition empty_slot : Slot := mkSlot None false.

(** A template: the flag its owner clears, whether its host runs, the base it
    was forked from, and the slot it was brought up in. *)
Record Template : Type := mkTemplate {
  t_key : Key;
  t_alive : bool;
  t_running : bool;
  t_base : option nat;
  t_slot : nat;
}.

(** A request: the base's key, and the recipe's when it has one. *)
Record Wanted : Type := mkWanted { base_key : Key; recipe_key : option Key }.
Definition wanted_key (r : Wanted) : Key := default (base_key r) (recipe_key r).
(** The keys [Key::new] makes: without a digest for the base, with one for a
    recipe. *)
Definition wanted_ok (r : Wanted) : Prop :=
  k_recipe (base_key r) = None ∧ ∀ k, recipe_key r = Some k → k_recipe k ≠ None.

(** Where in [obtain] a request is: filling the base, or, holding the base's
    slot and the base, the recipe's template. *)
Inductive stage : Type :=
  | SBase
  | SRecipe (base_slot base : nat).

(** Where in [create_instance]: [retry] after the first fork failed. *)
Inductive pc : Type :=
  | PSlot (retry : bool) (s : stage)
  | PLock (retry : bool) (s : stage) (slot : nat)
  | PFill (retry : bool) (s : stage) (slot : nat)
  | PFork (retry : bool) (t : nat)
  | PForget.

Record St : Type := mkSt {
  slots : gmap Key nat;
  cells : gmap nat Slot;
  templates : gmap nat Template;
  tasks : gmap nat (Wanted * pc);
  (** Instances by the template they were forked off. *)
  instances : gmap nat nat;
}.
Definition init : St := mkSt ∅ ∅ ∅ ∅ ∅.

(** ** Holding *)

Definition stage_slots (s : stage) : list nat :=
  match s with SBase => [] | SRecipe b _ => [b] end.
Definition stage_templates (s : stage) : list nat :=
  match s with SBase => [] | SRecipe _ t => [t] end.
Definition pc_slots (p : pc) : list nat :=
  match p with
  | PSlot _ s => stage_slots s
  | PLock _ s c | PFill _ s c => c :: stage_slots s
  | PFork _ _ | PForget => []
  end.
Definition pc_templates (p : pc) : list nat :=
  match p with
  | PSlot _ s | PLock _ s _ | PFill _ s _ => stage_templates s
  | PFork _ t => [t]
  | PForget => []
  end.

(** The slot's cell. *)
Definition cell (st : St) (c : nat) : Slot := default empty_slot (cells st !! c).

(** Some handle on the template is left: in the map's slots, in a slot a
    request holds, or with a request itself. *)
Definition held (st : St) (t : nat) : Prop :=
  (∃ k c, slots st !! k = Some c ∧ content (cell st c) = Some t) ∨
  (∃ i r p, tasks st !! i = Some (r, p) ∧
     (t ∈ pc_templates p ∨ ∃ c, c ∈ pc_slots p ∧ content (cell st c) = Some t)).

(** A template's host is there: its own process and the one it came from. *)
Definition running (st : St) (t : nat) : bool :=
  match templates st !! t with Some x => t_running x | None => false end.
Definition up (st : St) (t : nat) : bool :=
  running st t && match templates st !! t ≫= t_base with Some b => running st b | None => true end.
Definition alive (st : St) (t : nat) : bool :=
  match templates st !! t with Some x => t_alive x | None => false end.

(** Something runs that descends from the template. *)
Definition has_descendant (st : St) (t : nat) : Prop :=
  (∃ i, instances st !! i = Some t) ∨
  (∃ t' x, templates st !! t' = Some x ∧ t_base x = Some t ∧ t_running x = true).

(** ** Operations on the map *)

Definition set_slots (st : St) (m : gmap Key nat) : St :=
  mkSt m (cells st) (templates st) (tasks st) (instances st).
Definition set_cells (st : St) (m : gmap nat Slot) : St :=
  mkSt (slots st) m (templates st) (tasks st) (instances st).
Definition set_templates (st : St) (m : gmap nat Template) : St :=
  mkSt (slots st) (cells st) m (tasks st) (instances st).
Definition set_tasks (st : St) (m : gmap nat (Wanted * pc)) : St :=
  mkSt (slots st) (cells st) (templates st) m (instances st).
Definition set_instances (st : St) (m : gmap nat nat) : St :=
  mkSt (slots st) (cells st) (templates st) (tasks st) m.

(** [slot]: the entry, or a fresh default one. *)
Definition slot (k : Key) (fresh : nat) (st : St) : nat * St :=
  match slots st !! k with
  | Some c => (c, st)
  | None =>
      (fresh, set_cells (set_slots st (<[k := fresh]> (slots st)))
                (<[fresh := empty_slot]> (cells st)))
  end.

Definition forget (k : Key) (st : St) : St := set_slots st (delete k (slots st)).
Definition clear (st : St) : St := set_slots st ∅.

(** [Arc::strong_count(slot) > 1]. *)
Definition shared (st : St) (c : nat) : bool :=
  existsb (λ x, bool_decide (c ∈ pc_slots x.2.2)) (map_to_list (tasks st)).

(** What [retain] keeps. *)
Definition keep (st : St) (c : nat) : bool :=
  shared st c || locked (cell st c) ||
  match content (cell st c) with Some t => alive st t | None => false end.

Definition prune (st : St) : St := set_slots st (filter (λ x, keep st x.2 = true) (slots st)).

(** ** Steps *)

(** The key a stage looks up. *)
Definition stage_key (r : Wanted) (s : stage) : Key :=
  match s with SBase => base_key r | SRecipe _ _ => wanted_key r end.

(** What follows once a stage has its template. *)
Definition next_pc (retry : bool) (r : Wanted) (s : stage) (c t : nat) : pc :=
  match s, recipe_key r with
  | SBase, Some _ => PSlot retry (SRecipe c t)
  | _, _ => PFork retry t
  end.

Definition stage_base (s : stage) : option nat :=
  match s with SBase => None | SRecipe _ b => Some b end.

Definition stop_template (st : St) (t : nat) : St :=
  match templates st !! t with
  | Some x => set_templates st (<[t := mkTemplate (t_key x) false false (t_base x) (t_slot x)]> (templates st))
  | None => st
  end.

(** Ordinary steps, and those that begin with something going wrong: with the
    template it goes wrong with, or the key that is forgotten. *)
Inductive label : Type :=
  | Ordinary
  | ForkFails (t : nat)
  | Forgets (k : Key)
  | HostDies (t : nat).

Inductive step : St → label → St → Prop :=
  | step_request st i r :
      tasks st !! i = None → wanted_ok r →
      step st Ordinary (set_tasks st (<[i := (r, PSlot false SBase)]> (tasks st)))
  | step_slot st i r retry s c fresh st' :
      tasks st !! i = Some (r, PSlot retry s) →
      cells st !! fresh = None → (∀ k, slots st !! k ≠ Some fresh) →
      (∀ j r' p, tasks st !! j = Some (r', p) → fresh ∉ pc_slots p) →
      slot (stage_key r s) fresh st = (c, st') →
      step st Ordinary (set_tasks st' (<[i := (r, PLock retry s c)]> (tasks st')))
  | step_hit st i r retry s c t :
      tasks st !! i = Some (r, PLock retry s c) →
      locked (cell st c) = false → content (cell st c) = Some t → alive st t = true →
      step st Ordinary (set_tasks st (<[i := (r, next_pc retry r s c t)]> (tasks st)))
  | step_miss st i r retry s c :
      tasks st !! i = Some (r, PLock retry s c) →
      locked (cell st c) = false →
      (∀ t, content (cell st c) = Some t → alive st t = false) →
      step st Ordinary
        (set_tasks (set_cells st (<[c := mkSlot (content (cell st c)) true]> (cells st)))
           (<[i := (r, PFill retry s c)]> (tasks st)))
  (** The fill succeeds: for a recipe its base forked. *)
  | step_filled st i r retry s c t :
      tasks st !! i = Some (r, PFill retry s c) →
      templates st !! t = None → (∀ b, stage_base s = Some b → running st b = true) →
      step st Ordinary
        (set_tasks
           (set_templates (set_cells st (<[c := mkSlot (Some t) false]> (cells st)))
              (<[t := mkTemplate (stage_key r s) true true (stage_base s) c]> (templates st)))
           (<[i := (r, next_pc retry r s c t)]> (tasks st)))
  (** The fill fails, or the request is dropped: the guard unlocks. *)
  | step_fill_failed st i r retry s c :
      tasks st !! i = Some (r, PFill retry s c) →
      step st Ordinary
        (set_tasks (set_cells st (<[c := mkSlot (content (cell st c)) false]> (cells st)))
           (delete i (tasks st)))
  | step_dropped st i r p :
      tasks st !! i = Some (r, p) → (∀ retry s c, p ≠ PFill retry s c) →
      step st Ordinary (set_tasks st (delete i (tasks st)))
  (** The fork succeeds and the instance is registered. *)
  | step_forked st i r retry t n :
      tasks st !! i = Some (r, PFork retry t) → up st t = true → instances st !! n = None →
      step st Ordinary
        (set_instances (set_tasks st (delete i (tasks st))) (<[n := t]> (instances st)))
  (** An instance is deleted, expires or exits. *)
  | step_instance_gone st n :
      step st Ordinary (set_instances st (delete n (instances st)))
  (** The owner: expiry, and the last handle gone. *)
  | step_expire st t :
      running st t = true → ¬ has_descendant st t →
      step st Ordinary (stop_template st t)
  | step_disconnect st t :
      running st t = true → ¬ held st t → step st Ordinary (stop_template st t)
  | step_prune st : step st Ordinary (prune st)
  (** A fork fails: its owner ends the template. *)
  | step_fork_failed st i r t :
      tasks st !! i = Some (r, PFork false t) →
      step st (ForkFails t) (set_tasks (stop_template st t) (<[i := (r, PForget)]> (tasks st)))
  | step_fork_failed_again st i r t :
      tasks st !! i = Some (r, PFork true t) →
      step st (ForkFails t) (set_tasks (stop_template st t) (delete i (tasks st)))
  (** A recipe's fill fails at forking the base. *)
  | step_base_fork_failed st i r retry bs b c :
      tasks st !! i = Some (r, PFill retry (SRecipe bs b) c) →
      step st (ForkFails b)
        (set_tasks (set_cells (stop_template st b)
                      (<[c := mkSlot (content (cell st c)) false]> (cells st)))
           (delete i (tasks st)))
  | step_forget st i r :
      tasks st !! i = Some (r, PForget) →
      step st (Forgets (wanted_key r))
        (set_tasks (forget (wanted_key r) st) (<[i := (r, PSlot true SBase)]> (tasks st)))
  | step_host_dies st t :
      running st t = true → step st (HostDies t) (stop_template st t).

(** An instance is there: registered, with its template's chain up. *)
Definition instance_up (st : St) (n : nat) : Prop :=
  ∃ t, instances st !! n = Some t ∧ up st t = true.

(** ** Unless its slot is forgotten, a template with a descendant stays *)

(** The slots forgotten after a step: the one a [forget] takes out of the map
    joins them.  A slot never comes back into the map, under any key. *)
Definition forgotten (F : gset nat) (st : St) (l : label) : gset nat :=
  match l with
  | Forgets k => match slots st !! k with Some c => {[c]} ∪ F | None => F end
  | _ => F
  end.
(** A run with the slots forgotten in it. *)
Definition traced_step (x y : gset nat * St) : Prop :=
  ∃ l, step x.2 l y.2 ∧ y.1 = forgotten x.1 x.2 l.

Definition kept_step (st st' : St) : Prop := ∃ l, (∀ k, l ≠ Forgets k) ∧ step st l st'.

(** A template is where it was brought up, and that is in the map. *)
Definition listed (st : St) (t : nat) (x : Template) : Prop :=
  slots st !! t_key x = Some (t_slot x) ∧ content (cell st (t_slot x)) = Some t.

(** The slot was looked up under the key: the map has it there, unless it has
    been forgotten, and under no other. *)
Definition slot_of (F : gset nat) (st : St) (k : Key) (c : nat) : Prop :=
  (c ∉ F → slots st !! k = Some c) ∧ ∀ k', slots st !! k' = Some c → k' = k.

(** What a task at a slot may rely on. *)
Definition task_ok (F : gset nat) (st : St) (r : Wanted) (p : pc) : Prop :=
  match p with
  | PLock _ s c => slot_of F st (stage_key r s) c
  | PFill _ s c => slot_of F st (stage_key r s) c ∧ locked (cell st c) = true ∧
      ∀ t, content (cell st c) = Some t → alive st t = false
  | _ => True
  end.

(** The invariant, of a state before which the slots [F] were forgotten. *)
Record inv (F : gset nat) (st : St) : Prop := mkInv {
  inv_running t x : templates st !! t = Some x → t_running x = true →
    t_alive x = true ∧ (t_slot x ∉ F → listed st t x);
  inv_content k c t : slots st !! k = Some c → content (cell st c) = Some t →
    ∃ x, templates st !! t = Some x ∧ t_key x = k ∧ t_slot x = c;
  inv_known c t : content (cell st c) = Some t → is_Some (templates st !! t);
  inv_slots k k' c : slots st !! k = Some c → slots st !! k' = Some c → k = k';
  inv_tasks i r p : tasks st !! i = Some (r, p) → task_ok F st r p;
  inv_fill i j r r' b b' s s' c :
    tasks st !! i = Some (r, PFill b s c) → tasks st !! j = Some (r', PFill b' s' c) → i = j;
  inv_there k c : slots st !! k = Some c → is_Some (cells st !! c) ∧ c ∉ F;
  inv_forgotten c : c ∈ F → is_Some (cells st !! c);
}.

Lemma cell_set_cells st c x c' :
  cell (set_cells st (<[c := x]> (cells st))) c' = if decide (c = c') then x else cell st c'.
Proof.
  unfold cell, set_cells. simpl. destruct (decide (c = c')) as [->|Hne].
  - by rewrite lookup_insert_eq.
  - by rewrite lookup_insert_ne.
Qed.

Lemma alive_stop st t t' : alive (stop_template st t) t' = true → alive st t' = true.
Proof.
  unfold alive, stop_template. destruct (templates st !! t) as [x|] eqn:Ht; [|done]. simpl.
  destruct (decide (t = t')) as [->|Hne]; [by rewrite lookup_insert_eq|by rewrite lookup_insert_ne].
Qed.

Lemma shared_true st i r p c :
  tasks st !! i = Some (r, p) → c ∈ pc_slots p → shared st c = true.
Proof.
  intros Hi Hc. unfold shared. apply existsb_exists. exists (i, (r, p)). split.
  - apply list_elem_of_In. by apply elem_of_map_to_list.
  - by apply bool_decide_eq_true.
Qed.

Lemma prune_lookup st k c :
  slots (prune st) !! k = Some c ↔ slots st !! k = Some c ∧ keep st c = true.
Proof. unfold prune. simpl. rewrite map_lookup_filter_Some. done. Qed.

(** A new slot is empty. *)
Lemma cell_empty st m c c' :
  cells st !! c = None →
  cell (set_cells (set_slots st m) (<[c := empty_slot]> (cells st))) c' = cell st c'.
Proof.
  intros Hc. unfold cell. simpl. destruct (decide (c = c')) as [->|Hne];
    [by rewrite lookup_insert_eq, Hc|by rewrite lookup_insert_ne].
Qed.

(** Stopping a template keeps the invariant. *)
Lemma inv_stop F st t : inv F st → inv F (stop_template st t).
Proof.
  intros [H1 H2 Hkn H3 H4 H5 Hth Hfo].
  assert (slots (stop_template st t) = slots st ∧ cells (stop_template st t) = cells st ∧
          tasks (stop_template st t) = tasks st) as (Hs & Hc & Ht)
    by (unfold stop_template; by destruct (templates st !! t)).
  assert (∀ c, cell (stop_template st t) c = cell st c) as Hcell by (intros c; unfold cell; by rewrite Hc).
  split; unfold listed; rewrite ?Hs, ?Ht.
  - intros t' x Hx Hr. setoid_rewrite Hcell.
    unfold stop_template in Hx. destruct (templates st !! t) as [y|] eqn:Hy; [|by eapply H1].
    simpl in Hx. apply lookup_insert_Some in Hx as [[<- <-]|[_ Hx]]; [done|by eapply H1].
  - intros k c t' Hk Hco. rewrite Hcell in Hco. destruct (H2 _ _ _ Hk Hco) as (x & Hx & Hkx & Hsx).
    unfold stop_template. destruct (templates st !! t) as [y|] eqn:Hy; [|by exists x]. simpl.
    destruct (decide (t = t')) as [->|Hne]; [|exists x; by rewrite lookup_insert_ne].
    rewrite lookup_insert_eq. eexists. split; [done|]. simpl. split; congruence.
  - intros c t'. rewrite Hcell. intros [y Hy]%Hkn. unfold stop_template.
    destruct (templates st !! t); [|by exists y]. simpl. rewrite lookup_insert_is_Some'. eauto.
  - done.
  - intros i r p Hi. specialize (H4 _ _ _ Hi). unfold task_ok in *.
    unfold slot_of in *. rewrite ?Hs. destruct p; rewrite ?Hcell; try done.
    destruct H4 as (? & ? & Hd). split; [done|]. split; [done|]. intros t' Ht'.
    destruct (alive (stop_template st t) t') eqn:Ha; [|done].
    apply alive_stop in Ha. by rewrite Hd in Ha.
  - done.
  - by rewrite Hc.
  - by rewrite Hc.
Qed.

(** Changing only the tasks. *)
Lemma inv_set_tasks F st m :
  inv F st → (∀ i r p, m !! i = Some (r, p) → task_ok F st r p) →
  (∀ i j r r' b b' s s' c,
     m !! i = Some (r, PFill b s c) → m !! j = Some (r', PFill b' s' c) → i = j) →
  inv F (set_tasks st m).
Proof. intros [H1 H2 Hkn H3 H4 H5 Hth Hfo] Ht Hf. by split. Qed.

Lemma inv_task_insert F st i r p :
  inv F st → task_ok F st r p → (∀ b s c, p ≠ PFill b s c) →
  inv F (set_tasks st (<[i := (r, p)]> (tasks st))).
Proof.
  intros Hinv Hp Hnf. apply inv_set_tasks; [done| |].
  - intros j r' p' Hj. apply lookup_insert_Some in Hj as [[_ [= <- <-]]|[_ Hj]]; [done|].
    by eapply inv_tasks.
  - intros j k r1 r2 b b' s s' c Hj Hk.
    apply lookup_insert_Some in Hj as [[_ [= _ Hj]]|[_ Hj]]; [by destruct (Hnf _ _ _ Hj)|].
    apply lookup_insert_Some in Hk as [[_ [= _ Hk]]|[_ Hk]]; [by destruct (Hnf _ _ _ Hk)|].
    by eapply inv_fill.
Qed.

Lemma inv_task_delete F st i : inv F st → inv F (set_tasks st (delete i (tasks st))).
Proof.
  intros Hinv. apply inv_set_tasks; [done| |].
  - intros j r p [_ Hj]%lookup_delete_Some. by eapply inv_tasks.
  - intros j k r1 r2 b b' s s' c [_ Hj]%lookup_delete_Some [_ Hk]%lookup_delete_Some.
    by eapply inv_fill.
Qed.

Lemma next_pc_ok F st retry r s c t : task_ok F st r (next_pc retry r s c t).
Proof. unfold next_pc. by destruct s, (recipe_key r). Qed.

Lemma next_pc_no_fill retry r s c t b s' c' : next_pc retry r s c t ≠ PFill b s' c'.
Proof. unfold next_pc. by destruct s, (recipe_key r). Qed.

Lemma inv_instances F st m : inv F st → inv F (set_instances st m).
Proof. intros [H1 H2 Hkn H3 H4 H5 Hth Hfo]. by split. Qed.

Lemma inv_prune F st : inv F st → inv F (prune st).
Proof.
  intros [H1 H2 Hkn H3 H4 H5 Hth Hfo]. split.
  - intros t x Hx Hr. change (templates st !! t = Some x) in Hx.
    destruct (H1 _ _ Hx Hr) as (Ha & Hli). split; [done|]. intros (Hc & Hco)%Hli.
    split; [|done]. apply prune_lookup. split; [done|]. unfold keep.
    rewrite Hco. unfold alive. rewrite Hx, Ha. by rewrite orb_true_r.
  - intros k c t [Hk _]%prune_lookup Hco. by eapply H2.
  - exact Hkn.
  - intros k k' c [Hk _]%prune_lookup [Hk' _]%prune_lookup. by eapply H3.
  - intros i r p Hi. change (tasks st !! i = Some (r, p)) in Hi.
    specialize (H4 _ _ _ Hi). unfold task_ok in *.
    assert (∀ c, c ∈ pc_slots p → keep st c = true) as Hkeep.
    { intros c Hc. unfold keep. by rewrite (shared_true _ _ _ _ _ Hi Hc). }
    assert (∀ k c, c ∈ pc_slots p → slot_of F st k c → slot_of F (prune st) k c) as Hslot.
    { intros k c Hc [Hs1 Hs2]. split; [|by intros k' [Hk _]%prune_lookup; apply Hs2].
      intros HF. apply prune_lookup. split; [by apply Hs1|by apply Hkeep]. }
    destruct p; try done.
    + apply Hslot; [by left|done].
    + destruct H4 as (Hs & ? & ?). split_and!; [|done|done]. apply Hslot; [by left|done].
  - done.
  - intros k c [Hk _]%prune_lookup. by apply (Hth k).
  - done.
Qed.

(** Setting only a slot's lock. *)
Lemma cell_lock st m c b c' :
  let st1 := set_tasks (set_cells st (<[c := mkSlot (content (cell st c)) b]> (cells st))) m in
  content (cell st1 c') = content (cell st c') ∧
  locked (cell st1 c') = if decide (c = c') then b else locked (cell st c').
Proof.
  intros st1. change (cell st1 c') with
    (cell (set_cells st (<[c := mkSlot (content (cell st c)) b]> (cells st))) c').
  rewrite cell_set_cells. by destruct (decide (c = c')) as [->|].
Qed.

Lemma inv_set_lock F st c b m :
  inv F st →
  let st1 := set_tasks (set_cells st (<[c := mkSlot (content (cell st c)) b]> (cells st))) m in
  (∀ i r p, m !! i = Some (r, p) → task_ok F st1 r p) →
  (∀ i j r r' b b' s s' c,
     m !! i = Some (r, PFill b s c) → m !! j = Some (r', PFill b' s' c) → i = j) →
  inv F st1.
Proof.
  intros [H1 H2 Hkn H3 H4 H5 Hth Hfo] st1 Ht Hf.
  assert (∀ c', content (cell st1 c') = content (cell st c')) as Hco
    by (intros c'; apply cell_lock).
  assert (∀ c', is_Some (cells st !! c') → is_Some (cells st1 !! c')) as Hcells
    by (intros c' Hc'; simpl; rewrite lookup_insert_is_Some'; by right).
  split; [| | | |exact Ht|exact Hf| |]; unfold listed.
  - intros t x Hx Hr. destruct (H1 _ _ Hx Hr) as (Ha & Hli). split; [done|].
    intros (Hc' & Hco')%Hli. by rewrite Hco.
  - intros k c' t Hk Hc'. rewrite Hco in Hc'. by eapply H2.
  - intros c' t. rewrite Hco. apply Hkn.
  - exact H3.
  - intros k c' Hk. destruct (Hth k c' Hk). auto.
  - auto.
Qed.

(** Locking a slot to fill it. *)
Lemma inv_miss F st i r retry s c :
  inv F st → tasks st !! i = Some (r, PLock retry s c) → locked (cell st c) = false →
  (∀ t, content (cell st c) = Some t → alive st t = false) →
  inv F (set_tasks (set_cells st (<[c := mkSlot (content (cell st c)) true]> (cells st)))
         (<[i := (r, PFill retry s c)]> (tasks st))).
Proof.
  intros Hinv Hi Hl Hd. pose proof (inv_tasks _ _ Hinv _ _ _ Hi) as Hs. simpl in Hs.
  assert (∀ j r' b s' c', tasks st !! j = Some (r', PFill b s' c') → c ≠ c') as Hnf.
  { intros j r' b s' c' Hj ->. apply (inv_tasks _ _ Hinv) in Hj as (_ & Hlk & _). congruence. }
  apply inv_set_lock; [done| |].
  - intros j r' p Hj. apply lookup_insert_Some in Hj as [[_ [= <- <-]]|[_ Hj]].
    + unfold task_ok. setoid_rewrite (proj1 (cell_lock _ _ _ _ _)). rewrite (proj2 (cell_lock _ _ _ _ _)).
      by rewrite decide_True.
    + pose proof (inv_tasks _ _ Hinv _ _ _ Hj) as Hok. destruct p as [| |b s' c'| |]; try done.
      unfold task_ok in *. setoid_rewrite (proj1 (cell_lock _ _ _ _ _)).
      rewrite (proj2 (cell_lock _ _ _ _ _)). rewrite decide_False by by eapply Hnf. exact Hok.
  - intros j k r1 r2 b b' s1 s2 c' Hj Hk.
    apply lookup_insert_Some in Hj as [[<- Hj]|[Hne Hj]];
      apply lookup_insert_Some in Hk as [[<- Hk]|[Hne' Hk]]; simplify_eq; try done.
    + by apply Hnf in Hk.
    + by apply Hnf in Hj.
    + by eapply inv_fill.
Qed.

(** Unlocking a slot without filling it. *)
Lemma inv_unlock F st i r retry s c :
  inv F st → tasks st !! i = Some (r, PFill retry s c) →
  inv F (set_tasks (set_cells st (<[c := mkSlot (content (cell st c)) false]> (cells st)))
         (delete i (tasks st))).
Proof.
  intros Hinv Hi. apply inv_set_lock; [done| |].
  - intros j r' p [Hne Hj]%lookup_delete_Some. pose proof (inv_tasks _ _ Hinv _ _ _ Hj) as Hok.
    destruct p as [| |b s' c'| |]; try done. unfold task_ok in *.
    setoid_rewrite (proj1 (cell_lock _ _ _ _ _)). rewrite (proj2 (cell_lock _ _ _ _ _)).
    rewrite decide_False; [exact Hok|]. intros ->. apply Hne. by eapply inv_fill.
  - intros j k r1 r2 b b' s1 s2 c' [_ Hj]%lookup_delete_Some [_ Hk]%lookup_delete_Some.
    by eapply inv_fill.
Qed.

(** Filling a slot: the template it held had ended. *)
Lemma inv_filled F st i r retry s c t b :
  inv F st → tasks st !! i = Some (r, PFill retry s c) → templates st !! t = None →
  inv F (set_tasks
         (set_templates (set_cells st (<[c := mkSlot (Some t) false]> (cells st)))
            (<[t := mkTemplate (stage_key r s) true true b c]> (templates st)))
         (<[i := (r, next_pc retry r s c t)]> (tasks st))).
Proof.
  intros Hinv Hi Ht. pose proof (inv_tasks _ _ Hinv _ _ _ Hi) as (Hs & Hlk & Hd).
  set (st1 := set_tasks _ _).
  assert (∀ c', cell st1 c' = if decide (c = c') then mkSlot (Some t) false else cell st c') as Hcell.
  { intros c'. apply (cell_set_cells st). }
  destruct Hinv as [H1 H2 Hkn H3 H4 H5 Hth Hfo]. split; unfold listed.
  - intros t' x Hx Hr. simpl in Hx. apply lookup_insert_Some in Hx as [[<- <-]|[Hne Hx]].
    + split; [done|]. intros HF. split; [by apply Hs|]. simpl. by rewrite Hcell, decide_True.
    + destruct (H1 _ _ Hx Hr) as (Ha & Hli). split; [done|]. intros (Hc' & Hco)%Hli.
      split; [done|]. rewrite Hcell, decide_False; [done|]. intros Heq. rewrite <- Heq in Hco.
      specialize (Hd _ Hco). unfold alive in Hd. rewrite Hx in Hd. congruence.
  - intros k c' t' Hk Hco. simpl in Hk. rewrite Hcell in Hco. simpl.
    destruct (decide (c = c')) as [<-|Hne].
    + injection Hco as <-. rewrite lookup_insert_eq. eexists. split_and!; [done| |done].
      symmetry. by apply Hs.
    + destruct (H2 _ _ _ Hk Hco) as (x & Hx & Hkx). exists x.
      rewrite lookup_insert_ne; [done|]. intros ->. by rewrite Ht in Hx.
  - intros c' t'. rewrite Hcell. simpl. rewrite lookup_insert_is_Some'.
    destruct (decide (c = c')); [intros [= ->]; by left|]. intros Hco. right. by eapply Hkn.
  - exact H3.
  - intros j r' p Hj. simpl in Hj. apply lookup_insert_Some in Hj as [[_ [= <- <-]]|[Hne Hj]].
    { apply next_pc_ok. }
    pose proof (H4 _ _ _ Hj) as Hok. destruct p as [| |b' s' c'| |]; try done.
    destruct Hok as (Hs' & Hlk' & Hd').
    assert (c ≠ c') as Hne' by (intros ->; apply Hne; by eapply H5).
    unfold task_ok. rewrite Hcell, decide_False by done. split_and!; [done|done|].
    intros t' Ht'. specialize (Hd' _ Ht'). unfold alive in *. simpl.
    destruct (decide (t = t')) as [<-|Hnt]; [|by rewrite lookup_insert_ne].
    destruct (Hkn _ _ Ht') as [x Hx]. by rewrite Ht in Hx.
  - intros j k r1 r2 b1 b2 s1 s2 c' Hj Hk. simpl in Hj, Hk.
    apply lookup_insert_Some in Hj as [[<- Hj]|[_ Hj]];
      [injection Hj as _ Hj; by apply next_pc_no_fill in Hj|].
    apply lookup_insert_Some in Hk as [[<- Hk]|[_ Hk]];
      [injection Hk as _ Hk; by apply next_pc_no_fill in Hk|]. by eapply H5.
  - intros k c' Hk. simpl. rewrite lookup_insert_is_Some'. destruct (Hth k c' Hk). auto.
  - intros c' Hc'. simpl. rewrite lookup_insert_is_Some'. auto.
Qed.

(** Looking a slot up, or making an empty one. *)
Lemma inv_slot F st i r retry s c fresh st' :
  inv F st → cells st !! fresh = None → (∀ k, slots st !! k ≠ Some fresh) →
  (∀ j r' p, tasks st !! j = Some (r', p) → fresh ∉ pc_slots p) →
  slot (stage_key r s) fresh st = (c, st') →
  inv F (set_tasks st' (<[i := (r, PLock retry s c)]> (tasks st'))).
Proof.
  intros Hinv Hfr Hns Hnt. unfold slot.
  destruct (slots st !! stage_key r s) as [c'|] eqn:Hk; intros [= <- <-].
  - apply inv_task_insert; [done| |done]. split; [done|]. intros k' Hk'. by eapply inv_slots.
  - assert (cell st fresh = empty_slot) as Hemp by (unfold cell; by rewrite Hfr).
    apply inv_task_insert; [|split; simpl; [by rewrite lookup_insert_eq|]|done].
    2:{ intros k' [[<- _]|[_ Hk']]%lookup_insert_Some; [done|by destruct (Hns k')]. }
    destruct Hinv as [H1 H2 Hkn H3 H4 H5 Hth Hfo].
    assert (∀ k' c', slots st !! k' = Some c' →
      (<[stage_key r s := fresh]> (slots st)) !! k' = Some c') as Hkeep.
    { intros k' c' Hk'. rewrite lookup_insert_ne; [done|]. intros <-. by rewrite Hk in Hk'. }
    set (st0 := set_cells _ _).
    assert (∀ c', cell st0 c' = cell st c') as Hcell by (intros c'; by apply cell_empty).
    assert (∀ c', is_Some (cells st !! c') → is_Some (cells st0 !! c')) as Hcells
      by (intros c' Hc'; simpl; rewrite lookup_insert_is_Some'; by right).
    assert (slots st0 = <[stage_key r s := fresh]> (slots st)) as Hsl by done.
    split; unfold listed; rewrite ?Hsl.
    + intros t x Hx Hr. destruct (H1 _ _ Hx Hr) as (Ha & Hli). split; [done|].
      intros (Hc' & Hco)%Hli. rewrite Hcell. split; [by apply Hkeep|done].
    + intros k' c' t Hk' Hco. rewrite Hcell in Hco.
      apply lookup_insert_Some in Hk' as [[<- <-]|[_ Hk']]; [by rewrite Hemp in Hco|by eapply H2].
    + intros c' t. rewrite Hcell. apply Hkn.
    + intros k1 k2 c' Hk1 Hk2.
      apply lookup_insert_Some in Hk1 as [[<- <-]|[_ Hk1]];
        apply lookup_insert_Some in Hk2 as [[<- Hc2]|[_ Hk2]]; try done.
      * by destruct (Hns k2).
      * subst. by destruct (Hns k1).
      * by eapply H3.
    + intros j r' p Hj. specialize (H4 _ _ _ Hj). specialize (Hnt _ _ _ Hj).
      assert (∀ k c', c' ∈ pc_slots p → slot_of F st k c' → slot_of F st0 k c') as Hslot.
      { intros k c' Hin [Hs1 Hs2]. split; [intros HF; by apply Hkeep, Hs1|].
        rewrite Hsl. intros k' [[_ <-]|[_ Hk']]%lookup_insert_Some; [by destruct Hnt|by apply Hs2]. }
      destruct p; try done; simpl in H4 |- *.
      * apply Hslot; [by left|done].
      * destruct H4 as (? & ? & ?). rewrite Hcell. split; [apply Hslot; [by left|done]|done].
    + done.
    + intros k' c' Hk'. apply lookup_insert_Some in Hk' as [[<- <-]|[_ Hk']].
      * split; [simpl; rewrite lookup_insert_eq; eauto|].
        intros [x Hx]%Hfo. by rewrite Hfr in Hx.
      * destruct (Hth _ _ Hk'). auto.
    + auto.
Qed.

(** Forgetting a key, with the slot it had. *)
Lemma inv_forget F st k : inv F st → inv (forgotten F st (Forgets k)) (forget k st).
Proof.
  intros [H1 H2 Hkn H3 H4 H5 Hth Hfo]. set (F' := forgotten F st (Forgets k)).
  assert (∀ k' c, slots (forget k st) !! k' = Some c → k' ≠ k ∧ slots st !! k' = Some c) as Hsub
    by (intros k' c Hk; simpl in Hk; by apply lookup_delete_Some in Hk as [? Hk]).
  assert (∀ c, c ∉ F' → c ∉ F ∧ slots st !! k ≠ Some c) as HF.
  { intros c. unfold F'. simpl. destruct (slots st !! k); set_solver. }
  assert (∀ k' c, c ∉ F' → slots st !! k' = Some c → slots (forget k st) !! k' = Some c) as Hkeep.
  { intros k' c [_ Hne]%HF Hk. simpl. rewrite lookup_delete_ne; [done|congruence]. }
  assert (∀ k' c, slot_of F st k' c → slot_of F' (forget k st) k' c) as Hslot.
  { intros k' c [Hs1 Hs2]. split; [intros Hc; apply Hkeep; [done|]; by apply Hs1, HF|].
    intros k1 [_ Hk1]%Hsub. by apply Hs2. }
  split.
  - intros t x Hx Hr. destruct (H1 _ _ Hx Hr) as [Ha Hli]. split; [done|]. intros Hc.
    destruct Hli as (Hc1 & Hco); [by apply HF|]. split; [by apply Hkeep|done].
  - intros k' c t [_ Hk']%Hsub. by apply H2.
  - exact Hkn.
  - intros k1 k2 c [_ Hk1]%Hsub [_ Hk2]%Hsub. by eapply H3.
  - intros i r p Hi. specialize (H4 _ _ _ Hi). destruct p; try done; [by apply Hslot|].
    destruct H4 as [? ?]. split; [by apply Hslot|done].
  - exact H5.
  - intros k' c [Hne Hk']%Hsub. destruct (Hth _ _ Hk') as [? Hc]. split; [done|].
    unfold F'. simpl. destruct (slots st !! k) as [c'|] eqn:Hk; [|done].
    apply not_elem_of_union. split; [|done]. apply not_elem_of_singleton. intros ->.
    apply Hne. by eapply H3.
  - intros c Hc. unfold F' in Hc. simpl in Hc. destruct (slots st !! k) as [c'|] eqn:Hk; [|by apply Hfo].
    apply elem_of_union in Hc as [->%elem_of_singleton | Hc]; [by apply (Hth k)|by apply Hfo].
Qed.

Lemma stop_keeps_map st t :
  tasks (stop_template st t) = tasks st ∧ cells (stop_template st t) = cells st ∧
  instances (stop_template st t) = instances st.
Proof. unfold stop_template. by destruct (templates st !! t). Qed.
Lemma stop_instances st t : instances (stop_template st t) = instances st.
Proof. apply stop_keeps_map. Qed.

Lemma step_keeps_inv F st l st' : step st l st' → inv F st → inv (forgotten F st l) st'.
Proof.
  intros Hstep Hinv. destruct Hstep; cbn [forgotten].
  - by apply inv_task_insert.
  - by eapply inv_slot.
  - apply inv_task_insert; [done|apply next_pc_ok|intros; apply next_pc_no_fill].
  - by eapply inv_miss.
  - by eapply inv_filled.
  - by eapply inv_unlock.
  - by apply inv_task_delete.
  - by apply inv_instances, inv_task_delete.
  - by apply inv_instances.
  - by apply inv_stop.
  - by apply inv_stop.
  - by apply inv_prune.
  - rewrite <- (proj1 (stop_keeps_map st t)). by apply inv_task_insert; [apply inv_stop|..].
  - rewrite <- (proj1 (stop_keeps_map st t)). by apply inv_task_delete, inv_stop.
  - destruct (stop_keeps_map st b) as (Ht & Hc & _).
    assert (cell (stop_template st b) c = cell st c) as Hcell by (unfold cell; by rewrite Hc).
    rewrite <- Ht, <- Hc, <- Hcell. eapply inv_unlock; [by apply inv_stop|by rewrite Ht].
  - change (tasks st) with (tasks (forget (wanted_key r) st)).
    by apply inv_task_insert; [apply inv_forget|..].
  - by apply inv_stop.
Qed.

Lemma inv_init : inv ∅ init.
Proof. split; unfold init; simpl; intros *; rewrite ?lookup_empty; done. Qed.

Lemma traced_inv F st : rtc traced_step (∅, init) (F, st) → inv F st.
Proof.
  intros Hr. apply (rtc_invariant traced_step (λ x, inv x.1 x.2)) in Hr; [done| |apply inv_init].
  intros [F1 s1] [F2 s2] (l & Hs & HF) Hinv. simpl in *. subst F2. by eapply step_keeps_inv.
Qed.

Lemma kept_forgotten F st l : (∀ k, l ≠ Forgets k) → forgotten F st l = F.
Proof. intros Hl. destruct l; try done. by destruct (Hl k). Qed.

Lemma reachable_inv st : rtc kept_step init st → inv ∅ st.
Proof.
  apply rtc_invariant; [|apply inv_init]. intros s1 s2 (l & Hl & Hs) Hinv.
  rewrite <- (kept_forgotten ∅ s1 l Hl). by eapply step_keeps_inv.
Qed.

Lemma kept_traced st st' : rtc kept_step st st' → rtc traced_step (∅, st) (∅, st').
Proof.
  induction 1 as [|x y z (l & Hl & Hs) _ IH]; [done|]. eapply rtc_l; [|exact IH].
  exists l. split; [exact Hs|]. by rewrite kept_forgotten.
Qed.

Lemma traced_l F st l st1 x : step st l st1 → rtc traced_step (forgotten F st l, st1) x → rtc traced_step (F, st) x.
Proof. intros Hs. apply rtc_l. by exists l. Qed.

(** A running template is listed unless its slot was forgotten, hence held. *)
Lemma running_held F st t x :
  inv F st → templates st !! t = Some x → t_running x = true → t_slot x ∉ F → held st t.
Proof.
  intros Hinv Hx Hr HF. destruct (inv_running _ _ Hinv _ _ Hx Hr) as [_ Hli].
  destruct (Hli HF) as (Hc & Hco). left. by exists (t_key x), (t_slot x).
Qed.

(** The templates a clone of [t] depends on: [t] and its base. *)
Definition in_chain (st : St) (t t' : nat) : Prop := t' = t ∨ templates st !! t ≫= t_base = Some t'.
(** None of them was brought up in one of these slots. *)
Definition remembered (F : gset nat) (st : St) (t : nat) : Prop :=
  ∀ t' x, in_chain st t t' → templates st !! t' = Some x → t_slot x ∉ F.
(** The template a step goes wrong with. *)
Definition fails (l : label) : option nat :=
  match l with ForkFails t | HostDies t => Some t | _ => None end.

(** Stopping a template outside an instance's chain leaves it up. *)
Lemma up_stop_other st t t' :
  up st t' = true → t ≠ t' → templates st !! t' ≫= t_base ≠ Some t → up (stop_template st t) t' = true.
Proof.
  intros Hup Hne Hnb. unfold up, running, stop_template in *.
  destruct (templates st !! t) as [x|] eqn:Hx; [|done]. simpl. rewrite lookup_insert_ne by done.
  destruct (templates st !! t') as [y|]; [|done]. simpl in *.
  destruct (t_base y) as [b|]; [|done]. rewrite lookup_insert_ne by congruence. done.
Qed.

(** Expiry stops no template of an instance's chain. *)
Lemma expire_spares st t n : instance_up st n → ¬ has_descendant st t → instance_up (stop_template st t) n.
Proof.
  intros (t' & Hn & Hup) Hnd. exists t'. split.
  { unfold stop_template. by destruct (templates st !! t). }
  apply up_stop_other; [done| |].
  - intros ->. apply Hnd. left. by exists n.
  - intros Hb. apply Hnd. right. unfold up, running in Hup.
    destruct (templates st !! t') as [y|] eqn:Hy; [|done]. exists t', y.
    by apply andb_true_iff in Hup as [? _].
Qed.

(** A fresh template changes no chain. *)
Lemma up_fresh st t x c t' :
  templates st !! t = None → up st t' = true →
  up (set_templates (set_cells st c) (<[t := x]> (templates st))) t' = true.
Proof.
  unfold up, running. simpl. intros Ht Hup.
  destruct (templates st !! t') as [y|] eqn:Hy; [|done].
  rewrite lookup_insert_ne, Hy by congruence. simpl in *. destruct (t_base y) as [b|]; [|done].
  destruct (templates st !! b) as [z|] eqn:Hz; [|by rewrite andb_comm in Hup].
  rewrite lookup_insert_ne by congruence. by rewrite Hz.
Qed.

(** Stopping another template. *)
Lemma stop_spares st t n t' :
  instances st !! n = Some t → up st t = true → ¬ in_chain st t t' →
  instance_up (stop_template st t') n.
Proof.
  intros Hn Hu Hc. exists t. rewrite stop_instances. split; [done|].
  apply up_stop_other; [done| |]; intros Heq; apply Hc; [by left|by right].
Qed.

Lemma chain_running st t t' :
  up st t = true → in_chain st t t' → ∃ x, templates st !! t' = Some x ∧ t_running x = true.
Proof.
  unfold up, running, in_chain. intros [Hr Hb]%andb_true_iff [->|Hin].
  - destruct (templates st !! t) as [x|]; [by exists x|done].
  - rewrite Hin in Hb. destruct (templates st !! t') as [x|]; [by exists x|done].
Qed.

#[global] Instance in_chain_dec st t t' : Decision (in_chain st t t').
Proof. unfold in_chain. apply _. Defined.

(** A step that goes wrong elsewhere, or not at all, spares the instance. *)
Lemma step_spares F st l st' n t :
  inv F st → step st l st' → instances st !! n = Some t → up st t = true → remembered F st t →
  (∀ t', fails l = Some t' → ¬ in_chain st t t') →
  instance_up st' n ∨ instances st' !! n = None.
Proof.
  intros Hinv Hstep Hn Hu HF Hfail. assert (instance_up st n) as Hup by by exists t.
  destruct Hstep as [|st i r retry s c fresh st2 Hi Hf1 Hf2 Hf3 Hslot| | | | | |st i r retry t1 m Hi Hu1 Hm
    |st m|st t1|st t1| |st i r t1 Hi|st i r t1 Hi|st i r retry bs b c Hi| |st t1]; try (left; exact Hup).
  - left. unfold slot in Hslot. destruct (slots st !! _); simplify_eq; exact Hup.
  - left. exists t. split; [exact Hn|]. by apply up_fresh.
  - left. exists t. split; [|exact Hu]. simpl. rewrite lookup_insert_ne; [done|congruence].
  - destruct (decide (m = n)) as [->|Hne]; [right; apply lookup_delete_eq|left].
    exists t. split; [|exact Hu]. simpl. by rewrite lookup_delete_ne.
  - left. by apply expire_spares.
  - left. destruct (decide (in_chain st t t1)) as [Hc|Hc]; [|by eapply stop_spares].
    destruct (chain_running st t t1 Hu Hc) as (x & Hx & Hr). exfalso.
    eauto using running_held, HF.
  - left. apply (stop_spares st t n t1 Hn Hu). by apply Hfail.
  - left. apply (stop_spares st t n t1 Hn Hu). by apply Hfail.
  - left. apply (stop_spares st t n b Hn Hu). by apply Hfail.
  - left. apply (stop_spares st t n t1 Hn Hu). by apply Hfail.
Qed.

(** C15: failures are contained.  In any state the server reaches, whatever
    the interleaving of requests, fills, dropped requests, deletions, expiries,
    disconnected owners, prunes, failed forks, forgets and host deaths, an
    instance that is up (its template's process and its base's running) stays
    up at the next step, or is removed by it, unless that step is a failed fork
    or the death of that template or its base, or one of the two was brought up
    in a slot that a [forget] has taken out of the map, before or after.  Such a
    slot never comes back, so forgetting a key does not concern the templates
    brought up in the slot that the next lookup of the key makes.  Expiry never
    takes a template with a descendant, no owner of a running template whose
    slot was not forgotten sees its handles gone, and what goes wrong with
    another service, version or recipe does not reach the instance. *)
Theorem instances_outlive_the_cache F st l st' n t :
  rtc traced_step (∅, init) (F, st) → step st l st' →
  instances st !! n = Some t → up st t = true → remembered F st t →
  (∀ t', fails l = Some t' → ¬ in_chain st t t') →
  instance_up st' n ∨ instances st' !! n = None.
Proof. intros Hreach. by apply step_spares, traced_inv. Qed.

(** C38: without a [forget] there is one template per key: of the templates the
    server ever brought up, two that run and have one key (service, version
    and recipe digest) are one template, and two requests that bring one up for
    the same key are one request, so concurrent requests share a fill. *)
Theorem one_template_per_key st :
  rtc kept_step init st →
  (∀ t t' x x', templates st !! t = Some x → templates st !! t' = Some x' →
     t_running x = true → t_running x' = true → t_key x = t_key x' → t = t') ∧
  (∀ i j r r' b b' s s' c c',
     tasks st !! i = Some (r, PFill b s c) → tasks st !! j = Some (r', PFill b' s' c') →
     stage_key r s = stage_key r' s' → i = j).
Proof.
  intros Hreach. pose proof (reachable_inv _ Hreach) as Hinv. split.
  - intros t t' x x' Hx Hx' Hr Hr' Hk.
    destruct (inv_running _ _ Hinv _ _ Hx Hr) as (_ & Hli).
    destruct (inv_running _ _ Hinv _ _ Hx' Hr') as (_ & Hli').
    destruct Hli as (Hc & Hco); [set_solver|]. destruct Hli' as (Hc' & Hco'); [set_solver|].
    rewrite Hk, Hc' in Hc. congruence.
  - intros i j r r' b b' s s' c c' Hi Hj Hk.
    pose proof (inv_tasks _ _ Hinv _ _ _ Hi) as ((Hc & _) & _).
    pose proof (inv_tasks _ _ Hinv _ _ _ Hj) as ((Hc' & _) & _).
    specialize (Hc ltac:(set_solver)). specialize (Hc' ltac:(set_solver)).
    rewrite Hk, Hc' in Hc. injection Hc as <-. by eapply inv_fill.
Qed.

(** ** A forget may drop another request's template *)

(** Steps in which nothing fails. *)
Definition healthy_step (st st' : St) : Prop := ∃ l, fails l = None ∧ step st l st'.

(** Freshness, decided. *)
Definition fresh_ok (st : St) (fresh : nat) : bool :=
  bool_decide (cells st !! fresh = None) &&
  forallb (λ x, negb (bool_decide (x.2 = fresh))) (map_to_list (slots st)) &&
  forallb (λ x, negb (bool_decide (fresh ∈ pc_slots x.2.2))) (map_to_list (tasks st)).

Lemma step_slot_fresh st i r retry s fresh :
  tasks st !! i = Some (r, PSlot retry s) → fresh_ok st fresh = true →
  step st Ordinary (let '(c, st') := slot (stage_key r s) fresh st in
                    set_tasks st' (<[i := (r, PLock retry s c)]> (tasks st'))).
Proof.
  intros Hi Hf. unfold fresh_ok in Hf. rewrite !andb_true_iff, bool_decide_eq_true, !forallb_forall in Hf.
  destruct Hf as ((H1 & H2) & H3). destruct (slot (stage_key r s) fresh st) as [c st'] eqn:Hs.
  eapply step_slot; [done|done| | |done].
  - intros k Hk. specialize (H2 (k, fresh)). simpl in H2. rewrite bool_decide_true in H2 by done.
    discriminate H2. apply list_elem_of_In. by apply elem_of_map_to_list.
  - intros j r' p Hj Hin. specialize (H3 (j, (r', p))). simpl in H3.
    rewrite bool_decide_true in H3 by done. discriminate H3.
    apply list_elem_of_In. by apply elem_of_map_to_list.
Qed.

(** Side conditions on concrete states, and one step of a concrete run. *)
Ltac concrete := first [reflexivity | solve [vm_compute; intros; try split; intros; congruence]].
Tactic Notation "run_step" constr(l) uconstr(c) :=
  eapply rtc_l; [exists l; split; [done|]; eapply c; concrete|].
Ltac run_end := match goal with |- rtc _ ?x ?y => replace x with y by (vm_compute; reflexivity) end;
  apply rtc_refl.

Module TemplatesRun.
Definition key0 : Key := mkKey "redis" "8" None.
Definition want0 : Wanted := mkWanted key0 None.
Definition base0 (on : bool) (c : nat) : Template := mkTemplate key0 on on None c.

(** One request has brought the template up, and another has it too. *)
Definition both_hold : St :=
  mkSt {[ key0 := 0%nat ]} {[ 0%nat := mkSlot (Some 0%nat) false ]} {[ 0%nat := base0 true 0 ]}
    {[ 0%nat := (want0, PFork false 0); 1%nat := (want0, PFork false 0) ]} ∅.
(** Its host has died; both forks failed. *)
Definition both_failed : St :=
  mkSt {[ key0 := 0%nat ]} {[ 0%nat := mkSlot (Some 0%nat) false ]} {[ 0%nat := base0 false 0 ]}
    {[ 0%nat := (want0, PForget); 1%nat := (want0, PForget) ]} ∅.
(** The first has rebuilt it and handed out an instance; the second has yet to
    forget. *)
Definition handed_out : St :=
  mkSt {[ key0 := 1%nat ]}
    {[ 0%nat := mkSlot (Some 0%nat) false; 1%nat := mkSlot (Some 1%nat) false ]}
    {[ 0%nat := base0 false 0; 1%nat := base0 true 1 ]}
    {[ 1%nat := (want0, PForget) ]} {[ 7%nat := 1%nat ]}.
(** The second has. *)
Definition dropped : St :=
  set_tasks (forget key0 handed_out) {[ 1%nat := (want0, PSlot true SBase) ]}.

Lemma reach_both_hold : rtc kept_step init both_hold.
Proof.
  run_step Ordinary (step_request init 0%nat want0).
  run_step Ordinary (step_slot_fresh _ 0%nat want0 false SBase 0%nat).
  run_step Ordinary (step_miss _ 0%nat want0 false SBase 0%nat).
  run_step Ordinary (step_request _ 1%nat want0).
  run_step Ordinary (step_slot_fresh _ 1%nat want0 false SBase 1%nat).
  run_step Ordinary (step_filled _ 0%nat want0 false SBase 0%nat 0%nat).
  run_step Ordinary (step_hit _ 1%nat want0 false SBase 0%nat 0%nat).
  run_end.
Qed.

Lemma reach_both_failed : rtc kept_step both_hold both_failed.
Proof.
  run_step (HostDies 0%nat) (step_host_dies both_hold 0%nat).
  run_step (ForkFails 0%nat) (step_fork_failed _ 0%nat want0 0%nat).
  run_step (ForkFails 0%nat) (step_fork_failed _ 1%nat want0 0%nat).
  run_end.
Qed.

Lemma reach_handed_out : rtc healthy_step both_failed handed_out.
Proof.
  run_step (Forgets key0) (step_forget both_failed 0%nat want0).
  run_step Ordinary (step_slot_fresh _ 0%nat want0 true SBase 1%nat).
  run_step Ordinary (step_miss _ 0%nat want0 true SBase 1%nat).
  run_step Ordinary (step_filled _ 0%nat want0 true SBase 1%nat 1%nat).
  run_step Ordinary (step_forked _ 0%nat want0 true 1%nat 7%nat).
  run_end.
Qed.

Lemma reach_traced_handed_out : rtc traced_step (∅, init) ({[0%nat]}, handed_out).
Proof.
  etrans; [apply kept_traced; etrans; [apply reach_both_hold|apply reach_both_failed]|].
  eapply traced_l; [eapply (step_forget both_failed 0%nat want0); concrete|].
  replace (forgotten _ _ _) with ({[0%nat]} : gset nat) by (unfold forgotten; simpl; set_solver).
  eapply traced_l; [eapply (step_slot_fresh _ 0%nat want0 true SBase 1%nat); concrete|].
  eapply traced_l; [eapply (step_miss _ 0%nat want0 true SBase 1%nat); concrete|].
  eapply traced_l; [eapply (step_filled _ 0%nat want0 true SBase 1%nat 1%nat); concrete|].
  eapply traced_l; [eapply (step_forked _ 0%nat want0 true 1%nat 7%nat); concrete|].
  cbn [forgotten]. match goal with |- rtc _ (_, ?x) _ =>
    replace x with handed_out by (vm_compute; reflexivity) end. apply rtc_refl.
Qed.

Lemma forget_handed_out : step handed_out (Forgets key0) dropped.
Proof.
  replace dropped with (set_tasks (forget (wanted_key want0) handed_out)
    (<[1%nat := (want0, PSlot true SBase)]> (tasks handed_out))) by (vm_compute; reflexivity).
  by apply (step_forget handed_out 1%nat want0).
Qed.

Lemma dropped_unheld : ¬ held dropped 1%nat.
Proof.
  intros [(k & c & Hk & _)|(i & r & p & Hi & Hh)].
  - simpl in Hk. rewrite delete_singleton_eq in Hk. by rewrite lookup_empty in Hk.
  - simpl in Hi. apply lookup_singleton_Some in Hi as [_ [= _ <-]]. simpl in Hh.
    destruct Hh as [Hh|(? & Hh & _)]; by apply not_elem_of_nil in Hh.
Qed.
End TemplatesRun.
Import TemplatesRun.

(** C39: a forget is not tied to the template whose fork failed.  The server
    can reach a state in which two requests for one key have had their forks
    fail and no template is alive, and go on from there with no fork failing
    and no host dying until an instance the first request rebuilt is up, its
    template alive and in the slot the map has for the key.  Then the second request's [forget] takes
    that slot out of the map, after which nothing holds the template; and the
    next step of its owner stops it, the instance still registered and no longer
    up.  That holds of the [forget] alone: while the slot is in the map, no
    ordinary step takes the instance down. *)
Theorem forget_may_drop_a_live_template :
  ∃ st0 st1 st2 st3 i j r n t c,
    rtc kept_step init st0 ∧ (∀ t', alive st0 t' = false) ∧
    i ≠ j ∧ tasks st0 !! i = Some (r, PForget) ∧ tasks st0 !! j = Some (r, PForget) ∧
    rtc healthy_step st0 st1 ∧ tasks st1 !! j = Some (r, PForget) ∧
    slots st1 !! wanted_key r = Some c ∧ content (cell st1 c) = Some t ∧ alive st1 t = true ∧
    instances st1 !! n = Some t ∧ up st1 t = true ∧
    (∀ st', step st1 Ordinary st' → instance_up st' n ∨ instances st' !! n = None) ∧
    step st1 (Forgets (wanted_key r)) st2 ∧ instance_up st2 n ∧ ¬ held st2 t ∧
    step st2 Ordinary st3 ∧ instances st3 !! n = Some t ∧ ¬ instance_up st3 n.
Proof.
  exists both_failed, handed_out, dropped, (stop_template dropped 1%nat), 0%nat, 1%nat, want0, 7%nat, 1%nat,
    1%nat. split_and!; try (vm_compute; reflexivity); try done.
  - etrans; [apply reach_both_hold|apply reach_both_failed].
  - intros t. unfold alive. simpl.
    destruct ({[ 0%nat := base0 false 0 ]} !! t) as [x|] eqn:Ht; [|done].
    by apply lookup_singleton_Some in Ht as [_ <-].
  - apply reach_handed_out.
  - intros st' Hs. eapply (step_spares {[0%nat]}); [apply traced_inv, reach_traced_handed_out|exact Hs|..];
      try done. intros t' x [->|Hb] Hx; [|vm_compute in Hb; discriminate Hb].
    vm_compute in Hx. injection Hx as <-. set_solver.
  - apply forget_handed_out.
  - exists 1%nat. by vm_compute.
  - apply dropped_unheld.
  - apply step_disconnect; [by vm_compute|apply dropped_unheld].
  - intros (t & Ht & Hu). vm_compute in Ht. injection Ht as <-. by vm_compute in Hu.
Qed.

Module TemplatesWitness.
(** Two requests have an instance each off one template. *)
Definition served : St :=
  mkSt {[ key0 := 0%nat ]} {[ 0%nat := mkSlot (Some 0%nat) false ]} {[ 0%nat := base0 true 0 ]}
    ∅ {[ 3%nat := 0%nat; 4%nat := 0%nat ]}.
Lemma reach_served : rtc kept_step init served.
Proof.
  etrans; [apply reach_both_hold|].
  run_step Ordinary (step_forked both_hold 0%nat want0 false 0%nat 3%nat).
  run_step Ordinary (step_forked _ 1%nat want0 false 0%nat 4%nat).
  run_end.
Qed.

(** Another service's template, at its key's slot. *)
Definition key1 : Key := mkKey "postgres" "17" None.
Definition want1 : Wanted := mkWanted key1 None.
Definition beside : St :=
  mkSt {[ key0 := 0%nat; key1 := 1%nat ]}
    {[ 0%nat := mkSlot (Some 0%nat) false; 1%nat := mkSlot (Some 1%nat) false ]}
    {[ 0%nat := base0 true 0; 1%nat := mkTemplate key1 true true None 1 ]}
    {[ 1%nat := (want1, PFork false 1) ]} {[ 3%nat := 0%nat; 4%nat := 0%nat ]}.
Lemma reach_beside : rtc kept_step init beside.
Proof.
  etrans; [apply reach_served|].
  run_step Ordinary (step_request served 1%nat want1).
  run_step Ordinary (step_slot_fresh _ 1%nat want1 false SBase 1%nat).
  run_step Ordinary (step_miss _ 1%nat want1 false SBase 1%nat).
  run_step Ordinary (step_filled _ 1%nat want1 false SBase 1%nat 1%nat).
  run_end.
Qed.

(** Its fork fails, its key is forgotten; then an instance of the first service
    is deleted, and the other stays. *)
Definition forgot : St :=
  set_tasks (forget key1 (stop_template beside 1)) {[ 1%nat := (want1, PSlot true SBase) ]}.
Lemma reach_forgot : rtc traced_step (∅, init) ({[1%nat]}, forgot).
Proof.
  etrans; [apply kept_traced, reach_beside|].
  eapply traced_l; [eapply (step_fork_failed beside 1%nat want1 1%nat); concrete|].
  eapply traced_l; [eapply (step_forget _ 1%nat want1); concrete|].
  replace (forgotten _ _ _) with ({[1%nat]} : gset nat) by (unfold forgotten; simpl; set_solver).
  match goal with |- rtc _ (_, ?x) _ =>
    replace x with forgot by (vm_compute; reflexivity) end. apply rtc_refl.
Qed.
Lemma instances_outlive_witness :
  let st' := set_instances forgot (delete 3%nat (instances forgot)) in
  instance_up st' 4%nat ∨ instances st' !! 4%nat = None.
Proof.
  apply (instances_outlive_the_cache {[1%nat]} forgot Ordinary _ 4%nat 0%nat).
  - apply reach_forgot.
  - apply step_instance_gone.
  - reflexivity.
  - reflexivity.
  - intros t' x [->|Hb] Hx; [|vm_compute in Hb; discriminate Hb].
    vm_compute in Hx. injection Hx as <-. apply not_elem_of_singleton. discriminate.
  - intros t' Ht. discriminate Ht.
Defined.
Lemma one_template_witness :
  (∀ t t' x x', templates both_hold !! t = Some x → templates both_hold !! t' = Some x' →
     t_running x = true → t_running x' = true → t_key x = t_key x' → t = t') ∧
  running both_hold 0%nat = true.
Proof.
  split; [|reflexivity]. exact (proj1 (one_template_per_key both_hold reach_both_hold)).
Defined.
End TemplatesWitness.
