(* ===== verification/Obtain.v ===== *)
(** * What the template cache promises a request

    Models [Templates::obtain], [fill_base], [fill_recipe], [Template::fork] and
    [Templates::forget] (serve/templates.rs) as the functions [create_instance]
    calls, and the interface between the two.

    [TemplateOps] is what the handlers call and [TemplateLaws] what they may
    rely on.  The implementation runs a request on the state of Templates.v;
    what the world answers (owners, their hosts and threads) is taken from lists
    of the runs of Owner.v, [None] meaning that the call still waits.  Each call
    is a run of the steps of Templates.v, so what is proved there of
    interleavings holds of it. *)

From S2P Require Import Prelude Net Protocol Paths Manifest Host Manager Api Owner Templates.
From stdpp Require Import fin_maps.

(** ** The interface *)

Class TemplateOps (C T : Type) : Type := {
  obtain : Manifest → option (list byte) → C → option (result T Problem * C);
  template_fork : T → C → option (result (HostProcess * SocketAddr) Problem * C);
  template_forget : Manifest → option (list byte) → C → C;
}.

(** [template_for]: the template belongs to the service, its version and the
    recipe.  Every problem is a server error; a failed fork's says so. *)
Class TemplateLaws (C T : Type) `{!TemplateOps C T} : Type := {
  cache_ok : C → Prop;
  template_for : T → Manifest → option (list byte) → C → Prop;
  obtain_ok m r c x c' : cache_ok c → obtain m r c = Some (x, c') → cache_ok c';
  fork_ok t c x c' : cache_ok c → template_fork t c = Some (x, c') → cache_ok c';
  forget_ok m r c : cache_ok c → cache_ok (template_forget m r c);
  obtain_gives m r c t c' :
    cache_ok c → obtain m r c = Some (Ok t, c') → template_for t m r c';
  obtain_problem m r c p c' : obtain m r c = Some (Err p, c') → status p = 500%N;
  fork_problem t c p c' : template_fork t c = Some (Err p, c') →
    status p = 500%N ∧ problem_is p "template-failed" = true;
}.

(** ** What the world answers *)

(** What awaiting a fork meets: the owner gone, its answer, or the owner
    ending without one. *)
Inductive Forking : Type :=
  | SendFailed
  | Answered (r : result (HostProcess * SocketAddr) error)
  | AnswerDropped.

(** What starting an owner meets, with what its calls meet. *)
Inductive Filling : Type :=
  | ThreadFailed (e : error)
  | OwnerDied
  | BaseRun (spawned : result HostProcess error) (sent_prepare : result unit error)
      (bound : result unit string) (sent_start sent_freeze : result unit error)
  | RecipeRun (sent_init sent_freeze : result unit error).

Record Cache : Type := mkCache {
  ca_st : St;
  ca_forks : list Forking;
  ca_fills : list Filling;
}.
Definition set_st (c : Cache) (st : St) : Cache := mkCache st (ca_forks c) (ca_fills c).

(** A cell nobody has. *)
Definition fresh_cell (st : St) : nat :=
  fresh (dom (cells st) ∪ list_to_set (map_to_list (slots st)).*2 ∪
         list_to_set (mjoin ((λ x, pc_slots x.2.2) <$> map_to_list (tasks st))) : gset nat).
Definition fresh_template (st : St) : nat := fresh (dom (templates st) : gset nat).

(** ** Operations *)

Section ops.
Context (parse : string → option SocketAddr) (sha256 : list byte → string) (ttl : N).

(** What [ready_receive.await] gives for an owner's run. *)
Definition ready_answer (o : owned) : option (result unit Problem) :=
  match o with
  | Pending => None
  | Refused p _ => Some (Err p)
  | GaveUp _ => Some (Err (internal "the template's owner thread died"))
  | Serving_ _ => Some (Ok tt)
  end.

Definition fill_base (manifest : Manifest) (f : Filling) : option (result unit Problem) :=
  match f with
  | ThreadFailed e => Some (Err (internal (display_chain e)))
  | BaseRun spawned sent_prepare bound sent_start sent_freeze =>
      ready_answer (base_owner parse ttl spawned (bool_decide (is_Some (prepare manifest)))
        sent_prepare bound sent_start sent_freeze true 0 [])
  | _ => Some (Err (internal "the template's owner thread died"))
  end.

(** [Template::fork]; a failed fork ends the template. *)
Definition fork_template (t : nat) (c : Cache)
    : option (result (HostProcess * SocketAddr) Problem * Cache) :=
  let fail detail forks :=
    Some (Err (template_failed detail), mkCache (stop_template (ca_st c) t) forks (ca_fills c)) in
  if up (ca_st c) t then
    match ca_forks c with
    | [] => None
    | Answered (Ok forked) :: forks => Some (Ok forked, mkCache (ca_st c) forks (ca_fills c))
    | Answered (Err e) :: forks => fail (display_chain e) forks
    | SendFailed :: forks => fail "the template is gone" forks
    | AnswerDropped :: forks => fail "the template died forking" forks
    end
  else fail "the template is gone" (ca_forks c).

(** What the thread of a recipe's owner answers. *)
Definition recipe_answer (f : Filling) (clone : HostProcess) : option (result unit Problem) :=
  match f with
  | ThreadFailed e => Some (Err (internal (display_chain e)))
  | RecipeRun sent_init sent_freeze =>
      ready_answer (recipe_owner parse ttl sent_init sent_freeze true 0 clone [])
  | _ => Some (Err (internal "the template's owner thread died"))
  end.

Definition fill_recipe (base : nat) (f : Filling) (c : Cache)
    : option (result unit Problem * Cache) :=
  match fork_template base c with
  | None => None
  | Some (Err p, c) => Some (Err p, c)
  | Some (Ok (clone, _), c) =>
      match recipe_answer f clone with
      | None => None
      | Some r => Some (r, c)
      end
  end.

(** One stage of [obtain]: the slot's template while it is alive, or a
    fill. *)
Definition fill (manifest : Manifest) (s : stage) (f : Filling) (c : Cache)
    : option (result unit Problem * Cache) :=
  match s with
  | SBase => match fill_base manifest f with None => None | Some r => Some (r, c) end
  | SRecipe _ base => fill_recipe base f c
  end.

Definition filled (k : Key) (s : stage) (cell_ t : nat) (st : St) : St :=
  set_templates (set_cells st (<[cell_ := mkSlot (Some t) false]> (cells st)))
    (<[t := mkTemplate k true true (stage_base s) cell_]> (templates st)).

Definition set_lock (cell_ : nat) (b : bool) (st : St) : St :=
  set_cells st (<[cell_ := mkSlot (content (cell st cell_)) b]> (cells st)).

Definition obtain_stage (manifest : Manifest) (k : Key) (s : stage) (c : Cache)
    : option (result (nat * nat) Problem * Cache) :=
  let (cell_, st) := slot k (fresh_cell (ca_st c)) (ca_st c) in
  let c := set_st c st in
  if locked (cell st cell_) then None
  else match (match content (cell st cell_) with
              | Some t => if alive st t then Some t else None
              | None => None
              end) with
  | Some t => Some (Ok (cell_, t), c)
  | None =>
      match ca_fills c with
      | [] => None
      | f :: fills =>
          match fill manifest s f (mkCache (set_lock cell_ true st) (ca_forks c) fills) with
          | None => None
          | Some (Err p, c) => Some (Err p, set_st c (set_lock cell_ false (ca_st c)))
          | Some (Ok _, c) =>
              let t := fresh_template (ca_st c) in
              Some (Ok (cell_, t), set_st c (filled k s cell_ t (ca_st c)))
          end
      end
  end.

(** The keys of a request. *)
Definition wanted (manifest : Manifest) (recipe : option (list byte)) : Wanted :=
  let key := key_new sha256 (name (service manifest)) (version (service manifest)) in
  mkWanted (key None) (match recipe with None => None | Some r => Some (key (Some r)) end).

(** [Templates::obtain]. *)
Definition obtain_template (manifest : Manifest) (recipe : option (list byte)) (c : Cache)
    : option (result nat Problem * Cache) :=
  let w := wanted manifest recipe in
  match obtain_stage manifest (base_key w) SBase c with
  | None => None
  | Some (Err p, c) => Some (Err p, c)
  | Some (Ok (cell_, base), c) =>
      match recipe_key w with
      | None => Some (Ok base, c)
      | Some k =>
          match obtain_stage manifest k (SRecipe cell_ base) c with
          | None => None
          | Some (Err p, c) => Some (Err p, c)
          | Some (Ok (_, t), c) => Some (Ok t, c)
          end
      end
  end.

(** [Templates::forget]. *)
Definition forget_template (manifest : Manifest) (recipe : option (list byte)) (c : Cache) : Cache :=
  set_st c (forget (wanted_key (wanted manifest recipe)) (ca_st c)).
End ops.

(** ** Each call is a run of the cache's steps *)

(** The state with the request at a point of its code. *)
Definition at_pc (i : nat) (r : Wanted) (p : pc) (st : St) : St :=
  set_tasks st (<[i := (r, p)]> (tasks st)).

Lemma fresh_cell_ok st i r p :
  (∀ c, c ∈ pc_slots p → is_Some (cells st !! c)) → fresh_ok (at_pc i r p st) (fresh_cell st) = true.
Proof.
  intros Hp. unfold fresh_ok.
  pose proof (is_fresh (dom (cells st) ∪ list_to_set (map_to_list (slots st)).*2 ∪
         list_to_set (mjoin ((λ x, pc_slots x.2.2) <$> map_to_list (tasks st))) : gset nat)) as Hf.
  change (fresh _) with (fresh_cell st) in Hf.
  rewrite !not_elem_of_union, not_elem_of_dom, !not_elem_of_list_to_set in Hf.
  destruct Hf as ((Hc & Hs) & Ht). rewrite !andb_true_iff, bool_decide_eq_true, !forallb_forall.
  split_and!; [done| |].
  - intros [k c] Hin. simpl. apply negb_true_iff, bool_decide_eq_false. intros ->. apply Hs.
    apply list_elem_of_In in Hin. by apply (list_elem_of_fmap_2 snd _ (k, fresh_cell st)).
  - intros [j [r' q]] Hin. simpl. apply negb_true_iff, bool_decide_eq_false. intros Hq.
    apply list_elem_of_In, elem_of_map_to_list in Hin. simpl in Hin.
    apply lookup_insert_Some in Hin as [[<- [= <- <-]]|[Hne Hin]].
    + destruct (Hp _ Hq) as [x Hx]. by rewrite Hc in Hx.
    + apply Ht. apply list_elem_of_join. exists (pc_slots q). split; [done|].
      apply elem_of_map_to_list in Hin.
      by apply (list_elem_of_fmap_2 (λ x : nat * (Wanted * pc), pc_slots x.2.2) _ (j, (r', q))).
Qed.

Lemma fresh_template_ok st : templates st !! fresh_template st = None.
Proof. apply not_elem_of_dom. exact (is_fresh (dom (templates st) : gset nat)). Qed.

Lemma at_pc_at_pc i r p q st : at_pc i r p (at_pc i r q st) = at_pc i r p st.
Proof. unfold at_pc, set_tasks. simpl. by rewrite insert_insert_eq. Qed.

Lemma slot_at_pc k f i r p st :
  slot k f (at_pc i r p st) = ((slot k f st).1, at_pc i r p (slot k f st).2).
Proof. unfold slot. simpl. by destruct (slots st !! k). Qed.

Lemma slot_keeps k st :
  let st' := (slot k (fresh_cell st) st).2 in
  tasks st' = tasks st ∧ (∀ c, cell st' c = cell st c) ∧ templates st' = templates st.
Proof.
  unfold slot. destruct (slots st !! k); simpl; [done|]. split_and!; [done| |done].
  intros c. apply cell_empty, not_elem_of_dom.
  pose proof (is_fresh (dom (cells st) ∪ list_to_set (map_to_list (slots st)).*2 ∪
         list_to_set (mjoin ((λ x, pc_slots x.2.2) <$> map_to_list (tasks st))) : gset nat)) as Hf.
  change (fresh _) with (fresh_cell st) in Hf. set_solver.
Qed.

Lemma stop_keeps st t :
  tasks (stop_template st t) = tasks st ∧ cells (stop_template st t) = cells st ∧
  slots (stop_template st t) = slots st.
Proof. unfold stop_template. by destruct (templates st !! t). Qed.

Lemma stop_at_pc st t i r p : stop_template (at_pc i r p st) t = at_pc i r p (stop_template st t).
Proof. unfold stop_template. simpl. by destruct (templates st !! t). Qed.

(** A step of a request, which leaves the instances; or forks instance [n]. *)
Definition quiet_call (st st' : St) : Prop := ∃ l, step st l st' ∧ instances st' = instances st.
Definition call_step (n : nat) (st st' : St) : Prop :=
  ∃ l, step st l st' ∧
    (instances st' = instances st ∨
     ∃ t, instances st !! n = None ∧ instances st' = <[n := t]> (instances st)).

Lemma quiet_calls n st st' : rtc quiet_call st st' → rtc (call_step n) st st'.
Proof. apply rtc_subrel. intros x y (l & Hs & Hn). exists l. auto. Qed.

(** The request's step, its target up to the request's own record. *)
Lemma step_to st l st1 st2 :
  step st l st1 → instances st2 = instances st → st1 = st2 → rtc quiet_call st st2.
Proof. intros Hs Hn <-. apply rtc_once. by exists l. Qed.

Lemma stage_slot_runs i r retry s st :
  (∀ b, b ∈ stage_slots s → is_Some (cells st !! b)) →
  let x := slot (stage_key r s) (fresh_cell st) st in
  rtc quiet_call (at_pc i r (PSlot retry s) st) (at_pc i r (PLock retry s x.1) x.2).
Proof.
  intros Hb x. eapply (step_to _ Ordinary);
    [apply (step_slot_fresh _ i r retry s (fresh_cell st));
      [apply lookup_insert_eq|by apply fresh_cell_ok]|..].
  { unfold x, slot. by destruct (slots st !! _). }
  rewrite slot_at_pc. fold x. apply at_pc_at_pc.
Qed.

Lemma miss_runs i r retry s cell_ st :
  locked (cell st cell_) = false →
  (∀ t, content (cell st cell_) = Some t → alive st t = false) →
  rtc quiet_call (at_pc i r (PLock retry s cell_) st)
    (at_pc i r (PFill retry s cell_) (set_lock cell_ true st)).
Proof.
  intros Hl Hd. eapply (step_to _ Ordinary);
    [apply (step_miss _ i r retry s cell_); [apply lookup_insert_eq|done|done]|done|].
  unfold at_pc, set_tasks. simpl. by rewrite insert_insert_eq.
Qed.

Lemma filled_runs i r retry s cell_ st :
  (∀ b, stage_base s = Some b → running st b = true) →
  let t := fresh_template st in
  rtc quiet_call (at_pc i r (PFill retry s cell_) st)
    (at_pc i r (next_pc retry r s cell_ t) (filled (stage_key r s) s cell_ t st)).
Proof.
  intros Hb t. eapply (step_to _ Ordinary);
    [apply (step_filled _ i r retry s cell_ t); [apply lookup_insert_eq|exact (fresh_template_ok st)|done]|done|].
  unfold at_pc, set_tasks. simpl. by rewrite insert_insert_eq.
Qed.

Lemma fill_failed_runs i r retry s cell_ st :
  tasks st !! i = None →
  rtc quiet_call (at_pc i r (PFill retry s cell_) st) (set_lock cell_ false st).
Proof.
  intros Hi. eapply (step_to _ Ordinary);
    [apply (step_fill_failed _ i r retry s cell_); apply lookup_insert_eq|done|].
  unfold at_pc, set_tasks. simpl. by rewrite delete_insert_id.
Qed.

Lemma base_fork_failed_runs i r retry bs b cell_ st :
  tasks st !! i = None →
  rtc quiet_call (at_pc i r (PFill retry (SRecipe bs b) cell_) st)
    (set_lock cell_ false (stop_template st b)).
Proof.
  intros Hi. eapply (step_to _ (ForkFails b));
    [apply (step_base_fork_failed _ i r retry bs b cell_); apply lookup_insert_eq|
     exact (stop_instances _ _)|].
  rewrite stop_at_pc. destruct (stop_keeps st b) as (Ht & Hc & _).
  unfold at_pc, set_tasks, set_lock, set_cells, cell. simpl. rewrite delete_insert_id by done.
  by rewrite Ht, Hc.
Qed.

Section runs.
Context (parse : string → option SocketAddr) (sha256 : list byte → string) (ttl : N).
Notation fill := (fill parse ttl).
Notation obtain_stage := (obtain_stage parse ttl).

(** A fork leaves the state, or stops its template. *)
Lemma fork_template_state t c x c' :
  fork_template t c = Some (x, c') →
  match x with
  | Ok _ => ca_st c' = ca_st c ∧ up (ca_st c) t = true
  | Err p => ca_st c' = stop_template (ca_st c) t ∧ ∃ d, p = template_failed d
  end.
Proof.
  unfold fork_template. destruct (up (ca_st c) t) eqn:Hu; [|intros [= <- <-]; eauto].
  destruct (ca_forks c) as [|[|[]|] ?]; try done; intros [= <- <-]; eauto.
Qed.

(** A fill that succeeds found its base running; one that fails left the
    state, or stopped the base. *)
Lemma fill_state m s f c x c' :
  fill m s f c = Some (x, c') →
  match x with
  | Ok _ => ca_st c' = ca_st c ∧ ∀ b, stage_base s = Some b → running (ca_st c) b = true
  | Err _ => ca_st c' = ca_st c ∨
      ∃ bs b, s = SRecipe bs b ∧ ca_st c' = stop_template (ca_st c) b
  end.
Proof.
  unfold Obtain.fill. destruct s as [|bs b].
  - destruct (fill_base parse ttl m f) as [[]|]; intros [= <- <-]; auto. split; [done|]. done.
  - unfold fill_recipe. destruct (fork_template b c) as [[[[clone e]|p] c1]|] eqn:Hf; [| |done].
    + apply fork_template_state in Hf as [Hst Hup].
      destruct (recipe_answer parse ttl f clone) as [[]|]; intros [= <- <-]; [|by left].
      split; [done|]. intros b' [= <-]. by apply andb_true_iff in Hup as [? _].
    + apply fork_template_state in Hf as [Hst _]. intros [= <- <-]. right. eauto.
Qed.

Lemma obtain_stage_runs m i r retry s c x c' :
  tasks (ca_st c) !! i = None →
  (∀ b, b ∈ stage_slots s → is_Some (cells (ca_st c) !! b)) →
  obtain_stage m (stage_key r s) s c = Some (x, c') →
  tasks (ca_st c') = tasks (ca_st c) ∧
  match x with
  | Ok (cell_, t) =>
      rtc quiet_call (at_pc i r (PSlot retry s) (ca_st c))
        (at_pc i r (next_pc retry r s cell_ t) (ca_st c')) ∧ is_Some (cells (ca_st c') !! cell_)
  | Err _ => rtc quiet_call (at_pc i r (PSlot retry s) (ca_st c)) (ca_st c')
  end.
Proof.
  intros Hi Hb. pose proof (stage_slot_runs i r retry s (ca_st c) Hb) as Hslot.
  unfold Obtain.obtain_stage. destruct (slot_keeps (stage_key r s) (ca_st c)) as (Ht & _ & _).
  destruct (slot (stage_key r s) (fresh_cell (ca_st c)) (ca_st c)) as [cell_ st]. simpl in *.
  destruct (locked (cell st cell_)) eqn:Hl; [done|].
  destruct (match content (cell st cell_) with Some t => _ | None => _ end) as [t|] eqn:Hhit.
  - destruct (content (cell st cell_)) as [t'|] eqn:Hco; [|done].
    destruct (alive st t') eqn:Ha; [|done]. injection Hhit as ->. intros [= <- <-]. simpl.
    split; [done|]. split.
    + etrans; [exact Hslot|]. eapply (step_to _ Ordinary);
        [eapply (step_hit _ i r retry s cell_ t); [apply lookup_insert_eq|done|done|done]|done|apply at_pc_at_pc].
    + unfold cell in Hco. by destruct (cells st !! cell_).
  - destruct (ca_fills c) as [|f fills]; [done|].
    destruct (fill m s f _) as [[y c1]|] eqn:Hf; [|done]. apply fill_state in Hf.
    assert (rtc quiet_call (at_pc i r (PSlot retry s) (ca_st c))
              (at_pc i r (PFill retry s cell_) (set_lock cell_ true st))) as Hrun.
    { etrans; [exact Hslot|]. apply miss_runs; [done|]. intros t Hco. rewrite Hco in Hhit.
      by destruct (alive st t). }
    assert (tasks st !! i = None) as Hi' by by rewrite Ht.
    destruct y as [[]|p]; intros [= <- <-]; simpl in *.
    + destruct Hf as [-> Hrb]. split; [exact Ht|]. split; [|rewrite lookup_insert_eq; eauto].
      etrans; [exact Hrun|]. by apply filled_runs.
    + destruct Hf as [->|(bs & b & -> & ->)].
      * split; [exact Ht|]. etrans; [exact Hrun|]. by apply fill_failed_runs.
      * split; [simpl; rewrite (proj1 (stop_keeps _ b)); exact Ht|].
        etrans; [exact Hrun|]. by apply base_fork_failed_runs.
Qed.
End runs.

(** ** Templates are filed under their keys *)

(** What every call keeps: a listed slot's template has the slot's key and was
    brought up in it, and no two keys share a slot. *)
Record keyed (st : St) : Prop := mkKeyed {
  keyed_content k c t : slots st !! k = Some c → content (cell st c) = Some t →
    ∃ x, templates st !! t = Some x ∧ t_key x = k ∧ t_slot x = c;
  keyed_slots k k' c : slots st !! k = Some c → slots st !! k' = Some c → k = k';
}.

Lemma keyed_init : keyed init.
Proof. split; unfold init; simpl; intros *; by rewrite lookup_empty. Qed.

Lemma keyed_stop st t : keyed st → keyed (stop_template st t).
Proof.
  intros [H1 H2]. destruct (stop_keeps st t) as (_ & Hc & Hs). split; rewrite Hs; [|exact H2].
  intros k c t' Hk Hco. unfold cell in Hco. rewrite Hc in Hco.
  destruct (H1 _ _ _ Hk Hco) as (x & Hx & Hkx & Hsx). unfold stop_template.
  destruct (templates st !! t) as [y|] eqn:Hy; [|by exists x]. simpl.
  destruct (decide (t = t')) as [->|Hne]; [|exists x; by rewrite lookup_insert_ne].
  rewrite lookup_insert_eq. eexists. split; [done|]. simpl. split; congruence.
Qed.

Lemma keyed_forget st k : keyed st → keyed (forget k st).
Proof.
  intros [H1 H2]. split; simpl.
  - intros k' c t [_ Hk]%lookup_delete_Some. by apply H1.
  - intros k1 k2 c [_ Hk1]%lookup_delete_Some [_ Hk2]%lookup_delete_Some. by eapply H2.
Qed.

Lemma keyed_lock st c b : keyed st → keyed (set_lock c b st).
Proof.
  intros [H1 H2]. split; [|exact H2]. intros k c' t Hk Hco. eapply H1; [exact Hk|].
  unfold set_lock in Hco. rewrite cell_set_cells in Hco. by destruct (decide (c = c')) as [->|].
Qed.

Lemma keyed_slot st k :
  keyed st → keyed (slot k (fresh_cell st) st).2 ∧
  slots (slot k (fresh_cell st) st).2 !! k = Some (slot k (fresh_cell st) st).1.
Proof.
  intros [H1 H2]. unfold slot. destruct (slots st !! k) as [c|] eqn:Hk; simpl; [by split|].
  pose proof (fresh_cell_ok st 0%nat (mkWanted (mkKey "" "" None) None) PForget) as Hf.
  unfold fresh_ok in Hf. rewrite !andb_true_iff, bool_decide_eq_true, forallb_forall in Hf.
  destruct Hf as ((Hc & Hs) & _); [by intros ? ?%not_elem_of_nil|]. simpl in Hc, Hs.
  assert (∀ k', slots st !! k' ≠ Some (fresh_cell st)) as Hne.
  { intros k' Hk'. specialize (Hs (k', fresh_cell st)). simpl in Hs.
    rewrite bool_decide_true in Hs by done. discriminate Hs.
    by apply list_elem_of_In, elem_of_map_to_list. }
  split; [|by rewrite lookup_insert_eq]. split; simpl.
  - intros k' c t Hk' Hco. rewrite cell_empty in Hco by done.
    apply lookup_insert_Some in Hk' as [[<- <-]|[_ Hk']]; [|by eapply H1].
    unfold cell in Hco. by rewrite Hc in Hco.
  - intros k1 k2 c Hk1 Hk2.
    apply lookup_insert_Some in Hk1 as [[<- <-]|[_ Hk1]];
      apply lookup_insert_Some in Hk2 as [[<- Hc2]|[_ Hk2]]; try done.
    + by destruct (Hne k2).
    + subst. by destruct (Hne k1).
    + by eapply H2.
Qed.

Lemma keyed_filled st k s c :
  let t := fresh_template st in keyed st → slots st !! k = Some c → keyed (filled k s c t st).
Proof.
  intros t [H1 H2] Hk. pose proof (fresh_template_ok st : templates st !! t = None) as Ht.
  split; [|exact H2]. intros k' c' t' Hk' Hco. simpl in Hk'.
  change (cell (filled k s c t st) c') with
    (cell (set_cells st (<[c := mkSlot (Some t) false]> (cells st))) c') in Hco.
  rewrite cell_set_cells in Hco. simpl. destruct (decide (c = c')) as [<-|Hne].
  - injection Hco as <-. rewrite lookup_insert_eq. eexists. split_and!; [done| |done].
    simpl. by eapply H2.
  - destruct (H1 _ _ _ Hk' Hco) as (x & Hx & Hkx). exists x. rewrite lookup_insert_ne; [done|congruence].
Qed.

Section laws.
Context (parse : string → option SocketAddr) (sha256 : list byte → string) (ttl : N).
Notation fill := (fill parse ttl).
Notation obtain_stage := (obtain_stage parse ttl).
Notation obtain_template := (obtain_template parse sha256 ttl).

Lemma obtain_stage_keyed m k s c x c' :
  keyed (ca_st c) → obtain_stage m k s c = Some (x, c') →
  keyed (ca_st c') ∧
  match x with
  | Ok (_, t) => ∃ y, templates (ca_st c') !! t = Some y ∧ t_key y = k ∧
      slots (ca_st c') !! k = Some (t_slot y)
  | Err _ => True
  end.
Proof.
  intros Hk. unfold Obtain.obtain_stage. destruct (keyed_slot _ k Hk) as [Hk1 Hs].
  destruct (slot k (fresh_cell (ca_st c)) (ca_st c)) as [cell_ st]. simpl in *.
  destruct (locked (cell st cell_)); [done|].
  destruct (match content (cell st cell_) with Some t => _ | None => _ end) as [t|] eqn:Hhit.
  - destruct (content (cell st cell_)) as [t'|] eqn:Hco; [|done].
    destruct (alive st t'); [|done]. injection Hhit as ->. intros [= <- <-]. simpl.
    split; [done|].
    destruct (keyed_content _ Hk1 _ _ _ Hs Hco) as (y & Hy & Hky & <-). by exists y.
  - destruct (ca_fills c) as [|f fills]; [done|].
    destruct (fill m s f _) as [[y c1]|] eqn:Hf; [|done]. apply fill_state in Hf. simpl in Hf.
    pose proof (keyed_lock _ cell_ true Hk1) as Hk2.
    destruct y as [[]|p]; intros [= <- <-]; simpl.
    + destruct Hf as [-> _]. split; [by apply keyed_filled|].
      rewrite lookup_insert_eq. by eexists.
    + split; [|done]. apply keyed_lock. destruct Hf as [->|(bs & b & _ & ->)]; [done|by apply keyed_stop].
Qed.

(** Whatever stops an owner is answered as a server error. *)
Lemma freeze_refused sf l now h turns p left :
  freeze_and_serve parse ttl sf l now h turns = Refused p left → status p = 500%N.
Proof.
  unfold freeze_and_serve. destruct (manager_freeze sf h) as [[[] ?]|]; try done.
  - by destruct l.
  - by intros [= <-].
Qed.

Lemma base_owner_refused sp hp pr b ss sf l now turns p left :
  base_owner parse ttl sp hp pr b ss sf l now turns = Refused p left → status p = 500%N.
Proof.
  unfold base_owner. destruct sp as [h|e]; [|by intros [= <-]].
  assert (∀ h, match manager_start b parse ss h with
               | None => Pending
               | Some (Err e, h) => Refused (bring_up_failed e) (KilledHost h)
               | Some (Ok _, h) => freeze_and_serve parse ttl sf l now h turns
               end = Refused p left → status p = 500%N) as Hstart.
  { intros h'. destruct (manager_start b parse ss h') as [[[] ?]|]; try done;
      [apply freeze_refused|by intros [= <-]]. }
  destruct hp; [|apply Hstart].
  destruct (manager_prepare pr h) as [[[st|e] h']|]; try done; [|by intros [= <-]].
  destruct st; [apply Hstart|by intros [= <-]..].
Qed.

Lemma recipe_owner_refused si sf l now h turns p left :
  recipe_owner parse ttl si sf l now h turns = Refused p left → status p = 500%N.
Proof.
  unfold recipe_owner. destruct (manager_initialize si h) as [[[st|e] h']|]; try done; [|by intros [= <-]].
  destruct st; [apply freeze_refused|by intros [= <-]..].
Qed.

Lemma fill_problem m s f c p c' : fill m s f c = Some (Err p, c') → status p = 500%N.
Proof.
  unfold Obtain.fill. destruct s as [|bs b].
  - unfold fill_base. destruct f as [e| |sp pr bd ss sf|si sf]; try by intros [= <- _].
    destruct (base_owner _ _ _ _ _ _ _ _ _ _ _) eqn:Hb; simpl; try done; intros [= <- _]; [|done].
    by eapply base_owner_refused.
  - unfold fill_recipe. destruct (fork_template b c) as [[[[clone e]|q] c1]|] eqn:Hf; [| |done].
    + unfold recipe_answer. destruct f as [e'| |sp pr bd ss sf|si sf]; try by intros [= <- _].
      destruct (recipe_owner _ _ _ _ _ _ _ _) eqn:Hb; simpl; try done; intros [= <- _]; [|done].
      by eapply recipe_owner_refused.
    + apply fork_template_state in Hf as (_ & d & ->). by intros [= <- _].
Qed.

Lemma obtain_stage_problem m k s c p c' :
  obtain_stage m k s c = Some (Err p, c') → status p = 500%N.
Proof.
  unfold Obtain.obtain_stage. destruct (slot k (fresh_cell (ca_st c)) (ca_st c)) as [cell_ st].
  destruct (locked (cell st cell_)); [done|].
  destruct (match content (cell st cell_) with Some t => _ | None => _ end); [done|].
  destruct (ca_fills _) as [|f fills]; [done|].
  destruct (fill m s f _) as [[[]  c1]|] eqn:Hf; [done| |done]. intros [= <- _]. by eapply fill_problem.
Qed.

Lemma obtain_template_keyed m r c x c' :
  keyed (ca_st c) → obtain_template m r c = Some (x, c') →
  keyed (ca_st c') ∧
  match x with
  | Ok t => ∃ y, templates (ca_st c') !! t = Some y ∧ t_key y = wanted_key (wanted sha256 m r) ∧
      slots (ca_st c') !! wanted_key (wanted sha256 m r) = Some (t_slot y)
  | Err p => status p = 500%N
  end.
Proof.
  intros Hk. unfold Obtain.obtain_template.
  destruct (obtain_stage m _ SBase c) as [[[[cell_ b]|p] c1]|] eqn:Hb; [| |done].
  - pose proof (obtain_stage_keyed _ _ _ _ _ _ Hk Hb) as [Hk1 Hy]. destruct r as [r|]; simpl.
    + destruct (obtain_stage m _ (SRecipe cell_ b) c1) as [[[[? t]|p] c2]|] eqn:Hr; [| |done].
      * intros [= <- <-]. by apply (obtain_stage_keyed _ _ _ _ _ _ Hk1 Hr).
      * intros [= <- <-]. split; [by apply (obtain_stage_keyed _ _ _ _ _ _ Hk1 Hr)|].
        by eapply obtain_stage_problem.
    + intros [= <- <-]. by split.
  - intros [= <- <-]. split; [by apply (obtain_stage_keyed _ _ _ _ _ _ Hk Hb)|].
    by eapply obtain_stage_problem.
Qed.

#[local] Instance cache_ops : TemplateOps Cache nat := {|
  obtain := obtain_template;
  template_fork := fork_template;
  template_forget := forget_template sha256;
|}.

#[local] Program Instance cache_laws : TemplateLaws Cache nat := {|
  cache_ok c := keyed (ca_st c);
  template_for t m r c :=
    ∃ y, templates (ca_st c) !! t = Some y ∧ t_key y = wanted_key (wanted sha256 m r);
|}.
Next Obligation. intros m r c x c' Hk Ho. by apply (obtain_template_keyed _ _ _ _ _ Hk Ho). Qed.
Next Obligation.
  intros t c [f|p] c' Hk Hf; apply fork_template_state in Hf as [-> _]; [done|by apply keyed_stop].
Qed.
Next Obligation. intros m r c Hk. by apply keyed_forget. Qed.
Next Obligation.
  intros m r c t c' Hk Ho.
  destruct (obtain_template_keyed _ _ _ _ _ Hk Ho) as (_ & y & Hy & Hky & _). by exists y.
Qed.
Next Obligation.
  intros m r c p c'. simpl. unfold Obtain.obtain_template.
  destruct (obtain_stage m _ SBase c) as [[[[cell_ b]|q] c1]|] eqn:Hb; [| |done].
  - destruct r as [r|]; simpl; [|done].
    destruct (obtain_stage m _ (SRecipe cell_ b) c1) as [[[[? t]|q] c2]|] eqn:Hr; [done| |done].
    intros [= <- _]. by eapply obtain_stage_problem.
  - intros [= <- _]. by eapply obtain_stage_problem.
Qed.
Next Obligation.
  intros t c p c' Hf. apply fork_template_state in Hf as (_ & d & ->). split; [done|].
  unfold template_failed. by rewrite problem_is_slug, bool_decide_true.
Qed.
End laws.

(** ** Forking an instance *)

(** The part of [create_instance] that gets a clone: obtain and fork, and, once,
    forget, obtain and fork again. *)
Definition obtain_and_fork {C T} `{!TemplateOps C T} (manifest : Manifest)
    (recipe : option (list byte)) (c : C) : option (result (HostProcess * SocketAddr) Problem * C) :=
  match obtain manifest recipe c with
  | None => None
  | Some (Err p, c) => Some (Err p, c)
  | Some (Ok template, c) =>
      match template_fork template c with
      | None => None
      | Some (Ok forked, c) => Some (Ok forked, c)
      | Some (Err _, c) =>
          match obtain manifest recipe (template_forget manifest recipe c) with
          | None => None
          | Some (Err p, c) => Some (Err p, c)
          | Some (Ok template, c) => template_fork template c
          end
      end
  end.

Section refinement.
Context (parse : string → option SocketAddr) (sha256 : list byte → string) (ttl : N).
Notation get_clone := (@obtain_and_fork Cache nat (cache_ops parse sha256 ttl)).
Notation wanted := (wanted sha256).

Lemma obtain_runs m recipe i retry c x c' :
  tasks (ca_st c) !! i = None → obtain_template parse sha256 ttl m recipe c = Some (x, c') →
  tasks (ca_st c') = tasks (ca_st c) ∧
  rtc quiet_call (at_pc i (wanted m recipe) (PSlot retry SBase) (ca_st c))
    (match x with
     | Ok t => at_pc i (wanted m recipe) (PFork retry t) (ca_st c')
     | Err _ => ca_st c'
     end).
Proof.
  intros Hi. unfold obtain_template. set (w := wanted m recipe).
  destruct (obtain_stage _ _ m (base_key w) SBase c) as [[[[cell_ b]|p] c1]|] eqn:Hb; [| |done].
  - apply (obtain_stage_runs _ _ m i w retry SBase) in Hb as (Ht1 & Hrun & Hcell);
      [|done|by intros ? ?%not_elem_of_nil].
    destruct (recipe_key w) as [k|] eqn:Hk.
    + unfold next_pc in Hrun. rewrite Hk in Hrun.
      assert (k = stage_key w (SRecipe cell_ b)) as Hsk by (simpl; unfold wanted_key; by rewrite Hk).
      rewrite Hsk. destruct (obtain_stage _ _ m _ (SRecipe cell_ b) c1) as [[[[c2' t]|p] c2]|] eqn:Hr; [| |done];
        (apply (obtain_stage_runs _ _ m i w retry (SRecipe cell_ b)) in Hr as (Ht2 & Hrun2);
          [|by rewrite Ht1|by intros ? ->%list_elem_of_singleton]);
        intros [= <- <-]; (split; [congruence|]).
      * etrans; [exact Hrun|]. by destruct Hrun2.
      * etrans; [exact Hrun|exact Hrun2].
    + intros [= <- <-]. split; [done|]. unfold next_pc in Hrun. by rewrite Hk in Hrun.
  - apply (obtain_stage_runs _ _ m i w retry SBase) in Hb as (Ht1 & Hrun);
      [|done|by intros ? ?%not_elem_of_nil]. intros [= <- <-]. by split.
Qed.

(** The last fork: an instance, or the request's end. *)
Lemma fork_runs m recipe i n retry t c x c' :
  tasks (ca_st c) !! i = None → instances (ca_st c) !! n = None →
  fork_template t c = Some (x, c') →
  let st := at_pc i (wanted m recipe) (PFork retry t) (ca_st c) in
  match x with
  | Ok _ => up (ca_st c') t = true ∧
      rtc (call_step n) st (set_instances (ca_st c') (<[n := t]> (instances (ca_st c'))))
  | Err _ => retry = true → rtc (call_step n) st (ca_st c')
  end.
Proof.
  intros Hi Hn Hf st. apply fork_template_state in Hf. destruct x as [f|p].
  - destruct Hf as [-> Hu]. split; [done|]. apply rtc_once. exists Ordinary.
    split; [|right; by exists t]. eapply (eq_rect _ (step st Ordinary)).
    { apply (step_forked st i (wanted m recipe) retry t n); [apply lookup_insert_eq|done|done]. }
    unfold st, at_pc, set_instances, set_tasks. simpl. by rewrite delete_insert_id.
  - destruct Hf as [-> _]. intros ->. apply rtc_once. exists (ForkFails t).
    split; [|left; exact (stop_instances _ _)]. eapply (eq_rect _ (step st (ForkFails t))).
    { apply (step_fork_failed_again st i (wanted m recipe) t). apply lookup_insert_eq. }
    unfold st at 1. rewrite stop_at_pc. unfold st, at_pc, set_tasks. simpl. rewrite delete_insert_id by done.
    destruct (stop_keeps (ca_st c) t) as (<- & _ & _). by destruct (stop_template (ca_st c) t).
Qed.

Lemma obtain_stage_instances m k s c x c' :
  obtain_stage parse ttl m k s c = Some (x, c') → instances (ca_st c') = instances (ca_st c).
Proof.
  unfold obtain_stage.
  assert (instances (slot k (fresh_cell (ca_st c)) (ca_st c)).2 = instances (ca_st c)) as Hs
    by (unfold slot; by destruct (slots (ca_st c) !! k)).
  destruct (slot k (fresh_cell (ca_st c)) (ca_st c)) as [cell_ st]. simpl in Hs |- *.
  destruct (locked (cell st cell_)); [done|].
  destruct (match content (cell st cell_) with Some t => _ | None => _ end); [by intros [= _ <-]|].
  destruct (ca_fills c) as [|f fills]; [done|].
  destruct (fill _ _ m s f _) as [[[] c1]|] eqn:Hf; [| |done]; apply fill_state in Hf; intros [= _ <-].
  - by destruct Hf as [-> _].
  - destruct Hf as [->|(bs & b & _ & ->)]; [done|]. unfold stop_template, set_lock. simpl.
    by destruct (templates st !! b).
Qed.

Lemma obtain_instances m r c x c' :
  obtain_template parse sha256 ttl m r c = Some (x, c') → instances (ca_st c') = instances (ca_st c).
Proof.
  unfold obtain_template.
  destruct (obtain_stage _ _ m _ SBase c) as [[[[cell_ b]|p] c1]|] eqn:Hb; [| |done];
    apply obtain_stage_instances in Hb; [|by intros [= _ <-]].
  destruct (recipe_key (wanted m r)); [|by intros [= _ <-]].
  destruct (obtain_stage _ _ m _ (SRecipe cell_ b) c1) as [[[[? t]|p] c2]|] eqn:Hr; [| |done];
    apply obtain_stage_instances in Hr; intros [= _ <-]; congruence.
Qed.

Lemma wanted_wanted_ok m r : wanted_ok (wanted m r).
Proof. split; [done|]. destruct r; simpl; [|done]. by intros k [= <-]. Qed.

(** The two failing runs of the first attempt. *)
Lemma first_attempt_failed m recipe i n t c p c' :
  tasks (ca_st c) !! i = None → fork_template t c = Some (Err p, c') →
  rtc (call_step n) (at_pc i (wanted m recipe) (PFork false t) (ca_st c))
    (at_pc i (wanted m recipe) (PSlot true SBase)
       (forget (wanted_key (wanted m recipe)) (ca_st c'))).
Proof.
  intros Hi Hf. apply fork_template_state in Hf as [-> _]. set (w := wanted m recipe).
  set (st := at_pc i w (PFork false t) (ca_st c)).
  eapply rtc_l; [exists (ForkFails t); split;
    [apply (step_fork_failed st i w t); apply lookup_insert_eq|left; exact (stop_instances _ _)]|].
  eapply rtc_once. exists (Forgets (wanted_key w)). split.
  2:{ left. unfold st. simpl. rewrite stop_at_pc. done. }
  eapply (eq_rect _ (step _ (Forgets (wanted_key w)))).
  { apply (step_forget _ i w). apply lookup_insert_eq. }
  unfold st. rewrite stop_at_pc. destruct (stop_keeps (ca_st c) t) as (Ht & _ & _).
  unfold at_pc, set_tasks, forget, set_slots. simpl. rewrite !insert_insert_eq. by rewrite Ht.
Qed.

(** One call of [obtain], with all it keeps. *)
Lemma attempt m recipe i n retry c x c' :
  keyed (ca_st c) → tasks (ca_st c) !! i = None → instances (ca_st c) !! n = None →
  obtain_template parse sha256 ttl m recipe c = Some (x, c') →
  keyed (ca_st c') ∧ tasks (ca_st c') !! i = None ∧ instances (ca_st c') !! n = None ∧
  match x with
  | Ok t => ∃ y, templates (ca_st c') !! t = Some y ∧ t_key y = wanted_key (wanted m recipe) ∧
      slots (ca_st c') !! wanted_key (wanted m recipe) = Some (t_slot y)
  | Err p => status p = 500%N
  end ∧
  rtc (call_step n) (at_pc i (wanted m recipe) (PSlot retry SBase) (ca_st c))
    (match x with
     | Ok t => at_pc i (wanted m recipe) (PFork retry t) (ca_st c')
     | Err _ => ca_st c'
     end).
Proof.
  intros Hk Hi Hn Ho. pose proof (obtain_template_keyed _ _ _ _ _ _ _ _ Hk Ho) as [Hk1 Hx].
  pose proof (obtain_instances _ _ _ _ _ Ho) as Hn1.
  apply (obtain_runs m recipe i retry) in Ho as [Ht1 Hrun]; [|done].
  rewrite Ht1, Hn1. split_and!; try done. by apply quiet_calls.
Qed.

Lemma stopped_keeps m recipe i n t c p c' :
  keyed (ca_st c) → tasks (ca_st c) !! i = None → instances (ca_st c) !! n = None →
  fork_template t c = Some (Err p, c') →
  let c3 := forget_template sha256 m recipe c' in
  keyed (ca_st c3) ∧ tasks (ca_st c3) !! i = None ∧ instances (ca_st c3) !! n = None.
Proof.
  intros Hk Hi Hn [Hst _]%fork_template_state. simpl. rewrite Hst. split_and!.
  - by apply keyed_forget, keyed_stop.
  - by rewrite (proj1 (stop_keeps _ t)).
  - unfold stop_template. by destruct (templates (ca_st c) !! t).
Qed.

(** What [create_instance] does with the templates is a run of the
    template cache.  Started in any state of the cache, with the world
    answering in any way, obtaining and forking, with its one rebuild, ends
    either in a clone forked off a template that is up and filed under the
    requested service, version and recipe digest, the cache having gone by
    its own steps to the state with that instance added; or in a server
    error, the cache having gone by its own steps to the state left. *)
Theorem obtain_and_fork_is_a_run m recipe i n c :
  keyed (ca_st c) → tasks (ca_st c) !! i = None → instances (ca_st c) !! n = None →
  match get_clone m recipe c with
  | None => True
  | Some (Ok _, c') =>
      ∃ t y, templates (ca_st c') !! t = Some y ∧ t_key y = wanted_key (wanted m recipe) ∧
        slots (ca_st c') !! wanted_key (wanted m recipe) = Some (t_slot y) ∧
        up (ca_st c') t = true ∧
        rtc (call_step n) (ca_st c) (set_instances (ca_st c') (<[n := t]> (instances (ca_st c'))))
  | Some (Err p, c') => status p = 500%N ∧ rtc (call_step n) (ca_st c) (ca_st c')
  end.
Proof.
  intros Hk Hi Hn. unfold obtain_and_fork. simpl. set (w := wanted m recipe).
  assert (rtc (call_step n) (ca_st c) (at_pc i w (PSlot false SBase) (ca_st c))) as Hreq.
  { apply rtc_once. exists Ordinary. split; [by apply step_request, wanted_wanted_ok|by left]. }
  destruct (obtain_template parse sha256 ttl m recipe c) as [[[t|p] c1]|] eqn:Ho; [| |done].
  2:{ apply (attempt m recipe i n false) in Ho as (Hk1 & _ & _ & Hp & Hrun); try done.
      split; [done|]. by etrans. }
  apply (attempt m recipe i n false) in Ho as (Hk1 & Hi1 & Hn1 & Hx & Hrun); try done.
  destruct (fork_template t c1) as [[[f|p] c2]|] eqn:Hf; [| |done].
  { destruct (fork_runs m recipe i n false t c1 _ _ Hi1 Hn1 Hf) as [Hu Hr].
    destruct Hx as (y & Hy & Hky & Hsl). apply fork_template_state in Hf as [Hst _].
    exists t, y. rewrite Hst in *. split_and!; try done. etrans; [exact Hreq|]. by etrans. }
  set (c3 := forget_template sha256 m recipe c2).
  assert (rtc (call_step n) (ca_st c) (at_pc i w (PSlot true SBase) (ca_st c3))) as Hagain.
  { etrans; [exact Hreq|]. etrans; [exact Hrun|]. exact (first_attempt_failed m recipe i n t c1 p c2 Hi1 Hf). }
  destruct (stopped_keeps m recipe i n t c1 p c2 Hk1 Hi1 Hn1 Hf) as (Hk3 & Hi3 & Hn3).
  destruct (obtain_template parse sha256 ttl m recipe c3) as [[[t'|p'] c4]|] eqn:Ho; [| |done].
  2:{ apply (attempt m recipe i n true) in Ho as (_ & _ & _ & Hp & Hrun'); try done.
      split; [done|]. by etrans. }
  apply (attempt m recipe i n true) in Ho as (Hk4 & Hi4 & Hn4 & Hx' & Hrun'); try done.
  destruct (fork_template t' c4) as [[[f|p'] c5]|] eqn:Hf'; [| |done];
    pose proof (fork_runs m recipe i n true t' c4 _ _ Hi4 Hn4 Hf') as Hr.
  - destruct Hr as [Hu Hr]. destruct Hx' as (y & Hy & Hky & Hsl). apply fork_template_state in Hf' as [Hst _].
    exists t', y. rewrite Hst in *. split_and!; try done. etrans; [exact Hagain|]. by etrans.
  - apply fork_template_state in Hf' as (_ & d & ->). split; [done|].
    etrans; [exact Hagain|]. etrans; [exact Hrun'|]. by apply Hr.
Qed.

(** ** Obtaining returns *)

(** A fill's owner answers, with whichever of the clones it is handed. *)
Definition settled (m : Manifest) (forks : list Forking) (f : Filling) : Prop :=
  fill_base parse ttl m f ≠ None ∧
  ∀ clone e, Answered (Ok (clone, e)) ∈ forks → recipe_answer parse ttl f clone ≠ None.

(** No slot is locked, and the world has [a] fills and [b] forks to come. *)
Definition ready_for (m : Manifest) (a b : nat) (c : Cache) : Prop :=
  (∀ i, locked (cell (ca_st c) i) = false) ∧ Forall (settled m (ca_forks c)) (ca_fills c) ∧
  (a <= length (ca_fills c))%nat ∧ (b <= length (ca_forks c))%nat.

Lemma settled_tail m forks forks' fills :
  forks' ⊆ forks → Forall (settled m forks) fills → Forall (settled m forks') fills.
Proof. intros Hsub Hall. apply (Forall_impl _ _ _ Hall). intros f [H1 H2]. split; [done|]. eauto. Qed.

Lemma unlocked_lock st c b :
  (∀ i, i ≠ c → locked (cell st i) = false) → b = false →
  ∀ i, locked (cell (set_lock c b st) i) = false.
Proof.
  intros Hl -> i. unfold set_lock. rewrite cell_set_cells.
  destruct (decide (c = i)) as [->|Hne]; [done|]. by apply Hl.
Qed.

Lemma fork_returns m a b t c :
  ready_for m a (S b) c → ∃ x c', fork_template t c = Some (x, c') ∧ ready_for m a b c'.
Proof.
  intros (Hl & Hs & Ha & Hb). unfold fork_template.
  assert (∀ forks, forks ⊆ ca_forks c → (b <= length forks)%nat →
    ready_for m a b (mkCache (stop_template (ca_st c) t) forks (ca_fills c))) as Hst.
  { intros forks Hsub Hf. split_and!; [|by eapply settled_tail|done|done]. intros i. unfold cell. simpl.
    rewrite (proj1 (proj2 (stop_keeps _ t))). apply Hl. }
  destruct (up (ca_st c) t); [|eexists _, _; split; [done|]; apply Hst; [done|lia]].
  destruct (ca_forks c) as [|x forks] eqn:Hfk; simpl in Hb; [lia|].
  assert (forks ⊆ x :: forks) as Hsub by (intros y Hy; by right).
  destruct x as [|[]|]; eexists _, _; (split; [done|]); try (apply Hst; [done|lia]).
  split_and!; [done|by eapply settled_tail|done|simpl; lia].
Qed.

Lemma fill_returns m s f b c :
  settled m (ca_forks c) f → (S b <= length (ca_forks c))%nat →
  ∃ x c', fill parse ttl m s f c = Some (x, c') ∧ cells (ca_st c') = cells (ca_st c) ∧
    ca_fills c' = ca_fills c ∧ ca_forks c' ⊆ ca_forks c ∧ (b <= length (ca_forks c'))%nat.
Proof.
  intros [Hf1 Hf2] Hb. unfold fill. destruct s as [|bs t].
  - destruct (fill_base parse ttl m f) as [x|]; [|done]. exists x, c. split_and!; try done. lia.
  - unfold fill_recipe, fork_template.
    destruct (up (ca_st c) t); [|eexists _, _; split_and!; try done; [apply stop_keeps|simpl; lia]].
    destruct (ca_forks c) as [|x forks]; simpl in Hb; [lia|].
    assert (forks ⊆ x :: forks) as Hsub by (intros y Hy; by right).
    destruct x as [|[[clone e]|e]|];
      try (eexists _, _; split_and!; try done; [apply stop_keeps|simpl; lia]).
    specialize (Hf2 clone e ltac:(by left)). destruct (recipe_answer parse ttl f clone) as [x|]; [|done].
    eexists _, _. split_and!; try done. simpl. lia.
Qed.

Lemma obtain_stage_returns m k s a b c :
  ready_for m (S a) (S b) c →
  ∃ x c', obtain_stage parse ttl m k s c = Some (x, c') ∧ ready_for m a b c'.
Proof.
  intros (Hl & Hs & Ha & Hb). unfold obtain_stage.
  destruct (slot_keeps k (ca_st c)) as (_ & Hc & _).
  destruct (slot k (fresh_cell (ca_st c)) (ca_st c)) as [cell_ st]. simpl in *.
  assert (∀ i, locked (cell st i) = false) as Hl' by (intros i; rewrite Hc; apply Hl).
  rewrite Hl'.
  destruct (match content (cell st cell_) with Some t => _ | None => _ end) as [t|] eqn:Hhit.
  { eexists _, _. split; [done|]. split_and!; simpl; try done; lia. }
  destruct (ca_fills c) as [|f fills]; simpl in Ha; [lia|]. apply Forall_cons in Hs as [Hf Hs].
  destruct (fill_returns m s f b (mkCache (set_lock cell_ true st) (ca_forks c) fills) Hf)
    as (x & c1 & -> & Hc1 & Hfl & Hsub & Hfk); [done|]. simpl in Hsub.
  pose proof (settled_tail _ _ _ _ Hsub Hs) as Hs'.
  assert (∀ i, i ≠ cell_ → locked (cell (ca_st c1) i) = false) as Hl1.
  { intros i Hi. unfold cell. rewrite Hc1. simpl. rewrite lookup_insert_ne by done. apply Hl'. }
  destruct x as [[]|p]; eexists _, _; (split; [done|]); unfold ready_for; simpl; rewrite Hfl.
  - split_and!; try done; [|simpl; lia]. intros i. unfold filled.
    change (locked (cell (set_cells (ca_st c1) (<[cell_ := mkSlot (Some (fresh_template (ca_st c1))) false]>
              (cells (ca_st c1)))) i) = false).
    rewrite cell_set_cells. destruct (decide (cell_ = i)) as [->|Hne]; [done|]. by apply Hl1.
  - split_and!; try done; [|simpl; lia]. by apply unlocked_lock.
Qed.

Lemma obtain_returns m r a b c :
  ready_for m (S (S a)) (S (S b)) c →
  ∃ x c', obtain_template parse sha256 ttl m r c = Some (x, c') ∧ ready_for m a b c'.
Proof.
  assert (∀ c, ready_for m (S a) (S b) c → ready_for m a b c) as Hless.
  { intros c' (? & ? & ? & ?). split_and!; try done; lia. }
  intros Hr. unfold obtain_template.
  destruct (obtain_stage_returns m (base_key (wanted m r)) SBase _ _ _ Hr) as (x & c1 & -> & Hr1).
  destruct x as [[cell_ base]|p]; [|eauto]. destruct (recipe_key (wanted m r)) as [k|]; [|eauto].
  destruct (obtain_stage_returns m k (SRecipe cell_ base) _ _ _ Hr1) as (x & c2 & -> & Hr2).
  destruct x as [[? t]|p]; eauto.
Qed.

(** Getting a clone ends.  With no slot locked by another request, and
    with every owner's thread and host giving its answer in the end,
    [create_instance] gets a clone or a problem after at most four fills (base
    and recipe, twice) and six forks; it does not rebuild for ever. *)
Theorem obtain_and_fork_returns m recipe c :
  ready_for m 4 6 c → ∃ x c', get_clone m recipe c = Some (x, c').
Proof.
  intros Hr. unfold obtain_and_fork. simpl.
  destruct (obtain_returns m recipe 2 4 c Hr) as ([t|p] & c1 & -> & Hr1); [|eauto].
  destruct (fork_returns m 2 3 t c1 Hr1) as ([f|p] & c2 & -> & Hr2); [eauto|].
  destruct (obtain_returns m recipe 0 1 (forget_template sha256 m recipe c2)) as ([t'|p'] & c3 & -> & Hr3);
    [|destruct (fork_returns m 0 0 t' c3 Hr3) as (x & c4 & -> & _); eauto|eauto].
  destruct Hr2 as (? & ? & ? & ?). split_and!; try done; simpl; lia.
Qed.
End refinement.

Module ObtainWitness.
Definition address : SocketAddr := mkAddr "127.0.0.1" 4000.
Definition parse (_ : string) : option SocketAddr := Some address.
Definition sha (_ : list byte) : string := "d1".
Definition service0 : Manifest :=
  mkManifest (mkService "redis" "8" []) None (mkGuest "" [] 6379 None) None "".
(** A base that starts and freezes; a clone that initializes and freezes. *)
Definition base : HostProcess :=
  mkProcess 7 [Ok (Some (Ready "e")); Ok (Some (Protocol.Frozen 1))] true [] None [].
Definition clone (n : N) : HostProcess :=
  mkProcess n [Ok (Some (Exited RunInitializer 0 None)); Ok (Some (Protocol.Frozen 1))] false []
    None [].
Definition base_run : Filling := BaseRun (Ok base) (Ok tt) (Ok tt) (Ok tt) (Ok tt).
Definition recipe_run : Filling := RecipeRun (Ok tt) (Ok tt).
(** The first fork off the recipe's template fails, and the base with it. *)
Definition world : Cache :=
  mkCache init
    [Answered (Ok (clone 8, address)); Answered (Err ["gone"]); Answered (Ok (clone 9, address));
     Answered (Ok (clone 10, address)); AnswerDropped; AnswerDropped]
    [base_run; recipe_run; recipe_run; recipe_run].

Lemma settled_base : settled parse 300 service0 (ca_forks world) base_run.
Proof. split; [done|]. intros c e _. done. Qed.
Lemma settled_recipe : settled parse 300 service0 (ca_forks world) recipe_run.
Proof.
  split; [done|]. intros c e Hin. unfold world, ca_forks in Hin.
  repeat (apply elem_of_cons in Hin as [Hin|Hin]; [by simplify_eq|]). by apply elem_of_nil in Hin.
Qed.

Lemma is_a_run_witness :
  ∃ t c', rtc (call_step 0) init (set_instances (ca_st c') (<[0%nat := t]> (instances (ca_st c')))) ∧
    up (ca_st c') t = true.
Proof.
  pose proof (obtain_and_fork_is_a_run parse sha 300 service0 (Some []) 0%nat 0%nat world
    keyed_init eq_refl eq_refl) as H.
  destruct (obtain_and_fork service0 (Some []) world) as [[[f|p] c']|] eqn:E.
  - destruct H as (t & y & _ & _ & _ & Hu & Hr). exists t, c'. split; [exact Hr|exact Hu].
  - vm_compute in E. discriminate E.
  - vm_compute in E. discriminate E.
Defined.

Lemma returns_witness :
  ∃ x c', @obtain_and_fork Cache nat (cache_ops parse sha 300) service0 (Some []) world = Some (x, c').
Proof.
  apply (obtain_and_fork_returns parse sha 300 service0 (Some []) world). split_and!.
  - intros i. reflexivity.
  - exact (Forall_cons_2 _ _ _ settled_base (Forall_cons_2 _ _ _ settled_recipe
      (Forall_cons_2 _ _ _ settled_recipe (Forall_cons_2 _ _ _ settled_recipe (Forall_nil_2 _))))).
  - simpl. lia.
  - simpl. lia.
Defined.
End ObtainWitness.
