(* ===== verification/Instances.v ===== *)
(** * The instances a server holds

    Models src/crates/servicecache/src/serve/instances.rs: the entries with
    their leases, the registry, [adopt] and the watcher thread.  An entry is
    shared ([Arc<Entry>]) between the registry and the handlers that hold it,
    so entries live in a store and the registry maps ids to addresses in it.
    Times and durations are in nanoseconds, [Instant]s counted from the
    server's start; each [Instant::now()] is an argument. *)

From S2P Require Import Prelude Net Protocol Host Manager Api BTree.
From stdpp Require Import fin_maps.

(** ** Entries *)

Inductive GuestState : Type :=
  | GuestRunning
  | GuestExited (status : option Z).
#[global] Instance guest_state_eq_dec : EqDecision GuestState.
Proof. solve_decision. Defined.

Record Lease : Type := mkLease { l_ttl : N; l_expires_at : N }.

Record Entry : Type := mkEntry {
  en_id : string;
  en_service : string;
  en_version : string;
  en_endpoint : SocketAddr;
  en_lease : Lease;
  en_state : GuestState;
}.

Definition nanos : N := 1000000000.
(** [Duration::from_secs]. *)
Definition from_secs (seconds : N) : N := seconds * nanos.

(** [Entry::renew]. *)
Definition renew (ttl : option N) (now : N) (e : Entry) : Entry :=
  let ttl := default (l_ttl (en_lease e)) ttl in
  mkEntry (en_id e) (en_service e) (en_version e) (en_endpoint e) (mkLease ttl (now + ttl))
    (en_state e).

Definition expired (now : N) (e : Entry) : bool :=
  bool_decide (l_expires_at (en_lease e) <= now)%N.

(** [Entry::describe]; [saturating_duration_since], then whole seconds. *)
Definition describe (now : N) (e : Entry) : Instance_ :=
  let '(state, exit_status) :=
    match en_state e with
    | GuestRunning => (InstRunning, None)
    | GuestExited status => (InstExited, status)
    end in
  mkInstance (en_id e) (en_service e) (en_version e) (endpoint_from (en_endpoint e)) state
    exit_status ((l_expires_at (en_lease e) - now) / nanos).

(** ** The registry *)

(** The store of entries, and [Registry]. *)
Record Registry : Type := mkRegistry {
  store : gmap nat Entry;
  entries : gmap string nat;
}.
Definition registry_default : Registry := mkRegistry ∅ ∅.

(** [insert(Arc::new(entry))] of an entry at a new address. *)
Definition insert_entry (a : nat) (e : Entry) (r : Registry) : Registry :=
  mkRegistry (<[a := e]> (store r)) (<[en_id e := a]> (entries r)).

Definition get (id : string) (r : Registry) : option (nat * Entry) :=
  a ← entries r !! id; e ← store r !! a; Some (a, e).

Definition remove (id : string) (r : Registry) : option (nat * Entry) * Registry :=
  (get id r, mkRegistry (store r) (delete id (entries r))).

(** The values of the map, and [sort_by] on the ids. *)
Definition values (r : Registry) : list (nat * Entry) :=
  omap (λ x, e ← store r !! x.2; Some (x.2, e)) (map_to_list (entries r)).

Definition by_id (l r : nat * Entry) : Prop := string_cmp (en_id l.2) (en_id r.2) ≠ Gt.
#[global] Instance by_id_dec l r : Decision (by_id l r).
Proof. unfold by_id. apply _. Defined.

Definition list_entries (r : Registry) : list (nat * Entry) := merge_sort by_id (values r).

(** [expired.iter().filter_map(|id| entries.remove(id)).collect()]. *)
Fixpoint remove_all (ids : list string) (r : Registry) : list (nat * Entry) * Registry :=
  match ids with
  | [] => ([], r)
  | id :: ids =>
      let (x, r) := remove id r in
      let (xs, r) := remove_all ids r in
      (match x with Some x => x :: xs | None => xs end, r)
  end.

Definition remove_expired (now : N) (r : Registry) : list (nat * Entry) * Registry :=
  remove_all (map (λ x, en_id x.2) (filter (λ x, expired now x.2 = true) (values r))) r.

Definition registry_clear (r : Registry) : Registry := mkRegistry (store r) ∅.

(** The fields shared through the [Arc]: the lease and the guest's state. *)
Definition update_entry (a : nat) (f : Entry → Entry) (r : Registry) : Registry :=
  mkRegistry (alter f a (store r)) (entries r).

(** ** Adopting and watching *)

(** [adopt]; [made] is the making of the pipe and of the thread. *)
Definition adopt (made : result unit error) (id service version : string) (endpoint : SocketAddr)
    (ttl now : N) : result Entry error :=
  let? _ := made in
  Ok (mkEntry id service version endpoint (mkLease ttl (now + ttl)) GuestRunning).

(** One [poll] of the watcher: what of the host's channel and the stop pipe is
    ready. *)
Inductive Watched : Type :=
  | WatchReady (host_ready stop_ready : bool)
  | WatchInterrupted
  | WatchFailed.

(** How the watcher leaves its host. *)
Inductive Left : Type := LeftStopped | LeftKilled.

(** [watch] over its rounds; [None] while it goes on, with the guest's state
    and the process. *)
Fixpoint watch (rounds : list Watched) (h : HostProcess) (state : GuestState)
    : option Left * GuestState * HostProcess :=
  match rounds with
  | [] => (None, state, h)
  | WatchInterrupted :: rounds => watch rounds h state
  | WatchFailed :: _ => (Some LeftStopped, state, h)
  | WatchReady host_ready stop_ready :: rounds =>
      if host_ready then
        match read_event h with
        | None => (None, state, h)
        | Some (Ok (Exited RunGuest status _), h) =>
            (Some LeftStopped, GuestExited (Some status), h)
        | Some (Ok _, h) =>
            if stop_ready then (Some LeftStopped, state, h) else watch rounds h state
        | Some (Err _, h) =>
            (Some LeftKilled,
             if bool_decide (state = GuestRunning) then GuestExited None else state, h)
        end
      else if stop_ready then (Some LeftStopped, state, h) else watch rounds h state
  end.

(** ** Invariant *)

(** Every id maps to a stored entry of that id, and no two to one. *)
Record registry_ok (r : Registry) : Prop := mkRegistryOk {
  ok_entry id a : entries r !! id = Some a → ∃ e, store r !! a = Some e ∧ en_id e = id;
}.

Lemma registry_ok_default : registry_ok registry_default.
Proof. split. intros id a. simpl. by rewrite lookup_empty. Qed.

Lemma registry_ok_insert a e r : registry_ok r → store r !! a = None → registry_ok (insert_entry a e r).
Proof.
  intros Hok Ha. split. intros id a' Hid. simpl in *.
  apply lookup_insert_Some in Hid as [[<- <-]|[Hne Hid]]; [exists e; by rewrite lookup_insert_eq|].
  destruct (ok_entry _ Hok _ _ Hid) as (e' & He' & Hid'). exists e'.
  rewrite lookup_insert_ne; [done|congruence].
Qed.

Lemma registry_ok_update a f r :
  registry_ok r → (∀ e, en_id (f e) = en_id e) → registry_ok (update_entry a f r).
Proof.
  intros Hok Hf. split. intros id a' Hid. simpl in *.
  destruct (ok_entry _ Hok _ _ Hid) as (e & He & Hi). destruct (decide (a = a')) as [->|Hne].
  - exists (f e). rewrite lookup_alter_eq, He. split; [done|]. by rewrite Hf.
  - exists e. by rewrite lookup_alter_ne.
Qed.

Lemma registry_ok_subset r m : registry_ok r → m ⊆ entries r → registry_ok (mkRegistry (store r) m).
Proof.
  intros Hok Hm. split. intros id a Hid. apply (ok_entry _ Hok). by eapply lookup_weaken.
Qed.

Lemma get_entry id r a e :
  get id r = Some (a, e) ↔ entries r !! id = Some a ∧ store r !! a = Some e.
Proof.
  unfold get. destruct (entries r !! id) as [a'|] eqn:Hid; simpl; [|naive_solver].
  destruct (store r !! a') as [e'|] eqn:He; simpl; naive_solver.
Qed.

Lemma elem_of_values r a e :
  (a, e) ∈ values r ↔ ∃ id, entries r !! id = Some a ∧ store r !! a = Some e.
Proof.
  unfold values. rewrite list_elem_of_omap. split.
  - intros ([id a'] & Hin & Hx). apply elem_of_map_to_list in Hin. simpl in Hx.
    destruct (store r !! a') as [e'|] eqn:He; [|done]. simpl in Hx. injection Hx as <- <-. by exists id.
  - intros (id & Hid & He). exists (id, a). rewrite elem_of_map_to_list. simpl. by rewrite He.
Qed.

(** The ids of the values are the keys, once each. *)
Lemma values_ids r : registry_ok r → map (λ x, en_id x.2) (values r) = (map_to_list (entries r)).*1.
Proof.
  intros Hok. unfold values.
  assert (∀ l, (∀ x, x ∈ l → entries r !! x.1 = Some x.2) →
    map (λ x : nat * Entry, en_id x.2)
      (omap (λ x : string * nat, e ← store r !! x.2; Some (x.2, e)) l) = l.*1) as Hl.
  { induction l as [|[id a] l IH]; intros Hin; [done|].
    destruct (ok_entry _ Hok id a (Hin (id, a) ltac:(by left))) as (e & He & Hid).
    simpl. rewrite He. simpl. f_equal; [done|]. apply IH. intros x Hx. apply Hin. by right. }
  apply Hl. intros [id a] Hx. by apply elem_of_map_to_list.
Qed.

Lemma values_NoDup r : registry_ok r → NoDup (values r).
Proof.
  intros Hok. eapply (NoDup_fmap_1 (λ x, en_id x.2)). change (NoDup (map (λ x, en_id x.2) (values r))).
  rewrite (values_ids _ Hok). apply NoDup_fst_map_to_list.
Qed.

(** Removing a list of distinct ids. *)
Lemma remove_all_spec ids r :
  NoDup ids →
  let (xs, r') := remove_all ids r in
  store r' = store r ∧ entries r' = filter (λ x, x.1 ∉ ids) (entries r) ∧
  xs = omap (λ id, get id r) ids.
Proof.
  revert r. induction ids as [|id ids IH]; intros r Hnd; simpl.
  - split_and!; try done. symmetry. apply map_filter_id. intros ? ? _. by apply not_elem_of_nil.
  - apply NoDup_cons in Hnd as [Hni Hnd].
    specialize (IH (mkRegistry (store r) (delete id (entries r))) Hnd).
    destruct (remove_all ids _) as [xs r'] eqn:Hr. destruct IH as (Hs & He & Hx). simpl in *.
    split_and!; [done| |].
    + rewrite He. apply map_eq. intros k. apply option_eq. intros a.
      rewrite !map_lookup_filter_Some, lookup_delete_Some. simpl. set_solver.
    + assert (omap (λ i, get i (mkRegistry (store r) (delete id (entries r)))) ids =
              omap (λ i, get i r) ids) as Ho.
      { apply omap_ext_elem. intros i Hi. unfold get. simpl. rewrite lookup_delete_ne; [done|].
        intros ->. done. }
      rewrite Hx, Ho. by destruct (get id r).
Qed.

(** A sweep removes the expired instances and nothing else: on a registry whose
    keys are its entries' ids, [remove_expired] keeps an id, with the entry it
    had, exactly if its lease runs on past [now], and returns each expired entry
    once. *)
Lemma remove_expired_spec now r :
  registry_ok r →
  let (gone, r') := remove_expired now r in
  store r' = store r ∧
  (∀ id a e, get id r' = Some (a, e) ↔ get id r = Some (a, e) ∧ (now < l_expires_at (en_lease e))%N) ∧
  NoDup gone ∧
  (∀ a e, (a, e) ∈ gone ↔ get (en_id e) r = Some (a, e) ∧ (l_expires_at (en_lease e) <= now)%N).
Proof.
  intros Hok. unfold remove_expired.
  set (ex := filter (λ x, expired now x.2 = true) (values r)).
  assert (∀ a e, (a, e) ∈ ex ↔ get (en_id e) r = Some (a, e) ∧ (l_expires_at (en_lease e) <= now)%N) as Hex.
  { intros a e. unfold ex. rewrite list_elem_of_filter, elem_of_values. simpl. unfold expired.
    rewrite bool_decide_eq_true, get_entry. split.
    - intros (Hle & id & Hid & He). destruct (ok_entry _ Hok _ _ Hid) as (e' & He' & Hi).
      assert (e' = e) as -> by congruence. by rewrite Hi.
    - intros ((Hid & He) & Hle). eauto. }
  assert (NoDup (map (λ x, en_id x.2) ex)) as Hnd.
  { apply (NoDup_fmap_2_strong (λ x : nat * Entry, en_id x.2)).
    - intros [a e] [a' e'] [Hg _]%Hex [Hg' _]%Hex Hid. simpl in Hid. congruence.
    - apply NoDup_filter, (values_NoDup _ Hok). }
  pose proof (remove_all_spec (map (λ x, en_id x.2) ex) r Hnd) as Hspec.
  destruct (remove_all _ r) as [gone r'] eqn:Hra. destruct Hspec as (Hs & He & Hgone).
  assert (gone = ex) as ->.
  { rewrite Hgone. apply omap_inverse. intros [a e] Hin. by apply Hex in Hin as [? _]. }
  split_and!; [done| | |done].
  - intros id a e. rewrite !get_entry, Hs, He, map_lookup_filter_Some. simpl. split.
    + intros ((Hid & Hni) & Hst). split; [done|]. destruct (ok_entry _ Hok _ _ Hid) as (e' & He' & Hi).
      assert (e' = e) as -> by congruence. destruct (decide (l_expires_at (en_lease e) <= now)%N); [|lia].
      destruct Hni. rewrite <- Hi. apply (list_elem_of_fmap_2 (λ x : nat * Entry, en_id x.2) _ (a, e)).
      apply Hex. rewrite get_entry, Hi. done.
    + intros ((Hid & Hst) & Hlt). split_and!; [done| |done]. intros Hin.
      apply (list_elem_of_fmap (λ x : nat * Entry, en_id x.2)) in Hin as ([a' e'] & -> & Hin).
      apply Hex in Hin as [Hg Hle]. apply get_entry in Hg as [Hg1 Hg2]. simpl in Hid.
      assert (a' = a) as -> by congruence. assert (e' = e) as -> by congruence. lia.
  - apply NoDup_filter, (values_NoDup _ Hok).
Qed.

(** An entry whose lease runs on stays. *)
Lemma sweep_keeps now r id a e :
  registry_ok r → get id r = Some (a, e) → (now < l_expires_at (en_lease e))%N →
  entries (remove_expired now r).2 !! id = Some a.
Proof.
  intros Hok Hg Hlt. pose proof (remove_expired_spec now r Hok) as Hspec.
  destruct (remove_expired now r) as [gone r']. destruct Hspec as (_ & Hget & _).
  apply (get_entry id r' a e). by apply Hget.
Qed.

(** Strictly before, by id. *)
Definition before (l r : nat * Entry) : Prop := string_cmp (en_id l.2) (en_id r.2) = Lt.

(** The listing is the registry, in id order: [list] returns the held
    entries, each once, sorted strictly by id. *)
Lemma list_is_the_registry_in_order r :
  registry_ok r →
  StronglySorted before (list_entries r) ∧
  ∀ a e, (a, e) ∈ list_entries r ↔ get (en_id e) r = Some (a, e).
Proof.
  intros Hok. assert (list_entries r ≡ₚ values r) as Hp by apply merge_sort_Permutation.
  split.
  - assert (StronglySorted by_id (list_entries r)) as Hs.
    { apply StronglySorted_merge_sort.
      - intros x y z Hxy Hyz. by eapply string_le_trans.
      - intros x y. unfold by_id. rewrite (string_cmp_antisym (en_id x.2) (en_id y.2)).
        destruct (string_cmp _ _); auto. }
    assert (NoDup (map (λ x, en_id x.2) (list_entries r))) as Hnd.
    { unfold list_entries. rewrite Hp, (values_ids _ Hok). apply NoDup_fst_map_to_list. }
    clear Hp. induction Hs as [|x l Hs IH Hx]; [constructor|]. simpl in Hnd.
    apply NoDup_cons in Hnd as [Hni Hnd]. constructor; [by apply IH|].
    rewrite Forall_forall in Hx |- *. intros y Hy. specialize (Hx y Hy). unfold by_id, before in *.
    destruct (string_cmp (en_id x.2) (en_id y.2)) eqn:Hc; [|done|done].
    apply string_cmp_eq in Hc. destruct Hni. rewrite Hc.
    by apply (list_elem_of_fmap_2 (λ x : nat * Entry, en_id x.2)).
  - intros a e. rewrite Hp, elem_of_values, get_entry. split.
    + intros (id & Hid & He). destruct (ok_entry _ Hok _ _ Hid) as (e' & He' & Hi).
      assert (e' = e) as -> by congruence. by rewrite Hi.
    + eauto.
Qed.

(** ** The watcher *)

(** An event of another run than the guest's. *)
Definition other_exit (r : Reply) : Prop :=
  match r with Exited RunGuest _ _ => False | Exited _ _ _ => True | _ => False end.

Definition host_ready (w : Watched) : bool :=
  match w with WatchReady b _ => b | _ => false end.
(** A round that neither fails nor finds the stop pipe closed. *)
Definition quiet_round (w : Watched) : Prop :=
  match w with WatchReady _ b => b = false | WatchInterrupted => True | WatchFailed => False end.

(** What the channel said for each way the watcher can end. *)
Definition watch_ending (rounds : list Watched) (h : HostProcess) (state : GuestState)
    (out : option Left * GuestState * HostProcess) : Prop :=
  let '(how, state', h') := out in
  ∃ evs, Forall other_exit evs ∧
  match how with
  | None => state' = state ∧ hp_incoming h = messages evs ++ hp_incoming h'
  | Some LeftStopped =>
      (state' = state ∧ hp_incoming h = messages evs ++ hp_incoming h' ∧ ¬ Forall quiet_round rounds) ∨
      (∃ status pid, state' = GuestExited (Some status) ∧
         hp_incoming h = messages evs ++ Ok (Some (Exited RunGuest status pid)) :: hp_incoming h')
  | Some LeftKilled =>
      state' = (if bool_decide (state = GuestRunning) then GuestExited None else state) ∧
      ∃ m, hp_incoming h = messages evs ++ m :: hp_incoming h' ∧
        ∀ run status pid, m ≠ Ok (Some (Exited run status pid))
  end.

Lemma watch_ending_more w rounds h h1 r state out :
  other_exit r → hp_incoming h = Ok (Some r) :: hp_incoming h1 →
  watch_ending rounds h1 state out → watch_ending (w :: rounds) h state out.
Proof.
  intros Hr Hh. destruct out as [[how state'] h']. intros (evs & Hall & Hend). exists (r :: evs).
  split; [by constructor|]. rewrite Hh. destruct how as [[]|]; simpl.
  - destruct Hend as [(-> & -> & Hq)|(status & pid & -> & ->)]; [left|right; eauto].
    split_and!; try done. by intros [_ ?]%Forall_cons.
  - destruct Hend as (-> & m & -> & Hm). split; [done|]. by exists m.
  - by destruct Hend as (-> & ->).
Qed.

Lemma watch_ending_skip w rounds h state out :
  watch_ending rounds h state out → watch_ending (w :: rounds) h state out.
Proof.
  destruct out as [[how state'] h']. intros (evs & Hall & Hend). exists evs. split; [done|].
  destruct how as [[]|]; try done. destruct Hend as [(-> & -> & Hq)|Hend]; [left|by right].
  split_and!; try done. by intros [_ ?]%Forall_cons.
Qed.

(** The watcher tells the truth about the guest.  Whatever its polls find,
    [watch] records an exit status only for the guest's own exit, the first one
    its channel reports, and then stops the host; it records an exit without a
    status only when the channel ends or fails, and then kills the host; while
    it goes on, and when it ends because the entry was dropped or the poll
    failed, it leaves the state as it was, and in the latter case stops the
    host. *)
Theorem watch_is_truthful rounds h state : watch_ending rounds h state (watch rounds h state).
Proof.
  revert h. induction rounds as [|[hr sr| |] rounds IH]; intros h; simpl.
  - exists []. by split_and!.
  - assert (¬ Forall quiet_round (WatchReady hr true :: rounds)) as Hnq
      by (intros [Hq _]%Forall_cons; done).
    destruct hr.
    + destruct (hp_incoming h) as [|m i] eqn:Hi; unfold read_event; rewrite Hi.
      { exists []. split; [constructor|]. by rewrite Hi. }
      destruct m as [[[e|run st pid|n|pid e|text]|]|e];
        try (exists []; split; [constructor|]; split; [done|]; eexists; split; [apply Hi|done]).
      destruct run; try (destruct sr;
        [match type of Hi with _ = Ok (Some ?r) :: _ => exists [r] end;
         split; [by repeat constructor|]; left; by split_and!
        |refine (watch_ending_more _ _ h (set_incoming h i (hp_events h)) _ _ _ _ Hi (IH _)); done]).
      exists []. split; [constructor|]. right. exists st, pid. by split.
    + destruct sr; [|by apply watch_ending_skip].
      exists []. split; [constructor|]. left. by split_and!.
  - by apply watch_ending_skip.
  - exists []. split; [constructor|]. left. split_and!; try done. by intros [Hq _]%Forall_cons.
Qed.

(** The guest's exit is noticed: when the channel holds the guest's exit
    behind any number of other events, the poll does not fail and the entry is
    not dropped, the watcher, given a ready round for each message, ends with the
    guest's status recorded and its host stopped, whatever interruptions come
    between. *)
Theorem watch_reports_the_exit evs status pid rest rounds h state :
  Forall other_exit evs →
  hp_incoming h = messages evs ++ Ok (Some (Exited RunGuest status pid)) :: rest →
  Forall quiet_round rounds → (length evs < length (List.filter host_ready rounds))%nat →
  watch rounds h state =
    (Some LeftStopped, GuestExited (Some status), set_incoming h rest (hp_events h)).
Proof.
  intros Hevs Hin Hq Hlen. revert evs h Hevs Hin Hlen.
  induction rounds as [|w rounds IH]; intros evs h Hevs Hin Hlen; [simpl in Hlen; lia|].
  apply Forall_cons in Hq as [Hw Hq]. specialize (IH Hq).
  destruct w as [hr sr| |]; [|by eapply IH|done]. simpl in Hw. subst sr. simpl.
  destruct hr; [|by eapply IH]. destruct evs as [|r evs]; simpl in Hin.
  - unfold read_event. by rewrite Hin.
  - apply Forall_cons in Hevs as [Hr Hevs]. unfold read_event. rewrite Hin. simpl in Hlen.
    destruct r as [|[] st p| | |]; try done;
      by apply (IH evs (set_incoming h _ (hp_events h)) Hevs eq_refl ltac:(lia)).
Qed.

Module InstancesWitness.
Definition entry (id : string) (expires : N) : Entry :=
  mkEntry id "redis" "8" (mkAddr "127.0.0.1" 4000) (mkLease 300 expires) GuestRunning.
Definition process : HostProcess :=
  mkProcess 7 (messages [Exited RunChild 0 (Some 8%N)] ++ [Ok (Some (Exited RunGuest 3 None))])
    false [] None [].
Lemma watch_witness :
  watch [WatchReady true false; WatchInterrupted; WatchReady true false] process GuestRunning =
    (Some LeftStopped, GuestExited (Some 3%Z), set_incoming process [] []).
Proof.
  apply (watch_reports_the_exit [Exited RunChild 0 (Some 8%N)] 3 None []).
  - by repeat constructor.
  - reflexivity.
  - by repeat constructor.
  - simpl. lia.
Defined.
End InstancesWitness.
