(* ===== verification/Serve.v ===== *)
(** * The manager's HTTP API

    Models the handlers of src/crates/servicecache/src/serve/mod.rs, with what
    they decide before they touch anything ([ttl_duration], [recipe_bytes],
    [new_id]), [claim_socket], the sweeper, and the server's operations as they
    interleave over time.

    The handlers are written against the interface of Obtain.v; the JSON
    parser, base64, the files behind recipe paths and the server's uid are
    parameters.  A handler's body has no [await] after it has taken an entry
    from the registry, except that another thread may run between two of its
    locks; the renewal, where that matters, is two steps in the interleaving. *)

From S2P Require Import Prelude Net Protocol Paths Manifest BTree Discovery Api Recipes Host.
From S2P Require Import Manager Owner Templates Obtain Instances.
From stdpp Require Import fin_maps.

(** ** Durations and ids *)

Definition DEFAULT_TTL : N := from_secs 300.
Definition MAX_TTL_SECONDS : N := 86400.

Definition ttl_duration (seconds : option N) : result (option N) Problem :=
  match seconds with
  | None => Ok None
  | Some seconds =>
      if bool_decide (1 <= seconds <= MAX_TTL_SECONDS)%N then Ok (Some (from_secs seconds))
      else Err (invalid_ttl seconds)
  end.

(** [write!(id, "{byte:02x}")] for each byte. *)
Definition hex_of_bytes (bytes : list byte) : string := foldr (λ b id, hex_byte b +:+ id) "" bytes.

(** [new_id]; [urandom] is opening /dev/urandom and reading eight bytes. *)
Definition new_id (urandom : result (list byte) string) : result string error :=
  match urandom with
  | Err e => Err ["failed to read /dev/urandom"; e]
  | Ok bytes => Ok (hex_of_bytes bytes)
  end.

(** ** Claiming the socket *)

(** What [claim_socket] does to the file system, in order. *)
Inductive SocketEffect : Type :=
  | RemovedSocket
  | CreatedDir (dir : path) (mode : N).

Record SocketWorld : Type := mkSocketWorld {
  so_exists : path → bool;
  so_answers : bool;
  so_remove : result unit error;
  so_create : path → result unit error;
}.

Definition claim_socket (w : SocketWorld) (socket : path) : result unit error * list SocketEffect :=
  if so_exists w socket then
    if so_answers w then (Err [socket +:+ " is already being served"], [])
    else match so_remove w with
    | Err e => (Err (("failed to remove the stale socket " +:+ socket) :: e), [])
    | Ok _ => (Ok tt, [RemovedSocket])
    end
  else match parent socket with
  | Some dir =>
      if negb (bool_decide (dir = "")) && negb (so_exists w dir) then
        match so_create w dir with
        | Err e => (Err (("failed to create " +:+ dir) :: e), [])
        | Ok _ => (Ok tt, [CreatedDir dir 448])
        end
      else (Ok tt, [])
  | None => (Ok tt, [])
  end.

(** ** Handlers *)

Record App (C : Type) : Type := mkApp {
  services : ServiceIndex;
  registry : Registry;
  cache : C;
  recipe_roots : Roots;
}.
Arguments mkApp {C}.
Arguments services {C}.
Arguments registry {C}.
Arguments cache {C}.
Arguments recipe_roots {C}.

Definition set_registry {C} (app : App C) (r : Registry) : App C :=
  mkApp (services app) r (cache app) (recipe_roots app).
Definition set_cache {C} (app : App C) (c : C) : App C :=
  mkApp (services app) (registry app) c (recipe_roots app).

(** [Peer]: the uid of [SO_PEERCRED], when there is one. *)
Record Peer : Type := mkPeer { uid : option N }.

(** What a creation meets besides the templates. *)
Record Meets : Type := mkMeets {
  (** Whether [spawn_blocking]'s task is joined. *)
  me_reader : bool;
  me_urandom : result (list byte) string;
  (** The stop pipe and the watcher's thread. *)
  me_watcher : result unit error;
  (** The clock at [adopt] and at [describe]. *)
  me_adopt : N;
  me_describe : N;
}.

Definition fresh_entry (r : Registry) : nat := fresh (dom (store r) : gset nat).

Section handlers.
Context {C T : Type} `{!TemplateOps C T}.
Context (parse_create : list byte → result CreateInstance string).
Context (parse_renew : list byte → result RenewInstance string).
Context (base64_decode : string → result (list byte) string).
Context (open : path → result OpenFile string) (geteuid : N).

Definition recipe_bytes (app : App C) (peer : Peer) (request : CreateInstance) (reader : bool)
    : result (option (list byte)) Problem :=
  match c_recipe request, c_recipe_files request with
  | None, [] => Ok None
  | Some _, _ :: _ => Err (invalid_body "give recipe or recipe_files, not both")
  | Some recipe, [] => let? bytes := decode_recipe base64_decode recipe in Ok (Some bytes)
  | None, files =>
      if roots_is_empty (recipe_roots app) then
        Err (recipe_files_refused "the server was not started with --recipe-root")
      else if negb (bool_decide (uid peer = Some geteuid)) then
        Err (recipe_files_refused "recipe files are accepted only from the server's own user")
      else if reader then
        let? bytes := read open (recipe_roots app) files MAX_PAYLOAD_LEN in Ok (Some bytes)
      else Err (internal "the recipe reader died")
  end.

(** What [create_instance] settles before it brings anything up. *)
Definition validate_request (app : App C) (peer : Peer) (body : list byte) (w : Meets)
    : result (Manifest * option (list byte) * N * string) Problem :=
  let? request :=
    match parse_create body with Ok r => Ok r | Err e => Err (invalid_body e) end in
  let? ttl := ttl_duration (c_ttl_seconds request) in
  let ttl := default DEFAULT_TTL ttl in
  let? recipe := recipe_bytes app peer request (me_reader w) in
  let? manifest :=
    match select (services app) (c_service request) (c_version request) with
    | Ok m => Ok m
    | Err NotFound => Err (unknown_service (c_service request) (c_version request))
    | Err (Ambiguous versions) => Err (ambiguous_version (c_service request) versions)
    end in
  if bool_decide (is_Some recipe) && bool_decide (initializer manifest = None) then
    Err (no_initializer (c_service request))
  else
    let? id :=
      match new_id (me_urandom w) with
      | Ok id => Ok id
      | Err e => Err (internal (default "" (head e)))
      end in
    Ok (manifest, recipe, ttl, id).

(** [create_instance]: status, [Location] and body; [None] while it waits. *)
Definition create_instance (peer : Peer) (body : list byte) (w : Meets) (app : App C)
    : option (result (N * string * Instance_) Problem * App C) :=
  match validate_request app peer body w with
  | Err p => Some (Err p, app)
  | Ok (manifest, recipe, ttl, id) =>
      match obtain_and_fork manifest recipe (cache app) with
      | None => None
      | Some (Err p, c) => Some (Err p, set_cache app c)
      | Some (Ok (_, endpoint), c) =>
          let app := set_cache app c in
          match adopt (me_watcher w) id (name (service manifest)) (version (service manifest))
                  endpoint ttl (me_adopt w) with
          | Err e => Some (Err (internal (display_chain e)), app)
          | Ok entry =>
              let described := describe (me_describe w) entry in
              Some (Ok (201%N, "/v1/instances/" +:+ id, described),
                    set_registry app
                      (insert_entry (fresh_entry (registry app)) entry (registry app)))
          end
      end
  end.

Definition get_instance (id : string) (now : N) (app : App C) : result Instance_ Problem :=
  match get id (registry app) with
  | Some (_, entry) => Ok (describe now entry)
  | None => Err (unknown_instance id)
  end.

Definition delete_instance (id : string) (app : App C) : result N Problem * App C :=
  let (entry, r) := Instances.remove id (registry app) in
  match entry with
  | Some _ => (Ok 204%N, set_registry app r)
  | None => (Err (unknown_instance id), set_registry app r)
  end.

(** [renew_instance]; the clock at [renew] and at [describe]. *)
Definition renew_instance (id : string) (body : list byte) (now now' : N) (app : App C)
    : result Instance_ Problem * App C :=
  match (let? request :=
           if bool_decide (body = []) then Ok default_renew
           else match parse_renew body with Ok r => Ok r | Err e => Err (invalid_body e) end in
         ttl_duration (r_ttl_seconds request)) with
  | Err p => (Err p, app)
  | Ok ttl =>
      match get id (registry app) with
      | None => (Err (unknown_instance id), app)
      | Some (a, entry) =>
          if negb (bool_decide (en_state entry = GuestRunning)) then (Err (instance_exited id), app)
          else
            (Ok (describe now' (renew ttl now entry)),
             set_registry app (update_entry a (renew ttl now) (registry app)))
      end
  end.

Definition list_instances (now : N) (app : App C) : list Instance_ :=
  map (λ x, describe now x.2) (list_entries (registry app)).

Definition list_services (app : App C) : list ServiceEntry :=
  map (λ package, mkServiceEntry (name (service (pkg_manifest package)))
                    (version (service (pkg_manifest package)))) (Discovery.iter (services app)).

(** One tick of [sweep], [prune_templates] being the templates' part. *)
Definition sweep_tick (prune_templates : C → C) (now : N) (app : App C) : App C :=
  set_cache (set_registry app (remove_expired now (registry app)).2) (prune_templates (cache app)).

(** The end of [serve_on]. *)
Definition shut_down_server (clear_templates : C → C) (app : App C) : App C :=
  set_cache (set_registry app (registry_clear (registry app))) (clear_templates (cache app)).
End handlers.

(** ** What a handler answers *)

(** The statuses [create_instance] documents for its problems. *)
Definition documented : list N := [400; 403; 404; 409; 413; 500]%N.

Lemma read_loop_problem open roots paths recipe max p :
  read_loop open roots paths recipe max = Err p → status p ∈ [400; 403; 413]%N.
Proof.
  revert recipe. induction paths as [|q paths IH]; intros recipe; [done|]. simpl.
  destruct (open_checked open roots q) as [[f md]|e] eqn:Ho.
  - simpl. destruct (append_file q f md recipe max) as [r|e] eqn:Ha; [apply IH|].
    intros [= <-]. revert Ha. unfold append_file.
    repeat case_match; intros [= <-]; simpl; set_solver.
  - intros [= <-]. revert Ho. unfold open_checked. repeat case_match; intros [= <-]; simpl; set_solver.
Qed.

Lemma ttl_duration_spec seconds :
  match ttl_duration seconds with
  | Ok ttl => (from_secs 1 <= default DEFAULT_TTL ttl <= from_secs MAX_TTL_SECONDS)%N
  | Err p => status p = 400%N
  end.
Proof.
  destruct seconds as [s|]; simpl; [|by vm_compute].
  case_bool_decide as Hs; [|done]. unfold from_secs, MAX_TTL_SECONDS, nanos in *. simpl. lia.
Qed.

Section answers.
Context {C T : Type} `{!TemplateOps C T} `{!TemplateLaws C T}.
Context (parse_create : list byte → result CreateInstance string).
Context (base64_decode : string → result (list byte) string).
Context (open : path → result OpenFile string) (geteuid : N).
Notation recipe_bytes := (recipe_bytes base64_decode open geteuid).
Notation validate_request := (validate_request parse_create base64_decode open geteuid).
Notation create_instance := (create_instance parse_create base64_decode open geteuid).

Lemma recipe_bytes_problem (app : App C) peer request reader p :
  recipe_bytes app peer request reader = Err p → status p ∈ documented.
Proof.
  unfold Serve.recipe_bytes, decode_recipe.
  destruct (c_recipe request) as [r|], (c_recipe_files request) as [|f fs]; try done.
  - destruct (base64_decode r); intros [= <-]. set_solver.
  - intros [= <-]. set_solver.
  - destruct (roots_is_empty _); [intros [= <-]; set_solver|].
    destruct (negb _); [intros [= <-]; set_solver|].
    destruct reader; [|intros [= <-]; set_solver].
    destruct (read open (recipe_roots app) (f :: fs) MAX_PAYLOAD_LEN) as [b|e] eqn:Hr; [done|].
    intros [= <-]. apply read_loop_problem in Hr. set_solver.
Qed.

(** The request the validation accepted. *)
Definition accepted (app : App C) (peer : Peer) (body : list byte) (w : Meets)
    (m : Manifest) (recipe : option (list byte)) (ttl : N) (id : string) : Prop :=
  ∃ request,
    parse_create body = Ok request ∧
    select (services app) (c_service request) (c_version request) = Ok m ∧
    recipe_bytes app peer request (me_reader w) = Ok recipe ∧
    (is_Some recipe → is_Some (initializer m)) ∧
    ttl = match c_ttl_seconds request with Some s => from_secs s | None => DEFAULT_TTL end ∧
    (from_secs 1 <= ttl <= from_secs MAX_TTL_SECONDS)%N ∧
    new_id (me_urandom w) = Ok id.

Lemma validate_spec (app : App C) peer body w :
  match validate_request app peer body w with
  | Err p => status p ∈ documented
  | Ok (m, recipe, ttl, id) => accepted app peer body w m recipe ttl id
  end.
Proof.
  unfold Serve.validate_request. destruct (parse_create body) as [request|e] eqn:Hp; [|set_solver].
  pose proof (ttl_duration_spec (c_ttl_seconds request)) as Httl.
  destruct (ttl_duration (c_ttl_seconds request)) as [ttl|p] eqn:Ht; [|set_solver].
  destruct (recipe_bytes app peer request (me_reader w)) as [recipe|p] eqn:Hr;
    [|by eapply recipe_bytes_problem].
  destruct (select _ _ _) as [m|[|vs]] eqn:Hs; [|set_solver..].
  destruct (bool_decide (is_Some recipe) && _) eqn:Hi; [set_solver|].
  destruct (new_id (me_urandom w)) as [id|e] eqn:Hid; [|set_solver].
  exists request. split_and!; try done.
  - intros Hrec. apply andb_false_iff in Hi as [Hi|Hi]; simp_bool; [done|].
    by destruct (initializer m).
  - unfold ttl_duration in Ht. destruct (c_ttl_seconds request); [|by injection Ht as <-].
    destruct (bool_decide _); [|done]. by injection Ht as <-.
  - apply Httl.
  - apply Httl.
Qed.

Lemma obtain_and_fork_laws m recipe (c : C) :
  cache_ok c →
  match obtain_and_fork m recipe c with
  | None => True
  | Some (Ok forked, c') => cache_ok c' ∧
      ∃ t c1, template_for t m recipe c1 ∧ template_fork t c1 = Some (Ok forked, c')
  | Some (Err p, c') => cache_ok c' ∧ status p = 500%N
  end.
Proof.
  intros Hc. unfold obtain_and_fork. destruct (obtain m recipe c) as [[[t|p] c1]|] eqn:Ho; [| |done].
  - pose proof (obtain_ok _ _ _ _ _ Hc Ho) as Hc1. pose proof (obtain_gives _ _ _ _ _ Hc Ho) as Ht.
    destruct (template_fork t c1) as [[[f|p] c2]|] eqn:Hf; [| |done];
      pose proof (fork_ok _ _ _ _ Hc1 Hf) as Hc2; [eauto|].
    pose proof (forget_ok m recipe _ Hc2) as Hc3.
    destruct (obtain m recipe (template_forget m recipe c2)) as [[[t'|p'] c4]|] eqn:Ho'; [| |done];
      pose proof (obtain_ok _ _ _ _ _ Hc3 Ho') as Hc4.
    + pose proof (obtain_gives _ _ _ _ _ Hc3 Ho') as Ht'.
      destruct (template_fork t' c4) as [[[f|p'] c5]|] eqn:Hf'; [| |done];
        pose proof (fork_ok _ _ _ _ Hc4 Hf') as Hc5; [eauto|].
      split; [done|]. by apply (fork_problem _ _ _ _ Hf').
    + split; [done|]. by apply (obtain_problem _ _ _ _ _ Ho').
  - split; [by eapply obtain_ok|]. by eapply obtain_problem.
Qed.

Lemma get_insert a e r id :
  get id (insert_entry a e r) =
    if decide (id = en_id e) then Some (a, e)
    else match entries r !! id with
         | Some a' => if decide (a' = a) then Some (a, e) else get id r
         | None => None
         end.
Proof.
  unfold get, insert_entry. simpl. destruct (decide (id = en_id e)) as [->|Hne].
  - rewrite lookup_insert_eq. simpl. by rewrite lookup_insert_eq.
  - rewrite lookup_insert_ne by done. destruct (entries r !! id) as [a'|]; [|done]. simpl.
    destruct (decide (a' = a)) as [->|Hne']; [by rewrite lookup_insert_eq|by rewrite lookup_insert_ne].
Qed.

Lemma get_insert_fresh e r id :
  registry_ok r →
  get id (insert_entry (fresh_entry r) e r) =
    if decide (id = en_id e) then Some (fresh_entry r, e) else get id r.
Proof.
  intros Hok. rewrite get_insert. destruct (decide (id = en_id e)); [done|].
  unfold get. destruct (entries r !! id) as [a|] eqn:Ha; [|done]. simpl.
  destruct (decide (a = fresh_entry r)) as [->|]; [|done].
  destruct (ok_entry _ Hok _ _ Ha) as (x & Hx & _).
  pose proof (is_fresh (dom (store r) : gset nat)) as Hf. change (fresh _) with (fresh_entry r) in Hf.
  apply not_elem_of_dom in Hf. congruence.
Qed.

(** C24: creating an instance.  Whatever the request, and whatever the
    templates do within their promises: [create_instance] waits only for a
    template; a problem has one of the documented statuses and leaves the
    registered instances as they were; success is a 201 with the instance's
    URL and its description, for the service the request selects and a recipe
    only if the service takes one, under a lease of the requested time or five
    minutes, between a second and a day; the instance is forked off a template
    of that service and recipe, has its endpoint, and is registered, the
    others untouched. *)
Theorem create_instance_outcome peer body w (app : App C) :
  cache_ok (cache app) → registry_ok (registry app) →
  match create_instance peer body w app with
  | None => ∃ m recipe, obtain_and_fork m recipe (cache app) = None
  | Some (Err p, app') => registry app' = registry app ∧ status p ∈ documented
  | Some (Ok (code, location, inst), app') =>
      ∃ m recipe ttl host e t c,
        accepted app peer body w m recipe ttl (i_id inst) ∧
        template_for t m recipe c ∧ template_fork t c = Some (Ok (host, e), cache app') ∧
        code = 201%N ∧ location = "/v1/instances/" +:+ i_id inst ∧
        let entry := mkEntry (i_id inst) (name (service m)) (version (service m)) e
                       (mkLease ttl (me_adopt w + ttl)) GuestRunning in
        inst = describe (me_describe w) entry ∧
        ∀ id, snd <$> get id (registry app') =
          if decide (id = i_id inst) then Some entry else snd <$> get id (registry app)
  end.
Proof.
  intros Hc Hr. unfold Serve.create_instance. pose proof (validate_spec app peer body w) as Hv.
  destruct (validate_request app peer body w) as [[[[m recipe] ttl] id]|p]; [|done].
  pose proof (obtain_and_fork_laws m recipe _ Hc) as Hof.
  destruct (obtain_and_fork m recipe (cache app)) as [[[[host e]|p] c']|] eqn:Ho; [| |eauto].
  - destruct Hof as (_ & t & c1 & Ht & Hf). unfold adopt.
    destruct (me_watcher w) as [[]|err]; [|split; [done|set_solver]]. simpl.
    exists m, recipe, ttl, host, e, t, c1. split_and!; try done.
    intros id'. rewrite (get_insert_fresh _ _ _ Hr). simpl. by destruct (decide (id' = id)).
  - destruct Hof as [_ Hp]. split; [done|]. rewrite Hp. set_solver.
Qed.

(** C27: recipe files are read only for the server's own user, and only from
    the roots.  A request that names recipe files and is accepted came from a
    peer with the server's uid, to a server with recipe roots, and gets the
    concatenation, at most 256 MiB, of regular files that lie under them; for
    any other peer the answer is a 400 or a 403 that does not depend on any
    file. *)
Theorem recipe_files_are_gated (app : App C) peer request reader :
  c_recipe_files request ≠ [] →
  (∀ recipe, recipe_bytes app peer request reader = Ok recipe →
     uid peer = Some geteuid ∧ root_dirs (recipe_roots app) ≠ [] ∧
     ∃ bytes files, recipe = Some bytes ∧
       Forall2 (readable open (recipe_roots app)) (c_recipe_files request) files ∧
       bytes = concat_files files [] ∧ (N.of_nat (length bytes) ≤ MAX_PAYLOAD_LEN)%N) ∧
  (uid peer ≠ Some geteuid →
     ∃ p, (status p = 400 ∨ status p = 403)%N ∧
       ∀ open' : path → result OpenFile string,
         Serve.recipe_bytes base64_decode open' geteuid app peer request reader = Err p).
Proof.
  intros Hne. unfold Serve.recipe_bytes.
  destruct (c_recipe_files request) as [|f fs]; [done|]. split.
  - intros recipe. destruct (c_recipe request) as [r|]; [done|].
    destruct (roots_is_empty (recipe_roots app)) eqn:He; [done|].
    destruct (negb (bool_decide (uid peer = Some geteuid))) eqn:Hu; [done|]. simp_bool.
    destruct reader; [|done].
    destruct (read open (recipe_roots app) (f :: fs) MAX_PAYLOAD_LEN) as [b|e] eqn:Hr; [|done].
    intros [= <-]. apply read_loop_sound in Hr as (files & HF & Hb & Hl); [|simpl; lia].
    split; [done|]. split; [|by exists b, files]. intros Hd. unfold roots_is_empty in He. by rewrite Hd in He.
  - intros Hu. destruct (c_recipe request) as [r|]; [eexists; split; [|done]; by left|].
    destruct (roots_is_empty (recipe_roots app)); [eexists; split; [|done]; by right|].
    rewrite (bool_decide_eq_false_2 _ Hu). eexists. split; [|done]. by right.
Qed.

End answers.

Section held_instances.
Context {C : Type} (parse_renew : list byte → result RenewInstance string).
Notation renew_instance := (renew_instance parse_renew).

(** Deleting an instance.  [delete_instance] answers 204 exactly for a
    registered instance; afterwards the id is unknown to every handler (404),
    and every other instance is as it was; for an unknown id it changes
    nothing. *)
Theorem delete_instance_outcome id (app : App C) :
  match delete_instance id app with
  | (Ok code, app') =>
      code = 204%N ∧ is_Some (get id (registry app)) ∧
      (∀ now, get_instance id now app' = Err (unknown_instance id)) ∧
      (∀ now now', renew_instance id [] now now' app' = (Err (unknown_instance id), app')) ∧
      delete_instance id app' = (Err (unknown_instance id), app') ∧
      (∀ id', id' ≠ id → get id' (registry app') = get id' (registry app)) ∧
      cache app' = cache app
  | (Err p, app') =>
      p = unknown_instance id ∧ get id (registry app) = None ∧
      ∀ id', get id' (registry app') = get id' (registry app)
  end.
Proof.
  unfold delete_instance, Instances.remove.
  assert (∀ id', get id' (mkRegistry (store (registry app)) (delete id (entries (registry app)))) =
    if decide (id' = id) then None else get id' (registry app)) as Hget.
  { intros id'. unfold get. simpl. destruct (decide (id' = id)) as [->|Hne].
    - by rewrite lookup_delete_eq.
    - by rewrite lookup_delete_ne. }
  destruct (get id (registry app)) as [x|] eqn:Hx.
  - assert (get id (mkRegistry (store (registry app)) (delete id (entries (registry app)))) = None) as Hno
      by by rewrite Hget, decide_True.
    split_and!; try done.
    + intros now. unfold get_instance. simpl. by rewrite Hno.
    + intros now now'. unfold Serve.renew_instance. simpl. by rewrite Hno.
    + simpl. rewrite Hno. unfold set_registry. simpl. by rewrite delete_delete_eq.
    + intros id' Hne. simpl. by rewrite Hget, decide_False.
  - split_and!; try done. intros id'. simpl. rewrite Hget.
    by destruct (decide (id' = id)) as [->|].
Qed.

(** Renewing an instance.  A problem (400, 404 or 409) changes nothing;
    success restarts the lease of a running instance at the time of the
    renewal, for the requested time or, without one, for the time it had, and
    answers with the renewed instance; its other fields and every other
    instance are as they were. *)
Theorem renew_instance_outcome id body now now' (app : App C) :
  registry_ok (registry app) →
  match renew_instance id body now now' app with
  | (Err p, app') => app' = app ∧ status p ∈ [400; 404; 409]%N
  | (Ok inst, app') =>
      ∃ a e ttl,
        get id (registry app) = Some (a, e) ∧ en_state e = GuestRunning ∧
        (ttl = l_ttl (en_lease e) ∨ from_secs 1 <= ttl <= from_secs MAX_TTL_SECONDS)%N ∧
        let e' := mkEntry id (en_service e) (en_version e) (en_endpoint e)
                    (mkLease ttl (now + ttl)) GuestRunning in
        inst = describe now' e' ∧
        ∀ id', get id' (registry app') =
          if decide (id' = id) then Some (a, e') else get id' (registry app)
  end.
Proof.
  intros Hok. unfold Serve.renew_instance.
  destruct (if bool_decide (body = []) then _ else _) as [request|p] eqn:Hreq.
  2:{ revert Hreq. case_bool_decide; [done|]. destruct (parse_renew body); [done|].
      intros [= <-]. split; [done|set_solver]. }
  pose proof (ttl_duration_spec (r_ttl_seconds request)) as Httl.
  destruct (ttl_duration (r_ttl_seconds request)) as [ttl|p]; [|split; [done|set_solver]].
  destruct (get id (registry app)) as [[a e]|] eqn:Hg; [|split; [done|set_solver]].
  destruct (negb _) eqn:Hst; [split; [done|set_solver]|]. simp_bool.
  apply get_entry in Hg as [Hid He]. destruct (ok_entry _ Hok _ _ Hid) as (e0 & He0 & Hide).
  assert (e0 = e) as -> by congruence.
  exists a, e, (default (l_ttl (en_lease e)) ttl). split_and!; try done.
  - destruct ttl as [t|]; [right; exact Httl|by left].
  - unfold renew. by rewrite Hide, Hst.
  - intros id'. unfold get. simpl. destruct (decide (id' = id)) as [->|Hne].
    + rewrite Hid. simpl. rewrite lookup_alter_eq, He. simpl. unfold renew. by rewrite Hide, Hst.
    + destruct (entries (registry app) !! id') as [a'|] eqn:Hid'; [|done]. simpl.
      rewrite lookup_alter_ne; [done|]. intros ->.
      destruct (ok_entry _ Hok _ _ Hid') as (e1 & He1 & Hide1). congruence.
Qed.
End held_instances.

(** ** Ids *)

Lemma hex_of_bytes_inj a b : hex_of_bytes a = hex_of_bytes b → a = b.
Proof.
  revert b. induction a as [|x a IH]; intros [|y b]; try done. intros [= H1 H2 H3].
  pose proof (Byte.to_N_bounded x). pose proof (Byte.to_N_bounded y).
  apply hex_digit_inj in H1; [|apply N.Div0.div_lt_upper_bound; lia..].
  apply hex_digit_inj in H2; [|apply N.mod_lt; lia..].
  rewrite (IH b H3). f_equal. apply byte_to_N_inj.
  rewrite (N.div_mod (Byte.to_N x) 16), (N.div_mod (Byte.to_N y) 16) by lia. by rewrite H1, H2.
Qed.

(** An id is sixteen characters, and no two draws of /dev/urandom share
    one: eight bytes always give an id, and distinct bytes distinct ids. *)
Lemma new_id_distinct bytes bytes' :
  length bytes = 8%nat →
  (∃ id, new_id (Ok bytes) = Ok id ∧ String.length id = 16%nat) ∧
  (new_id (Ok bytes) = new_id (Ok bytes') → bytes = bytes').
Proof.
  intros Hl. split; [|intros [= H]; by apply hex_of_bytes_inj].
  exists (hex_of_bytes bytes). split; [done|].
  assert (∀ l, String.length (hex_of_bytes l) = 2 * length l)%nat as Hlen.
  { induction l as [|x l IH]; [done|].
    change (String.length (hex_of_bytes (x :: l))) with (S (S (String.length (hex_of_bytes l)))).
    simpl. lia. }
  rewrite Hlen. lia.
Qed.

(** A socket another server answers on is never taken: [claim_socket]
    fails and touches nothing then; it removes the socket only when it is there
    and stale, and creates a directory, for its owner alone, only when the
    socket's is missing. *)
Lemma claim_socket_spares_a_live_server w socket :
  match claim_socket w socket with
  | (r, effects) =>
      (so_exists w socket = true → so_answers w = true → is_ok r = false ∧ effects = []) ∧
      (RemovedSocket ∈ effects → so_exists w socket = true ∧ so_answers w = false) ∧
      (∀ dir mode, CreatedDir dir mode ∈ effects →
         parent socket = Some dir ∧ so_exists w dir = false ∧ mode = 448%N) ∧
      (is_ok r = true → so_exists w socket = true → RemovedSocket ∈ effects)
  end.
Proof.
  unfold claim_socket. destruct (so_exists w socket) eqn:He.
  - destruct (so_answers w) eqn:Ha; [split_and!; set_solver|].
    destruct (so_remove w); split_and!; set_solver.
  - destruct (parent socket) as [dir|] eqn:Hp; [|split_and!; set_solver].
    destruct (negb (bool_decide (dir = "")) && negb (so_exists w dir)) eqn:Hd;
      [|split_and!; set_solver]. simp_bool.
    destruct (so_create w dir); split_and!; set_solver.
Qed.

(** ** The server over time

    What the server's threads do, interleaved.  A renewal takes the entry from
    the registry, then checks and renews it, and another thread may run in
    between. *)

Record Server : Type := mkServer {
  sv_registry : Registry;
  sv_now : N;
  (** Renewals that hold their entry, by handler. *)
  sv_renewing : gmap nat (nat * option N);
}.
Definition server_start : Server := mkServer registry_default 0 ∅.

Inductive op : Type :=
  | OpCreate (id service version : string) (endpoint : SocketAddr) (ttl : N)
  | OpDelete (id : string)
  | OpRenewGet (handler : nat) (id : string) (ttl : option N)
  | OpRenew (handler : nat)
  | OpSweep
  | OpExit (a : nat) (status : option Z)
  | OpTick (d : N)
  | OpShutDown.

Definition set_state (state : GuestState) (e : Entry) : Entry :=
  mkEntry (en_id e) (en_service e) (en_version e) (en_endpoint e) (en_lease e) state.
Definition renew_running (ttl : option N) (now : N) (e : Entry) : Entry :=
  if bool_decide (en_state e = GuestRunning) then renew ttl now e else e.

Definition set_reg (s : Server) (r : Registry) : Server := mkServer r (sv_now s) (sv_renewing s).

Definition apply (o : op) (s : Server) : Server :=
  let r := sv_registry s in
  match o with
  | OpCreate id service version endpoint ttl =>
      set_reg s (insert_entry (fresh_entry r)
        (mkEntry id service version endpoint (mkLease ttl (sv_now s + ttl)) GuestRunning) r)
  | OpDelete id => set_reg s (Instances.remove id r).2
  | OpRenewGet h id ttl =>
      match get id r with
      | Some (a, _) => mkServer r (sv_now s) (<[h := (a, ttl)]> (sv_renewing s))
      | None => s
      end
  | OpRenew h =>
      match sv_renewing s !! h with
      | Some (a, ttl) =>
          mkServer (update_entry a (renew_running ttl (sv_now s)) r) (sv_now s)
            (delete h (sv_renewing s))
      | None => s
      end
  | OpSweep => set_reg s (remove_expired (sv_now s) r).2
  | OpExit a status => set_reg s (update_entry a (set_state (GuestExited status)) r)
  | OpTick d => mkServer r (sv_now s + d) (sv_renewing s)
  | OpShutDown => set_reg s (registry_clear r)
  end.
Definition run (ops : list op) (s : Server) : Server := foldl (λ s o, apply o s) s ops.

(** What holds of every reachable server. *)
Record server_ok (s : Server) : Prop := mkServerOk {
  sv_registry_ok : registry_ok (sv_registry s);
  sv_leases a e : store (sv_registry s) !! a = Some e →
    (l_expires_at (en_lease e) <= sv_now s + l_ttl (en_lease e))%N;
  sv_held h a ttl : sv_renewing s !! h = Some (a, ttl) → is_Some (store (sv_registry s) !! a);
}.

Lemma server_ok_start : server_ok server_start.
Proof. split; [apply registry_ok_default|..]; intros *; simpl; by rewrite lookup_empty. Qed.

Lemma fresh_entry_ok r : store r !! fresh_entry r = None.
Proof. apply not_elem_of_dom. exact (is_fresh (dom (store r) : gset nat)). Qed.

Lemma remove_expired_sub now r :
  registry_ok r → store (remove_expired now r).2 = store r ∧ entries (remove_expired now r).2 ⊆ entries r.
Proof.
  intros Hok. unfold remove_expired. set (ids := map _ _). clearbody ids. revert r Hok.
  induction ids as [|id ids IH]; intros r Hok; simpl; [done|].
  specialize (IH (mkRegistry (store r) (delete id (entries r)))).
  destruct (remove_all ids _) as [xs r']. simpl in *. destruct IH as [Hs He].
  { apply registry_ok_subset; [done|apply delete_subseteq]. }
  split; [done|]. etrans; [exact He|apply delete_subseteq].
Qed.

Lemma update_lookup a f r a' e' :
  store (update_entry a f r) !! a' = Some e' →
  ∃ e, store r !! a' = Some e ∧ e' = if decide (a = a') then f e else e.
Proof.
  simpl. destruct (decide (a = a')) as [->|Hne].
  - rewrite lookup_alter_eq. destruct (store r !! a') as [e|]; [|done]. intros [= <-]. by exists e.
  - rewrite lookup_alter_ne by done. eauto.
Qed.

Lemma update_is_Some a f r a' : is_Some (store r !! a') → is_Some (store (update_entry a f r) !! a').
Proof.
  intros [e He]. simpl. destruct (decide (a = a')) as [->|Hne].
  - rewrite lookup_alter_eq, He. by eexists.
  - rewrite lookup_alter_ne, He by done. by eexists.
Qed.

(** Updates of an entry that keep its id and its lease within bounds. *)
Lemma server_ok_update s a f m :
  server_ok s → (∀ e, en_id (f e) = en_id e) →
  (∀ e, l_expires_at (en_lease e) <= sv_now s + l_ttl (en_lease e) →
     l_expires_at (en_lease (f e)) <= sv_now s + l_ttl (en_lease (f e)))%N →
  m ⊆ sv_renewing s →
  server_ok (mkServer (update_entry a f (sv_registry s)) (sv_now s) m).
Proof.
  intros [H1 H2 H3] Hid Hl Hm. split; [by apply registry_ok_update| |].
  - intros a' e' (e & He & ->)%update_lookup. destruct (decide (a = a')); [apply Hl|]; by eapply H2.
  - intros h a' ttl Hh. apply update_is_Some. eapply H3. by eapply lookup_weaken.
Qed.

(** Removing ids. *)
Lemma server_ok_subset s r :
  server_ok s → store r = store (sv_registry s) → entries r ⊆ entries (sv_registry s) →
  server_ok (set_reg s r).
Proof.
  intros [H1 H2 H3] Hs He. split; simpl; rewrite ?Hs; [|done|done].
  destruct r as [st es]. simpl in *. subst st. by apply registry_ok_subset.
Qed.

Lemma apply_ok o s : server_ok s → server_ok (apply o s).
Proof.
  intros Hok. pose proof Hok as [H1 H2 H3]. destruct o as [id sn v ep ttl|id|h id ttl|h| |a st|d|]; simpl.
  - pose proof (fresh_entry_ok (sv_registry s)) as Hf. split; simpl.
    + by apply registry_ok_insert.
    + intros a e Ha. apply lookup_insert_Some in Ha as [[_ <-]|[_ Ha]]; [simpl; lia|by eapply H2].
    + intros h a t Hh. destruct (H3 _ _ _ Hh) as [e He]. exists e.
      rewrite lookup_insert_ne; [done|congruence].
  - apply server_ok_subset; [done|done|apply delete_subseteq].
  - destruct (get id (sv_registry s)) as [[a e]|] eqn:Hg; [|done]. apply get_entry in Hg as [_ He].
    split; [done|done|]. simpl. intros h' a' t' Hh.
    apply lookup_insert_Some in Hh as [[_ [= <- _]]|[_ Hh]]; [by eexists|by eapply H3].
  - destruct (sv_renewing s !! h) as [[a ttl]|]; [|done].
    apply server_ok_update; [done|..|apply delete_subseteq]; unfold renew_running, renew;
      intros e; destruct (bool_decide _); simpl; try done; lia.
  - apply server_ok_subset; [done|by apply remove_expired_sub..].
  - by apply server_ok_update.
  - split; simpl; [done| |done]. intros a e Ha. specialize (H2 _ _ Ha). lia.
  - apply server_ok_subset; [done|done|apply map_empty_subseteq].
Qed.

Lemma run_ok ops s : server_ok s → server_ok (run ops s).
Proof. revert s. induction ops as [|o ops IH]; intros s Hs; [done|]. apply IH. by apply apply_ok. Qed.

Lemma apply_now o s : (sv_now s <= sv_now (apply o s))%N.
Proof. destruct o; simpl; repeat case_match; simpl; lia. Qed.

Lemma run_now ops s : (sv_now s <= sv_now (run ops s))%N.
Proof.
  revert s. induction ops as [|o ops IH]; intros s; [simpl; lia|].
  etrans; [apply (apply_now o)|apply (IH (apply o s))].
Qed.

(** What may happen to an instance without ending it early: no deletion, no
    second instance of its id, and no renewal for less than [ttl]. *)
Definition gentle (id : string) (ttl : N) (o : op) : Prop :=
  match o with
  | OpCreate id' _ _ _ _ | OpDelete id' => id' ≠ id
  | OpRenewGet _ id' (Some t) => id' = id → (ttl <= t)%N
  | OpShutDown => False
  | _ => True
  end.

(** The instance is held, with at least the lease it had. *)
Record kept_lease (id : string) (a : nat) (ttl expires now : N) (s : Server) : Prop := mkKept {
  kl_entry : entries (sv_registry s) !! id = Some a;
  kl_lease : ∃ e, store (sv_registry s) !! a = Some e ∧ (ttl <= l_ttl (en_lease e))%N ∧
    (expires <= l_expires_at (en_lease e))%N;
  kl_now : (now <= sv_now s)%N;
  kl_renewals h t : sv_renewing s !! h = Some (a, Some t) → (ttl <= t)%N;
}.

Lemma apply_kept id a ttl expires now o s :
  server_ok s → (expires <= now + ttl)%N → kept_lease id a ttl expires now s → gentle id ttl o →
  (sv_now s < expires)%N → kept_lease id a ttl expires now (apply o s).
Proof.
  intros Hok Hb [K1 K2 K3 K4] Hg Hlt. pose proof Hok as [H1 _ _].
  destruct o as [id' sn v ep ttl'|id'|h id' ttl'|h| |a' st|d|]; simpl in *.
  - destruct K2 as (e & He & Hl). pose proof (fresh_entry_ok (sv_registry s)) as Hf.
    split; simpl; [by rewrite lookup_insert_ne| |done|done].
    exists e. rewrite lookup_insert_ne; [done|congruence].
  - split; simpl; [by rewrite lookup_delete_ne|done..].
  - destruct (get id' (sv_registry s)) as [[a' e']|] eqn:Hget; [|by split].
    split; simpl; try done. intros h' t Hh. apply lookup_insert_Some in Hh as [[_ [= -> ->]]|[_ Hh]]; [|by eapply K4].
    apply Hg. apply get_entry in Hget as [Hid' He'].
    destruct (ok_entry _ H1 _ _ Hid') as (x & Hx & <-). destruct (ok_entry _ H1 _ _ K1) as (y & Hy & <-).
    congruence.
  - destruct (sv_renewing s !! h) as [[a' ttl']|] eqn:Hh; [|by split].
    split; simpl; [done| |done|intros h' t [_ Hh']%lookup_delete_Some; by eapply K4].
    destruct K2 as (e & He & Hl1 & Hl2). destruct (decide (a' = a)) as [->|Hne].
    + rewrite lookup_alter_eq, He. eexists. split; [done|]. unfold renew_running, renew.
      destruct (bool_decide _); [|done]. simpl. destruct ttl' as [t|]; simpl.
      * pose proof (K4 _ _ Hh). lia.
      * lia.
    + exists e. by rewrite lookup_alter_ne.
  - destruct (remove_expired_sub (sv_now s) _ H1) as [Hs _]. split; simpl; try done.
    + destruct K2 as (e & He & Hl1 & Hl2). pose proof (sweep_keeps (sv_now s) (sv_registry s) id a e H1) as Hk.
      apply Hk; [by apply get_entry|lia].
    + by rewrite Hs.
  - split; simpl; try done. destruct K2 as (e & He & Hl). destruct (decide (a' = a)) as [->|Hne].
    + rewrite lookup_alter_eq, He. by eexists.
    + exists e. by rewrite lookup_alter_ne.
  - split; simpl; try done. lia.
  - done.
Qed.

Lemma run_kept id a ttl expires now ops s :
  server_ok s → (expires <= now + ttl)%N → kept_lease id a ttl expires now s →
  Forall (gentle id ttl) ops → (sv_now (run ops s) < expires)%N →
  kept_lease id a ttl expires now (run ops s).
Proof.
  intros Hok Hb Hk Hops. revert s Hok Hk.
  induction Hops as [|o ops Ho _ IH]; intros s Hok Hk Hnow; [done|].
  change (run (o :: ops) s) with (run ops (apply o s)) in *.
  pose proof (run_now ops (apply o s)). pose proof (apply_now o s).
  apply IH; [by apply apply_ok| |done]. apply apply_kept; try done. lia.
Qed.

(** A lease is honoured.  From any state the server reaches, and under any
    interleaving of creations, deletions of others, renewals in flight, guests
    exiting, sweeps and time passing, an instance is still registered, under its
    id and as the same entry, at any time before its lease runs out, unless it
    is deleted, its id is drawn again, it is renewed for a shorter time, or the
    server shuts down. *)
Theorem lease_is_honoured before ops id a e :
  let s := run before server_start in
  get id (sv_registry s) = Some (a, e) →
  Forall (gentle id (l_ttl (en_lease e))) ops →
  (∀ h t, sv_renewing s !! h = Some (a, Some t) → (l_ttl (en_lease e) <= t)%N) →
  (sv_now (run ops s) < l_expires_at (en_lease e))%N →
  entries (sv_registry (run ops s)) !! id = Some a.
Proof.
  intros s Hg Hops Hren Hnow. pose proof (run_ok before _ server_ok_start : server_ok s) as Hok.
  apply get_entry in Hg as [Hid He].
  set (ttl := l_ttl (en_lease e)) in *. set (ex := l_expires_at (en_lease e)) in *.
  assert (ex <= sv_now s + ttl)%N as Hb by by eapply sv_leases.
  assert (kept_lease id a ttl ex (sv_now s) s) as Hk.
  { split; [done| |lia|done]. exists e. split_and!; [done|unfold ttl; lia|unfold ex; lia]. }
  by apply (kl_entry _ _ ttl ex (sv_now s)), run_kept.
Qed.

(** An instance whose lease has run out goes with the next sweep: from any
    state the server reaches, a sweep leaves registered only leases that run
    on, and keeps each of those. *)
Theorem sweep_ends_expired_leases before id a e :
  let s := run before server_start in
  let s' := apply OpSweep s in
  get id (sv_registry s') = Some (a, e) ↔
    get id (sv_registry s) = Some (a, e) ∧ (sv_now s < l_expires_at (en_lease e))%N.
Proof.
  intros s s'. pose proof (run_ok before _ server_ok_start : server_ok s) as [Hok _ _].
  pose proof (remove_expired_spec (sv_now s) _ Hok) as Hspec. unfold s'. simpl.
  destruct (remove_expired (sv_now s) (sv_registry s)) as [gone r']. by destruct Hspec as (_ & Hget & _).
Qed.

(** A renewal that loses a race with the sweeper is still answered with
    the new lease: the server can reach a state in which a renewal of a running
    instance ends, its entry's lease running for the requested day, while the id
    is no longer registered, so the instance is about to be stopped. *)
Lemma renewal_may_come_too_late :
  ∃ before h a e,
    let s := run before server_start in
    let s' := apply (OpRenew h) s in
    sv_renewing s !! h = Some (a, Some (from_secs MAX_TTL_SECONDS)) ∧
    store (sv_registry s') !! a = Some e ∧ en_state e = GuestRunning ∧
    i_expires_in_seconds (describe (sv_now s') e) = MAX_TTL_SECONDS ∧
    entries (sv_registry s') !! en_id e = None.
Proof.
  exists [OpCreate "a1" "redis" "8" (mkAddr "127.0.0.1" 4000) (from_secs 1); OpTick (from_secs 1);
          OpRenewGet 0 "a1" (Some (from_secs MAX_TTL_SECONDS)); OpSweep], 0%nat, 0%nat,
    (mkEntry "a1" "redis" "8" (mkAddr "127.0.0.1" 4000)
       (mkLease (from_secs MAX_TTL_SECONDS) (from_secs 86401)) GuestRunning).
  vm_compute. by split_and!.
Qed.

Module ServeWitness.
Import ObtainWitness.
#[local] Existing Instance cache_laws.
#[local] Instance ops : TemplateOps Cache nat := cache_ops parse sha 300.
#[local] Instance laws : TemplateLaws Cache nat := cache_laws parse sha 300.

Definition index : ServiceIndex := mkIndex [(("redis", "8"), mkDiscovered service0 [])].
Definition app0 : App Cache := mkApp index registry_default world (mkRoots ["/r"]).
Definition asked : CreateInstance := mkCreate "redis" None None [] (Some 60%N).
Definition asked_files : CreateInstance := mkCreate "redis" None None ["/r/a.sql"; "/r/b.sql"] None.
Definition serde (_ : list byte) : result CreateInstance string := Ok asked.
Definition serde_renew (_ : list byte) : result RenewInstance string := Ok default_renew.
Definition base64 (_ : string) : result (list byte) string := Err "Invalid padding".
Definition eight : list byte := [x00; x11; x22; x33; x44; x55; x66; xff].
Definition meets : Meets := mkMeets true (Ok eight) (Ok tt) 5 7.
Definition answer : option (result (N * string * Instance_) Problem * App Cache) :=
  create_instance serde base64 RecipesWitness.demo_open 1000 (mkPeer None) [] meets app0.

(** The request is answered, and the instance registered. *)
Lemma create_witness :
  ∃ code location inst app', answer = Some (Ok (code, location, inst), app') ∧ code = 201%N ∧
    is_Some (snd <$> get (i_id inst) (registry app')).
Proof.
  pose proof (create_instance_outcome serde base64 RecipesWitness.demo_open 1000
    (mkPeer None) [] meets app0 keyed_init registry_ok_default) as H. fold answer in H.
  destruct answer as [[[[[code location] inst]|p] app']|] eqn:E.
  - destruct H as (m & recipe & ttl & host & e & t & c & _ & _ & _ & Hc & _ & _ & Hget).
    exists code, location, inst, app'. split; [reflexivity|]. split; [exact Hc|].
    rewrite Hget, decide_True by reflexivity. eexists. reflexivity.
  - vm_compute in E. discriminate E.
  - vm_compute in E. discriminate E.
Defined.

Definition app1 : App Cache :=
  set_registry app0 (insert_entry 0 (InstancesWitness.entry "a1" 300) registry_default).

Lemma gate_witness :
  ∃ p, (status p = 400 ∨ status p = 403)%N ∧ ∀ open',
    recipe_bytes base64 open' 1000 app0 (mkPeer (Some 1001%N)) asked_files true = Err p.
Proof.
  apply (proj2 (recipe_files_are_gated base64 RecipesWitness.demo_open 1000 app0
    (mkPeer (Some 1001%N)) asked_files true ltac:(discriminate))). discriminate.
Defined.

Lemma renew_witness :
  get "a1" (registry (renew_instance serde_renew "a1" [] 100 101 app1).2) =
    Some (0%nat, mkEntry "a1" "redis" "8" (mkAddr "127.0.0.1" 4000) (mkLease 300 400) GuestRunning).
Proof.
  pose proof (renew_instance_outcome serde_renew "a1" [] 100
    101 app1 (registry_ok_insert 0 _ _ registry_ok_default eq_refl)) as H.
  destruct (renew_instance serde_renew "a1" [] 100 101 app1) as [[inst|p] app'] eqn:E.
  - destruct H as (a & e & ttl & Hg & _ & _ & _ & Hget). vm_compute in E.
    injection E as _ <-. reflexivity.
  - vm_compute in E. discriminate E.
Defined.

Definition ep : SocketAddr := mkAddr "127.0.0.1" 4000.
Definition past : list op := [OpCreate "a1" "redis" "8" ep 300; OpTick 100].
Definition future : list op :=
  [OpCreate "b2" "redis" "8" ep 10; OpTick 50; OpRenewGet 0 "a1" None; OpSweep; OpRenew 0;
   OpTick 149; OpSweep; OpDelete "b2"].
Lemma lease_witness :
  entries (sv_registry (run future (run past server_start))) !! "a1" = Some 0%nat.
Proof.
  apply (lease_is_honoured past future "a1" 0%nat (InstancesWitness.entry "a1" 300)).
  - reflexivity.
  - repeat constructor; simpl; try discriminate; done.
  - intros h t Hh. vm_compute in Hh. discriminate Hh.
  - vm_compute. reflexivity.
Defined.
End ServeWitness.
