(* ===== verification/World.v ===== *)
(** * The cache, the registry and the processes together

    Templates.v interleaves the requests on the template cache and knows which
    processes run; Serve.v interleaves the handlers' operations on the registry
    and knows the leases.  Here they are one system: an instance's process is
    forked by a request, adopted under an entry's address, stopped once nothing
    holds the entry (the write end of its stop pipe is dropped with it,
    serve/instances.rs), or exits by itself.  The steps of both may come in any
    order, those in which a fork fails, a template is forgotten or a host dies
    among them; what has gone wrong is recorded, to say whom it may concern. *)

From S2P Require Import Prelude Net Protocol Api Templates Instances Serve.
From stdpp Require Import fin_maps.

Record World : Type := mkWorld {
  w_cache : St;
  w_server : Server;
  (** The process adopted under an entry's address. *)
  w_process : gmap nat nat;
  (** The processes whose guest has exited by itself. *)
  w_exited : gset nat;
  (** The slots that were forgotten, the templates that failed. *)
  w_forgotten : gset nat;
  w_failed : gset nat;
}.
Definition world_start : World := mkWorld init server_start ∅ ∅ ∅ ∅.

(** Something keeps the entry: the registry, or a renewal under way. *)
Definition kept_entry (s : Server) (a : nat) : Prop :=
  (∃ id, entries (sv_registry s) !! id = Some a) ∨
  (∃ h ttl, sv_renewing s !! h = Some (a, ttl)).

Definition is_create (o : op) : bool :=
  match o with OpCreate _ _ _ _ _ => true | _ => false end.

(** The templates that failed after a step. *)
Definition failed (D : gset nat) (l : label) : gset nat :=
  match fails l with Some t => {[t]} ∪ D | None => D end.

(** What a step does to the registry. *)
Inductive world_step : World → option op → World → Prop :=
  (** The cache, a request's fork included.  It ends no instance (the last two
      steps do), and gives a clone a number of its own. *)
  | w_cache_step st l st' s pr ex F D :
      step st l st' → (∀ n t, instances st !! n = Some t → instances st' !! n = Some t) →
      (∀ n, is_Some (instances st' !! n) → instances st !! n = None → n ∉ ex) →
      world_step (mkWorld st s pr ex F D) None
        (mkWorld st' s pr ex (forgotten F st l) (failed D l))
  (** [create_instance] adopts the clone it forked and registers it. *)
  | w_register st s pr ex F D n id service version endpoint ttl :
      is_Some (instances st !! n) ∨ n ∈ ex → (∀ a, pr !! a ≠ Some n) →
      world_step (mkWorld st s pr ex F D) (Some (OpCreate id service version endpoint ttl))
        (mkWorld st (Serve.apply (OpCreate id service version endpoint ttl) s)
           (<[fresh_entry (sv_registry s) := n]> pr) ex F D)
  (** Any other operation on the registry; an exit may be recorded at any time. *)
  | w_operate st s pr ex F D o :
      is_create o = false →
      world_step (mkWorld st s pr ex F D) (Some o) (mkWorld st (Serve.apply o s) pr ex F D)
  (** A process nothing keeps is stopped. *)
  | w_stop st s pr ex F D n :
      (∀ a, pr !! a = Some n → ¬ kept_entry s a) →
      world_step (mkWorld st s pr ex F D) None
        (mkWorld (set_instances st (delete n (instances st))) s pr ex F D)
  (** A guest exits. *)
  | w_guest_exits st s pr ex F D n :
      world_step (mkWorld st s pr ex F D) None
        (mkWorld (set_instances st (delete n (instances st))) s pr ({[n]} ∪ ex) F D).

Definition world_any (w w' : World) : Prop := ∃ o, world_step w o w'.

(** A step that leaves the lease on [id] to run its time. *)
Definition world_gentle (id : string) (ttl : N) (w w' : World) : Prop :=
  ∃ o, world_step w o w' ∧ match o with Some o => gentle id ttl o | None => True end.

(** ** Invariant *)

(** Something went wrong with the template, or the slot it was brought up in
    was forgotten. *)
Definition hurt (F : gset nat) (D : gset nat) (st : St) (t : nat) : bool :=
  bool_decide (t ∈ D) ||
  match templates st !! t with Some x => bool_decide (t_slot x ∈ F) | None => false end.
(** So it did with a template a clone of [t] depends on. *)
Definition harmed (F : gset nat) (D : gset nat) (st : St) (t : nat) : bool :=
  hurt F D st t || match templates st !! t ≫= t_base with Some b => hurt F D st b | None => false end.

(** Every entry that is kept has its process, no two the same, and it is there
    unless its guest has exited; an instance is up unless its chain was harmed. *)
Record world_ok (w : World) : Prop := mkWorldOk {
  wo_cache : inv (w_forgotten w) (w_cache w);
  wo_server : server_ok (w_server w);
  wo_running n t : instances (w_cache w) !! n = Some t →
    up (w_cache w) t = true ∨ harmed (w_forgotten w) (w_failed w) (w_cache w) t = true;
  wo_stored a n : w_process w !! a = Some n → is_Some (store (sv_registry (w_server w)) !! a);
  wo_inj a a' n : w_process w !! a = Some n → w_process w !! a' = Some n → a = a';
  wo_there a : kept_entry (w_server w) a →
    ∃ n, w_process w !! a = Some n ∧ (n ∈ w_exited w ∨ is_Some (instances (w_cache w) !! n));
}.

Lemma world_ok_start : world_ok world_start.
Proof.
  split; simpl; [apply inv_init|apply server_ok_start|..].
  - intros n t Hn. by rewrite lookup_empty in Hn.
  - intros a n Ha. by rewrite lookup_empty in Ha.
  - intros a a' n Ha. by rewrite lookup_empty in Ha.
  - intros a [[id Hid]|(h & ttl & Hh)]; simpl in *; by rewrite lookup_empty in *.
Qed.

(** No operation but a creation makes something keep an entry nothing kept. *)
Lemma kept_apply o s a :
  server_ok s → is_create o = false → kept_entry (Serve.apply o s) a → kept_entry s a.
Proof.
  intros [Hok _ _] Hc. destruct o as [|id|h id ttl|h| |a' st|d|]; simpl in *; [done|..].
  - intros [[id' Hid]|Hr]; [|by right]. simpl in Hid. apply lookup_delete_Some in Hid as [_ Hid].
    left. by exists id'.
  - destruct (get id (sv_registry s)) as [[a' e]|] eqn:Hg; [|done].
    intros [Hid|(h' & t & Hh)]; [by left|]. simpl in Hh.
    apply lookup_insert_Some in Hh as [[_ [= -> _]]|[_ Hh]]; [|right; by exists h', t].
    apply get_entry in Hg as [Hg _]. left. by exists id.
  - destruct (sv_renewing s !! h) as [[a' ttl]|] eqn:Hh; [|done].
    intros [Hid|(h' & t & Hh')]; [by left|]. simpl in Hh'.
    apply lookup_delete_Some in Hh' as [_ Hh']. right. by exists h', t.
  - intros [[id Hid]|Hr]; [|by right]. simpl in Hid. left. exists id.
    eapply lookup_weaken; [exact Hid|]. by apply remove_expired_sub.
  - done.
  - done.
  - intros [[id Hid]|Hr]; [|by right]. simpl in Hid. by rewrite lookup_empty in Hid.
Qed.

(** Nor does one forget an entry's address. *)
Lemma stored_apply o s a :
  server_ok s → is_Some (store (sv_registry s) !! a) →
  is_Some (store (sv_registry (Serve.apply o s)) !! a).
Proof.
  intros [Hok _ _] [e He]. destruct o as [id sn v ep ttl|id|h id ttl|h| |a' st|d|]; simpl.
  - pose proof (fresh_entry_ok (sv_registry s)) as Hf. exists e.
    rewrite lookup_insert_ne; [done|congruence].
  - by exists e.
  - destruct (get _ _) as [[]|]; by exists e.
  - destruct (sv_renewing s !! h) as [[a' ttl]|]; [|by exists e]. apply update_is_Some. by exists e.
  - destruct (remove_expired_sub (sv_now s) _ Hok) as [-> _]. by exists e.
  - apply update_is_Some. by exists e.
  - by exists e.
  - by exists e.
Qed.

(** After an instance is gone. *)
Lemma world_ok_gone st s pr ex F D n ex' :
  world_ok (mkWorld st s pr ex F D) → ex ⊆ ex' →
  (∀ a, pr !! a = Some n → kept_entry s a → n ∈ ex') →
  world_ok (mkWorld (set_instances st (delete n (instances st))) s pr ex' F D).
Proof.
  intros [Hi Hs Hr Hst Hinj Hup] Hex Hn. split; simpl in *; try done.
  - by apply inv_instances.
  - intros m t [_ Hm]%lookup_delete_Some. by apply (Hr m t).
  - intros a Ha. destruct (Hup a Ha) as (m & Hm & Hc). exists m. split; [done|].
    destruct (decide (m = n)) as [->|Hne]; [left; by apply (Hn a)|].
    rewrite lookup_delete_ne by done. set_solver.
Qed.

(** A template keeps its key, its base and its slot. *)
Lemma step_template st l st' t x :
  step st l st' → templates st !! t = Some x →
  ∃ x', templates st' !! t = Some x' ∧ t_slot x' = t_slot x ∧ t_base x' = t_base x.
Proof.
  intros Hs Hx.
  assert (∀ t1, ∃ x', templates (stop_template st t1) !! t = Some x' ∧ t_slot x' = t_slot x ∧
    t_base x' = t_base x) as Hstop.
  { intros t1. unfold stop_template. destruct (templates st !! t1) as [y|] eqn:Hy; [|by exists x].
    simpl. destruct (decide (t1 = t)) as [->|Hne]; [|exists x; by rewrite lookup_insert_ne].
    rewrite lookup_insert_eq. eexists. split; [done|]. simplify_eq. done. }
  destruct Hs as [|st i r retry s c fresh st2 Hi Hf1 Hf2 Hf3 Hslot| | |st i r retry s c t1 Hi Ht1
    | | | | | | | | | | | |]; try (by exists x); try (simpl; by apply Hstop).
  - unfold slot in Hslot. destruct (slots st !! _); simplify_eq; by exists x.
  - exists x. simpl. rewrite lookup_insert_ne; [done|congruence].
Qed.

Lemma forgotten_sub F st l c : c ∈ F → c ∈ forgotten F st l.
Proof. destruct l as [| |k|]; simpl; try done. destruct (slots st !! k); set_solver. Qed.

Lemma hurt_step F D st l st' t :
  step st l st' → hurt F D st t = true → hurt (forgotten F st l) (failed D l) st' t = true.
Proof.
  intros Hs. unfold hurt. rewrite !orb_true_iff. intros [Hd|Hf].
  - left. apply bool_decide_eq_true in Hd. apply bool_decide_eq_true. unfold failed.
    destruct (fails l); set_solver.
  - right. destruct (templates st !! t) as [x|] eqn:Hx; [|done].
    destruct (step_template _ _ _ _ _ Hs Hx) as (x' & -> & -> & _).
    apply bool_decide_eq_true in Hf. apply bool_decide_eq_true. by apply forgotten_sub.
Qed.

Lemma harmed_step F D st l st' t :
  step st l st' → harmed F D st t = true → harmed (forgotten F st l) (failed D l) st' t = true.
Proof.
  intros Hs. unfold harmed. rewrite !orb_true_iff. intros [Ht|Hb]; [left; by eapply hurt_step|right].
  destruct (templates st !! t) as [x|] eqn:Hx; [|done].
  destruct (step_template _ _ _ _ _ Hs Hx) as (x' & -> & _ & Hbase). simpl in *. rewrite Hbase.
  destruct (t_base x) as [b|]; [|done]. by eapply hurt_step.
Qed.

Lemma chain_harmed F D st t t' : in_chain st t t' → hurt F D st t' = true → harmed F D st t = true.
Proof. unfold harmed, in_chain. intros [-> | ->] ->; [done|apply orb_true_r]. Qed.

Lemma not_harmed F D st t : harmed F D st t = false → remembered F st t.
Proof.
  intros Hh t' x Hc Hx HF. rewrite (chain_harmed F D st t t' Hc) in Hh; [done|].
  unfold hurt. rewrite Hx, (bool_decide_true (_ ∈ F)) by done. apply orb_true_r.
Qed.

(** A step that goes wrong with the chain harms it. *)
Lemma fails_harms F D st l st' t t' :
  step st l st' → fails l = Some t' → in_chain st t t' →
  harmed (forgotten F st l) (failed D l) st' t = true.
Proof.
  intros Hs Hl Hc. replace (failed D l) with (failed (failed D l) l)
    by (unfold failed; rewrite Hl; set_solver). apply (harmed_step _ _ st); [done|].
  apply (chain_harmed _ _ _ _ t'); [done|]. unfold hurt, failed. rewrite Hl.
  rewrite bool_decide_true; [done|set_solver].
Qed.

(** An instance is up after a step that spares it, or the step harms its chain. *)
Lemma step_harms F D st l st' n t :
  inv F st → step st l st' → instances st !! n = Some t → instances st' !! n = Some t →
  up st t = true ∨ harmed F D st t = true →
  up st' t = true ∨ harmed (forgotten F st l) (failed D l) st' t = true.
Proof.
  intros Hi Hs Hn Hn' [Hu|Hh]; [|right; by eapply harmed_step].
  destruct (harmed F D st t) eqn:Hh; [right; by eapply harmed_step|].
  assert (∀ t', fails l = Some t' → in_chain st t t' →
    up st' t = true ∨ harmed (forgotten F st l) (failed D l) st' t = true) as Hfail
    by (intros t' Hl Hc; right; by eapply fails_harms).
  destruct (fails l) as [t'|] eqn:Hl; [destruct (decide (in_chain st t t')); [by eapply Hfail|]|];
    (destruct (step_spares F _ _ _ n t Hi Hs Hn Hu (not_harmed _ _ _ _ Hh)) as [(t1 & Ht1 & ?)|?];
       [intros t1 Ht1; rewrite Hl in Ht1; by simplify_eq|left; congruence|congruence]).
Qed.

(** A new instance's template is up. *)
Lemma step_new_instance st l st' n t :
  step st l st' → instances st !! n = None → instances st' !! n = Some t → up st' t = true.
Proof.
  intros Hs Hold Hn.
  assert (∀ t1, instances (stop_template st t1) !! n = Some t → False) as Hstop
    by (intros t1; rewrite stop_instances; congruence).
  destruct Hs as [|st i r retry s c f st2 Hi Hf1 Hf2 Hf3 Hslot| | | | | |st i r retry t1 m Hi Hu Hm
    |st m| | | | | | | |]; simpl in *; try congruence; try (by destruct (Hstop _ Hn)).
  - unfold slot in Hslot. destruct (slots st !! _); simplify_eq/=; congruence.
  - apply lookup_insert_Some in Hn as [[-> ->]|[_ Hn]]; [done|congruence].
  - apply lookup_delete_Some in Hn as [_ Hn]. congruence.
Qed.

Lemma world_ok_cache st l st' s pr ex F D :
  step st l st' → (∀ n t, instances st !! n = Some t → instances st' !! n = Some t) →
  world_ok (mkWorld st s pr ex F D) → world_ok (mkWorld st' s pr ex (forgotten F st l) (failed D l)).
Proof.
  intros Hs Hkeep [Hi Hsv Hr Hst Hinj Hup]. split; simpl in *; try done.
  - by eapply step_keeps_inv.
  - intros n t Hn. destruct (instances st !! n) as [t0|] eqn:Hold.
    + pose proof (Hkeep _ _ Hold) as Hn0. rewrite Hn in Hn0. injection Hn0 as <-.
      eapply step_harms; eauto.
    + left. by eapply step_new_instance.
  - intros a Ha. destruct (Hup a Ha) as (n & Hn & [?|[t Ht]]); exists n; (split; [done|]); [by left|right].
    eauto.
Qed.

Lemma world_ok_register st s pr ex F D n id service version endpoint ttl :
  is_Some (instances st !! n) ∨ n ∈ ex → (∀ a, pr !! a ≠ Some n) →
  world_ok (mkWorld st s pr ex F D) →
  world_ok (mkWorld st (Serve.apply (OpCreate id service version endpoint ttl) s)
              (<[fresh_entry (sv_registry s) := n]> pr) ex F D).
Proof.
  intros Hn Hnew [Hi Hsv Hr Hst Hinj Hup]. pose proof (fresh_entry_ok (sv_registry s)) as Hf.
  assert (∀ a m, pr !! a = Some m → a ≠ fresh_entry (sv_registry s)) as Hne.
  { intros a m Ha ->. simpl in Hst. destruct (Hst _ _ Ha) as [e He]. congruence. }
  split; [done|by apply apply_ok|done|..]; cbn [w_process w_server w_exited w_cache] in *.
  - intros a m [[<- _]|[_ Ha]]%lookup_insert_Some; [simpl; by rewrite lookup_insert_eq|].
    apply stored_apply; [done|]. by eapply Hst.
  - intros a a' m [[<- <-]|[Ha1 Ha]]%lookup_insert_Some [[<- Hm]|[_ Ha']]%lookup_insert_Some.
    + done.
    + by destruct (Hnew a').
    + subst m. by destruct (Hnew a).
    + by eapply Hinj.
  - intros a Ha. destruct (decide (a = fresh_entry (sv_registry s))) as [->|Hna].
    + exists n. rewrite lookup_insert_eq. split; [done|]. by destruct Hn; [right|left].
    + assert (kept_entry s a) as Hk.
      { destruct Ha as [[id' Hid]|Hren]; [|by right]. simpl in Hid.
        apply lookup_insert_Some in Hid as [[_ ?]|[_ Hid]]; [done|]. left. by exists id'. }
      destruct (Hup a Hk) as (m & Hm & Hc). exists m. by rewrite lookup_insert_ne.
Qed.

Lemma world_ok_step w o w' : world_step w o w' → world_ok w → world_ok w'.
Proof.
  intros Hs Hok. destruct Hs as [st l st' s pr ex F D Hs Hkeep _|st s pr ex F D n id sn v ep ttl Hn Hnew
    |st s pr ex F D o Hc|st s pr ex F D n Hn|st s pr ex F D n].
  - by eapply world_ok_cache.
  - by apply world_ok_register.
  - destruct Hok as [Hi Hsv Hr Hst Hinj Hup]. split; simpl in *; try done.
    + by apply apply_ok.
    + intros a n Ha. apply stored_apply; [done|]. by eapply Hst.
    + intros a Ha. by apply Hup, (kept_apply o).
  - eapply world_ok_gone; [done|done|]. intros a Ha Hk. by destruct (Hn a Ha).
  - eapply world_ok_gone; [done|set_solver|]. set_solver.
Qed.

Lemma world_reachable w : rtc world_any world_start w → world_ok w.
Proof.
  intros Hr. apply (rtc_invariant world_any world_ok) in Hr; [done| |apply world_ok_start].
  intros x y [o Hs]. by eapply world_ok_step.
Qed.

(** ** A lease on a running instance *)

Lemma world_now id ttl w w' :
  rtc (world_gentle id ttl) w w' → (sv_now (w_server w) <= sv_now (w_server w'))%N.
Proof.
  induction 1 as [w|w w1 w' (o & Hs & _) _ IH]; [lia|]. etrans; [|exact IH].
  destruct Hs; cbn [w_server]; try lia; apply apply_now.
Qed.

(** A kept entry's process stays its own, and there unless its guest exits. *)
Lemma process_kept w o w' a n t :
  world_step w o w' → world_ok w → kept_entry (w_server w) a → w_process w !! a = Some n →
  n ∈ w_exited w ∨ instances (w_cache w) !! n = Some t →
  w_process w' !! a = Some n ∧ (n ∈ w_exited w' ∨ instances (w_cache w') !! n = Some t).
Proof.
  intros Hs Hok Hk Hp Hn. destruct Hok as [_ _ _ Hst _ _].
  destruct Hs as [st l st' s pr ex F D Hs Hkeep _|st s pr ex F D m id sn v ep ttl Hm Hnew
    |st s pr ex F D o Hc|st s pr ex F D m Hm|st s pr ex F D m]; simpl in *; try done.
  - split; [done|]. destruct Hn; [by left|right; by apply Hkeep].
  - split; [|done]. rewrite lookup_insert_ne; [done|]. intros <-.
    destruct (Hst _ _ Hp) as [e He]. by rewrite fresh_entry_ok in He.
  - split; [done|]. destruct Hn as [?|Hn]; [by left|right].
    rewrite lookup_delete_ne; [done|]. intros ->. by apply (Hm a).
  - split; [done|]. destruct (decide (m = n)) as [->|Hne]; [left; set_solver|].
    rewrite lookup_delete_ne by done. set_solver.
Qed.

(** An entry under its lease, with its process. *)
Record serving (id : string) (a : nat) (ttl expires now : N) (n t : nat) (w : World) : Prop := mkServing {
  sg_ok : world_ok w;
  sg_lease : kept_lease id a ttl expires now (w_server w);
  sg_process : w_process w !! a = Some n;
  sg_there : n ∈ w_exited w ∨ instances (w_cache w) !! n = Some t;
}.

Lemma serving_run id a ttl expires now n t w w' :
  rtc (world_gentle id ttl) w w' → (expires <= now + ttl)%N →
  serving id a ttl expires now n t w → (sv_now (w_server w') < expires)%N →
  serving id a ttl expires now n t w'.
Proof.
  intros Hr. induction Hr as [w|w w1 w' Hs Hr IH]; intros Hb Hk Hnow; [done|].
  pose proof (world_now _ _ _ _ Hr) as Hle. apply IH; [done| |done].
  pose proof (world_now id ttl _ _ (rtc_once _ _ Hs)) as Hle1.
  destruct Hs as (o & Hs & Hg), Hk as [Hok Hk Hp Hn].
  destruct (process_kept _ _ _ a n t Hs Hok) as [Hp' Hn']; [|done|done|].
  { left. exists id. by eapply kl_entry. }
  split; [by eapply world_ok_step| |done|done]. destruct Hok as [_ Hsv _ _ _ _].
  destruct Hs; cbn [w_server] in *; try done; (apply apply_kept; [done..|lia]).
Qed.

(** What [serving] says of an entry that was registered. *)
Lemma registered_serving w id a e n t :
  world_ok w → get id (sv_registry (w_server w)) = Some (a, e) →
  (∀ h t, sv_renewing (w_server w) !! h = Some (a, Some t) → (l_ttl (en_lease e) <= t)%N) →
  w_process w !! a = Some n → n ∈ w_exited w ∨ instances (w_cache w) !! n = Some t →
  serving id a (l_ttl (en_lease e)) (l_expires_at (en_lease e)) (sv_now (w_server w)) n t w ∧
  (l_expires_at (en_lease e) <= sv_now (w_server w) + l_ttl (en_lease e))%N.
Proof.
  intros Hok [Hid He]%get_entry Hren Hp Hn. split; [|eapply sv_leases; [apply Hok|exact He]].
  split; [done| |done|done]. split; [done| |lia|done]. exists e. by split_and!.
Qed.

Definition instance_runs (w : World) (n t : nat) : Prop :=
  n ∈ w_exited w ∨
  instances (w_cache w) !! n = Some t ∧
    (up (w_cache w) t = true ∨ harmed (w_forgotten w) (w_failed w) (w_cache w) t = true).

Lemma serving_runs id a ttl expires now n t w :
  serving id a ttl expires now n t w →
  entries (sv_registry (w_server w)) !! id = Some a ∧ w_process w !! a = Some n ∧ instance_runs w n t.
Proof.
  intros [Hok Hk Hp Hn]. split; [by eapply kl_entry|]. split; [done|].
  destruct Hn as [?|Hn]; [by left|right]. split; [done|]. by eapply wo_running.
Qed.

(** C13: A lease is a running instance.  In the whole manager, under any
    interleaving of requests filling, forking and pruning templates, owners
    expiring them, handlers creating, deleting and renewing, sweeps, stops, time
    passing, and forks failing and hosts dying elsewhere: a registered instance
    stays registered, with one process, and that and the template processes it
    depends on run, at any time before its lease runs out, unless it is deleted,
    its id drawn again, renewed for less, or the server shut down; or its own
    guest has exited; or one of the two templates it depends on was harmed: its
    host died, a fork off it failed, or the slot it was brought up in was
    forgotten. *)
Theorem lease_is_a_running_instance w w' id a e :
  rtc world_any world_start w →
  get id (sv_registry (w_server w)) = Some (a, e) →
  (∀ h t, sv_renewing (w_server w) !! h = Some (a, Some t) → (l_ttl (en_lease e) <= t)%N) →
  rtc (world_gentle id (l_ttl (en_lease e))) w w' →
  (sv_now (w_server w') < l_expires_at (en_lease e))%N →
  entries (sv_registry (w_server w')) !! id = Some a ∧
  ∃ n t, w_process w !! a = Some n ∧ w_process w' !! a = Some n ∧ instance_runs w' n t.
Proof.
  intros Hreach Hg Hren Hr Hnow. pose proof (world_reachable _ Hreach) as Hok.
  destruct (wo_there _ Hok a) as (n & Hn & Hc); [left; exists id; by apply get_entry in Hg as [? _]|].
  assert (∃ t, n ∈ w_exited w ∨ instances (w_cache w) !! n = Some t) as [t Ht]
    by (destruct Hc as [?|[t ?]]; [exists 0%nat|exists t]; auto).
  destruct (registered_serving w id a e n t) as [Hs Hb]; [done..|].
  pose proof (serving_run _ _ _ _ _ _ _ _ _ Hr Hb Hs Hnow) as (? & ? & ?)%serving_runs.
  split; [done|]. by exists n, t.
Qed.

(** ** And no longer than its lease *)

(** What nothing keeps is never kept again: its address is not used twice. *)
Lemma unkept_stays w o w' a :
  world_step w o w' → world_ok w → is_Some (store (sv_registry (w_server w)) !! a) →
  ¬ kept_entry (w_server w) a →
  is_Some (store (sv_registry (w_server w')) !! a) ∧ ¬ kept_entry (w_server w') a.
Proof.
  intros Hs [_ Hsv _ _ _ _] Ha Hk.
  destruct Hs as [|st s pr ex F D n id sn v ep ttl|st s pr ex F D o Hc| |]; cbn [w_server] in *; try done;
    (split; [by apply stored_apply|]); [|by intros ?%kept_apply].
  intros [[id' Hid]|Hr]; [|apply Hk; by right]. simpl in Hid.
  apply lookup_insert_Some in Hid as [[_ <-]|[_ Hid]]; [|apply Hk; left; by exists id'].
  destruct Ha as [e He]. by rewrite fresh_entry_ok in He.
Qed.

Lemma unkept_runs w w' a :
  rtc world_any w w' → world_ok w → is_Some (store (sv_registry (w_server w)) !! a) →
  ¬ kept_entry (w_server w) a → ¬ kept_entry (w_server w') a.
Proof.
  induction 1 as [|w w1 w' [o Hs] _ IH]; [done|]. intros Hok Ha Hk.
  destruct (unkept_stays _ _ _ _ Hs Hok Ha Hk). apply IH; [by eapply world_ok_step|done|done].
Qed.

(** An entry's process is its own for good. *)
Lemma process_stays w w' a n :
  rtc world_any w w' → world_ok w → w_process w !! a = Some n → w_process w' !! a = Some n.
Proof.
  induction 1 as [|w w1 w' [o Hs] _ IH]; [done|]. intros Hok Ha.
  apply IH; [by eapply world_ok_step|]. destruct Hok as [_ _ _ Hst _ _].
  destruct Hs as [|st s pr ex F D m id sn v ep ttl| | |]; simpl in *; try done.
  rewrite lookup_insert_ne; [done|]. intros <-. destruct (Hst _ _ Ha) as [e He].
  by rewrite fresh_entry_ok in He.
Qed.

Lemma sweep_lets_go s id a e :
  server_ok s → get id (sv_registry s) = Some (a, e) → (l_expires_at (en_lease e) <= sv_now s)%N →
  (∀ h t, sv_renewing s !! h ≠ Some (a, t)) → ¬ kept_entry (Serve.apply OpSweep s) a.
Proof.
  intros [Hok _ _] [Hid He]%get_entry Hexp Hren [[id' Hid']|(h & t & Hh)]; [|by apply (Hren h t)].
  simpl in Hid'. pose proof (remove_expired_spec (sv_now s) _ Hok) as Hspec.
  destruct (remove_expired_sub (sv_now s) _ Hok) as [Hst Hsub].
  destruct (remove_expired (sv_now s) (sv_registry s)) as [gone r']. destruct Hspec as (_ & Hget & _).
  simpl in *. assert (get id' r' = Some (a, e)) as Hg by (unfold get; by rewrite Hid', Hst; simpl; rewrite He).
  apply Hget in Hg as [_ Hlt]. lia.
Qed.

(** C14: an instance does not outlive its lease.  In any state the world
    reaches, when an instance's time is up and no renewal of it is under way,
    the next sweep lets it go: nothing keeps its entry, nothing ever will again,
    whatever happens; from then on its process may be stopped at any time, and
    stopping it stops no other process and leaves every entry as it is. *)
Theorem expired_instance_is_let_go w w1 id a e :
  rtc world_any world_start w → get id (sv_registry (w_server w)) = Some (a, e) →
  (l_expires_at (en_lease e) <= sv_now (w_server w))%N →
  (∀ h t, sv_renewing (w_server w) !! h ≠ Some (a, t)) →
  world_step w (Some OpSweep) w1 →
  ∃ n, w_process w !! a = Some n ∧
    ∀ w2, rtc world_any w1 w2 →
      w_process w2 !! a = Some n ∧ ¬ kept_entry (w_server w2) a ∧
      ∃ w3, world_step w2 None w3 ∧ instances (w_cache w3) !! n = None ∧
        (∀ m, m ≠ n → instances (w_cache w3) !! m = instances (w_cache w2) !! m) ∧
        w_server w3 = w_server w2.
Proof.
  intros Hreach Hg Hexp Hren Hs. pose proof (world_reachable _ Hreach) as Hok.
  destruct (wo_there _ Hok a) as (n & Hn & _); [left; exists id; by apply get_entry in Hg as [? _]|].
  exists n. split; [done|]. intros w2 Hr.
  pose proof (world_ok_step _ _ _ Hs Hok) as Hok1.
  assert (is_Some (store (sv_registry (w_server w1)) !! a) ∧ ¬ kept_entry (w_server w1) a) as [Ha Hk].
  { apply get_entry in Hg as Hge. destruct Hge as [_ He]. inversion Hs; subst; cbn [w_server] in *.
    split; [apply stored_apply; [apply Hok|by exists e]|]. eapply sweep_lets_go; [apply Hok|done..]. }
  assert (w_process w2 !! a = Some n) as Hp
    by (apply (process_stays w); [eapply rtc_l; [by exists (Some OpSweep)|done]|done|done]).
  pose proof (unkept_runs _ _ _ Hr Hok1 Ha Hk) as Hk2. split; [done|]. split; [done|].
  assert (world_ok w2) as Hok2.
  { apply world_reachable. etrans; [exact Hreach|]. eapply rtc_l; [by exists (Some OpSweep)|done]. }
  destruct w2 as [st s pr ex F D]. cbn [w_process w_server w_cache] in *. eexists. split.
  { apply (w_stop _ _ _ _ _ _ n). intros a' Ha'.
    by rewrite (wo_inj _ Hok2 a' a n Ha' Hp : a' = a). }
  cbn [w_cache w_server instances set_instances]. split_and!; [apply lookup_delete_eq| |done].
  intros m Hm. by rewrite lookup_delete_ne.
Qed.

(** ** A run *)

Lemma world_quiet st l st' s pr ex F D :
  step st l st' → instances st' = instances st →
  world_any (mkWorld st s pr ex F D) (mkWorld st' s pr ex (forgotten F st l) (failed D l)).
Proof.
  intros Hs He. exists None. apply w_cache_step; [done|by rewrite He|].
  intros n [t Hn] Hno. rewrite He in Hn. congruence.
Qed.

Lemma world_forked st s pr ex F D i r retry t n :
  tasks st !! i = Some (r, PFork retry t) → up st t = true → instances st !! n = None → n ∉ ex →
  world_any (mkWorld st s pr ex F D)
    (mkWorld (set_instances (set_tasks st (delete i (tasks st))) (<[n := t]> (instances st)))
       s pr ex F D).
Proof.
  intros Hi Hu Hn Hex. exists None. apply (w_cache_step _ Ordinary); [by eapply step_forked|..]; simpl.
  - intros m x Hm. rewrite lookup_insert_ne; [done|congruence].
  - intros m [x Hm] Hno. apply lookup_insert_Some in Hm as [[<- _]|[_ Hm]]; [done|congruence].
Qed.

Module WorldWitness.
Import TemplatesRun.

Tactic Notation "quiet_step" uconstr(c) :=
  eapply rtc_l; [eapply world_quiet; [eapply c; concrete|reflexivity]|].

(** Two requests share a template; the first's clone is registered. *)
Definition leased : World :=
  mkWorld
    (mkSt {[ key0 := 0%nat ]} {[ 0%nat := mkSlot (Some 0%nat) false ]} {[ 0%nat := base0 true 0 ]}
       {[ 1%nat := (want0, PFork false 0) ]} {[ 3%nat := 0%nat ]})
    (Serve.apply (OpCreate "a1" "redis" "8" (mkAddr "127.0.0.1" 4000) 60) server_start)
    {[ 0%nat := 3%nat ]} ∅ ∅ ∅.
Lemma reach_leased : rtc world_any world_start leased.
Proof.
  unfold world_start.
  quiet_step (step_request init 0%nat want0).
  quiet_step (step_slot_fresh _ 0%nat want0 false SBase 0%nat).
  quiet_step (step_miss _ 0%nat want0 false SBase 0%nat).
  quiet_step (step_request _ 1%nat want0).
  quiet_step (step_slot_fresh _ 1%nat want0 false SBase 1%nat).
  quiet_step (step_filled _ 0%nat want0 false SBase 0%nat 0%nat).
  quiet_step (step_hit _ 1%nat want0 false SBase 0%nat 0%nat).
  eapply rtc_l; [eapply (world_forked _ _ _ _ _ _ 0%nat want0 false 0%nat 3%nat);
    [reflexivity|reflexivity|reflexivity|set_solver]|].
  eapply rtc_l; [eexists; eapply (w_register _ _ _ _ _ _ 3%nat "a1" "redis" "8"
    (mkAddr "127.0.0.1" 4000) 60%N); [left; eexists; reflexivity|done]|].
  run_end.
Qed.

(** Then 30 seconds pass, the registry is swept and the cache pruned. *)
Definition later : World :=
  mkWorld (prune (w_cache leased)) (Serve.run [OpTick 30; OpSweep] (w_server leased))
    (w_process leased) (w_exited leased) ∅ ∅.
Lemma lease_running_witness :
  entries (sv_registry (w_server later)) !! "a1" = Some 0%nat ∧
  ∃ n t, w_process leased !! 0%nat = Some n ∧ w_process later !! 0%nat = Some n ∧
    instance_runs later n t.
Proof.
  apply (lease_is_a_running_instance leased later "a1" 0%nat
    (mkEntry "a1" "redis" "8" (mkAddr "127.0.0.1" 4000) (mkLease 60 60) GuestRunning)).
  - apply reach_leased.
  - reflexivity.
  - intros h t Hh. vm_compute in Hh. discriminate Hh.
  - eapply rtc_l; [exists (Some (OpTick 30)); split; [apply w_operate; reflexivity|done]|].
    eapply rtc_l; [exists (Some OpSweep); split; [apply w_operate; reflexivity|done]|].
    eapply rtc_l; [exists None; split; [|done]|apply rtc_refl].
    apply (w_cache_step _ Ordinary); [apply step_prune|done|]. intros n [t Hn] Hno. simpl in Hn, Hno. congruence.
  - vm_compute. reflexivity.
Defined.

(** An hour later it is swept, and may be stopped. *)
Definition an_hour_later : World :=
  mkWorld (w_cache leased) (Serve.apply (OpTick 3600) (w_server leased)) (w_process leased) ∅ ∅ ∅.
Definition swept : World :=
  mkWorld (w_cache leased) (Serve.apply OpSweep (w_server an_hour_later)) (w_process leased) ∅ ∅ ∅.
Lemma let_go_witness :
  ∃ n w3, w_process swept !! 0%nat = Some n ∧ ¬ kept_entry (w_server swept) 0 ∧
    world_step swept None w3 ∧ instances (w_cache w3) !! n = None.
Proof.
  destruct (expired_instance_is_let_go an_hour_later swept "a1" 0%nat
    (mkEntry "a1" "redis" "8" (mkAddr "127.0.0.1" 4000) (mkLease 60 60) GuestRunning))
    as (n & _ & Hall).
  - eapply rtc_r; [apply reach_leased|]. exists (Some (OpTick 3600)). by apply w_operate.
  - reflexivity.
  - vm_compute. discriminate.
  - intros h t Hh. vm_compute in Hh. discriminate Hh.
  - by apply w_operate.
  - destruct (Hall swept) as (Hp & Hk & w3 & Hs & Hn & _); [apply rtc_refl|]. by exists n, w3.
Defined.
End WorldWitness.
