(* ===== verification/Router.v ===== *)
(** * From an HTTP request to a handler and back

    Models the router of src/crates/servicecache/src/serve/mod.rs ([router],
    [serve_on]'s service, the handlers' extractors and answers) and
    [Problem::into_response] of serve/api.rs: which handler a method and path
    select, what it is given, and the response its result becomes.

    Matching a path against a pattern and decoding its captured segment are
    Axum's: the class [PathMatcher] has them with their documented laws.  JSON
    is the class of Protocol.v. *)

From S2P Require Import Prelude Net Protocol Paths Manifest BTree Discovery Api Recipes Host.
From S2P Require Import Manager Owner Templates Obtain Instances Serve.

(** ** Requests and responses *)

Inductive Method : Type := GET | HEAD | POST | DELETE | OtherMethod (name : string).
#[global] Instance method_eq_dec : EqDecision Method.
Proof. solve_decision. Defined.

Record Response : Type := mkResponse {
  rs_status : N;
  rs_headers : list (string * string);
  rs_body : list byte;
}.

(** A request as the service gets it, with what its handling meets: the
    clock where a handler reads it, and what a creation meets. *)
Record HttpRequest : Type := mkHttp {
  rq_method : Method;
  rq_path : string;
  rq_body : list byte;
  rq_peer : Peer;
  rq_now : N;
  rq_now' : N;
  rq_meets : Meets;
}.

Definition MAX_BODY : N := (512 * 1024 * 1024)%N.

(** ** Routes *)

Inductive Handler : Type :=
  | ListServices | ListInstances | CreateHandler | GetHandler | DeleteHandler | RenewHandler
  | OpenApiDocument.

(** The routes [router] adds, in order. *)
Definition routes : list (string * list (Method * Handler)) :=
  [("/v1/services", [(GET, ListServices)]);
   ("/v1/instances", [(POST, CreateHandler); (GET, ListInstances)]);
   ("/v1/instances/{id}", [(GET, GetHandler); (DELETE, DeleteHandler)]);
   ("/v1/instances/{id}/renew", [(POST, RenewHandler)]);
   ("/openapi.json", [(GET, OpenApiDocument)])].

(** A path segment that is its own percent-encoding. *)
Definition plain_char (c : ascii) : bool :=
  let n := N_of_ascii c in
  (bool_decide (48 <= n <= 57) || bool_decide (65 <= n <= 90) || bool_decide (97 <= n <= 122))%N.
Fixpoint plain (s : string) : bool :=
  match s with
  | EmptyString => true
  | String c s => plain_char c && plain s
  end.

Fixpoint contains_char (a : ascii) (s : string) : bool :=
  match s with
  | EmptyString => false
  | String c s => bool_decide (c = a) || contains_char a s
  end.

(** Where a captured segment may end. *)
Definition segment_ends (post : string) : bool :=
  match post with EmptyString => true | String c _ => bool_decide (c = "/"%char) end.

(** [path_match pattern path]: [Some] when the pattern matches, with the
    segment captured where it has one. *)
Class PathMatcher : Type := {
  path_match : string → string → option (option string);
  percent_decode : string → option string;
}.

(** Axum's documentation: a pattern without captures matches itself; a capture
    matches any single non-empty segment. *)
Class PathLaws `{PathMatcher} : Prop := {
  match_literal pattern p :
    contains_char "{" pattern = false →
    path_match pattern p = if decide (p = pattern) then Some None else None;
  match_capture pre post seg :
    contains_char "{" pre = false → contains_char "{" post = false → segment_ends post = true →
    seg ≠ "" → contains_char "/" seg = false →
    path_match (pre +:+ "{id}" +:+ post) (pre +:+ seg +:+ post) = Some (Some seg);
  match_capture_inv pre post p c :
    contains_char "{" pre = false → contains_char "{" post = false → segment_ends post = true →
    path_match (pre +:+ "{id}" +:+ post) p = Some c →
    ∃ seg, c = Some seg ∧ seg ≠ "" ∧ contains_char "/" seg = false ∧ p = pre +:+ seg +:+ post;
  decode_plain seg : plain seg = true → percent_decode seg = Some seg;
}.

(** The handlers of the first route that matches, with the captured segment. *)
Fixpoint find_route `{PathMatcher} (rs : list (string * list (Method * Handler))) (p : string)
    : option (option string * list (Method * Handler)) :=
  match rs with
  | [] => None
  | (pattern, handlers) :: rs =>
      match path_match pattern p with
      | Some captured => Some (captured, handlers)
      | None => find_route rs p
      end
  end.

(** The handler for a method: the one for GET answers HEAD too. *)
Definition handler_for (m : Method) (handlers : list (Method * Handler)) : option Handler :=
  let m := match m with HEAD => GET | _ => m end in
  match list_find (λ x, x.1 = m) handlers with Some (_, (_, h)) => Some h | None => None end.

(** ** Responses *)

Section router.
Context `{!PathMatcher}.
Context `{!JsonCodec CreateInstance} `{!JsonCodec RenewInstance} `{!JsonCodec Instance_}.
Context `{!JsonCodec (list Instance_)} `{!JsonCodec (list ServiceEntry)} `{!JsonCodec Problem}.
(** Axum's own answers: a body over the limit, a segment that is not UTF-8,
    a body that does not serialize; and the OpenAPI document. *)
Context (too_large bad_segment not_json : Response) (document : list byte).

Definition CONTENT_TYPE : string := "application/problem+json".

(** [Problem::into_response]; [StatusCode::from_u16] takes 100 to 999. *)
Definition problem_response (p : Problem) : Response :=
  mkResponse (if bool_decide (100 <= status p <= 999)%N then status p else 500%N)
    [("content-type", CONTENT_TYPE)] (default [] (result_ok (to_vec p))).

(** [Json(value)], with a status and headers before it. *)
Definition json_response {T} `{!JsonCodec T} (code : N) (headers : list (string * string)) (value : T)
    : Response :=
  match to_vec value with
  | Ok body => mkResponse code (("content-type", "application/json") :: headers) body
  | Err _ => not_json
  end.

(** [Result<_, Problem>::into_response]. *)
Definition result_response {A} (respond : A → Response) (r : result A Problem) : Response :=
  match r with Ok a => respond a | Err p => problem_response p end.

Definition with_body (m : Method) (r : Response) : Response :=
  match m with HEAD => mkResponse (rs_status r) (rs_headers r) [] | _ => r end.

(** [serde_json::from_slice], its error displayed. *)
Definition parse_json {T} `{!JsonCodec T} (body : list byte) : result T string :=
  match from_slice body with Ok v => Ok v | Err e => Err (display_chain e) end.

(** [DefaultBodyLimit::max(MAX_BODY)] on the [Bytes] extractor. *)
Definition limited {A} (body : list byte) (rejected k : A) : A :=
  if bool_decide (MAX_BODY < N.of_nat (length body))%N then rejected else k.

Section handlers.
Context {C T : Type} `{!TemplateOps C T}.
Context (base64_decode : string → result (list byte) string).
Context (open : path → result OpenFile string) (geteuid : N).

(** One handler with its extractors; [id] is the decoded segment. *)
Definition call_handler (h : Handler) (id : string) (rq : HttpRequest) (app : App C)
    : option (Response * App C) :=
  match h with
  | ListServices => Some (json_response 200 [] (list_services app), app)
  | ListInstances => Some (json_response 200 [] (list_instances (rq_now rq) app), app)
  | CreateHandler =>
      limited (rq_body rq) (Some (too_large, app))
        match create_instance parse_json base64_decode open geteuid (rq_peer rq) (rq_body rq)
                (rq_meets rq) app with
        | None => None
        | Some (r, app) =>
            Some (result_response (λ '(code, location, inst),
                    json_response code [("location", location)] inst) r, app)
        end
  | GetHandler => Some (result_response (json_response 200 []) (get_instance id (rq_now rq) app), app)
  | DeleteHandler =>
      let (r, app) := delete_instance id app in
      Some (result_response (λ code, mkResponse code [] []) r, app)
  | RenewHandler =>
      limited (rq_body rq) (Some (too_large, app))
        (let (r, app) := renew_instance parse_json id (rq_body rq) (rq_now rq) (rq_now' rq) app in
         Some (result_response (json_response 200 []) r, app))
  | OpenApiDocument => Some (mkResponse 200 [("content-type", "application/json")] document, app)
  end.

(** The service: [None] while a creation waits for its template. *)
Definition dispatch (rq : HttpRequest) (app : App C) : option (Response * App C) :=
  match find_route routes (rq_path rq) with
  | None => Some (with_body (rq_method rq) (problem_response unknown_route), app)
  | Some (captured, handlers) =>
      match handler_for (rq_method rq) handlers with
      | None => Some (with_body (rq_method rq) (problem_response method_not_allowed), app)
      | Some h =>
          match captured with
          | None => call_handler h "" rq app
          | Some seg =>
              match percent_decode seg with
              | None => Some (bad_segment, app)
              | Some id => call_handler h id rq app
              end
          end ≫= λ '(r, app), Some (with_body (rq_method rq) r, app)
      end
  end.
End handlers.
End router.

(** ** Which handler answers *)

Lemma contains_char_app a s t : contains_char a (s +:+ t) = contains_char a s || contains_char a t.
Proof.
  induction s as [|c s IH]; [done|].
  change (String c s +:+ t) with (String c (s +:+ t)). simpl. by rewrite IH, orb_assoc.
Qed.

Lemma plain_no_char a s : plain s = true → plain_char a = false → contains_char a s = false.
Proof.
  induction s as [|c s IH]; [done|]. simpl. intros Hs Ha. simp_bool.
  rewrite IH by done. case_bool_decide; [congruence|done].
Qed.

Lemma str_app_inj s t u : s +:+ t = s +:+ u → t = u.
Proof. intros H. by apply (inj (String.append s)) in H. Qed.

Section routing.
Context `{Hpm : !PathMatcher} `{Hpl : !PathLaws}.

(** The two patterns with a capture, taken apart. *)
Lemma pattern_id : "/v1/instances/{id}" = "/v1/instances/" +:+ "{id}" +:+ "".
Proof. done. Qed.
Lemma pattern_renew : "/v1/instances/{id}/renew" = "/v1/instances/" +:+ "{id}" +:+ "/renew".
Proof. done. Qed.

Lemma find_services :
  find_route routes "/v1/services" = Some (None, [(GET, ListServices)]).
Proof. unfold routes. cbn [find_route]. rewrite match_literal by done. by rewrite decide_True. Qed.

Lemma find_instances :
  find_route routes "/v1/instances" = Some (None, [(POST, CreateHandler); (GET, ListInstances)]).
Proof. unfold routes. cbn [find_route]. rewrite !match_literal by done. by rewrite decide_False, decide_True. Qed.

Lemma find_instance id :
  plain id = true → id ≠ "" →
  find_route routes ("/v1/instances/" +:+ id) = Some (Some id, [(GET, GetHandler); (DELETE, DeleteHandler)]).
Proof.
  intros Hp Hne. unfold routes. cbn [find_route]. rewrite !match_literal by done.
  rewrite !decide_False by (destruct id; done).
  rewrite pattern_id. pose proof (match_capture "/v1/instances/" "" id eq_refl eq_refl eq_refl Hne) as Hm.
  rewrite (string_app_nil_r id) in Hm. rewrite Hm; [done|]. by apply plain_no_char.
Qed.

Lemma find_renew id :
  plain id = true → id ≠ "" →
  find_route routes ("/v1/instances/" +:+ id +:+ "/renew") = Some (Some id, [(POST, RenewHandler)]).
Proof.
  intros Hp Hne. unfold routes. cbn [find_route]. rewrite !match_literal by done.
  rewrite !decide_False by (destruct id; done).
  rewrite pattern_id.
  destruct (path_match _ ("/v1/instances/" +:+ id +:+ "/renew")) as [c|] eqn:Hm.
  - exfalso. apply match_capture_inv in Hm as (seg & _ & _ & Hs & Heq); [|done..].
    rewrite string_app_nil_r in Heq. apply str_app_inj in Heq as <-.
    by rewrite contains_char_app, orb_true_r in Hs.
  - rewrite pattern_renew, match_capture; [done|done|done|done|done|]. by apply plain_no_char.
Qed.
End routing.

(** ** What a response tells *)

(** Documented of the types of this API: serde writes each of them, and no JSON
    text is empty. *)
Class JsonTotal (T : Type) `{!JsonCodec T} : Prop :=
  to_total (m : T) : ∃ b bs, to_vec m = Ok (b :: bs).

(** The statuses of problems are statuses, and none of them is a success. *)
Lemma documented_status n : n ∈ documented → (100 <= n <= 999)%N ∧ n ≠ 200%N ∧ n ≠ 201%N ∧ n ≠ 204%N.
Proof. unfold documented. rewrite !elem_of_cons, elem_of_nil. intros Hn. split_and!; naive_solver lia. Qed.

Section instance_problems.
Context {C : Type}.

Lemma get_problem id now (app : App C) p : get_instance id now app = Err p → status p ∈ documented.
Proof. unfold get_instance. destruct (get id _) as [[]|]; intros [= <-]. set_solver. Qed.

Lemma delete_problem id (app app' : App C) p :
  delete_instance id app = (Err p, app') → status p ∈ documented.
Proof.
  unfold delete_instance. destruct (remove id _) as [[] r]; intros [= <- _]. set_solver.
Qed.

Lemma delete_code id (app app' : App C) code : delete_instance id app = (Ok code, app') → code = 204%N.
Proof. unfold delete_instance. by destruct (remove id _) as [[] r]; intros [= <- _]. Qed.

Lemma renew_problem parse_renew id body now now' (app app' : App C) p :
  renew_instance parse_renew id body now now' app = (Err p, app') → status p ∈ documented.
Proof.
  unfold renew_instance.
  destruct (if bool_decide (body = []) then Ok default_renew else _) as [request|q] eqn:Hb.
  - pose proof (ttl_duration_spec (r_ttl_seconds request)) as Ht.
    destruct (ttl_duration (r_ttl_seconds request)) as [ttl|q].
    + destruct (get id _) as [[a entry]|]; [|intros [= <- _]; set_solver].
      destruct (negb _); intros [= <- _]. set_solver.
    + intros [= <- _]. rewrite Ht. set_solver.
  - intros [= <- _]. case_bool_decide; [done|]. destruct (parse_renew body); [done|].
    injection Hb as <-. set_solver.
Qed.

Lemma renew_parsed parse_renew parse' id body body' now now' (app : App C) :
  body ≠ [] → body' ≠ [] → parse_renew body = parse' body' →
  renew_instance parse_renew id body now now' app = renew_instance parse' id body' now now' app.
Proof. intros Hb Hb' Hp. unfold renew_instance. by rewrite !bool_decide_false, Hp. Qed.
End instance_problems.

Section problems.
Context {C T : Type} `{!TemplateOps C T} `{!TemplateLaws C T}.
Context (base64_decode : string → result (list byte) string).
Context (open : path → result OpenFile string) (geteuid : N).

Lemma create_problem parse_create peer body w (app app' : App C) p :
  cache_ok (cache app) →
  create_instance parse_create base64_decode open geteuid peer body w app = Some (Err p, app') →
  status p ∈ documented.
Proof.
  intros Hc. unfold create_instance.
  pose proof (validate_spec parse_create base64_decode open geteuid app peer body w) as Hv.
  destruct (validate_request _ _ _ _ _ _ _ _) as [[[[m recipe] ttl] id]|q]; [|by intros [= <- <-]].
  pose proof (obtain_and_fork_laws m recipe _ Hc) as Hof.
  destruct (obtain_and_fork m recipe (cache app)) as [[[[host e]|q] c']|]; [| |done].
  - destruct (adopt _ _ _ _ _ _ _); intros [= <- _]. set_solver.
  - intros [= <- _]. destruct Hof as [_ ->]. set_solver.
Qed.

Lemma create_code parse_create peer body w (app app' : App C) code location inst :
  create_instance parse_create base64_decode open geteuid peer body w app
    = Some (Ok (code, location, inst), app') → code = 201%N.
Proof.
  unfold create_instance. destruct (validate_request _ _ _ _ _ _ _ _) as [[[[m recipe] ttl] id]|q]; [|done].
  destruct (obtain_and_fork m recipe (cache app)) as [[[[host e]|q] c']|]; [|done..].
  destruct (adopt _ _ _ _ _ _ _); by intros [= <- _ _ _].
Qed.

(** The handlers ask nothing else of the body than what it parses to. *)
Lemma create_parsed parse_create parse' peer body body' w (app : App C) :
  parse_create body = parse' body' →
  create_instance parse_create base64_decode open geteuid peer body w app =
  create_instance parse' base64_decode open geteuid peer body' w app.
Proof. intros Hp. unfold create_instance, validate_request. by rewrite Hp. Qed.

End problems.

(** ** What the handlers leave alone *)

(** What a successful creation leaves behind. *)
Lemma create_registers {C T} `{!TemplateOps C T} parse_create base64_decode open geteuid peer body w
    (app app' : App C) code location inst :
  registry_ok (registry app) →
  create_instance parse_create base64_decode open geteuid peer body w app
    = Some (Ok (code, location, inst), app') →
  new_id (me_urandom w) = Ok (i_id inst) ∧
  (∃ a e, get (i_id inst) (registry app') = Some (a, e) ∧ inst = describe (me_describe w) e ∧
     en_state e = GuestRunning) ∧
  registry_ok (registry app') ∧
  ∀ id, id ≠ i_id inst → get id (registry app') = get id (registry app).
Proof.
  intros Hr. unfold create_instance.
  destruct (validate_request _ _ _ _ _ _ _ _) as [[[[m recipe] ttl] id]|q] eqn:Hv; [|done].
  assert (new_id (me_urandom w) = Ok id) as Hid.
  { revert Hv. unfold validate_request. destruct (new_id (me_urandom w)); [|by repeat case_match].
    intros Hv. inv_ok. congruence. }
  destruct (obtain_and_fork m recipe (cache app)) as [[[[host e]|q] c']|]; [|done..].
  unfold adopt. destruct (me_watcher w) as [[]|]; [|done]. intros [= _ _ <- <-]. split; [done|].
  split; [|split].
  - eexists _, _. split; [|done]. simpl. rewrite get_insert_fresh by done. by rewrite decide_True.
  - simpl. apply registry_ok_insert; [done|apply fresh_entry_ok].
  - intros id' Hne. simpl in *. rewrite get_insert_fresh by done. by rewrite decide_False.
Qed.

(** A creation that fails registers nothing. *)
Lemma create_err_registry {C T} `{!TemplateOps C T} parse_create base64_decode open geteuid peer body w
    (app app' : App C) p :
  create_instance parse_create base64_decode open geteuid peer body w app = Some (Err p, app') →
  registry app' = registry app.
Proof.
  unfold create_instance. destruct (validate_request _ _ _ _ _ _ _ _) as [[[[m recipe] ttl] id]|q];
    [|by intros [= _ <-]].
  destruct (obtain_and_fork m recipe (cache app)) as [[[[host e]|q] c']|]; [|by intros [= _ <-]|done].
  destruct (adopt _ _ _ _ _ _ _); by intros [= _ <-].
Qed.

(** What a renewal leaves alone. *)
Lemma renew_frame {C} parse_renew id body now now' (app : App C) :
  registry_ok (registry app) →
  let app' := (renew_instance parse_renew id body now now' app).2 in
  registry_ok (registry app') ∧ ∀ id', id' ≠ id → get id' (registry app') = get id' (registry app).
Proof.
  intros Hok. unfold renew_instance. destruct (let? _ := _ in _) as [ttl|p]; [|done].
  destruct (get id (registry app)) as [[a e]|] eqn:Hg; [|done]. destruct (negb _); [done|]. simpl. split.
  - by apply registry_ok_update.
  - intros id' Hne. unfold get. simpl. destruct (entries (registry app) !! id') as [a'|] eqn:Hid'; [|done].
    simpl. rewrite lookup_alter_ne; [done|]. intros ->. apply get_entry in Hg as [Hid He].
    destruct (ok_entry _ Hok _ _ Hid') as (e1 & He1 & Hide1).
    destruct (ok_entry _ Hok _ _ Hid) as (e2 & He2 & Hide2). congruence.
Qed.

Lemma renew_same {C} parse_renew id body now now' (app : App C) :
  let app' := (renew_instance parse_renew id body now now' app).2 in
  services app' = services app ∧ cache app' = cache app ∧ recipe_roots app' = recipe_roots app.
Proof.
  unfold renew_instance. destruct (let? _ := _ in _) as [ttl|p]; [|done].
  destruct (get id (registry app)) as [[a e]|]; [|done]. by destruct (negb _).
Qed.

(** What a deletion leaves alone. *)
Lemma delete_frame {C} id (app : App C) :
  registry_ok (registry app) →
  let app' := (delete_instance id app).2 in
  (registry_ok (registry app') ∧ ∀ id', id' ≠ id → get id' (registry app') = get id' (registry app)) ∧
  get id (registry app') = None.
Proof.
  intros Hok. unfold delete_instance, remove.
  set (app1 := set_registry app (mkRegistry (store (registry app)) (delete id (entries (registry app))))).
  assert ((registry_ok (registry app1) ∧
    ∀ id', id' ≠ id → get id' (registry app1) = get id' (registry app)) ∧ get id (registry app1) = None) as Hd.
  { split; [split|].
    - split. intros id' a Hid. simpl in Hid. apply lookup_delete_Some in Hid as [_ Hid].
      by apply (ok_entry _ Hok).
    - intros id' Hne. unfold get. simpl. by rewrite lookup_delete_ne.
    - unfold get. simpl. by rewrite lookup_delete_eq. }
  by destruct (get id (registry app)).
Qed.

(** ** Reading changes nothing *)

Section reads.
Context `{!PathMatcher}.
Context `{!JsonCodec CreateInstance} `{!JsonCodec RenewInstance} `{!JsonCodec Instance_}.
Context `{!JsonCodec (list Instance_)} `{!JsonCodec (list ServiceEntry)} `{!JsonCodec Problem}.
Context (too_large bad_segment not_json : Response) (document : list byte).
Context {C T : Type} `{!TemplateOps C T}.
Context (base64_decode : string → result (list byte) string).
Context (open : path → result OpenFile string) (geteuid : N).
Notation dispatch := (dispatch too_large bad_segment not_json document base64_decode open geteuid).
Notation call_handler := (call_handler too_large not_json document base64_decode open geteuid).

Lemma find_route_in rs p captured handlers :
  find_route rs p = Some (captured, handlers) → ∃ pattern, (pattern, handlers) ∈ rs.
Proof.
  induction rs as [|[pattern hs] rs IH]; [done|]. simpl.
  destruct (path_match pattern p); [intros [= <- <-]; eexists; by left|].
  intros [q Hq]%IH. exists q. by right.
Qed.

(** A handler that is not for POST or DELETE answers at once. *)
Lemma read_handler h id rq (app : App C) :
  h ∈ [ListServices; ListInstances; GetHandler; OpenApiDocument] →
  ∃ r, call_handler h id rq app = Some (r, app).
Proof. rewrite !elem_of_cons, elem_of_nil. intros [->|[->|[->|[->|[]]]]]; simpl; eauto. Qed.

Lemma reads_only pattern handlers m h :
  (pattern, handlers) ∈ routes → m ≠ POST → m ≠ DELETE → handler_for m handlers = Some h →
  h ∈ [ListServices; ListInstances; GetHandler; OpenApiDocument].
Proof.
  unfold routes. rewrite !elem_of_cons, elem_of_nil. intros Hin Hp Hd Hh.
  repeat (destruct Hin as [[= -> ->]|Hin]); [..|done];
    destruct m; try done; vm_compute in Hh; try discriminate Hh; injection Hh as <-;
    tauto.
Qed.

(** What is not a POST or a DELETE changes nothing and is answered at once:
    every GET and HEAD, and every method the API does not have, on any path,
    gets a response without waiting for a template or another request, and
    leaves services, instances and templates as they were. *)
Theorem reads_change_nothing rq (app : App C) :
  rq_method rq ≠ POST → rq_method rq ≠ DELETE → ∃ r, dispatch rq app = Some (r, app).
Proof.
  intros Hp Hd. unfold Router.dispatch.
  destruct (find_route routes (rq_path rq)) as [[captured handlers]|] eqn:Hf; [|eauto].
  destruct (handler_for (rq_method rq) handlers) as [h|] eqn:Hh; [|eauto].
  apply find_route_in in Hf as [pattern Hin].
  pose proof (reads_only _ _ _ _ Hin Hp Hd Hh) as Hr.
  destruct captured as [seg|]; [destruct (percent_decode seg) as [id|]|]; simpl; [|eauto|].
  - destruct (read_handler h id rq app Hr) as [r ->]. simpl. eauto.
  - destruct (read_handler h "" rq app Hr) as [r ->]. simpl. eauto.
Qed.

(** ** Every request keeps the state well formed *)

Context `{!TemplateLaws C T}.

(** The parts of the state no request changes, and the ones each keeps in
    order. *)
Record well_formed (app app' : App C) : Prop := mkWellFormed {
  wf_cache : cache_ok (cache app');
  wf_registry : registry_ok (registry app');
  wf_services : services app' = services app;
  wf_roots : recipe_roots app' = recipe_roots app;
}.

Lemma create_well_formed parse_create peer body w (app app' : App C) r :
  cache_ok (cache app) → registry_ok (registry app) →
  create_instance parse_create base64_decode open geteuid peer body w app = Some (r, app') →
  well_formed app app'.
Proof.
  intros Hc Hr. unfold create_instance.
  destruct (validate_request _ _ _ _ _ _ _ _) as [[[[m recipe] ttl] id]|q]; [|by intros [= _ <-]].
  pose proof (obtain_and_fork_laws m recipe _ Hc) as Hof.
  destruct (obtain_and_fork m recipe (cache app)) as [[[[host e]|q] c']|]; [| |done].
  - destruct Hof as [Hc' _]. destruct (adopt _ _ _ _ _ _ _); intros [= _ <-]; [|done].
    split; simpl; try done. apply registry_ok_insert; [done|apply fresh_entry_ok].
  - destruct Hof as [Hc' _]. by intros [= _ <-].
Qed.

(** The statuses the API documents, with Axum's own. *)
Definition statuses : list N := [200; 201; 204; 405]%N ++ documented.

Lemma problem_response_status p : status p ∈ documented → rs_status (problem_response p) ∈ statuses.
Proof.
  intros Hp. pose proof (documented_status _ Hp) as [Hb _]. simpl. rewrite bool_decide_true by done.
  unfold statuses. apply elem_of_app. by right.
Qed.

Lemma json_response_status {V} `{!JsonCodec V} code headers (v : V) :
  rs_status not_json ∈ statuses → code ∈ statuses →
  rs_status (json_response not_json code headers v) ∈ statuses.
Proof. unfold json_response. by destruct (to_vec v). Qed.

Lemma call_handler_well_formed h id rq (app app' : App C) r :
  Forall (λ x, rs_status x ∈ statuses) [too_large; not_json] →
  cache_ok (cache app) → registry_ok (registry app) →
  call_handler h id rq app = Some (r, app') → well_formed app app' ∧ rs_status r ∈ statuses.
Proof.
  rewrite !Forall_cons. intros (Hbig & Hjson & _) Hc Hr.
  assert (200%N ∈ statuses ∧ 201%N ∈ statuses ∧ 204%N ∈ statuses) as (H200 & H201 & H204)
    by (split_and!; apply (bool_decide_unpack _); vm_compute; exact I).
  destruct h; simpl.
  - intros [= <- <-]. split; [done|]. by apply json_response_status.
  - intros [= <- <-]. split; [done|]. by apply json_response_status.
  - unfold limited. case_bool_decide; [by intros [= <- <-]|].
    destruct (create_instance _ _ _ _ _ _ _ _) as [[r' app1]|] eqn:Hcr; [|done]. intros [= <- <-].
    split; [by eapply create_well_formed|]. destruct r' as [[[code location] inst]|p]; simpl.
    + apply json_response_status; [done|]. by apply create_code in Hcr as ->.
    + apply problem_response_status. by eapply create_problem.
  - intros [= <- <-]. split; [done|]. destruct (get_instance id (rq_now rq) app) as [inst|p] eqn:Hg; simpl.
    + by apply json_response_status.
    + apply problem_response_status. by eapply get_problem.
  - pose proof (delete_frame id app Hr) as [[Hok _] _].
    destruct (delete_instance id app) as [r' app1] eqn:Hd. intros [= <- <-]. split.
    + unfold delete_instance in Hd. destruct (remove id (registry app)) as [[] reg]; by injection Hd as _ <-.
    + destruct r' as [code|p]; simpl; [by apply delete_code in Hd as ->|].
      apply problem_response_status. by eapply delete_problem.
  - unfold limited. case_bool_decide; [by intros [= <- <-]|].
    pose proof (renew_frame parse_json id (rq_body rq) (rq_now rq) (rq_now' rq) app Hr) as [Hok _].
    destruct (renew_instance _ _ _ _ _ _) as [r' app1] eqn:Hre. intros [= <- <-]. split.
    + pose proof (renew_same parse_json id (rq_body rq) (rq_now rq) (rq_now' rq) app) as (Hs & Hca & Hro).
      rewrite Hre in Hs, Hca, Hro. simpl in *. split; [by rewrite Hca|done..].
    + destruct r' as [inst|p]; simpl; [by apply json_response_status|].
      apply problem_response_status. by eapply renew_problem.
  - intros [= <- <-]. by split.
Qed.

(** A whole request. *)
Lemma dispatch_well_formed rq (app app' : App C) r :
  Forall (λ x, rs_status x ∈ statuses) [too_large; bad_segment; not_json] →
  cache_ok (cache app) → registry_ok (registry app) →
  dispatch rq app = Some (r, app') → well_formed app app' ∧ rs_status r ∈ statuses.
Proof.
  rewrite !Forall_cons. intros (Hbig & Hbad & Hjson & _) Hc Hr.
  assert (∀ m x, rs_status (with_body m x) = rs_status x) as Hwb by by intros [].
  assert (404%N ∈ statuses ∧ 405%N ∈ statuses) as [H404 H405]
    by (split; apply (bool_decide_unpack _); vm_compute; exact I).
  unfold Router.dispatch.
  destruct (find_route routes (rq_path rq)) as [[captured handlers]|];
    [|intros [= <- <-]; by rewrite Hwb].
  destruct (handler_for (rq_method rq) handlers) as [h|]; [|intros [= <- <-]; by rewrite Hwb].
  assert (∀ id, call_handler h id rq app ≫= (λ '(r, app), Some (with_body (rq_method rq) r, app))
    = Some (r, app') → well_formed app app' ∧ rs_status r ∈ statuses) as Hcall.
  { intros id. destruct (call_handler h id rq app) as [[r1 app1]|] eqn:Hh; [|done].
    intros [= <- <-]. rewrite Hwb. eapply call_handler_well_formed; [|done|done|exact Hh].
    by rewrite !Forall_cons, Forall_nil. }
  destruct captured as [seg|]; [|apply Hcall].
  destruct (percent_decode seg) as [id|]; [apply Hcall|]. intros [= <- <-]. by rewrite Hwb.
Qed.

(** C22: every request, valid or not, on any path and by any method, leaves the
    server's state well formed: each registered id has its one entry, the
    templates keep their promises, the services and the recipe roots are those
    the server was started with; and it is answered with one of the statuses
    the API documents. *)
Theorem requests_keep_the_state_well_formed rq (app app' : App C) r :
  Forall (λ x, rs_status x ∈ statuses) [too_large; bad_segment; not_json] →
  cache_ok (cache app) → registry_ok (registry app) →
  dispatch rq app = Some (r, app') → well_formed app app' ∧ rs_status r ∈ statuses.
Proof. apply dispatch_well_formed. Qed.
End reads.
