(* ===== verification/Server.v ===== *)
(** * A server from start to end

    Models [run] and [serve_on] of src/crates/servicecache/src/serve/mod.rs:
    claiming and binding the socket, the requests and sweeps of a server's life
    in the order they take effect, and its end.  The routes are Router.v's, the
    handlers and the sweeper Serve.v's; the templates are the classes of
    Obtain.v with the operations a server's own life needs.

    The second part has the socket as a file that several servers started on
    one path share. *)

From S2P Require Import Prelude Net Protocol Paths Manifest BTree Discovery Api Recipes Host.
From S2P Require Import Manager Owner Templates Obtain Instances Serve Router.

(** [Options] of the server. *)
Record Options : Type := mkOptions {
  op_socket : path;
  op_services : ServiceIndex;
  op_cache_dir : path;
  op_template_ttl : N;
  op_recipe_roots : list path;
}.

Definition DEFAULT_TEMPLATE_TTL : N := from_secs 300.

(** [Templates::new], [prune] and [clear]. *)
Class TemplateKeeping (C : Type) : Type := {
  templates_new : N → C;
  templates_prune : C → C;
  templates_clear : C → C;
}.

(** What a server relies on: they keep the templates in order, and nothing is
    filed after [clear]. *)
Class KeepingLaws (C T : Type) `{!TemplateOps C T} `{!TemplateLaws C T} `{!TemplateKeeping C} : Type := {
  filed : C → Prop;
  new_ok ttl : cache_ok (templates_new ttl);
  prune_ok c : cache_ok c → cache_ok (templates_prune c);
  clear_ok c : cache_ok c → cache_ok (templates_clear c);
  clear_empty c : ¬ filed (templates_clear c);
}.

(** What reaches a server: a request, or the sweeper's tick. *)
Inductive ServerEvent : Type :=
  | Requested (rq : HttpRequest)
  | Swept (now : N).

(** What the start and the end of a server meet. *)
Record ServeMeets : Type := mkServeMeets {
  sv_runtime : result unit error;
  sv_bind : result unit error;
  sv_sigint : result unit error;
  sv_sigterm : result unit error;
  sv_flush : result unit error;
  (** Until a signal, or until the listener fails. *)
  sv_events : list ServerEvent;
  sv_served : result unit error;
  (** Whether [remove_file] succeeds; its failure is ignored. *)
  sv_removed : bool;
}.

(** What a server does to the file system. *)
Inductive ServerEffect : Type :=
  | Claimed (e : SocketEffect)
  | BoundSocket
  (** The removal at the end, with whether the file is gone. *)
  | UnlinkedSocket (removed : bool).

Section server.
Context `{!PathMatcher}.
Context `{!JsonCodec CreateInstance} `{!JsonCodec RenewInstance} `{!JsonCodec Instance_}.
Context `{!JsonCodec (list Instance_)} `{!JsonCodec (list ServiceEntry)} `{!JsonCodec Problem}.
Context (too_large bad_segment not_json : Response) (document : list byte).
Context {C T : Type} `{!TemplateOps C T} `{!TemplateKeeping C}.
Context (base64_decode : string → result (list byte) string).
Context (open : path → result OpenFile string) (geteuid : N).
Notation dispatch := (dispatch too_large bad_segment not_json document base64_decode open geteuid).

(** The events, in the order they take effect; [None] while a request waits. *)
Fixpoint serve_events (events : list ServerEvent) (app : App C) : option (list Response * App C) :=
  match events with
  | [] => Some ([], app)
  | Requested rq :: events =>
      '(r, app) ← dispatch rq app;
      '(rs, app) ← serve_events events app;
      Some (r :: rs, app)
  | Swept now :: events => serve_events events (sweep_tick templates_prune now app)
  end.

(** [shutdown_signal]: both handlers, in order. *)
Definition shutdown_signal (w : ServeMeets) : result unit error :=
  let? _ := with_context "failed to install the SIGINT handler" (sv_sigint w) in
  with_context "failed to install the SIGTERM handler" (sv_sigterm w).

(** [serve_on]: its result, the responses, the state and whether it bound the
    socket. *)
Definition serve_on (socket : path) (w : ServeMeets) (app : App C)
    : option (result unit error * list Response * App C * list ServerEffect) :=
  match with_context ("failed to bind " +:+ socket) (sv_bind w) with
  | Err e => Some (Err e, [], app, [])
  | Ok tt =>
      match (let? _ := shutdown_signal w in
             with_context "failed to write the socket path" (sv_flush w)) with
      | Err e => Some (Err e, [], app, [BoundSocket])
      | Ok tt =>
          '(rs, app) ← serve_events (sv_events w) app;
          Some match with_context "the server failed" (sv_served w) with
          | Err e => (Err e, rs, app, [BoundSocket])
          | Ok tt => (Ok tt, rs, shut_down_server templates_clear app, [BoundSocket])
          end
      end
  end.

(** [run]: [None] for the state until there is one. *)
Definition serve_run (fs : FileSystem) (sw : SocketWorld) (w : ServeMeets) (o : Options)
    : option (result unit error * list Response * option (App C) * list ServerEffect) :=
  let (claimed, effects) := claim_socket sw (op_socket o) in
  let effects := map Claimed effects in
  match (let? _ := claimed in
         let? roots := roots_new fs (op_recipe_roots o) in
         let? _ := with_context "failed to start the server's runtime" (sv_runtime w) in
         Ok (mkApp (op_services o) registry_default (templates_new (op_template_ttl o)) roots)) with
  | Err e => Some (Err e, [], None, effects)
  | Ok app =>
      '(r, rs, app, more) ← serve_on (op_socket o) w app;
      Some (r, rs, Some app, effects ++ more ++ [UnlinkedSocket (sv_removed w)])
  end.

(** ** A server's life *)

Context `{!TemplateLaws C T} `{!KeepingLaws C T}.
Context (Hresponses : Forall (λ x, rs_status x ∈ statuses) [too_large; bad_segment; not_json]).

Lemma well_formed_trans (app app' app'' : App C) :
  well_formed app app' → well_formed app' app'' → well_formed app app''.
Proof. intros [] []. split; [done|done|congruence|congruence]. Qed.

Lemma sweep_well_formed now (app : App C) :
  cache_ok (cache app) → registry_ok (registry app) → well_formed app (sweep_tick templates_prune now app).
Proof.
  intros Hc Hr. split; simpl; [by apply prune_ok| |done..].
  destruct (remove_expired_sub now _ Hr) as [Hs He].
  destruct (remove_expired now (registry app)).2 as [st es]. simpl in *. subst st.
  by apply registry_ok_subset.
Qed.

Lemma serve_events_well_formed events (app app' : App C) rs :
  cache_ok (cache app) → registry_ok (registry app) → serve_events events app = Some (rs, app') →
  well_formed app app' ∧ Forall (λ r, rs_status r ∈ statuses) rs.
Proof.
  revert app rs. induction events as [|[rq|now] events IH]; intros app rs Hc Hr; simpl.
  - intros [= <- <-]. split; [by split|constructor].
  - destruct (dispatch rq app) as [[r app1]|] eqn:Hd; simpl; [|done].
    destruct (serve_events events app1) as [[rs1 app2]|] eqn:Hs; simpl; [|done]. intros [= <- <-].
    apply (dispatch_well_formed too_large bad_segment not_json document base64_decode open geteuid
      rq app app1 r Hresponses Hc Hr) in Hd as [Hw Hst].
    apply IH in Hs as [Hw' Hst']; [|apply Hw..]. split; [by eapply well_formed_trans|by constructor].
  - intros Hs. pose proof (sweep_well_formed now app Hc Hr) as Hw.
    apply IH in Hs as [Hw' Hst']; [|apply Hw..]. split; [by eapply well_formed_trans|done].
Qed.

(** C21: a server keeps its promises from start to end.  Whatever requests reach
    it, between whatever sweeps, each is answered with one of the API's statuses,
    and its state is in order: the services are those it was started with, each
    registered id has its entry, the templates keep their laws.  When it ends
    well it has bound its socket and called for its removal, once and last (the
    file stays if that fails), no instance is registered and no template is
    filed: nothing it brought up is kept alive. *)
Theorem server_keeps_its_promises fs sw w o r rs app effects :
  serve_run fs sw w o = Some (r, rs, Some app, effects) →
  Forall (λ x, rs_status x ∈ statuses) rs ∧ services app = op_services o ∧
  cache_ok (cache app) ∧ registry_ok (registry app) ∧
  (r = Ok tt → (∀ id, get id (registry app) = None) ∧ ¬ filed (cache app) ∧
     ∃ claimed, effects = map Claimed claimed ++ [BoundSocket; UnlinkedSocket (sv_removed w)]).
Proof.
  unfold serve_run. destruct (claim_socket sw (op_socket o)) as [claimed es].
  destruct (let? _ := claimed in _) as [app0|e] eqn:Ho; [|done].
  assert (services app0 = op_services o ∧ cache_ok (cache app0) ∧ registry_ok (registry app0))
    as (Hs & Hc & Hr).
  { destruct claimed as [[]|?]; [|done]. destruct (roots_new fs (op_recipe_roots o)); [|done].
    simpl in Ho. destruct (sv_runtime w) as [[]|?]; [|done]. injection Ho as <-. simpl.
    split_and!; [done|apply new_ok|apply registry_ok_default]. }
  clear Ho. unfold serve_on. destruct (sv_bind w) as [[]|e]; simpl.
  2:{ by intros [= <- <- <- <-]. }
  destruct (let? _ := shutdown_signal w in _) as [[]|e]; simpl; [|by intros [= <- <- <- <-]].
  destruct (serve_events (sv_events w) app0) as [[rs1 app1]|] eqn:He; simpl; [|done].
  apply serve_events_well_formed in He as [[Hc1 Hr1 Hs1 _] Hst]; [|done..].
  destruct (sv_served w) as [[]|e]; simpl; intros [= <- <- <- <-]; simpl.
  - split_and!; [done|congruence|by apply clear_ok|by apply registry_ok_subset, map_empty_subseteq|].
    intros _. split_and!; [|apply clear_empty|by exists es].
    intros id. unfold get. simpl. by rewrite lookup_empty.
  - split_and!; [done|congruence|done..].
Qed.
End server.

(** *** The templates of Obtain.v are kept *)

Section kept.
Context (parse_addr : string → option SocketAddr) (sha256 : list byte → string) (ttl : N).
(** What the server's forks and fills will meet. *)
Context (forks : list Forking) (fills : list Filling).
#[local] Instance kept_ops : TemplateOps Cache nat := cache_ops parse_addr sha256 ttl.
#[local] Instance kept_laws : TemplateLaws Cache nat := cache_laws parse_addr sha256 ttl.

#[local] Instance cache_keeping : TemplateKeeping Cache := {|
  templates_new _ := mkCache init forks fills;
  templates_prune c := set_st c (prune (ca_st c));
  templates_clear c := set_st c (clear (ca_st c));
|}.

(** Fewer slots are still each a key's own. *)
Lemma keyed_fewer st m : keyed st → m ⊆ slots st → keyed (set_slots st m).
Proof.
  intros [H1 H2] Hm. split; simpl.
  - intros k c t Hk. apply H1. by eapply lookup_weaken.
  - intros k k' c Hk Hk'. eapply H2; by eapply lookup_weaken.
Qed.

#[local] Program Instance cache_keeping_laws : KeepingLaws Cache nat := {|
  filed c := slots (ca_st c) ≠ ∅;
|}.
Next Obligation. intros n. apply keyed_init. Qed.
Next Obligation. intros c Hc. apply keyed_fewer; [done|]. apply map_filter_subseteq. Qed.
Next Obligation. intros c Hc. apply keyed_fewer; [done|]. apply map_empty_subseteq. Qed.
Next Obligation. by intros c []. Qed.
End kept.

(** ** The socket of several servers *)

Module SharedSocket.
Inductive Stage : Type := Claiming | Serving | Unbound | Gone.
#[global] Instance stage_eq_dec : EqDecision Stage.
Proof. solve_decision. Defined.

(** The server whose socket the path names, if any, and how far each server
    is.  A server that is gone answers nobody. *)
Record Shared : Type := mkShared {
  sh_file : option nat;
  sh_servers : gmap nat Stage;
}.

Definition answers (s : Shared) : bool :=
  match sh_file s with Some q => bool_decide (sh_servers s !! q = Some Serving) | None => false end.

(** What [claim_socket] sees; removing works, and the directory is there. *)
Definition world_of (s : Shared) : SocketWorld :=
  mkSocketWorld (λ p, bool_decide (p ≠ "/run/serve.sock") || bool_decide (is_Some (sh_file s)))
    (answers s) (Ok tt) (λ _, Ok tt).

Definition set_stage (p : nat) (st : Stage) (s : Shared) : Shared :=
  mkShared (sh_file s) (<[p := st]> (sh_servers s)).
Definition set_file (f : option nat) (s : Shared) : Shared := mkShared f (sh_servers s).

(** The steps of [run]: [claim_socket], the bind, which succeeds only where
    there is no file, and the removal at the end, whatever [serve_on] returned. *)
Inductive socket_step : Shared → Shared → Prop :=
  | claim_step s p effects :
      sh_servers s !! p = None → claim_socket (world_of s) "/run/serve.sock" = (Ok tt, effects) →
      socket_step s (set_stage p Claiming
        (if bool_decide (effects = []) then s else set_file None s))
  | bind_step s p :
      sh_servers s !! p = Some Claiming → sh_file s = None →
      socket_step s (set_stage p Serving (set_file (Some p) s))
  | bind_fails_step s p q :
      sh_servers s !! p = Some Claiming → sh_file s = Some q → socket_step s (set_stage p Unbound s)
  | remove_step s p :
      sh_servers s !! p = Some Serving ∨ sh_servers s !! p = Some Unbound →
      socket_step s (set_stage p Gone (set_file None s))
  (** A server is killed: its file stays. *)
  | killed_step s p : is_Some (sh_servers s !! p) → socket_step s (set_stage p Gone s).

Definition nobody : Shared := mkShared None ∅.

(** A step in which no bind fails. *)
Definition bound_step (s s' : Shared) : Prop :=
  socket_step s s' ∧ ∀ p, sh_servers s' !! p ≠ Some Unbound.

Definition owned (s : Shared) : Prop :=
  ∀ p, sh_servers s !! p = Some Serving → sh_file s = Some p.

Lemma owned_step s s' :
  bound_step s s' → (∀ p, sh_servers s !! p ≠ Some Unbound) → owned s → owned s'.
Proof.
  intros [Hs Hn'] Hn Ho. destruct Hs as [s p effects Hp Hclaim|s p Hp Hf|s p q Hp Hf|s p Hp|s p Hp].
  - intros x Hx. simpl in Hx.
    apply lookup_insert_Some in Hx as [[_ [=]]|[Hne Hx]].
    assert (sh_servers s !! x = Some Serving) as Hx' by by destruct (bool_decide _).
    pose proof (Ho _ Hx') as Hfile. unfold claim_socket in Hclaim. simpl in Hclaim.
    rewrite Hfile in Hclaim. simpl in Hclaim. unfold answers in Hclaim. rewrite Hfile in Hclaim.
    by rewrite bool_decide_true in Hclaim by done.
  - intros x Hx. simpl in *. apply lookup_insert_Some in Hx as [[<- _]|[_ Hx]]; [done|].
    apply Ho in Hx. congruence.
  - destruct (Hn' p). apply lookup_insert_eq.
  - destruct Hp as [Hp|Hp]; [|by apply Hn in Hp].
    intros x Hx. simpl in *. apply lookup_insert_Some in Hx as [[_ [=]]|[Hne Hx]].
    apply Ho in Hx, Hp. congruence.
  - intros x Hx. simpl in *. apply lookup_insert_Some in Hx as [[_ [=]]|[_ Hx]]. by apply Ho.
Qed.

(** While every bind succeeds, a server that serves is the one its socket's
    path names. *)
Lemma serving_server_is_reachable s :
  rtc bound_step nobody s → ∀ p, sh_servers s !! p = Some Serving → sh_file s = Some p.
Proof.
  intros Hr. assert ((∀ p, sh_servers s !! p ≠ Some Unbound) ∧ owned s) as [_ Ho]; [|exact Ho].
  revert Hr. apply (rtc_invariant _ (λ s, (∀ p, sh_servers s !! p ≠ Some Unbound) ∧ owned s)).
  - intros x y Hs [Hn Ho]. split; [apply Hs|by eapply owned_step].
  - split; [intros p; simpl; by rewrite lookup_empty|intros p; simpl; by rewrite lookup_empty].
Qed.
End SharedSocket.

Import SharedSocket.

(** A server whose bind fails takes another's socket away.  Two servers can
    both find the path free; the one that binds second fails, and on its way out
    removes the file at the path, which is the first one's: that one goes on
    serving with no path leading to it, and a third server then claims and binds
    the same path beside it. *)
Theorem failed_bind_removes_anothers_socket :
  ∃ s s', rtc socket_step nobody s ∧ sh_servers s !! 0 = Some Serving ∧ sh_file s = None ∧
    rtc socket_step s s' ∧ sh_servers s' !! 0 = Some Serving ∧ sh_servers s' !! 2 = Some Serving.
Proof.
  exists (mkShared None {[0 := Serving; 1 := Gone]}), (mkShared (Some 2) {[0 := Serving; 1 := Gone; 2 := Serving]}).
  split_and!; try done.
  - eapply rtc_l; [by apply (claim_step nobody 0 [])|].
    eapply rtc_l; [by eapply (claim_step _ 1 [])|].
    eapply rtc_l; [by eapply (bind_step _ 0)|].
    eapply rtc_l; [by eapply (bind_fails_step _ 1 0)|].
    eapply rtc_l; [eapply (remove_step _ 1); by right|].
    match goal with |- rtc _ ?x ?y => replace x with y; [done|] end.
    reflexivity.
  - eapply rtc_l; [by apply (claim_step _ 2 [])|].
    eapply rtc_l; [by eapply (bind_step _ 2)|].
    match goal with |- rtc _ ?x ?y => replace x with y; [done|] end.
    reflexivity.
Qed.
