(* ===== verification/Promise.v ===== *)
(** * Requests on the whole manager

    Serve.v, Router.v and Server.v have each request as a function on the
    manager's state; World.v has the manager's threads, owners and processes as
    interleaved steps.  Here a request, or a sweep, that finds the world in any
    state it can reach does what steps of that world do, each handler's
    statements as the operations they are: other requests', owners' and
    processes' steps may come before and after it.  From that and World.v
    follows what a client is promised when its instance is created. *)

From S2P Require Import Prelude Net Protocol Paths Manifest BTree Discovery Api Recipes Host.
From S2P Require Import Manager Owner Templates Obtain Instances Serve World Router Server.
From stdpp Require Import fin_maps.

(** ** A request's calls on the cache *)

Lemma call_keeps n st st' m t :
  rtc (call_step n) st st' → instances st !! m = Some t → instances st' !! m = Some t.
Proof.
  induction 1 as [|x y z (l & _ & Hi) _ IH]; [done|]. intros Hm. apply IH.
  destruct Hi as [-> | (t' & Hn & ->)]; [done|]. rewrite lookup_insert_ne; [done|congruence].
Qed.

Lemma world_calls n s pr ex F D st st' :
  rtc (call_step n) st st' → n ∉ ex →
  ∃ F' D', rtc world_any (mkWorld st s pr ex F D) (mkWorld st' s pr ex F' D').
Proof.
  intros Hr Hn. revert F D.
  induction Hr as [st|st st1 st2 (l & Hs & Hi) _ IH]; intros F D; [by exists F, D|].
  destruct (IH (forgotten F st l) (failed D l)) as (F' & D' & Hr'). exists F', D'.
  eapply rtc_l; [|exact Hr']. exists None. apply w_cache_step; [done|..].
  - intros m t Hm. eapply call_keeps; [|exact Hm]. apply rtc_once. by exists l.
  - intros m [t Hm] Hold. destruct Hi as [Hi|(t' & _ & Hi)]; rewrite Hi in Hm; [congruence|].
    apply lookup_insert_Some in Hm as [[<- _]|[_ Hm]]; [done|congruence].
Qed.

(** The clock moved on. *)
Definition at_time (now : N) (s : Server) : Server := mkServer (sv_registry s) now (sv_renewing s).

Lemma world_tick now st s pr ex F D :
  (sv_now s <= now)%N →
  world_any (mkWorld st s pr ex F D) (mkWorld st (at_time now s) pr ex F D).
Proof.
  intros Hle. exists (Some (OpTick (now - sv_now s))).
  replace (at_time now s) with (Serve.apply (OpTick (now - sv_now s)) s); [by apply w_operate|].
  simpl. unfold at_time. f_equal. lia.
Qed.

Lemma world_operate o st s pr ex F D :
  is_create o = false →
  world_any (mkWorld st s pr ex F D) (mkWorld st (Serve.apply o s) pr ex F D).
Proof. intros Ho. exists (Some o). by apply w_operate. Qed.

Lemma inv_keyed F st : inv F st → keyed st.
Proof. intros [_ H2 _ H3 _ _ _ _]. by split. Qed.

(** A number no process has or had. *)
Lemma fresh_process (I : gmap nat nat) (pr : gmap nat nat) (ex : gset nat) :
  ∃ n, I !! n = None ∧ n ∉ ex ∧ ∀ a, pr !! a ≠ Some n.
Proof.
  set (X := dom I ∪ ex ∪ list_to_set (map_to_list pr).*2 : gset nat).
  exists (fresh X). pose proof (is_fresh X) as Hf. unfold X in Hf at 2.
  rewrite !not_elem_of_union, not_elem_of_dom, not_elem_of_list_to_set in Hf.
  destruct Hf as ((? & ?) & Hpr). split_and!; [done|done|]. intros a Ha. apply Hpr.
  apply list_elem_of_fmap. exists (a, fresh X). split; [done|]. by apply elem_of_map_to_list.
Qed.

(** ** Requests as runs *)

Section requests.
Context `{!PathMatcher}.
Context `{!JsonCodec CreateInstance} `{!JsonCodec RenewInstance} `{!JsonCodec Instance_}.
Context `{!JsonCodec (list Instance_)} `{!JsonCodec (list ServiceEntry)} `{!JsonCodec Problem}.
Context (too_large bad_segment not_json : Response) (document : list byte).
Context (parse_addr : string → option SocketAddr) (sha256 : list byte → string) (template_ttl : N).
Context (base64_decode : string → result (list byte) string).
Context (open : path → result OpenFile string) (geteuid : N).
(** The services the server found and its recipe roots. *)
Context (index : ServiceIndex) (roots : Roots).
#[local] Instance request_ops : TemplateOps Cache nat := cache_ops parse_addr sha256 template_ttl.
Notation create_instance := (create_instance parse_json base64_decode open geteuid).
Notation dispatch := (dispatch too_large bad_segment not_json document base64_decode open geteuid).

(** What a request finds: the registry and the cache as they are, and what its
    forks and fills will meet. *)
Definition view (forks : list Forking) (fills : list Filling) (w : World) : App Cache :=
  mkApp index (sv_registry (w_server w)) (mkCache (w_cache w) forks fills) roots.

(** The world is as the request left it: registry and cache are the ones it
    returned, no process has gone, no renewal is under way that was not. *)
Record answered (app : App Cache) (w w' : World) : Prop := mkAnswered {
  an_registry : sv_registry (w_server w') = registry app;
  an_cache : set_instances (w_cache w') ∅ = set_instances (ca_st (cache app)) ∅;
  an_kept n t : instances (w_cache w) !! n = Some t → instances (w_cache w') !! n = Some t;
  an_renewing : sv_renewing (w_server w') = sv_renewing (w_server w);
  an_exited : w_exited w' = w_exited w;
}.

Lemma answered_same forks fills w : answered (view forks fills w) w w.
Proof. by split. Qed.
Lemma unchanged_runs forks fills w :
  ∃ w', rtc world_any w w' ∧ answered (view forks fills w) w w'.
Proof. exists w. split; [done|apply answered_same]. Qed.

(** [create_instance]: the clone it hands out is the instance registered. *)
Lemma create_runs forks fills w peer body meets x app' :
  world_ok w → (sv_now (w_server w) <= me_adopt meets)%N →
  create_instance peer body meets (view forks fills w) = Some (x, app') →
  ∃ w', rtc world_any w w' ∧ answered app' w w' ∧
    match x with
    | Err _ => True
    | Ok (code, location, inst) =>
        ∃ m recipe ttl e a n t y,
          accepted parse_json base64_decode open geteuid (view forks fills w) peer body meets
            m recipe ttl (i_id inst) ∧
          get (i_id inst) (sv_registry (w_server w')) = Some (a, e) ∧
          a = fresh_entry (sv_registry (w_server w)) ∧ sv_now (w_server w') = me_adopt meets ∧
          en_lease e = mkLease ttl (me_adopt meets + ttl) ∧
          inst = describe (me_describe meets) e ∧
          w_process w' !! a = Some n ∧ instances (w_cache w') !! n = Some t ∧
          templates (w_cache w') !! t = Some y ∧ t_key y = wanted_key (wanted sha256 m recipe) ∧
          up (w_cache w') t = true ∧
          slots (w_cache w') !! wanted_key (wanted sha256 m recipe) = Some (t_slot y)
    end.
Proof.
  intros Hok Hnow. unfold Serve.create_instance.
  pose proof (validate_spec parse_json base64_decode open geteuid (view forks fills w) peer body meets) as Hv.
  destruct (validate_request _ _ _ _ _ _ _ _) as [[[[m recipe] ttl] id]|p];
    [|intros [= <- <-]; exists w; split_and!; [done|apply answered_same|done]].
  destruct w as [st s pr ex F D]. unfold view. cbn [cache registry w_cache w_server] in *.
  destruct (fresh_process (instances st) pr ex) as (n & Hn & Hex & Hpr).
  pose proof (obtain_and_fork_is_a_run parse_addr sha256 template_ttl m recipe
    (fresh (dom (tasks st) : gset nat)) n (mkCache st forks fills)
    (inv_keyed _ _ (wo_cache _ Hok)) (proj1 (not_elem_of_dom _ _) (is_fresh _)) Hn) as Hrun.
  change (@obtain_and_fork Cache nat (cache_ops parse_addr sha256 template_ttl))
    with (@obtain_and_fork Cache nat request_ops) in Hrun.
  destruct (obtain_and_fork m recipe _) as [[[[h ep]|p] c']|]; [| |done]; cbn [ca_st] in Hrun.
  2:{ destruct Hrun as [_ Hrun]. intros [= <- <-].
      destruct (world_calls n s pr ex F D _ _ Hrun Hex) as (F' & D' & Hr).
      eexists. split; [exact Hr|]. split; [|done]. split; try done. intros j t. by eapply call_keeps. }
  destruct Hrun as (t & y & Hy & Hky & Hsl & Hu & Hrun). pose proof (world_calls n s pr ex F D _ _ Hrun Hex)
    as (F' & D' & Hr). unfold adopt. destruct (me_watcher meets) as [[]|e].
  2:{ intros [= <- <-]. eexists. split; [exact Hr|]. split; [|done].
      split; try done. intros j t'. by eapply call_keeps. }
  intros [= <- <-]. eexists. split.
  { etrans; [exact Hr|]. eapply rtc_l; [by apply (world_tick (me_adopt meets))|].
    apply rtc_once. eexists. apply (w_register _ _ _ _ _ _ n id (name (service m))
      (version (service m)) ep ttl); [left; simpl; rewrite lookup_insert_eq; eauto|done]. }
  split; [split; try done; intros j t'; by eapply call_keeps|].
  do 3 eexists. exists (mkEntry id (name (service m)) (version (service m)) ep
    (mkLease ttl (me_adopt meets + ttl)) GuestRunning), (fresh_entry (sv_registry s)), n, t, y.
  split_and!; try done; simpl.
  - rewrite get_insert_fresh, decide_True; [done|done|apply Hok].
  - by rewrite lookup_insert_eq.
  - by rewrite lookup_insert_eq.
Qed.

(** [renew_instance]: the entry is taken, then checked and renewed. *)
Lemma renew_runs forks fills w id body now now' x app' :
  (sv_now (w_server w) <= now)%N →
  renew_instance parse_json id body now now' (view forks fills w) = (x, app') →
  ∃ w', rtc world_any w w' ∧ answered app' w w'.
Proof.
  intros Hnow. unfold renew_instance.
  destruct (match (if bool_decide (body = []) then _ else _) with Ok _ => _ | Err _ => _ end)
    as [ttl|p]; [|intros [= <- <-]; apply unchanged_runs].
  destruct (get id _) as [[a e]|] eqn:Hg; [|intros [= <- <-]; apply unchanged_runs].
  destruct (bool_decide (en_state e = GuestRunning)) eqn:Hrun; simpl;
    [|intros [= <- <-]; apply unchanged_runs].
  destruct w as [st s pr ex F D]. unfold view in *. cbn [registry w_server] in *.
  intros [= <- <-]. set (h := fresh (dom (sv_renewing s) : gset nat)).
  assert (sv_renewing s !! h = None) as Hh by (apply not_elem_of_dom, is_fresh).
  eexists. split.
  { eapply rtc_l; [by apply (world_tick now)|]. eapply rtc_l; [by apply (world_operate (OpRenewGet h id ttl))|].
    apply rtc_once. by apply (world_operate (OpRenew h)). }
  apply get_entry in Hg as Hge. destruct Hge as [_ He].
  cbn [w_server Serve.apply at_time sv_registry]. rewrite Hg. cbn [sv_renewing].
  rewrite lookup_insert_eq. split; try done; cbn -[update_entry].
  - unfold update_entry. f_equal. apply alter_ext. intros e' He'. rewrite He in He'. injection He' as <-.
    unfold renew_running. by rewrite Hrun.
  - by rewrite delete_insert_id.
Qed.

Lemma delete_runs forks fills w id x app' :
  delete_instance id (view forks fills w) = (x, app') → ∃ w', rtc world_any w w' ∧ answered app' w w'.
Proof.
  intros Hd. destruct w as [st s pr ex F D]. eexists.
  split; [apply rtc_once, (world_operate (OpDelete id)); done|].
  unfold delete_instance in Hd. simpl in Hd. destruct (get id (sv_registry s)); injection Hd as <- <-; by split.
Qed.

(** A sweep: expired entries first, then the templates. *)
Lemma sweep_runs forks fills w now :
  (sv_now (w_server w) <= now)%N →
  ∃ w', rtc world_any w w' ∧
    answered (sweep_tick (λ c, set_st c (prune (ca_st c))) now (view forks fills w)) w w'.
Proof.
  intros Hnow. destruct w as [st s pr ex F D]. eexists. split.
  { eapply rtc_l; [by apply (world_tick now)|]. eapply rtc_l; [by apply (world_operate OpSweep)|].
    apply rtc_once, (world_quiet _ Ordinary); [apply step_prune|done]. }
  by split.
Qed.

(** No event is before the world's clock. *)
Definition event_after (now : N) (e : ServerEvent) : Prop :=
  match e with
  | Requested rq => (now <= rq_now rq)%N ∧ (now <= me_adopt (rq_meets rq))%N
  | Swept t => (now <= t)%N
  end.

Lemma handler_runs forks fills w h id rq r app' :
  world_ok w → event_after (sv_now (w_server w)) (Requested rq) →
  call_handler too_large not_json document base64_decode open geteuid h id rq (view forks fills w) =
    Some (r, app') →
  ∃ w', rtc world_any w w' ∧ answered app' w w'.
Proof.
  intros Hok [Hnow Hadopt]. destruct h; simpl; try (intros [= <- <-]; apply unchanged_runs).
  - unfold limited. destruct (bool_decide _); [intros [= <- <-]; apply unchanged_runs|].
    destruct (create_instance _ _ _ _) as [[x app1]|] eqn:Hc; [|done]. intros [= <- <-].
    destruct (create_runs _ _ _ _ _ _ _ _ Hok Hadopt Hc) as (w' & ? & ? & _). eauto.
  - destruct (delete_instance _ _) as [x app1] eqn:Hd. intros [= <- <-]. by eapply delete_runs.
  - unfold limited. destruct (bool_decide _); [intros [= <- <-]; apply unchanged_runs|].
    destruct (renew_instance _ _ _ _ _ _) as [x app1] eqn:Hd. intros [= <- <-].
    eapply renew_runs; [exact Hnow|exact Hd].
Qed.

Lemma dispatch_runs forks fills w rq r app' :
  world_ok w → event_after (sv_now (w_server w)) (Requested rq) →
  dispatch rq (view forks fills w) = Some (r, app') →
  ∃ w', rtc world_any w w' ∧ answered app' w w'.
Proof.
  intros Hok Hnow. unfold Router.dispatch.
  destruct (find_route _ _) as [[captured hs]|]; [|intros [= <- <-]; apply unchanged_runs].
  destruct (handler_for _ _) as [h|]; [|intros [= <- <-]; apply unchanged_runs].
  destruct captured as [seg|]; [destruct (percent_decode seg) as [id|]|]; simpl;
    try (intros [= <- <-]; apply unchanged_runs);
    (destruct (call_handler _ _ _ _ _ _ _ _ _ _) as [[r1 app1]|] eqn:Hh; [|done]);
    intros [= <- <-]; by eapply handler_runs.
Qed.

(** C9: requests and sweeps are runs of the whole manager.  In any state the
    world reaches, whatever the threads, owners and processes did before and are
    in the middle of, an event of the server (a request on any path by any
    method, or a sweep) that is answered leaves the registry and the cache as
    some run of the world's own steps from that state leaves them; in that run
    no process is stopped, and none of the renewals under way is touched. *)
Theorem requests_are_runs forks fills w e rs app' :
  rtc world_any world_start w → event_after (sv_now (w_server w)) e →
  @serve_events _ _ _ _ _ _ _ too_large bad_segment not_json document Cache nat request_ops
    (cache_keeping forks fills) base64_decode open geteuid [e] (view forks fills w) = Some (rs, app') →
  ∃ w', rtc world_any w w' ∧ answered app' w w'.
Proof.
  intros Hreach Hnow. pose proof (world_reachable _ Hreach) as Hok. destruct e as [rq|now]; simpl.
  - destruct (dispatch rq _) as [[r app1]|] eqn:Hd; [|done]. simpl. intros [= <- <-].
    eapply dispatch_runs; [exact Hok|exact Hnow|exact Hd].
  - intros [= <- <-]. by apply sweep_runs.
Qed.

(** C1: a created instance is served for the time asked.  When, in any state
    the world reaches, a creation is answered with an instance, the request was
    accepted for some service, recipe and time, and the world goes by its own
    steps to one that has the instance registered as the answer describes it,
    with a process forked off a template of that service, version and recipe
    which is up and whose slot has not been forgotten, also when the first fork
    failed and the template was forgotten and rebuilt.  From there on, whatever the threads, owners and processes do in any order,
    it stays registered with that process, and the process and its templates
    run, until that time from the adoption has passed, unless a request ends it
    earlier, its own guest exits, or one of its own templates fails or has its
    slot forgotten. *)
Theorem created_instance_is_served forks fills w peer body meets code location inst app' :
  rtc world_any world_start w → (sv_now (w_server w) <= me_adopt meets)%N →
  create_instance peer body meets (view forks fills w) = Some (Ok (code, location, inst), app') →
  ∃ m recipe ttl w1 e a n t y,
    accepted parse_json base64_decode open geteuid (view forks fills w) peer body meets
      m recipe ttl (i_id inst) ∧
    rtc world_any w w1 ∧ answered app' w w1 ∧
    sv_now (w_server w1) = me_adopt meets ∧
    get (i_id inst) (sv_registry (w_server w1)) = Some (a, e) ∧ inst = describe (me_describe meets) e ∧
    templates (w_cache w1) !! t = Some y ∧ t_key y = wanted_key (wanted sha256 m recipe) ∧
    up (w_cache w1) t = true ∧ t_slot y ∉ w_forgotten w1 ∧
    ∀ w2, rtc (world_gentle (i_id inst) ttl) w1 w2 →
      (sv_now (w_server w2) < me_adopt meets + ttl)%N →
      entries (sv_registry (w_server w2)) !! i_id inst = Some a ∧
      w_process w2 !! a = Some n ∧ instance_runs w2 n t.
Proof.
  intros Hreach Hnow Hc. pose proof (world_reachable _ Hreach) as Hok.
  destruct (create_runs _ _ _ _ _ _ _ _ Hok Hnow Hc) as
    (w1 & Hr & Han & m & recipe & ttl & e & a & n & t & y & Hacc & Hg & Ha & Hw & Hl & Hi & Hp & Hn & Hy & Hk & Hu & Hsl).
  assert (world_ok w1) as Hok1 by by apply world_reachable; etrans.
  exists m, recipe, ttl, w1, e, a, n, t, y. split_and!; try done.
  { by destruct (inv_there _ _ (wo_cache _ Hok1) _ _ Hsl). }
  intros w2 Hr2 Hnow2.
  destruct (registered_serving w1 (i_id inst) a e n t) as [Hs Hb]; [done|done| |done|by right|].
  { intros h t' Hh. rewrite (an_renewing _ _ _ Han) in Hh.
    apply (sv_held _ (wo_server _ Hok)) in Hh as [e' He']. by rewrite Ha, fresh_entry_ok in He'. }
  rewrite Hl in Hs, Hb. simpl in Hs, Hb.
  by eapply serving_runs, (serving_run _ _ _ _ _ _ _ w1).
Qed.
End requests.

Module PromiseWitness.
Import ObtainWitness ServeWitness.

(** Bodies of one kind, paths as they are written. *)
#[local] Instance any_codec (V : Type) : JsonCodec V | 10 := {|
  to_vec _ := Ok [x7b]; from_slice _ := Err ["expected value"]
|}.
#[local] Instance create_codec : JsonCodec CreateInstance := {|
  to_vec _ := Ok [x7b]; from_slice _ := Ok asked
|}.
#[local] Instance exact_paths : PathMatcher := {|
  path_match pattern p := if decide (p = pattern) then Some None else None;
  percent_decode := Some
|}.

Definition found : App Cache := view index (mkRoots ["/r"]) (ca_forks world) (ca_fills world) world_start.
Definition plain_answer : Response := mkResponse 500 [] [].
#[local] Instance witness_ops : TemplateOps Cache nat := request_ops parse sha 300.
Definition created : option (result (N * string * Instance_) Problem * App Cache) :=
  create_instance parse_json base64 RecipesWitness.demo_open 1000 (mkPeer None) [] meets found.

(** The instance of a first request is registered and runs. *)
Lemma served_witness :
  ∃ code location inst app' w1 a n t,
    created = Some (Ok (code, location, inst), app') ∧ rtc world_any world_start w1 ∧
    entries (sv_registry (w_server w1)) !! i_id inst = Some a ∧ w_process w1 !! a = Some n ∧
    instance_runs w1 n t.
Proof.
  destruct created as [[[[[code location] inst]|p] app']|] eqn:E.
  - destruct (created_instance_is_served parse sha 300 base64 RecipesWitness.demo_open 1000 index
      (mkRoots ["/r"]) (ca_forks world) (ca_fills world) world_start (mkPeer None) [] meets
      code location inst app') as
      (m & recipe & ttl & w1 & e & a & n & t & y & Hacc & Hr & _ & Hw & _ & _ & _ & _ & _ & _ & Hall).
    + apply rtc_refl.
    + vm_compute. discriminate.
    + exact E.
    + destruct (Hall w1) as (? & ? & ?); [apply rtc_refl| |by exists code, location, inst, app', w1, a, n, t].
      rewrite Hw. destruct Hacc as (_ & _ & _ & _ & _ & _ & [Httl _] & _).
      unfold from_secs, nanos in Httl. lia.
  - vm_compute in E. discriminate E.
  - vm_compute in E. discriminate E.
Defined.

Definition creation : HttpRequest := mkHttp POST "/v1/instances" [] (mkPeer None) 5 7 meets.
Definition answer_created : option (list Response * App Cache) :=
  @serve_events _ _ _ _ _ _ _ plain_answer plain_answer plain_answer [] Cache nat
    (request_ops parse sha 300) (cache_keeping (ca_forks world) (ca_fills world))
    base64 RecipesWitness.demo_open 1000 [Requested creation] found.

Lemma requests_witness :
  ∃ rs app' w', answer_created = Some (rs, app') ∧ map rs_status rs = [201%N] ∧
    rtc world_any world_start w' ∧ answered app' world_start w'.
Proof.
  destruct answer_created as [[rs app']|] eqn:E; [|vm_compute in E; discriminate E].
  assert (map rs_status rs = [201%N]) as Hrs.
  { assert ((λ x, map rs_status x.1) <$> answer_created = Some [201%N]) as H by (vm_compute; reflexivity).
    rewrite E in H. by injection H. }
  destruct (requests_are_runs plain_answer plain_answer plain_answer [] parse sha 300 base64
    RecipesWitness.demo_open 1000 index (mkRoots ["/r"]) (ca_forks world) (ca_fills world)
    world_start (Requested creation) rs app') as (w' & ? & ?).
  - apply rtc_refl.
  - split; vm_compute; discriminate.
  - exact E.
  - by exists rs, app', w'.
Defined.
End PromiseWitness.
