(* ===== verification/Client.v ===== *)
(** * The client of the manager's API

    Models src/crates/servicecache/src/serve/client.rs: one method per
    operation of the API, over one HTTP exchange on the manager's socket.

    The exchange is written against any service; Router.v's is the one the
    theorems are about.  Connecting, the handshake and the two directions of
    the exchange are hyper's and Tokio's; how they fail is an argument. *)

From S2P Require Import Prelude Net Protocol Paths Manifest BTree Discovery Api Recipes Host.
From S2P Require Import Manager Owner Templates Obtain Instances Serve Router Server.

(** ** Errors *)

(** An [anyhow::Error] of the client: an [ApiError], to be downcast, or a
    chain of messages. *)
Inductive ClientError : Type :=
  | ApiError (p : Problem)
  | OtherError (e : error).

(** ** The exchange *)

(** How far an exchange comes. *)
Inductive Exchange : Type :=
  | Exchanged
  | NoConnection (e : error)
  | NoHandshake (e : error)
  | NotBuilt (e : error)
  | NoReply (e : error)
  | ReplyCut (e : error).
#[global] Instance exchanged_dec (x : Exchange) : Decision (x = Exchanged).
Proof. destruct x; [by left|by right..]. Defined.

Section client.
Context `{!JsonCodec CreateInstance} `{!JsonCodec RenewInstance} `{!JsonCodec Instance_}.
Context `{!JsonCodec (list Instance_)} `{!JsonCodec (list ServiceEntry)} `{!JsonCodec Problem}.
(** [String::from_utf8_lossy]. *)
Context (from_utf8_lossy : list byte → string).
(** The service at the other end of the socket, over its state: [None] while
    it has not answered. *)
Context {S : Type} (serve : Method → string → list byte → S → option (Response * S)).
Context (socket : path).

(** [Client::call]: a request that was not sent leaves the service alone; one
    whose answer is lost does not. *)
Definition call (x : Exchange) (m : Method) (p : string) (body : option (list byte)) (s : S)
    : option (result (N * list byte) ClientError * S) :=
  let failed message e := Err (OtherError (message :: e)) in
  let send k :=
    match serve m p (default [] body) s with
    | None => None
    | Some (r, s) => Some (k r, s)
    end in
  match x with
  | NoConnection e => Some (failed ("failed to connect to " +:+ socket) e, s)
  | NoHandshake e => Some (failed "the HTTP handshake failed" e, s)
  | NotBuilt e => Some (failed "failed to build the request" e, s)
  | NoReply e => send (λ _, failed "the request failed" e)
  | ReplyCut e => send (λ _, failed "failed to read the reply" e)
  | Exchanged => send (λ r, Ok (rs_status r, rs_body r))
  end.

(** [refusal]. *)
Definition refusal (code : N) (body : list byte) : ClientError :=
  match (from_slice body : result Problem error) with
  | Ok p => ApiError p
  | Err _ => OtherError ["the manager answered " +:+ pretty code +:+ ": " +:+ from_utf8_lossy body]
  end.

Definition expect_json {T} `{!JsonCodec T} (x : Exchange) (m : Method) (p : string)
    (body : option (list byte)) (expected : N) (s : S) : option (result T ClientError * S) :=
  match call x m p body s with
  | None => None
  | Some (Err e, s) => Some (Err e, s)
  | Some (Ok (code, bytes), s) =>
      if negb (bool_decide (code = expected)) then Some (Err (refusal code bytes), s)
      else match from_slice bytes with
      | Ok v => Some (Ok v, s)
      | Err e => Some (Err (OtherError ("the manager answered with an undecodable body" :: e)), s)
      end
  end.

Definition instance_path (id : string) : string := "/v1/instances/" +:+ id.

(** ** The operations *)

Definition client_services (x : Exchange) (s : S)
    : option (result (list ServiceEntry) ClientError * S) :=
  expect_json x GET "/v1/services" None 200 s.

Definition client_create (x : Exchange) (request : CreateInstance) (s : S)
    : option (result Instance_ ClientError * S) :=
  match with_context "failed to encode the request" (to_vec request) with
  | Err e => Some (Err (OtherError e), s)
  | Ok body => expect_json x POST "/v1/instances" (Some body) 201 s
  end.

Definition client_instances (x : Exchange) (s : S)
    : option (result (list Instance_) ClientError * S) :=
  expect_json x GET "/v1/instances" None 200 s.

Definition client_instance (x : Exchange) (id : string) (s : S)
    : option (result Instance_ ClientError * S) :=
  expect_json x GET (instance_path id) None 200 s.

Definition client_renew (x : Exchange) (id : string) (ttl_seconds : option N) (s : S)
    : option (result Instance_ ClientError * S) :=
  match with_context "failed to encode the request" (to_vec (mkRenew ttl_seconds)) with
  | Err e => Some (Err (OtherError e), s)
  | Ok body => expect_json x POST (instance_path id +:+ "/renew") (Some body) 200 s
  end.

Definition client_delete (x : Exchange) (id : string) (s : S)
    : option (result unit ClientError * S) :=
  match call x DELETE (instance_path id) None s with
  | None => None
  | Some (Err e, s) => Some (Err e, s)
  | Some (Ok (code, body), s) =>
      if negb (bool_decide (code = 204%N)) then Some (Err (refusal code body), s)
      else Some (Ok tt, s)
  end.
End client.

(** ** A created instance can be addressed *)

Lemma hex_digit_plain n : (n < 16)%N → plain_char (hex_digit n) = true.
Proof.
  intros Hn. unfold plain_char. rewrite N_of_hex_digit by done.
  destruct (decide (n < 10)%N).
  - rewrite (bool_decide_true (n < 10)%N) by done. by rewrite bool_decide_true by lia.
  - rewrite (bool_decide_false (n < 10)%N) by done.
    by rewrite (bool_decide_true (97 <= _ <= 122)%N), orb_true_r by lia.
Qed.

Lemma plain_app s t : plain (s +:+ t) = plain s && plain t.
Proof.
  induction s as [|c s IH]; [done|].
  change (String c s +:+ t) with (String c (s +:+ t)). simpl. by rewrite IH, andb_assoc.
Qed.

Lemma hex_of_bytes_plain bytes : plain (hex_of_bytes bytes) = true.
Proof.
  induction bytes as [|b bytes IH]; [done|].
  change (hex_of_bytes (b :: bytes)) with (hex_byte b +:+ hex_of_bytes bytes).
  rewrite plain_app, IH. unfold hex_byte. cbn [plain]. pose proof (Byte.to_N_bounded b).
  rewrite !hex_digit_plain; [done|..].
  - apply N.mod_lt. lia.
  - apply N.Div0.div_lt_upper_bound. lia.
Qed.

Lemma new_id_plain urandom id :
  new_id urandom = Ok id → urandom ≠ Ok [] → plain id = true ∧ id ≠ "".
Proof.
  unfold new_id. destruct urandom as [[|b bytes]|e]; [done| |done]. intros [= <-] _.
  split; [apply (hex_of_bytes_plain (b :: bytes))|done].
Qed.

(** ** The client and the server speak one language *)

(** A handler's result as the client's. *)
Definition answered {A B} (f : A → B) (r : result A Problem) : result B ClientError :=
  match r with Ok a => Ok (f a) | Err p => Err (ApiError p) end.

Section end_to_end.
Context `{Hpm : !PathMatcher} `{Hpl : !PathLaws}.
Context `{!JsonCodec CreateInstance} `{!JsonCodec RenewInstance} `{!JsonCodec Instance_}.
Context `{!JsonCodec (list Instance_)} `{!JsonCodec (list ServiceEntry)} `{!JsonCodec Problem}.
Context `{!JsonLaws CreateInstance} `{!JsonLaws RenewInstance} `{!JsonLaws Instance_}.
Context `{!JsonLaws (list Instance_)} `{!JsonLaws (list ServiceEntry)} `{!JsonLaws Problem}.
Context `{!JsonTotal CreateInstance} `{!JsonTotal RenewInstance} `{!JsonTotal Instance_}.
Context `{!JsonTotal (list Instance_)} `{!JsonTotal (list ServiceEntry)} `{!JsonTotal Problem}.
Context (too_large bad_segment not_json : Response) (document : list byte).
Context {C T : Type} `{!TemplateOps C T} `{!TemplateLaws C T}.
Context (base64_decode : string → result (list byte) string).
Context (open : path → result OpenFile string) (geteuid : N).
Context (from_utf8_lossy : list byte → string) (socket : path).
(** What the request meets. *)
Context (peer : Peer) (now now' : N) (w : Meets).
Notation dispatch := (dispatch too_large bad_segment not_json document base64_decode open geteuid).

(** The manager as the client's service. *)
Definition manager (m : Method) (p : string) (body : list byte) (app : App C)
    : option (Response * App C) := dispatch (mkHttp m p body peer now now' w) app.

Notation call_handler := (call_handler too_large not_json document base64_decode open geteuid).

Lemma with_body_id m (o : option (Response * App C)) :
  m ≠ HEAD → (o ≫= λ '(r, app), Some (with_body m r, app)) = o.
Proof. destruct o as [[r app]|]; [|done]. by destruct m. Qed.

Lemma manager_literal m p body app handlers h :
  m ≠ HEAD → find_route routes p = Some (None, handlers) → handler_for m handlers = Some h →
  manager m p body app = call_handler h "" (mkHttp m p body peer now now' w) app.
Proof.
  intros Hm Hf Hh. unfold manager, Router.dispatch. cbn [rq_path rq_method].
  rewrite Hf, Hh. by apply with_body_id.
Qed.

Lemma manager_segment m p body app handlers h id :
  m ≠ HEAD → plain id = true → find_route routes p = Some (Some id, handlers) →
  handler_for m handlers = Some h →
  manager m p body app = call_handler h id (mkHttp m p body peer now now' w) app.
Proof.
  intros Hm Hp Hf Hh. unfold manager, Router.dispatch. cbn [rq_path rq_method].
  rewrite Hf, Hh, decode_plain by done. by apply with_body_id.
Qed.

Lemma refusal_problem p :
  refusal from_utf8_lossy (rs_status (problem_response p)) (rs_body (problem_response p)) = ApiError p.
Proof.
  unfold refusal, problem_response. destruct (to_total p) as (b & bs & Hp). rewrite Hp. simpl.
  by rewrite (from_to _ _ Hp).
Qed.

Lemma problem_status p n :
  status p ∈ documented → n ∈ [200; 201; 204]%N →
  bool_decide (rs_status (problem_response p) = n) = false.
Proof.
  intros (Hs & Hn0 & Hn1 & Hn4)%documented_status Hn. simpl. rewrite (bool_decide_true (100 <= status p <= 999)%N) by done.
  apply bool_decide_false. set_solver.
Qed.

(** An exchange whose answer is a handler's: the value, or the problem. *)
Lemma expect_json_handler {A V} `{!JsonCodec V, !JsonLaws V, !JsonTotal V}
    m p body code (respond : A → Response) (value : A → V) (r : result A Problem) (app app' : App C) :
  manager m p (default [] body) app = Some (result_response respond r, app') →
  code ∈ [200; 201; 204]%N →
  (∀ a, r = Ok a → ∃ headers, respond a = json_response not_json code headers (value a)) →
  (∀ q, r = Err q → status q ∈ documented) →
  expect_json from_utf8_lossy manager socket Exchanged m p body code app
    = Some (answered value r, app').
Proof.
  intros Hserve Hcode Hok Herr. unfold expect_json, call. rewrite Hserve.
  destruct r as [a|q]; simpl.
  - destruct (Hok a eq_refl) as [headers ->]. unfold json_response.
    destruct (to_total (value a)) as (b & bs & Hb). rewrite Hb. simpl.
    rewrite bool_decide_true by done. simpl. by rewrite (from_to _ _ Hb).
  - pose proof (problem_status q code (Herr q eq_refl) Hcode) as Hs. simpl in Hs. rewrite Hs. simpl.
    by rewrite <- refusal_problem.
Qed.

Lemma limited_fits {A} body (a b : A) :
  (N.of_nat (length body) <= MAX_BODY)%N → limited body a b = b.
Proof. intros Hl. unfold limited. rewrite bool_decide_false; [done|lia]. Qed.

Lemma parse_json_to {V} `{!JsonCodec V, !JsonLaws V} (v : V) json :
  to_vec v = Ok json → parse_json json = Ok v.
Proof. intros Hv. unfold parse_json. by rewrite (from_to _ _ Hv). Qed.

(** Creating, over the wire. *)
Lemma client_create_is_create request (app : App C) :
  cache_ok (cache app) →
  (∀ json, to_vec request = Ok json → (N.of_nat (length json) <= MAX_BODY)%N) →
  client_create from_utf8_lossy manager socket Exchanged request app =
    (λ '(r, app'), (answered snd r, app')) <$>
      create_instance (λ _, Ok request) base64_decode open geteuid peer [] w app.
Proof.
  intros Hc Hl. unfold client_create. destruct (to_total request) as (b & bs & Hj).
  specialize (Hl _ Hj). rewrite Hj. cbn [with_context].
  rewrite <- (create_parsed base64_decode open geteuid parse_json (λ _, Ok request) peer (b :: bs) [] w app)
    by by apply parse_json_to.
  destruct (create_instance parse_json base64_decode open geteuid peer (b :: bs) w app)
    as [[r app']|] eqn:Hr; simpl.
  - apply (expect_json_handler POST _ (Some (b :: bs)) 201 (λ '(code, location, inst),
      json_response not_json code [("location", location)] inst)).
    + rewrite (manager_literal POST _ _ _ _ _ ltac:(done) find_instances eq_refl). simpl.
      rewrite limited_fits by done. by rewrite Hr.
    + set_solver.
    + intros [[code location] inst] ->. apply create_code in Hr as ->. eauto.
    + intros q ->. by eapply create_problem.
  - unfold expect_json, call. cbn [default].
    rewrite (manager_literal POST _ _ _ _ _ ltac:(done) find_instances eq_refl). simpl.
    rewrite limited_fits by done. by rewrite Hr.
Qed.

Lemma client_renew_is_renew id ttl body (app : App C) :
  plain id = true → id ≠ "" → body ≠ [] →
  (∀ json, to_vec (mkRenew ttl) = Ok json → (N.of_nat (length json) <= MAX_BODY)%N) →
  client_renew from_utf8_lossy manager socket Exchanged id ttl app =
    let (r, app') := renew_instance (λ _, Ok (mkRenew ttl)) id body now now' app in
    Some (answered (λ x, x) r, app').
Proof.
  intros Hp Hne Hb Hl. unfold client_renew. destruct (to_total (mkRenew ttl)) as (b & bs & Hj).
  specialize (Hl _ Hj). rewrite Hj. cbn [with_context].
  rewrite <- (renew_parsed parse_json (λ _, Ok (mkRenew ttl)) id (b :: bs) body now now' app)
    by (done || by apply parse_json_to).
  destruct (renew_instance parse_json id (b :: bs) now now' app) as [r app'] eqn:Hr.
  apply (expect_json_handler POST _ (Some (b :: bs)) 200 (json_response not_json 200 [])).
  - unfold instance_path. rewrite string_app_assoc.
    rewrite (manager_segment POST _ _ _ _ _ _ ltac:(done) Hp (find_renew id Hp Hne) eq_refl). simpl.
    rewrite limited_fits by done. by rewrite Hr.
  - set_solver.
  - intros inst _. by eexists.
  - intros q ->. by eapply renew_problem.
Qed.

Lemma client_instance_is_get id (app : App C) :
  plain id = true → id ≠ "" →
  client_instance from_utf8_lossy manager socket Exchanged id app =
    Some (answered (λ x, x) (get_instance id now app), app).
Proof.
  intros Hp Hne. unfold client_instance.
  apply (expect_json_handler GET _ None 200 (json_response not_json 200 [])).
  - by rewrite (manager_segment GET _ _ _ _ _ _ ltac:(done) Hp (find_instance id Hp Hne) eq_refl).
  - set_solver.
  - intros inst _. by eexists.
  - intros q. apply get_problem.
Qed.

Lemma client_delete_is_delete id (app : App C) :
  plain id = true → id ≠ "" →
  client_delete from_utf8_lossy manager socket Exchanged id app =
    let (r, app') := delete_instance id app in Some (answered (λ _, tt) r, app').
Proof.
  intros Hp Hne. unfold client_delete, call. cbn [default].
  rewrite (manager_segment DELETE _ _ _ _ _ _ ltac:(done) Hp (find_instance id Hp Hne) eq_refl). simpl.
  destruct (delete_instance id app) as [[code|q] app'] eqn:Hd; simpl.
  - apply delete_code in Hd as ->. by rewrite bool_decide_true.
  - apply delete_problem in Hd. pose proof (problem_status q 204 Hd ltac:(set_solver)) as Hs.
    simpl in Hs. rewrite Hs. simpl. by rewrite <- refusal_problem.
Qed.

Lemma client_list_is_list (app : App C) :
  client_services from_utf8_lossy manager socket Exchanged app = Some (Ok (list_services app), app) ∧
  client_instances from_utf8_lossy manager socket Exchanged app = Some (Ok (list_instances now app), app).
Proof.
  split.
  - apply (expect_json_handler (A := list ServiceEntry) GET _ None 200 (json_response not_json 200 [])
      (λ x, x) (Ok (list_services app))); [|set_solver|intros ? _; by eexists|done].
    by rewrite (manager_literal GET _ _ _ _ _ ltac:(done) find_services eq_refl).
  - apply (expect_json_handler (A := list Instance_) GET _ None 200 (json_response not_json 200 [])
      (λ x, x) (Ok (list_instances now app))); [|set_solver|intros ? _; by eexists|done].
    by rewrite (manager_literal GET _ _ _ _ _ ltac:(done) find_instances eq_refl).
Qed.

(** C20: the client and the manager's handlers agree.  Over an exchange that
    comes through, each operation of the client is the handler's on the
    manager's state: the same effect, waiting when it waits, the handler's value
    on success and exactly its problem, as an [ApiError], otherwise; provided
    that the request's body is within the limit, the bodies sent are not empty
    and the instance's id is non-empty and made of letters and digits (the
    client puts an id into the path as it is, so that another one may name
    another route). *)
Theorem client_calls_are_handler_calls request id ttl body (app : App C) :
  cache_ok (cache app) →
  (∀ json, to_vec request = Ok json → (N.of_nat (length json) <= MAX_BODY)%N) →
  (∀ json, to_vec (mkRenew ttl) = Ok json → (N.of_nat (length json) <= MAX_BODY)%N) →
  plain id = true → id ≠ "" → body ≠ [] →
  client_create from_utf8_lossy manager socket Exchanged request app =
    (λ '(r, app'), (answered snd r, app')) <$>
      create_instance (λ _, Ok request) base64_decode open geteuid peer [] w app ∧
  client_renew from_utf8_lossy manager socket Exchanged id ttl app =
    (let (r, app') := renew_instance (λ _, Ok (mkRenew ttl)) id body now now' app in
     Some (answered (λ x, x) r, app')) ∧
  client_instance from_utf8_lossy manager socket Exchanged id app =
    Some (answered (λ x, x) (get_instance id now app), app) ∧
  client_delete from_utf8_lossy manager socket Exchanged id app =
    (let (r, app') := delete_instance id app in Some (answered (λ _, tt) r, app')) ∧
  client_services from_utf8_lossy manager socket Exchanged app = Some (Ok (list_services app), app) ∧
  client_instances from_utf8_lossy manager socket Exchanged app = Some (Ok (list_instances now app), app).
Proof.
  intros. pose proof (client_list_is_list app) as [Hs Hi].
  split_and!; [by apply client_create_is_create|by apply client_renew_is_renew|
    by apply client_instance_is_get|by apply client_delete_is_delete|done|done].
Qed.

(** An instance a client has created is the one it then holds: the id it was
    given asks the manager for that instance, which is found running with the
    service, version and endpoint of the answer; deleting it by that id
    succeeds, and from then on the manager knows no such instance. *)
Theorem created_instance_can_be_addressed request inst (app app' : App C) :
  cache_ok (cache app) → registry_ok (registry app) → me_urandom w ≠ Ok [] →
  (∀ json, to_vec request = Ok json → (N.of_nat (length json) <= MAX_BODY)%N) →
  client_create from_utf8_lossy manager socket Exchanged request app = Some (Ok inst, app') →
  ∃ e app'',
    en_state e = GuestRunning ∧ inst = describe (me_describe w) e ∧
    client_instance from_utf8_lossy manager socket Exchanged (i_id inst) app'
      = Some (Ok (describe now e), app') ∧
    client_delete from_utf8_lossy manager socket Exchanged (i_id inst) app' = Some (Ok tt, app'') ∧
    client_instance from_utf8_lossy manager socket Exchanged (i_id inst) app''
      = Some (Err (ApiError (unknown_instance (i_id inst))), app'').
Proof.
  intros Hc Hr Hu Hl Hcreate. rewrite client_create_is_create in Hcreate by done.
  destruct (create_instance _ _ _ _ _ _ _ _) as [[[[[code location] inst']|q] app1]|] eqn:Hi; [|done..].
  injection Hcreate as -> ->.
  apply create_registers in Hi as (Hid & (a & e & Hget & Hinst & Hst) & Hok & _); [|done].
  destruct (new_id_plain _ _ Hid Hu) as [Hp Hne].
  exists e, (set_registry app' (remove (i_id inst) (registry app')).2).
  rewrite !client_instance_is_get, client_delete_is_delete by done.
  unfold get_instance, delete_instance. rewrite Hget. split_and!; [done|done|done| |].
  - unfold remove. by rewrite Hget.
  - unfold get, remove. simpl. by rewrite lookup_delete_eq.
Qed.
End end_to_end.

(** ** Witnesses *)

Module ClientWitness.
Import ObtainWitness ServeWitness.
#[local] Existing Instances ServeWitness.ops ServeWitness.laws.

(** A matcher as Axum documents it. *)
Fixpoint span_char (a : ascii) (s : string) : string * string :=
  match s with
  | EmptyString => ("", "")
  | String c s' =>
      if decide (c = a) then ("", s)
      else let (x, y) := span_char a s' in (String c x, y)
  end.

Definition demo_match (pattern p : string) : option (option string) :=
  let (pre, rest) := span_char "{" pattern in
  match rest with
  | EmptyString => if decide (p = pattern) then Some None else None
  | _ =>
      match str_strip_prefix rest "{id}", str_strip_prefix p pre with
      | Some post, Some q =>
          let (seg, r) := span_char "/" q in
          if decide (seg ≠ "" ∧ r = post) then Some (Some seg) else None
      | _, _ => None
      end
  end.

Lemma span_char_none a s : contains_char a s = false → span_char a s = (s, "").
Proof.
  induction s as [|c s IH]; [done|]. simpl. intros H. apply orb_false_iff in H as [Hc Hs]. simp_bool.
  rewrite decide_False by done. by rewrite IH.
Qed.

Lemma span_char_app a s t : contains_char a s = false → span_char a (s +:+ String a t) = (s, String a t).
Proof.
  induction s as [|c s IH]; intros H.
  - change ("" +:+ String a t) with (String a t). simpl. by rewrite decide_True.
  - change (String c s +:+ String a t) with (String c (s +:+ String a t)).
    simpl in *. apply orb_false_iff in H as [Hc Hs]. simp_bool.
    rewrite decide_False by done. by rewrite IH.
Qed.

Lemma span_char_spec a s x y :
  span_char a s = (x, y) → s = x +:+ y ∧ contains_char a x = false.
Proof.
  revert x. induction s as [|c s IH]; simpl; intros x; [by intros [= <- <-]|].
  destruct (decide (c = a)); [by intros [= <- <-]|]. destruct (span_char a s) as [x' y'].
  intros [= <- <-]. destruct (IH x' eq_refl) as [-> Hx]. split; [done|].
  simpl. rewrite bool_decide_false by done. done.
Qed.

Lemma strip_prefix_inv s p r : str_strip_prefix s p = Some r → s = p +:+ r.
Proof.
  revert s. induction p as [|c p IH]; intros s; [by intros [= ->]|]. simpl.
  destruct s as [|d s]; [done|]. destruct (decide (c = d)) as [->|]; [|done]. by intros ->%IH.
Qed.

Lemma span_segment seg post :
  contains_char "/" seg = false → segment_ends post = true → span_char "/" (seg +:+ post) = (seg, post).
Proof.
  destruct post as [|c post]; simpl.
  - intros. rewrite string_app_nil_r. by apply span_char_none.
  - intros Hs Hc. simp_bool. subst c. by apply span_char_app.
Qed.

Lemma demo_match_capture_pattern pre post p :
  contains_char "{" pre = false →
  demo_match (pre +:+ "{id}" +:+ post) p =
    match str_strip_prefix p pre with
    | Some q => let (seg, r) := span_char "/" q in
        if decide (seg ≠ "" ∧ r = post) then Some (Some seg) else None
    | None => None
    end.
Proof.
  intros Hp. unfold demo_match. change ("{id}" +:+ post) with (String "{" ("id}" +:+ post)).
  rewrite span_char_app by done.
  change (String "{" ("id}" +:+ post)) with ("{id}" +:+ post) at 1. by rewrite str_strip_prefix_app.
Qed.

#[local] Instance demo_matcher : PathMatcher := {|
  path_match := demo_match; percent_decode := Some
|}.
#[local] Instance demo_laws : PathLaws.
Proof.
  split.
  - intros pattern p Hb. unfold path_match, demo_matcher, demo_match. by rewrite span_char_none.
  - intros pre post seg Hpre Hpost He Hne Hs. unfold path_match, demo_matcher.
    rewrite demo_match_capture_pattern, str_strip_prefix_app, span_segment by done.
    by rewrite decide_True.
  - intros pre post p c Hpre Hpost He. unfold path_match, demo_matcher.
    rewrite demo_match_capture_pattern by done.
    destruct (str_strip_prefix p pre) as [q|] eqn:Hq; [|done]. apply strip_prefix_inv in Hq as ->.
    destruct (span_char "/" q) as [seg r] eqn:Hsp. apply span_char_spec in Hsp as [-> Hs].
    destruct (decide _) as [[Hne ->]|]; [|done]. intros [= <-]. by exists seg.
  - done.
Qed.

(** A codec for countable types: a brace, then bits. *)
Fixpoint bits (p : positive) : list byte :=
  match p with
  | xH => []
  | xO p => x00 :: bits p
  | xI p => x01 :: bits p
  end.
Fixpoint unbits (l : list byte) : positive :=
  match l with
  | [] => xH
  | x00 :: l => xO (unbits l)
  | _ :: l => xI (unbits l)
  end.
Lemma unbits_bits p : unbits (bits p) = p.
Proof. induction p as [p IH|p IH|]; simpl; by rewrite ?IH. Qed.

#[local] Instance countable_codec (V : Type) `{Countable V} : JsonCodec V := {|
  to_vec v := Ok (x7b :: bits (encode v));
  from_slice l :=
    match l with
    | x7b :: l => ok_or ["expected value"] (decode (unbits l))
    | _ => Err ["expected value"]
    end
|}.
#[local] Instance countable_laws (V : Type) `{Countable V} : JsonLaws V.
Proof. split. intros m json [= <-]. simpl. by rewrite unbits_bits, decode_encode. Qed.
#[local] Instance countable_total (V : Type) `{Countable V} : JsonTotal V.
Proof. intros m. by eexists _, _. Qed.

#[local] Instance create_eq_dec : EqDecision CreateInstance.
Proof. solve_decision. Defined.
#[local] Instance create_countable : Countable CreateInstance.
Proof.
  refine (inj_countable'
    (λ c, (c_service c, c_version c, c_recipe c, c_recipe_files c, c_ttl_seconds c))
    (λ '(a, b, c, d, e), mkCreate a b c d e) _). by intros [].
Defined.
#[local] Instance renew_eq_dec : EqDecision RenewInstance.
Proof. solve_decision. Defined.
#[local] Instance renew_countable : Countable RenewInstance.
Proof. refine (inj_countable' r_ttl_seconds mkRenew _). by intros []. Defined.
#[local] Instance entry_eq_dec : EqDecision ServiceEntry.
Proof. solve_decision. Defined.
#[local] Instance entry_countable : Countable ServiceEntry.
Proof.
  refine (inj_countable' (λ e, (se_name e, se_version e)) (λ '(a, b), mkServiceEntry a b) _). by intros [].
Defined.
#[local] Instance problem_countable : Countable Problem.
Proof.
  refine (inj_countable' (λ p, (kind p, Api.title p, status p, detail p))
    (λ '(a, b, c, d), mkProblem a b c d) _). by intros [].
Defined.
#[local] Instance endpoint_eq_dec : EqDecision Endpoint.
Proof. solve_decision. Defined.
#[local] Instance instance_eq_dec : EqDecision Instance_.
Proof. solve_decision. Defined.
#[local] Instance instance_countable : Countable Instance_.
Proof.
  refine (inj_countable'
    (λ i, (i_id i, i_service i, i_version i, (e_host (i_endpoint i), e_port (i_endpoint i)),
           bool_decide (i_state i = InstRunning), i_exit_status i, i_expires_in_seconds i))
    (λ '(a, b, c, (h, p), st, x, n),
       mkInstance a b c (mkEndpoint h p) (if st : bool then InstRunning else InstExited) x n) _).
  by intros [a b c [h p] [] x n].
Defined.

Definition teapot : Response := mkResponse 413 [] [].
Definition lossy (_ : list byte) : string := "".
Definition the_manager := manager teapot teapot teapot [] base64 RecipesWitness.demo_open 1000
  (mkPeer None) 9 9 meets.

Lemma fits_example : ∀ json, to_vec asked = Ok json → (N.of_nat (length json) <= MAX_BODY)%N.
Proof. intros json [= <-]. vm_compute. discriminate. Qed.
Lemma fits_renew : ∀ json, to_vec (mkRenew None) = Ok json → (N.of_nat (length json) <= MAX_BODY)%N.
Proof. intros json [= <-]. vm_compute. discriminate. Qed.

Lemma client_calls_witness :
  client_delete lossy the_manager "serve.sock" Exchanged "a1" app1 =
    Some (Ok tt, (delete_instance "a1" app1).2).
Proof.
  pose proof (client_calls_are_handler_calls teapot teapot teapot [] base64 RecipesWitness.demo_open
    1000 lossy "serve.sock" (mkPeer None) 9 9 meets asked "a1" None [x7b] app1 keyed_init
    fits_example fits_renew eq_refl ltac:(discriminate) ltac:(discriminate)) as (_ & _ & _ & H & _).
  exact H.
Defined.

Definition created := client_create lossy the_manager "serve.sock" Exchanged asked app0.

Lemma created_witness :
  ∃ inst app' app'', created = Some (Ok inst, app') ∧
    client_delete lossy the_manager "serve.sock" Exchanged (i_id inst) app' = Some (Ok tt, app'').
Proof.
  destruct created as [[[inst|e] app']|] eqn:E.
  - pose proof (created_instance_can_be_addressed teapot teapot teapot [] base64
      RecipesWitness.demo_open 1000 lossy "serve.sock" (mkPeer None) 9 9 meets asked inst app0 app'
      keyed_init registry_ok_default ltac:(discriminate) fits_example E)
      as (e & app'' & _ & _ & _ & Hd & _).
    exists inst, app', app''. split; [reflexivity|exact Hd].
  - vm_compute in E. discriminate E.
  - vm_compute in E. discriminate E.
Defined.

Definition head_request : HttpRequest := mkHttp HEAD "/v1/instances" [] (mkPeer None) 9 9 meets.
Lemma reads_witness :
  ∃ r, dispatch teapot teapot teapot [] base64 RecipesWitness.demo_open 1000 head_request app1
    = Some (r, app1).
Proof.
  apply (reads_change_nothing teapot teapot teapot [] base64 RecipesWitness.demo_open 1000
    head_request app1); discriminate.
Defined.

(** A creation that is refused: its body is no JSON. *)
Definition bad_create : HttpRequest := mkHttp POST "/v1/instances" [x00] (mkPeer None) 9 9 meets.
Definition answered := dispatch teapot teapot teapot [] base64 RecipesWitness.demo_open 1000 bad_create app1.
Lemma well_formed_witness :
  match answered with
  | Some (r, app') => rs_status r = 400%N ∧ well_formed app1 app' ∧ rs_status r ∈ statuses
  | None => False
  end.
Proof.
  assert (match answered with Some (r, _) => bool_decide (rs_status r = 400%N) | None => false end = true)
    as Hs by (vm_compute; reflexivity).
  destruct answered as [[r app']|] eqn:E; [|discriminate Hs].
  split; [exact (bool_decide_eq_true_1 _ Hs)|].
  apply (requests_keep_the_state_well_formed teapot teapot teapot [] base64
    RecipesWitness.demo_open 1000 bad_create app1 app' r); [|exact keyed_init| |exact E].
  - repeat apply Forall_cons_2; try apply Forall_nil_2; apply (bool_decide_unpack _); vm_compute; exact I.
  - exact (registry_ok_insert 0 _ _ registry_ok_default eq_refl).
Defined.
(** A server that refuses a creation, sweeps, and is told to end. *)
#[local] Instance keeping : TemplateKeeping Cache := cache_keeping (ca_forks world) (ca_fills world).
#[local] Instance keeping_laws : KeepingLaws Cache nat :=
  cache_keeping_laws parse sha 300 (ca_forks world) (ca_fills world).
Definition lived : ServeMeets :=
  mkServeMeets (Ok tt) (Ok tt) (Ok tt) (Ok tt) (Ok tt) [Requested bad_create; Swept 10] (Ok tt) true.
Definition free_path : SocketWorld := mkSocketWorld (λ _, false) false (Ok tt) (λ _, Ok tt).
Definition life :=
  serve_run teapot teapot teapot [] base64 RecipesWitness.demo_open 1000 DiscoveryWitness.demo_disk free_path
    lived (mkOptions "/run/serve.sock" index "/c" 300 []).

Lemma server_witness :
  match life with
  | Some (r, [x], Some app, effects) => r = Ok tt ∧ rs_status x = 400%N ∧ get "a1" (registry app) = None
  | _ => False
  end.
Proof.
  assert (match life with
    | Some (Ok tt, [x], Some _, _) => bool_decide (rs_status x = 400%N) | _ => false end = true) as Hs
    by (vm_compute; reflexivity).
  assert (Forall (λ x, rs_status x ∈ statuses) [teapot; teapot; teapot]) as Ht.
  { repeat apply Forall_cons_2; try apply Forall_nil_2; apply (bool_decide_unpack _); vm_compute; exact I. }
  destruct life as [[[[[[]|e] [|x [|y rs]]] [app|]] effects]|] eqn:E; try discriminate Hs.
  destruct (server_keeps_its_promises teapot teapot teapot [] base64 RecipesWitness.demo_open 1000 Ht
    _ _ _ _ _ _ _ _ E) as (_ & _ & _ & _ & Hend).
  split; [reflexivity|]. split; [exact (bool_decide_eq_true_1 _ Hs)|]. apply (proj1 (Hend eq_refl)).
Defined.
End ClientWitness.
