(* ===== verification/Cache.v ===== *)
(** * The cache of compiled modules

    Models src/crates/servicecache/src/cache.rs: the cache directory, the names
    of an entry's files, and loading and saving an entry as the steps of
    processes that share the directory, with the entry's lock, the write under
    another name and the rename; processes may die at any step, and [clean] may
    remove files at any time.  A process has one operation under way at a time,
    and so a partial file of its own; two threads of one host on the same entry,
    which share the name of it and take turns by the entry's lock, are not
    modelled.  Compiling, serialising and deserialising a module are parameters. *)

From S2P Require Import Prelude Paths.
From stdpp Require Import fin_maps.

(** ** Where the cache is *)

(** A non-empty value of an environment variable. *)
Definition non_empty (value : option string) : option string :=
  match value with Some "" => None | v => v end.

(** [directory]. *)
Definition directory (flag environment xdg home : option string) : result path error :=
  match flag with
  | Some dir => Ok dir
  | None =>
      match non_empty environment with
      | Some dir => Ok dir
      | None =>
          match non_empty xdg with
          | Some xdg => Ok (Paths.join xdg "servicecache")
          | None =>
              match non_empty home with
              | Some home => Ok (Paths.join (Paths.join home ".cache") "servicecache")
              | None =>
                  Err ["no cache directory: set --cache-dir, SERVICECACHE_CACHE_DIR or HOME"]
              end
          end
      end
  end.

(** What an entry is keyed by: the engine's key and the module's digest. *)
Record EntryKey : Type := mkEntryKey { engine : string; hash : string }.
#[global] Instance entry_key_eq_dec : EqDecision EntryKey.
Proof. solve_decision. Defined.
#[global] Instance entry_key_countable : Countable EntryKey.
Proof.
  refine (inj_countable' (λ k, (engine k, hash k)) (λ '(e, h), mkEntryKey e h) _). by intros [].
Defined.

(** [engine_key]: what the engine says of itself, and the digest of the CPU's
    features. *)
Definition engine_key (sha256_hex : string → string) (deterministic_id artifact_format : string)
    (features : list string) : string :=
  deterministic_id +:+ "-" +:+ artifact_format +:+ "-cpu" +:+
  String.substring 0 8 (sha256_hex (join_with "+" features)).

(** The files of an entry: the artifact, its lock, and what a process
    writes before it renames. *)
Inductive File : Type :=
  | Artifact (k : EntryKey)
  | LockFile (k : EntryKey)
  | Partial (k : EntryKey) (pid : nat).
#[global] Instance file_eq_dec : EqDecision File.
Proof. solve_decision. Defined.
#[global] Instance file_countable : Countable File.
Proof.
  refine (inj_countable'
    (λ f, match f with
          | Artifact k => inl (inl k) | LockFile k => inl (inr k) | Partial k p => inr (k, p)
          end)
    (λ x, match x with
          | inl (inl k) => Artifact k | inl (inr k) => LockFile k | inr (k, p) => Partial k p
          end) _). by intros [].
Defined.

(** [ModuleCache::entry], [with_extension("lock")] and the partial's name. *)
Definition entry_dir (dir : path) (k : EntryKey) : path := Paths.join (Paths.join dir "modules") (engine k).
Definition file_path (dir : path) (f : File) : path :=
  match f with
  | Artifact k => Paths.join (entry_dir dir k) (hash k +:+ ".bin")
  | LockFile k => Paths.join (entry_dir dir k) (hash k +:+ ".lock")
  | Partial k pid => Paths.join (entry_dir dir k) (hash k +:+ ".bin" +:+ ".tmp-" +:+ pretty pid)
  end.

(** ** Processes *)

Section cache.
Context {Module : Type}.
Context (sha256 : list byte → string) (compile : list byte → option Module).
Context (serialize : Module → list byte) (deserialize : list byte → option Module).

(** Where in [load_bytes] (or in [save_hashed], which has the module already)
    a process is. *)
Inductive at_ : Type :=
  | CLoad (bytes : list byte)
  | CLock (bytes : list byte)
  | CReload (bytes : list byte)
  | CCompile (bytes : list byte)
  | SLock (m : Module)
  | SCheck (m : Module)
  | CWrite (m : Module)
  | CRename (m : Module)
  | CReturn (r : option Module).

Record Disk : Type := mkDisk {
  files : gmap File (list byte);
  (** Who holds the lock of the lock file there is. *)
  locks : gmap EntryKey nat;
  procs : gmap nat (EntryKey * at_);
}.
Definition disk0 : Disk := mkDisk ∅ ∅ ∅.

(** [load_entry]. *)
Definition load_entry (d : Disk) (k : EntryKey) : option Module :=
  files d !! Artifact k ≫= deserialize.

Definition goto (p : nat) (k : EntryKey) (a : at_) (d : Disk) : Disk :=
  mkDisk (files d) (locks d) (<[p := (k, a)]> (procs d)).
Definition put (f : File) (c : list byte) (d : Disk) : Disk :=
  mkDisk (<[f := c]> (files d)) (locks d) (procs d).
(** [lock_entry]: the lock file is created when absent, never truncated, and
    its lock taken. *)
Definition lock_entry (p : nat) (k : EntryKey) (d : Disk) : Disk :=
  mkDisk (<[LockFile k := default [] (files d !! LockFile k)]> (files d)) (<[k := p]> (locks d)) (procs d).
(** The kernel drops the lock with the descriptor. *)
Definition unlock (p : nat) (k : EntryKey) (d : Disk) : Disk :=
  mkDisk (files d) (if decide (locks d !! k = Some p) then delete k (locks d) else locks d) (procs d).
Definition return_ (p : nat) (k : EntryKey) (r : option Module) (d : Disk) : Disk :=
  goto p k (CReturn r) (unlock p k d).

Inductive step : Disk → Disk → Prop :=
  | step_start d p k bytes :
      procs d !! p = None → hash k = sha256 bytes → step d (goto p k (CLoad bytes) d)
  | step_start_save d p k m :
      procs d !! p = None → (∃ bytes, hash k = sha256 bytes ∧ compile bytes = Some m) →
      step d (goto p k (SLock m) d)
  | step_hit d p k bytes m :
      procs d !! p = Some (k, CLoad bytes) → load_entry d k = Some m →
      step d (goto p k (CReturn (Some m)) d)
  | step_miss d p k bytes :
      procs d !! p = Some (k, CLoad bytes) → load_entry d k = None →
      step d (goto p k (CLock bytes) d)
  (** [lock_entry] returns once nobody holds the lock. *)
  | step_lock d p k bytes :
      procs d !! p = Some (k, CLock bytes) → locks d !! k = None →
      step d (goto p k (CReload bytes) (lock_entry p k d))
  | step_save_lock d p k m :
      procs d !! p = Some (k, SLock m) → locks d !! k = None →
      step d (goto p k (SCheck m) (lock_entry p k d))
  | step_rehit d p k bytes m :
      procs d !! p = Some (k, CReload bytes) → load_entry d k = Some m →
      step d (return_ p k (Some m) d)
  | step_remiss d p k bytes :
      procs d !! p = Some (k, CReload bytes) → load_entry d k = None →
      step d (goto p k (CCompile bytes) d)
  | step_compiled d p k bytes m :
      procs d !! p = Some (k, CCompile bytes) → compile bytes = Some m →
      step d (goto p k (CWrite m) d)
  | step_save_there d p k m :
      procs d !! p = Some (k, SCheck m) → is_Some (files d !! Artifact k) →
      step d (return_ p k (Some m) d)
  | step_save_absent d p k m :
      procs d !! p = Some (k, SCheck m) → files d !! Artifact k = None →
      step d (goto p k (CWrite m) d)
  (** [serialize_to_file], some of it and all of it. *)
  | step_writing d p k m c :
      procs d !! p = Some (k, CWrite m) → step d (put (Partial k p) c d)
  | step_written d p k m :
      procs d !! p = Some (k, CWrite m) →
      step d (goto p k (CRename m) (put (Partial k p) (serialize m) d))
  | step_renamed d p k m c :
      procs d !! p = Some (k, CRename m) → files d !! Partial k p = Some c →
      step d (return_ p k (Some m)
                (mkDisk (<[Artifact k := c]> (delete (Partial k p) (files d))) (locks d) (procs d)))
  (** Any call may fail. *)
  | step_failed d p k a : procs d !! p = Some (k, a) → step d (return_ p k None d)
  (** A process ends, or dies where it is. *)
  | step_gone d p k a :
      procs d !! p = Some (k, a) →
      step d (mkDisk (files (unlock p k d)) (locks (unlock p k d)) (delete p (procs d))).

(** [clean]: one file of the directory goes; with a lock file, its lock no
    longer excludes anybody. *)
Definition clean_step (d d' : Disk) : Prop :=
  ∃ f, d' = mkDisk (delete f (files d))
              (match f with LockFile k => delete k (locks d) | _ => locks d end) (procs d).

Definition any_step (d d' : Disk) : Prop := step d d' ∨ clean_step d d'.

(** ** A reader sees no artifact or a complete one *)

(** The module was compiled from bytes of the key's digest. *)
Definition of_key (k : EntryKey) (m : Module) : Prop :=
  ∃ bytes, hash k = sha256 bytes ∧ compile bytes = Some m.

(** What a process may return. *)
Definition served (k : EntryKey) (m : Module) : Prop :=
  of_key k m ∨ ∃ m', of_key k m' ∧ deserialize (serialize m') = Some m.

Definition at_ok (d : Disk) (p : nat) (k : EntryKey) (a : at_) : Prop :=
  match a with
  | CLoad bytes | CLock bytes | CReload bytes | CCompile bytes => hash k = sha256 bytes
  | SLock m | SCheck m | CWrite m => of_key k m
  | CRename m => of_key k m ∧ ∀ c, files d !! Partial k p = Some c → c = serialize m
  | CReturn (Some m) => served k m
  | CReturn None => True
  end.

Record whole (d : Disk) : Prop := mkWhole {
  whole_files k c : files d !! Artifact k = Some c → ∃ m, of_key k m ∧ c = serialize m;
  whole_procs p k a : procs d !! p = Some (k, a) → at_ok d p k a;
}.

Lemma at_ok_files d d' p k a :
  (∀ c, files d' !! Partial k p = Some c → files d !! Partial k p = Some c) →
  at_ok d p k a → at_ok d' p k a.
Proof. intros Hf. destruct a as [| | | | | | |m|[]]; try done. intros [? Hc]. split; [done|]. auto. Qed.

(** One process moves; the files change, if at all, by its own partial or by a
    complete artifact. *)
Lemma whole_move d d' p k a :
  whole d → procs d' = <[p := (k, a)]> (procs d) →
  (∀ k' c, files d' !! Artifact k' = Some c → files d !! Artifact k' = Some c ∨
     ∃ m, of_key k' m ∧ c = serialize m) →
  (∀ k' p' c, p' ≠ p → files d' !! Partial k' p' = Some c → files d !! Partial k' p' = Some c) →
  at_ok d' p k a → whole d'.
Proof.
  intros [W1 W2] Hp Ha Hf Hok. split.
  - intros k' c Hc. destruct (Ha _ _ Hc) as [Hc'|Hm]; [by eapply W1|done].
  - intros p' k' a' Hp'. rewrite Hp in Hp'. apply lookup_insert_Some in Hp' as [[<- [= <- <-]]|[Hne Hp']]; [done|].
    eapply at_ok_files; [|by eapply W2]. intros c. by apply Hf.
Qed.

Lemma load_entry_served d k m : whole d → load_entry d k = Some m → served k m.
Proof.
  intros Hw. unfold load_entry. destruct (files d !! Artifact k) as [c|] eqn:Hc; [|done]. simpl. intros Hm.
  destruct (whole_files _ Hw _ _ Hc) as (m' & Hof & ->). right. eauto.
Qed.

Lemma whole_goto d p k a : whole d → at_ok d p k a → whole (goto p k a d).
Proof. intros Hw Hok. eapply (whole_move d); [done|done|auto..|done]. Qed.

Lemma whole_return d p k r :
  whole d → (∀ m, r = Some m → served k m) → whole (return_ p k r d).
Proof.
  intros Hw Hr. eapply (whole_move d); [done|done|auto..|]. destruct r; simpl; auto.
Qed.

Lemma whole_put d p k m c : whole d → procs d !! p = Some (k, CWrite m) → whole (put (Partial k p) c d).
Proof.
  intros [W1 W2] Hp. split; simpl.
  - intros k' c' Hc. rewrite lookup_insert_ne in Hc by done. by eapply W1.
  - intros p' k' a' Hp'. specialize (W2 _ _ _ Hp').
    destruct (decide (p' = p)) as [->|Hne]; [rewrite Hp in Hp'; by injection Hp' as <- <-|].
    eapply at_ok_files; [|done]. simpl. intros c'. rewrite lookup_insert_ne; [done|congruence].
Qed.

Lemma whole_lock d p k a :
  whole d → at_ok d p k a →
  whole (goto p k a (lock_entry p k d)).
Proof.
  intros Hw Hok. eapply (whole_move d); [done|done|..]; simpl.
  - intros k' c. rewrite lookup_insert_ne by done. auto.
  - intros k' p' c _. by rewrite lookup_insert_ne.
  - eapply at_ok_files; [|done]. simpl. intros c. by rewrite lookup_insert_ne.
Qed.

Lemma step_whole d d' : step d d' → whole d → whole d'.
Proof.
  intros Hs Hw. pose proof (whole_procs _ Hw) as W2.
  destruct Hs as [d p k b Hn Hh|d p k m Hn Ho|d p k b m Hp Hm|d p k b Hp Hm|d p k b Hp Hl|d p k m Hp Hl
    |d p k b m Hp Hm|d p k b Hp Hm|d p k b m Hp Hc|d p k m Hp Ht|d p k m Hp Ht|d p k m c Hp|d p k m Hp
    |d p k m c Hp Hc|d p k a Hp|d p k a Hp]; try (pose proof (W2 _ _ _ Hp) as Hok; simpl in Hok).
  - by apply whole_goto.
  - by apply whole_goto.
  - apply whole_goto; [done|]. by eapply load_entry_served.
  - by apply whole_goto.
  - by apply whole_lock.
  - by apply whole_lock.
  - apply whole_return; [done|]. intros ? [= <-]. by eapply load_entry_served.
  - by apply whole_goto.
  - apply whole_goto; [done|]. by exists b.
  - apply whole_return; [done|]. intros ? [= <-]. by left.
  - by apply whole_goto.
  - by eapply whole_put.
  - apply whole_goto; [by eapply whole_put|]. split; [done|]. simpl. intros c. rewrite lookup_insert_eq.
    by intros [= <-].
  - destruct Hok as [Hof Hser]. rewrite (Hser _ Hc). eapply (whole_move d); [done|done|..]; simpl.
    + intros k' c' Hk'. apply lookup_insert_Some in Hk' as [[[= <-] <-]|[_ Hk']]; [right; eauto|left].
      by apply lookup_delete_Some in Hk' as [_ ?].
    + intros k' p' c' _. rewrite lookup_insert_ne by done. by intros [_ ?]%lookup_delete_Some.
    + by left.
  - by apply whole_return.
  - destruct Hw as [W1 _]. split; simpl; [done|]. intros p' k' a' [_ Hp']%lookup_delete_Some.
    eapply at_ok_files; [|by eapply W2]. done.
Qed.

Lemma clean_whole d d' : clean_step d d' → whole d → whole d'.
Proof.
  intros (f & ->) [W1 W2]. split; simpl.
  - intros k c [_ Hc]%lookup_delete_Some. by eapply W1.
  - intros p k a Hp. eapply at_ok_files; [|by eapply W2]. simpl. by intros c [_ ?]%lookup_delete_Some.
Qed.

Lemma whole_disk0 : whole disk0.
Proof. split; simpl; intros *; by rewrite lookup_empty. Qed.

Lemma reachable_whole d : rtc any_step disk0 d → whole d.
Proof.
  apply rtc_invariant; [|apply whole_disk0]. intros x y [Hs|Hs]; [by apply step_whole|by apply clean_whole].
Qed.
End cache.

(** C34: a reader of the module cache sees no artifact or a complete one, and
    nothing stale.  Under any interleaving of processes loading and saving,
    failing and dying at any point, and of the cache being cleaned, the file of
    an entry, whenever it is there, is the whole serialisation of a module
    compiled from bytes with the entry's digest; and a process that gets a
    module gets one compiled from the bytes it asked for, or what the engine
    makes of such a one's serialisation. *)
Theorem cache_entries_are_whole {Module} (sha256 : list byte → string)
    (compile : list byte → option Module) (serialize : Module → list byte)
    (deserialize : list byte → option Module) d :
  rtc (any_step sha256 compile serialize deserialize) disk0 d →
  (∀ k c, files d !! Artifact k = Some c →
     ∃ bytes m, hash k = sha256 bytes ∧ compile bytes = Some m ∧ c = serialize m) ∧
  (∀ p k m, procs d !! p = Some (k, CReturn (Some m)) →
     ∃ bytes m', hash k = sha256 bytes ∧ compile bytes = Some m' ∧
       (m = m' ∨ deserialize (serialize m') = Some m)).
Proof.
  intros Hr. apply reachable_whole in Hr as [W1 W2]. split.
  - intros k c Hc. destruct (W1 _ _ Hc) as (m & (bytes & Hh & Hm) & ->). eauto.
  - intros p k m Hp. destruct (W2 _ _ _ Hp) as [(bytes & Hh & Hm)|(m' & (bytes & Hh & Hm) & Hd)]; eauto 6.
Qed.

(** ** One compile per entry *)

Section exclusion.
Context {Module : Type}.
Context (sha256 : list byte → string) (compile : list byte → option Module).
Context (serialize : Module → list byte) (deserialize : list byte → option Module).
Notation step := (step sha256 compile serialize deserialize).
Notation load_entry := (load_entry deserialize).
Notation Disk := (@Disk Module).
Notation at_ := (@at_ Module).

(** The process holds the entry's lock; it is about to replace the artifact. *)
Definition holding (a : at_) : bool :=
  match a with CReload _ | CCompile _ | SCheck _ | CWrite _ | CRename _ => true | _ => false end.
Definition replacing (a : at_) : bool :=
  match a with CCompile _ | CWrite _ | CRename _ => true | _ => false end.

Record exclusive (d : Disk) : Prop := mkExclusive {
  ex_lock p k a : procs d !! p = Some (k, a) → holding a = true → locks d !! k = Some p;
  ex_absent p k a : procs d !! p = Some (k, a) → replacing a = true → load_entry d k = None;
}.

Lemma replacing_holding a : replacing a = true → holding a = true.
Proof. by destruct a. Qed.

(** A process moves, the locks and artifacts staying as they are for the
    others. *)
Lemma exclusive_move d d' p k a :
  exclusive d → procs d' = <[p := (k, a)]> (procs d) →
  (∀ k' p', p' ≠ p → locks d !! k' = Some p' → locks d' !! k' = Some p') →
  (∀ k' p', p' ≠ p → locks d !! k' = Some p' → load_entry d' k' = load_entry d k') →
  (holding a = true → locks d' !! k = Some p) →
  (replacing a = true → load_entry d' k = None) → exclusive d'.
Proof.
  intros [E1 E2] Hp Hl Hf Hh Hr. split; intros p' k' a' Hp' Ha'; rewrite Hp in Hp';
    apply lookup_insert_Some in Hp' as [[<- [= <- <-]]|[Hne Hp']]; auto.
  - apply Hl; [done|]. by eapply E1.
  - rewrite (Hf k' p'); [by eapply E2|done|]. eapply E1; [done|]. by apply replacing_holding.
Qed.

Lemma unlock_others (d : Disk) p k k' p' :
  p' ≠ p → locks d !! k' = Some p' → locks (unlock p k d) !! k' = Some p'.
Proof.
  intros Hne Hl. unfold unlock. simpl. destruct (decide (locks d !! k = Some p)) as [Hk|]; [|done].
  rewrite lookup_delete_ne; [done|congruence].
Qed.

Lemma exclusive_goto d p k a :
  exclusive d → (holding a = true → locks d !! k = Some p) →
  (replacing a = true → load_entry d k = None) → exclusive (goto p k a d).
Proof. intros He Hh Hr. by eapply (exclusive_move d). Qed.

Lemma exclusive_return d p k r : exclusive d → exclusive (return_ p k r d).
Proof.
  intros He. eapply (exclusive_move d); [done|done| |done|done|done].
  intros k' p' Hne. by apply unlock_others.
Qed.

Lemma exclusive_lock d p k a :
  exclusive d → locks d !! k = None → replacing a = false →
  exclusive (goto p k a (lock_entry p k d)).
Proof.
  intros He Hl Hr. eapply (exclusive_move d); [done|done|..]; simpl.
  - intros k' p' _ Hk'. rewrite lookup_insert_ne; [done|congruence].
  - intros k' p' _ _. unfold load_entry. simpl. by rewrite lookup_insert_ne.
  - intros _. apply lookup_insert_eq.
  - by rewrite Hr.
Qed.

Lemma step_exclusive d d' : step d d' → exclusive d → exclusive d'.
Proof.
  intros Hs He. pose proof He as [E1 E2].
  destruct Hs as [d p k b Hn Hh|d p k m Hn Ho|d p k b m Hp Hm|d p k b Hp Hm|d p k b Hp Hl|d p k m Hp Hl
    |d p k b m Hp Hm|d p k b Hp Hm|d p k b m Hp Hc|d p k m Hp Ht|d p k m Hp Ht|d p k m c Hp|d p k m Hp
    |d p k m c Hp Hc|d p k a Hp|d p k a Hp];
    try (by apply exclusive_goto); try (by apply exclusive_return); try (by apply exclusive_lock).
  - apply exclusive_goto; [done|intros _; by eapply E1|done].
  - apply exclusive_goto; [done|intros _; by eapply E1|intros _; by eapply E2].
  - apply exclusive_goto; [done|intros _; by eapply E1|]. intros _. unfold load_entry. by rewrite Ht.
  - split; simpl; [exact E1|]. intros p' k' a' Hp' Ha'. unfold load_entry. simpl.
    rewrite lookup_insert_ne by done. by eapply E2.
  - eapply (exclusive_move d); [done|done|done|..]; simpl.
    + intros k' p' _ _. unfold load_entry. simpl. by rewrite lookup_insert_ne.
    + intros _. by eapply E1.
    + intros _. unfold load_entry. simpl. rewrite lookup_insert_ne by done. by eapply (E2 p k (CWrite m)).
  - eapply (exclusive_move d); [done|done| |..]; simpl; [| |done|done].
    + intros k' p' Hne Hk'. by apply (unlock_others d).
    + intros k' p' Hne Hk'. unfold load_entry. simpl.
      assert (k' ≠ k) as Hkk by (intros ->; rewrite (E1 _ _ _ Hp eq_refl) in Hk'; congruence).
      rewrite lookup_insert_ne by congruence. by rewrite lookup_delete_ne.
  - split; simpl; intros p' k' a' [Hne Hp']%lookup_delete_Some Ha'.
    + apply (unlock_others d); [done|]. by eapply E1.
    + by eapply E2.
Qed.

Lemma exclusive_disk0 : exclusive disk0.
Proof. split; simpl; intros *; by rewrite lookup_empty. Qed.

(** An artifact that loads stays one that does. *)
Lemma step_loads k d d' :
  (∀ m, is_Some (deserialize (serialize m))) → whole sha256 compile serialize deserialize d →
  step d d' → is_Some (load_entry d k) → is_Some (load_entry d' k).
Proof.
  intros Hrt Hw Hs Hl. unfold Cache.load_entry in *.
  destruct Hs as [d p k' b Hn Hh|d p k' m Hn Ho|d p k' b m Hp Hm|d p k' b Hp Hm|d p k' b Hp Hl'|d p k' m Hp Hl'
    |d p k' b m Hp Hm|d p k' b Hp Hm|d p k' b m Hp Hc|d p k' m Hp Ht|d p k' m Hp Ht|d p k' m c Hp|d p k' m Hp
    |d p k' m c Hp Hc|d p k' a Hp|d p k' a Hp]; simpl; rewrite ?lookup_insert_ne by done; try done.
  pose proof (whole_procs _ _ _ _ _ Hw _ _ _ Hp) as [_ Hser]. rewrite (Hser _ Hc).
  destruct (decide (k' = k)) as [->|Hne].
  - rewrite lookup_insert_eq. simpl. apply Hrt.
  - rewrite lookup_insert_ne by congruence. by rewrite lookup_delete_ne.
Qed.
End exclusion.

(** C35: processes missing on one entry take turns.  While the directory is not
    cleaned, at most one process at a time compiles or writes an entry, and none
    does while the entry holds an artifact that loads; so once one has been
    stored, and if what the engine writes it can read, nobody ever compiles that
    entry again. *)
Theorem one_compile_per_entry {Module} (sha256 : list byte → string)
    (compile : list byte → option Module) (serialize : Module → list byte)
    (deserialize : list byte → option Module) d :
  rtc (step sha256 compile serialize deserialize) disk0 d →
  (∀ p p' k a a', procs d !! p = Some (k, a) → procs d !! p' = Some (k, a') →
     replacing a = true → replacing a' = true → p = p') ∧
  (∀ p k a, procs d !! p = Some (k, a) → replacing a = true → load_entry deserialize d k = None) ∧
  ((∀ m, is_Some (deserialize (serialize m))) →
   ∀ k d', is_Some (load_entry deserialize d k) →
     rtc (step sha256 compile serialize deserialize) d d' →
     ∀ p bytes, procs d' !! p ≠ Some (k, CCompile bytes)).
Proof.
  intros Hr.
  assert (∀ d', rtc (step sha256 compile serialize deserialize) disk0 d' → exclusive deserialize d') as Hex.
  { intros d'. apply rtc_invariant; [|apply exclusive_disk0]. intros x y. by apply step_exclusive. }
  destruct (Hex d Hr) as [E1 E2]. split_and!.
  - intros p p' k a a' Hp Hp' Ha Ha'. pose proof (E1 _ _ _ Hp (replacing_holding _ Ha)).
    pose proof (E1 _ _ _ Hp' (replacing_holding _ Ha')). congruence.
  - exact E2.
  - intros Hrt k d' Hl Hr' p bytes Hp.
    assert (whole sha256 compile serialize deserialize d' ∧ is_Some (load_entry deserialize d' k)) as [_ [m Hm]].
    { assert (whole sha256 compile serialize deserialize d) as Hw.
      { apply reachable_whole. apply (rtc_subrel (step sha256 compile serialize deserialize)); [|done].
        intros x y Hs. by left. }
      clear Hr Hp E1 E2. induction Hr' as [d|d d1 d2 Hs _ IH]; [done|]. apply IH.
      - by eapply step_loads.
      - by eapply step_whole. }
    destruct (Hex d') as [_ E2']; [by etrans|]. by rewrite (E2' _ _ _ Hp eq_refl) in Hm.
Qed.

Module CacheWitness.
Definition sha (b : list byte) : string := "d" +:+ pretty (N.of_nat (length b)).
Definition comp (b : list byte) : option (list byte) := Some (x63 :: b).
Definition ser (m : list byte) : list byte := m.
Definition de (c : list byte) : option (list byte) := Some c.
Definition key : EntryKey := mkEntryKey "cranelift-v1-cpu0" (sha [x61]).

(** One process compiles and stores; a second finds it after waiting. *)
Definition stored : Disk :=
  mkDisk {[ Artifact key := [x63; x61]; LockFile key := [] ]} ∅
    {[ 0%nat := (key, CReturn (Some [x63; x61])); 1%nat := (key, CReturn (Some [x63; x61])) ]}.

Ltac go c := eapply rtc_l; [eapply c; first [reflexivity | by vm_compute]|].
Lemma reach_stored : rtc (step sha comp ser de) disk0 stored.
Proof.
  eapply rtc_l; [apply (step_start _ _ _ _ disk0 0%nat key [x61]); reflexivity|].
  eapply rtc_l; [eapply (step_start _ _ _ _ _ 1%nat key [x61]); reflexivity|].
  eapply rtc_l; [eapply (step_miss _ _ _ _ _ 0%nat key [x61]); reflexivity|].
  eapply rtc_l; [eapply (step_miss _ _ _ _ _ 1%nat key [x61]); reflexivity|].
  eapply rtc_l; [eapply (step_lock _ _ _ _ _ 0%nat key [x61]); reflexivity|].
  eapply rtc_l; [eapply (step_remiss _ _ _ _ _ 0%nat key [x61]); reflexivity|].
  eapply rtc_l; [eapply (step_compiled _ _ _ _ _ 0%nat key [x61] [x63; x61]); reflexivity|].
  eapply rtc_l; [eapply (step_writing _ _ _ _ _ 0%nat key [x63; x61] [x63]); reflexivity|].
  eapply rtc_l; [eapply (step_written _ _ _ _ _ 0%nat key [x63; x61]); reflexivity|].
  eapply rtc_l; [eapply (step_renamed _ _ _ _ _ 0%nat key [x63; x61] [x63; x61]); reflexivity|].
  eapply rtc_l; [eapply (step_lock _ _ _ _ _ 1%nat key [x61]); reflexivity|].
  eapply rtc_l; [eapply (step_rehit _ _ _ _ _ 1%nat key [x61] [x63; x61]); reflexivity|].
  match goal with |- rtc _ ?x ?y => replace x with y by (vm_compute; reflexivity) end. apply rtc_refl.
Qed.

Lemma whole_witness :
  ∃ bytes m, hash key = sha bytes ∧ comp bytes = Some m ∧ [x63; x61] = ser m.
Proof.
  apply (proj1 (cache_entries_are_whole sha comp ser de stored
    (rtc_subrel _ _ _ _ (λ x y Hs, or_introl Hs) reach_stored)) key). reflexivity.
Defined.

Lemma one_compile_witness :
  procs stored !! 1%nat ≠ Some (key, CCompile [x61]) ∧ is_Some (load_entry de stored key).
Proof.
  assert (is_Some (load_entry de stored key)) as Hl by (eexists; vm_compute; reflexivity).
  split; [|exact Hl].
  destruct (one_compile_per_entry sha comp ser de stored reach_stored) as (_ & _ & H).
  apply (H ltac:(intros m; by eexists) key stored Hl (rtc_refl _ _)).
Defined.
End CacheWitness.
