(* ===== verification/ModuleCache.v ===== *)
(** * Loading and saving compiled modules

    Models the methods of [ModuleCache] in src/crates/servicecache/src/cache.rs
    as the functions they are: loading a module file or bytes ([load],
    [load_bytes]), saving one ([save_hashed]), and the engine's view of the
    cache ([impl WasixModuleCache]).  What the system answers each call is an
    argument, and what other processes do to the directory while the entry's
    lock is waited for.

    Cache.v has the directory as a state that processes change step by step;
    here each method is shown to be a run of one such process, so the theorems
    there hold of it. *)

From S2P Require Import Prelude Text Paths Cache.
From stdpp Require Import fin_maps.

Notation Files := (gmap File (list byte)).

(** [CacheError] of the engine library. *)
Inductive CacheError : Type := NotFound | OtherCacheError (e : error).

(** What [lock_entry] meets, and what others do before it gets the lock. *)
Record LockMeets : Type := mkLockMeets {
  lm_create : result unit error;
  lm_open : result unit error;
  lm_lock : result unit error;
  lm_meanwhile : Files → Files;
}.

(** What [store_entry] meets: a failed write leaves some of it behind. *)
Record StoreMeets : Type := mkStoreMeets {
  sm_write : option (list byte * error);
  sm_rename : result unit error;
}.

Section ops.
Context {Module : Type}.
Context (sha256 : list byte → string) (compile : list byte → result Module error).
Context (serialize : Module → list byte) (deserialize : list byte → option Module).
(** The cache's directory, the engine's key and the process. *)
Context (dir : path) (engine : string) (pid : nat).

Definition entry (hash : string) : EntryKey := mkEntryKey engine hash.

(** [load_entry]: the artifact, if it is there and loads. *)
Definition load_file (k : EntryKey) (fs : Files) : option Module := fs !! Artifact k ≫= deserialize.

(** The lock file is created, or left as it is. *)
Definition touch (k : EntryKey) (fs : Files) : Files := <[LockFile k := default [] (fs !! LockFile k)]> fs.

(** [lock_entry]. *)
Definition lock_file (k : EntryKey) (w : LockMeets) (fs : Files) : result unit error * Files :=
  match with_context ("failed to create " +:+ entry_dir dir k) (lm_create w) with
  | Err e => (Err e, fs)
  | Ok tt =>
      match with_context ("failed to open " +:+ file_path dir (LockFile k)) (lm_open w) with
      | Err e => (Err e, fs)
      | Ok tt =>
          (with_context ("failed to lock " +:+ file_path dir (LockFile k)) (lm_lock w),
           lm_meanwhile w (touch k fs))
      end
  end.

(** [store_entry]. *)
Definition store_entry (k : EntryKey) (m : Module) (w : StoreMeets) (fs : Files) : result unit error * Files :=
  let partial := Partial k pid in
  match sm_write w with
  | Some (some, e) => (Err (("failed to write " +:+ file_path dir partial) :: e), <[partial := some]> fs)
  | None =>
      match with_context ("failed to move " +:+ file_path dir partial +:+ " into place") (sm_rename w) with
      | Err e => (Err e, <[partial := serialize m]> fs)
      | Ok tt => (Ok tt, <[Artifact k := serialize m]> (delete partial fs))
      end
  end.

(** [ModuleCache::load_bytes]. *)
Definition load_bytes (bytes : list byte) (label : string) (lw : LockMeets) (sw : StoreMeets) (fs : Files)
    : result Module error * Files :=
  let k := entry (sha256 bytes) in
  match load_file k fs with
  | Some m => (Ok m, fs)
  | None =>
      match lock_file k lw fs with
      | (Err e, fs) => (Err e, fs)
      | (Ok tt, fs) =>
          match load_file k fs with
          | Some m => (Ok m, fs)
          | None =>
              match with_context ("failed to compile " +:+ label) (compile bytes) with
              | Err e => (Err e, fs)
              | Ok m =>
                  match store_entry k m sw fs with
                  | (Err e, fs) => (Err e, fs)
                  | (Ok tt, fs) => (Ok m, fs)
                  end
              end
          end
      end
  end.

(** [ModuleCache::load]: [read] is what [fs::read] answers. *)
Definition load (p : path) (read : result (list byte) error) (lw : LockMeets) (sw : StoreMeets) (fs : Files)
    : result Module error * Files :=
  match with_context ("failed to read " +:+ p) read with
  | Err e => (Err e, fs)
  | Ok bytes => load_bytes bytes p lw sw fs
  end.

(** [ModuleCache::save_hashed]. *)
Definition save_hashed (hash : string) (m : Module) (lw : LockMeets) (sw : StoreMeets) (fs : Files)
    : result unit error * Files :=
  let k := entry hash in
  match lock_file k lw fs with
  | (Err e, fs) => (Err e, fs)
  | (Ok tt, fs) =>
      match fs !! Artifact k with
      | Some _ => (Ok tt, fs)
      | None => store_entry k m sw fs
      end
  end.

(** [impl WasixModuleCache for ModuleCache]: the key as the engine prints it. *)
Definition wasix_load (key : string) (fs : Files) : result Module CacheError :=
  match load_file (entry (string_lower key)) fs with Some m => Ok m | None => Err NotFound end.

Definition wasix_contains (key : string) (fs : Files) : result bool CacheError :=
  Ok (bool_decide (is_Some (fs !! Artifact (entry (string_lower key))))).

(** [error.to_string()] keeps the outermost message. *)
Definition wasix_save (key : string) (m : Module) (lw : LockMeets) (sw : StoreMeets) (fs : Files)
    : result unit CacheError * Files :=
  match save_hashed (string_lower key) m lw sw fs with
  | (Ok tt, fs) => (Ok tt, fs)
  | (Err e, fs) => (Err (OtherCacheError (take 1 e)), fs)
  end.

(** ** Each method is a run of a process *)

Definition compiled (bytes : list byte) : option Module :=
  match compile bytes with Ok m => Some m | Err _ => None end.
Notation step := (Cache.step sha256 compiled serialize deserialize).
Notation Disk := (@Disk Module).

(** A run of [pid] from [d] that ends with this answer and these files. *)
Definition ends (d : Disk) (k : EntryKey) (r : option Module) (fs : Files) : Prop :=
  ∃ d', rtc step d d' ∧ procs d' !! pid = Some (k, CReturn r) ∧ files d' = fs.

Lemma ends_l d d' k r fs : step d d' → ends d' k r fs → ends d k r fs.
Proof. intros Hs (d'' & Hr & H). exists d''. split; [by eapply rtc_l|done]. Qed.

Lemma ends_return (d : Disk) k r : ends (return_ pid k r d) k r (files d).
Proof. eexists. split_and!; [apply rtc_refl|apply lookup_insert_eq|done]. Qed.

Lemma goto_at (d : Disk) k a : procs (goto pid k a d) !! pid = Some (k, a).
Proof. apply lookup_insert_eq. Qed.

Lemma goto_goto (d : Disk) k a k' a' : goto pid k a (goto pid k' a' d) = goto pid k a d.
Proof. unfold goto. simpl. by rewrite insert_insert_eq. Qed.

Lemma ends_failed d k a fs : procs d !! pid = Some (k, a) → files d = fs → ends d k None fs.
Proof. intros Hp <-. eapply ends_l; [by eapply step_failed|]. apply ends_return. Qed.

(** The result of an operation, as the process's answer. *)
Definition answer {A} (m : A → option Module) (r : result A error) : option Module :=
  match r with Ok a => m a | Err _ => None end.

Lemma store_entry_runs d k m sw r fs :
  procs d !! pid = Some (k, CWrite m) → store_entry k m sw (files d) = (r, fs) →
  ends d k (answer (λ _, Some m) r) fs.
Proof.
  intros Hp. unfold store_entry. destruct (sm_write sw) as [[some e]|].
  - intros [= <- <-]. eapply ends_l; [by apply (step_writing _ _ _ _ _ pid k m some)|].
    by apply (ends_failed _ k (CWrite m)).
  - destruct (sm_rename sw) as [[]|e]; simpl; intros [= <- <-];
      (eapply ends_l; [by apply (step_written _ _ _ _ _ pid k m)|]).
    + eapply ends_l; [eapply (step_renamed _ _ _ _ _ pid k m (serialize m)); [apply goto_at|]|].
      * apply lookup_insert_eq.
      * simpl. rewrite delete_insert_eq. refine (ends_return (mkDisk _ _ _) k (Some m)).
    + by apply (ends_failed _ k (CRename m)); [apply goto_at|].
Qed.

(** The same once the lock is held. *)
Lemma reload_runs d bytes label k sw r fs :
  procs d !! pid = Some (k, CReload bytes) →
  match load_file k (files d) with
  | Some m => (Ok m, files d)
  | None =>
      match with_context ("failed to compile " +:+ label) (compile bytes) with
      | Err e => (Err e, files d)
      | Ok m =>
          match store_entry k m sw (files d) with
          | (Err e, fs) => (Err e, fs)
          | (Ok tt, fs) => (Ok m, fs)
          end
      end
  end = (r, fs) → ends d k (answer Some r) fs.
Proof.
  intros Hp. destruct (load_file k (files d)) as [m|] eqn:Hl.
  { intros [= <- <-]. eapply ends_l; [by eapply step_rehit|]. apply ends_return. }
  intros H. eapply ends_l; [by eapply step_remiss|].
  destruct (compile bytes) as [m|e] eqn:Hc; simpl in H.
  - eapply ends_l; [eapply step_compiled; [apply goto_at|unfold compiled; by rewrite Hc]|].
    destruct (store_entry k m sw (files d)) as [r' fs'] eqn:Hs.
    apply (store_entry_runs (goto pid k (CWrite m) (goto pid k (CCompile bytes) d)) k m) in Hs;
      [|apply goto_at]. by destruct r' as [[]|e]; injection H as <- <-.
  - injection H as <- <-. by apply (ends_failed _ k (CCompile bytes)); [apply goto_at|].
Qed.

Section waiting.
(** Others act while the lock is waited for, and leave it free: [at_lock] is
    where this process waits, [after] is the disk when it is its turn. *)
Context (d after : Disk) (k : EntryKey) (at_lock : @at_ Module) (lw : LockMeets).
Context (Hwait : rtc step (goto pid k at_lock d) after).
Context (Hat : procs after !! pid = Some (k, at_lock)) (Hfree : locks after !! k = None).
Context (Hmean : lm_meanwhile lw (touch k (files d)) = touch k (files after)).

(** A failed lock is a failed process; an open lock file stays. *)
Lemma lock_file_runs at_locked r fs :
  step after (goto pid k at_locked (lock_entry pid k after)) →
  lock_file k lw (files d) = (r, fs) →
  match r with
  | Err _ => ends (goto pid k at_lock d) k None fs
  | Ok _ => fs = files (goto pid k at_locked (lock_entry pid k after))
  end.
Proof.
  intros Hs. unfold lock_file. rewrite Hmean.
  destruct (lm_create lw) as [[]|e1]; simpl;
    [|intros [= <- <-]; by apply (ends_failed _ k at_lock); [apply goto_at|]].
  destruct (lm_open lw) as [[]|e2]; simpl;
    [|intros [= <- <-]; by apply (ends_failed _ k at_lock); [apply goto_at|]].
  destruct (lm_lock lw) as [[]|e3]; simpl; intros [= <- <-]; [done|].
  pose proof (ends_failed (goto pid k at_locked (lock_entry pid k after)) k at_locked _ (goto_at _ _ _) eq_refl)
    as (d' & Hr & Hd'). exists d'. split; [|done]. etrans; [exact Hwait|]. by eapply rtc_l.
Qed.

Lemma ends_wait k' r fs : ends after k' r fs → ends (goto pid k at_lock d) k' r fs.
Proof. intros (d' & Hr & H). exists d'. split; [by etrans|done]. Qed.
End waiting.

(** [load_bytes] is a run of a process that loads. *)
Theorem load_bytes_is_a_run (d after : Disk) bytes label lw sw r fs :
  let k := entry (sha256 bytes) in
  procs d !! pid = None →
  rtc step (goto pid k (CLock bytes) d) after → procs after !! pid = Some (k, CLock bytes) →
  locks after !! k = None → lm_meanwhile lw (touch k (files d)) = touch k (files after) →
  load_bytes bytes label lw sw (files d) = (r, fs) → ends d k (answer Some r) fs.
Proof.
  intros k Hp Hwait Hat Hfree Hmean. unfold load_bytes. fold k. intros H.
  eapply ends_l; [by apply (step_start _ _ _ _ d pid k bytes)|].
  destruct (load_file k (files d)) as [m|] eqn:Hl.
  { injection H as <- <-. eapply ends_l; [by eapply step_hit; [apply goto_at|]|].
    eexists. split_and!; [apply rtc_refl|apply goto_at|done]. }
  eapply ends_l; [by eapply step_miss; [apply goto_at|]|]. rewrite goto_goto.
  assert (step after (goto pid k (CReload bytes) (lock_entry pid k after))) as Hlock
    by by apply step_lock.
  destruct (lock_file k lw (files d)) as [[[]|e] fs'] eqn:Hf;
    pose proof (lock_file_runs d after k (CLock bytes) lw Hwait Hmean (CReload bytes) _ _ Hlock Hf) as Hr.
  - eapply ends_wait; [exact Hwait|]. eapply ends_l; [exact Hlock|].
    eapply (reload_runs _ bytes label); [apply goto_at|]. rewrite <- Hr. exact H.
  - by injection H as <- <-.
Qed.

(** [save_hashed] is a run of a process that saves. *)
Lemma save_hashed_is_a_run (d after : Disk) hash m lw sw r fs :
  let k := entry hash in
  procs d !! pid = None → (∃ bytes, hash = sha256 bytes ∧ compile bytes = Ok m) →
  rtc step (goto pid k (SLock m) d) after → procs after !! pid = Some (k, SLock m) →
  locks after !! k = None → lm_meanwhile lw (touch k (files d)) = touch k (files after) →
  save_hashed hash m lw sw (files d) = (r, fs) → ends d k (answer (λ _, Some m) r) fs.
Proof.
  intros k Hp (bytes & Hh & Hc) Hwait Hat Hfree Hmean. unfold save_hashed. fold k. intros H.
  eapply ends_l; [apply (step_start_save _ _ _ _ d pid k m); [done|]|].
  { exists bytes. split; [done|]. unfold compiled. by rewrite Hc. }
  assert (step after (goto pid k (SCheck m) (lock_entry pid k after))) as Hlock
    by by apply step_save_lock.
  destruct (lock_file k lw (files d)) as [[[]|e] fs'] eqn:Hf;
    pose proof (lock_file_runs d after k (SLock m) lw Hwait Hmean (SCheck m) _ _ Hlock Hf) as Hr.
  - eapply ends_wait; [exact Hwait|]. eapply ends_l; [exact Hlock|]. rewrite Hr in H.
    destruct (files (goto pid k (SCheck m) (lock_entry pid k after)) !! Artifact k) as [c|] eqn:Ha.
    + injection H as <- <-. eapply ends_l; [by eapply step_save_there; [apply goto_at|]|].
      refine (ends_return _ k (Some m)).
    + eapply ends_l; [by eapply step_save_absent; [apply goto_at|]|].
      eapply store_entry_runs; [apply goto_at|]. exact H.
  - by injection H as <- <-.
Qed.

(** ** What was loaded is found *)

(** A module the cache has returned for some bytes is what the engine finds
    for them: the entry is there under the key the engine prints for their
    digest, in either case of letters, loading it gives that module, loading
    the bytes again gives it with no compile, and saving any module under the
    key changes nothing but, at most, an empty lock file.  The engine reads what
    it writes. *)
Theorem loaded_modules_are_found bytes label lw sw fs fs' m key :
  (∀ m, deserialize (serialize m) = Some m) → string_lower key = sha256 bytes →
  load_bytes bytes label lw sw fs = (Ok m, fs') →
  wasix_contains key fs' = Ok true ∧ wasix_load key fs' = Ok m ∧
  (∀ label' lw' sw', load_bytes bytes label' lw' sw' fs' = (Ok m, fs')) ∧
  ∀ m' lw' sw', lm_meanwhile lw' (touch (entry (sha256 bytes)) fs') = touch (entry (sha256 bytes)) fs' →
    (wasix_save key m' lw' sw' fs').2 ∈ [fs'; touch (entry (sha256 bytes)) fs'].
Proof.
  intros Hrt Hkey Hload. set (k := entry (sha256 bytes)) in *.
  assert (load_file k fs' = Some m) as Hl.
  { unfold load_bytes in Hload. fold k in Hload.
    destruct (load_file k fs) as [m0|] eqn:H0; [by injection Hload as <- <-|].
    destruct (lock_file k lw fs) as [[[]|e] fs1]; [|done].
    destruct (load_file k fs1) as [m1|] eqn:H1; [by injection Hload as <- <-|].
    destruct (compile bytes) as [m2|e]; simpl in Hload; [|done].
    unfold store_entry in Hload. destruct (sm_write sw) as [[??]|]; [done|].
    destruct (sm_rename sw) as [[]|e]; simpl in Hload; [|done]. injection Hload as <- <-.
    unfold load_file. rewrite lookup_insert_eq. apply Hrt. }
  assert (is_Some (fs' !! Artifact k)) as Ha.
  { unfold load_file in Hl. by destruct (fs' !! Artifact k). }
  unfold wasix_contains, wasix_load. rewrite Hkey. fold k. rewrite Hl, bool_decide_true by done.
  split_and!; [done..|intros; unfold load_bytes; fold k; by rewrite Hl|].
  intros m' lw' sw' Hmean. unfold wasix_save, save_hashed, lock_file. rewrite Hkey. fold k.
  destruct (lm_create lw') as [[]|e1]; simpl; [|by left]. destruct (lm_open lw') as [[]|e2]; simpl; [|by left].
  rewrite Hmean. destruct (lm_lock lw') as [[]|e3]; simpl; [|right; by left].
  unfold touch at 1. rewrite lookup_insert_ne by done. destruct Ha as [c ->]. right. by left.
Qed.
End ops.

Module ModuleCacheWitness.
Definition sha (b : list byte) : string := match b with [] => "d0" | _ => "d1" end.
Definition comp (b : list byte) : result (list byte) error := Ok (x63 :: b).
Definition all_well : LockMeets := mkLockMeets (Ok tt) (Ok tt) (Ok tt) id.
Definition stores : StoreMeets := mkStoreMeets None (Ok tt).
Definition the_cache := load_bytes sha comp id Some "/c" "cranelift" 7 [x61] "m.wasm" all_well stores ∅.

Lemma loads : the_cache = (Ok [x63; x61], the_cache.2).
Proof.
  assert (the_cache.1 = Ok [x63; x61]) as <- by (vm_compute; reflexivity). apply surjective_pairing.
Qed.

Lemma found_witness :
  the_cache.1 = Ok [x63; x61] ∧ wasix_load Some "cranelift" "D1" the_cache.2 = Ok [x63; x61].
Proof.
  destruct (loaded_modules_are_found sha comp id Some "/c" "cranelift" 7 [x61] "m.wasm"
    all_well stores ∅ the_cache.2 [x63; x61] "D1" (λ m, eq_refl) eq_refl loads) as (_ & H & _).
  split; [vm_compute; reflexivity|exact H].
Defined.
End ModuleCacheWitness.
