(* ===== verification/Cli.v ===== *)
(** * The command line

    Models src/crates/servicecache/src/cli.rs: where services and the socket are
    looked for, naming a service, bringing one up for [run] ([run_service]), the
    loop that forks clones on request ([run_with_clones]) and the one that holds
    an instance of a server ([hold_instance]).  Argument parsing, printing and
    signal descriptors are the libraries' and the terminal's; what they answer is
    an argument. *)

From S2P Require Import Prelude Text Net Protocol Paths Manifest BTree Discovery Api Host Manager.
From S2P Require Import Instances.

(** ** Directories and names *)

Definition SYSTEM_DEFAULTS : list path :=
  ["/usr/local/share/servicecache/services"; "/usr/share/servicecache/services"].

Definition service_dirs (flags : list path) (environment home : option string) : list path :=
  match flags with
  | _ :: _ => flags
  | [] =>
      match environment with
      | Some value => filter (λ p, p ≠ "") (split_on ":" value)
      | None =>
          match home with
          | Some home =>
              [Paths.join (Paths.join (Paths.join (Paths.join home ".local") "share") "servicecache")
                 "services"]
          | None => []
          end ++ SYSTEM_DEFAULTS
      end
  end.

Definition split_service (service : string) : string * option string :=
  match split_once "@" service with
  | Some (name, version) => (name, Some version)
  | None => (service, None)
  end.

Definition find_service (services : ServiceIndex) (service : string) : result Manifest error :=
  let (name, version) := split_service service in
  match select services name version with
  | Ok m => Ok m
  | Err NotFound => Err ["no installed service matches " +:+ service]
  | Err (Ambiguous versions) =>
      Err [name +:+ " is installed in several versions (" +:+ join_with ", " versions +:+
           "); name one as " +:+ name +:+ "@<version>"]
  end.

Definition socket_path (flag environment runtime_dir : option string) (temp : path) (uid : N) : path :=
  match flag with
  | Some p => p
  | None =>
      match environment, runtime_dir with
      | Some (String c s), _ => String c s
      | _, Some (String c s) => Paths.join (Paths.join (String c s) "servicecache") "serve.sock"
      | _, _ => Paths.join (Paths.join temp ("servicecache-" +:+ pretty uid)) "serve.sock"
      end
  end.

(** ** Forking clones on request *)

(** What [poll] answers of the template's channel, the signals and stdin. *)
Inductive Polled : Type :=
  | Ready3 (template signal stdin : bool)
  | Interrupted
  | PollFailed (e : error).

(** What one fork meets, printing included. *)
Record ForkMeets : Type := mkForkMeets {
  fm_sockets : result unit error;
  fm_sent : result unit error;
  fm_own : list incoming;
  fm_printed : result unit error;
}.

(** What one round of the loop meets. *)
Record CloneRound : Type := mkCloneRound {
  cr_poll : Polled;
  cr_signal : result unit error;
  (** The line read, [false] at the end of input. *)
  cr_line : result bool error;
  cr_freeze : result unit error;
  cr_forks : list ForkMeets;
}.

(** The loop's variables. *)
Record Clones : Type := mkClones {
  cl_template : HostProcess;
  cl_terminal : bool;
  cl_clones : list N;
  cl_frozen : bool;
  cl_failed : bool;
}.

Inductive turn : Type :=
  | TurnOn (c : Clones)
  | TurnEnds (r : result Z error) (c : Clones)
  | TurnWaits.

Definition set_template (h : HostProcess) (c : Clones) : Clones :=
  mkClones h (cl_terminal c) (cl_clones c) (cl_frozen c) (cl_failed c).

Section clones.
Context (parse : string → option SocketAddr).

(** [for _ in 0..count]. *)
Fixpoint fork_clones (count : nat) (meets : list ForkMeets) (c : Clones) : turn :=
  match count with
  | O => TurnOn c
  | S count =>
      match meets with
      | [] => TurnWaits
      | m :: meets =>
          match manager_fork (fm_sockets m) parse (fm_sent m) (fm_own m) (cl_template c) with
          | None => TurnWaits
          | Some (Err e, h) => TurnEnds (Err e) (set_template h c)
          | Some (Ok (clone, _), h) =>
              match with_context "failed to write the endpoint" (fm_printed m) with
              | Err e => TurnEnds (Err e) (set_template h c)
              | Ok _ =>
                  fork_clones count meets
                    (mkClones h (cl_terminal c) (cl_clones c ++ [hp_pid clone]) (cl_frozen c)
                       (cl_failed c))
              end
          end
      end
  end.

(** The event of the template's channel. *)
Definition on_event (c : Clones) : turn :=
  match read_event (cl_template c) with
  | None => TurnWaits
  | Some (Err e, h) => TurnEnds (Err e) (set_template h c)
  | Some (Ok (Exited RunGuest status _), h) => TurnEnds (Ok status) (set_template h c)
  | Some (Ok (Exited _ status (Some pid)), h) =>
      let clones := filter (λ p, p ≠ pid) (cl_clones c) in
      let failed := cl_failed c || negb (bool_decide (status = 0%Z)) in
      let c := mkClones h (cl_terminal c) clones (cl_frozen c) failed in
      if bool_decide (clones = []) then TurnEnds (Ok (if failed then 1%Z else 0%Z)) c else TurnOn c
  | Some (Ok other, h) =>
      TurnEnds (Err ["unexpected event from the template: " +:+ reply_debug other]) (set_template h c)
  end.

(** Freezing, once, and forking. *)
Definition freeze_and_fork (count : nat) (r : CloneRound) (c : Clones) : turn :=
  if cl_frozen c then fork_clones count (cr_forks r) c
  else match manager_freeze (cr_freeze r) (cl_template c) with
  | None => TurnWaits
  | Some (Err e, h) => TurnEnds (Err e) (set_template h c)
  | Some (Ok _, h) =>
      fork_clones count (cr_forks r)
        (mkClones h (cl_terminal c) (cl_clones c) true (cl_failed c))
  end.

(** One round of [run_with_clones]. *)
Definition clone_round (count : nat) (r : CloneRound) (c : Clones) : turn :=
  match cr_poll r with
  | Interrupted => TurnOn c
  | PollFailed e => TurnEnds (Err ("poll failed" :: e)) c
  | Ready3 template signal stdin =>
      let stdin := stdin && cl_terminal c in
      match (if template then on_event c else TurnOn c) with
      | TurnOn c =>
          match (if signal then with_context "failed to read the signal" (cr_signal r) else Ok tt) with
          | Err e => TurnEnds (Err e) c
          | Ok _ =>
              match (if stdin then with_context "failed to read stdin" (cr_line r) else Ok true) with
              | Err e => TurnEnds (Err e) c
              | Ok line =>
                  let c := mkClones (cl_template c) (if stdin then line else cl_terminal c)
                             (cl_clones c) (cl_frozen c) (cl_failed c) in
                  if signal || (stdin && line) then freeze_and_fork count r c else TurnOn c
              end
          end
      | t => t
      end
  end.

Fixpoint run_with_clones (count : nat) (rounds : list CloneRound) (c : Clones) : turn :=
  match rounds with
  | [] => TurnOn c
  | r :: rounds =>
      match clone_round count r c with
      | TurnOn c => run_with_clones count rounds c
      | t => t
      end
  end.
End clones.

(** ** Bringing a service up *)

(** What [run_service] meets on its way to the endpoint. *)
Record BringUp : Type := mkBringUp {
  bu_spawned : result HostProcess error;
  bu_prepare : result unit error;
  bu_bound : result unit string;
  bu_start : result unit error;
  bu_init : result unit error;
}.

(** [run_service] up to its banner: the process and its endpoint; [None] while
    a request is unanswered. *)
Definition bring_up (parse : string → option SocketAddr) (manifest : Manifest)
    (recipe : option (list byte)) (w : BringUp) : option (result (HostProcess * SocketAddr) error) :=
  let initialize h endpoint :=
    match recipe, initializer manifest with
    | Some _, Some _ =>
        match manager_initialize (bu_init w) h with
        | None => None
        | Some (Ok 0%Z, h) => Some (Ok (h, endpoint))
        | Some (Ok status, _) => Some (Err ["the initializer exited with status " +:+ pretty status])
        | Some (Err e, _) => Some (Err e)
        end
    | Some _, None =>
        Some (Err [name (service manifest) +:+ " has no initializer to give the recipe to"])
    | None, _ => Some (Ok (h, endpoint))
    end in
  let start h :=
    match manager_start (bu_bound w) parse (bu_start w) h with
    | None => None
    | Some (Err e, _) => Some (Err e)
    | Some (Ok endpoint, h) => initialize h endpoint
    end in
  match bu_spawned w with
  | Err e => Some (Err e)
  | Ok h =>
      match prepare manifest with
      | None => start h
      | Some _ =>
          match manager_prepare (bu_prepare w) h with
          | None => None
          | Some (Ok 0%Z, h) => start h
          | Some (Ok status, _) => Some (Err ["the prepare step exited with status " +:+ pretty status])
          | Some (Err e, _) => Some (Err e)
          end
      end
  end.

(** ** Holding an instance *)

Definition REQUEST_TTL : N := from_secs 30.
Definition REQUEST_RENEW_INTERVAL : N := from_secs 10.

Inductive HoldEnd : Type :=
  | HoldReleased
  | HoldExited (status : option Z).

(** A renewal's answer: done, a problem from the server, or no answer. *)
Inductive Renewed : Type :=
  | RenewDone
  | RenewRefused (p : Problem)
  | RenewFailed (e : error).

Inductive HoldPoll : Type :=
  | HoldTimeout
  | HoldReady (signal stdin : bool)
  | HoldInterrupted
  | HoldPollFailed (e : error).

Record HoldRound : Type := mkHoldRound {
  hr_poll : HoldPoll;
  hr_renewed : Renewed;
  (** [client.instance], asked after a refusal. *)
  hr_instance : result Instance_ error;
  hr_signal : result unit error;
  (** The line read, [false] at the end of input. *)
  hr_line : result bool error;
}.

Definition renew_error (r : Renewed) : error :=
  match r with
  | RenewDone => []
  | RenewRefused p => [display_api_error p]
  | RenewFailed e => e
  end.

(** One round: [None] when the loop goes on. *)
Definition hold_round (r : HoldRound) : option (result HoldEnd error) :=
  let failed := Some (Err ("failed to renew the instance" :: renew_error (hr_renewed r))) in
  match hr_poll r with
  | HoldInterrupted => None
  | HoldPollFailed e => Some (Err ("poll failed" :: e))
  | HoldTimeout =>
      match hr_renewed r with
      | RenewDone => None
      | RenewFailed _ => failed
      | RenewRefused _ =>
          match hr_instance r with
          | Ok current =>
              if bool_decide (i_state current = InstExited)
              then Some (Ok (HoldExited (i_exit_status current))) else failed
          | Err _ => failed
          end
      end
  | HoldReady signal stdin =>
      if signal then
        match with_context "failed to read the signal" (hr_signal r) with
        | Err e => Some (Err e)
        | Ok _ => Some (Ok HoldReleased)
        end
      else if stdin then
        match with_context "failed to read stdin" (hr_line r) with
        | Err e => Some (Err e)
        | Ok false => Some (Ok HoldReleased)
        | Ok true => None
        end
      else None
  end.

(** [hold_instance] over its rounds, with the number of renewals made. *)
Fixpoint hold_instance (rounds : list HoldRound) (renewals : nat)
    : option (result HoldEnd error) * nat :=
  match rounds with
  | [] => (None, renewals)
  | r :: rounds =>
      let renewals := match hr_poll r with HoldTimeout => S renewals | _ => renewals end in
      match hold_round r with
      | Some e => (Some e, renewals)
      | None => hold_instance rounds renewals
      end
  end.

(** ** Naming a service *)

(** [name@version] names that version of that service, and a bare name the
    service: for a name without an at sign, [find_service] selects exactly what
    the index selects for the name and version given. *)
Lemma find_service_selects services n :
  split_once "@" n = None →
  (∀ v m, find_service services (n +:+ "@" +:+ v) = Ok m ↔ select services n (Some v) = Ok m) ∧
  (∀ m, find_service services n = Ok m ↔ select services n None = Ok m).
Proof.
  intros Hn. split.
  - intros v m. unfold find_service, split_service. change ("@" +:+ v) with (String "@" v).
    rewrite split_once_app, Hn. cbn. by destruct (select services n (Some v)) as [?|[]]; split; intros ?; simplify_eq.
  - intros m. unfold find_service, split_service. rewrite Hn. cbn.
    by destruct (select services n None) as [?|[]]; split; intros ?; simplify_eq.
Qed.

(** The exits of clones on the channel. *)
Definition child_of (m : incoming) : option Reply :=
  match m with Ok (Some r) => if child_exited r then Some r else None | _ => None end.

Lemma omap_messages evs : Forall (λ e, child_exited e = true) evs → omap child_of (messages evs) = evs.
Proof.
  intros Hall. apply omap_inverse. intros r Hr. rewrite Forall_forall in Hall. simpl. by rewrite (Hall r Hr).
Qed.

(** ** Forking clones *)

(** What forking on request does, and does not do.  When the [count] forks
    of a round succeed, exactly [count] clones are added, in order; every clone's
    exit that came on the channel meanwhile is put aside among the template
    process's events, and neither removed from the list nor counted as
    failed. *)
Lemma fork_clones_set_exits_aside parse count meets c c' :
  fork_clones parse count meets c = TurnOn c' →
  ∃ pids evs consumed,
    cl_clones c' = cl_clones c ++ pids ∧ length pids = count ∧
    hp_events (cl_template c') = hp_events (cl_template c) ++ evs ∧ Forall (λ e, child_exited e = true) evs ∧
    hp_incoming (cl_template c) = consumed ++ hp_incoming (cl_template c') ∧
    omap child_of consumed = evs ∧ cl_failed c' = cl_failed c.
Proof.
  revert meets c. induction count as [|count IH]; intros meets c; simpl.
  { intros [= <-]. exists [], [], []. rewrite !app_nil_r. by split_and!. }
  destruct meets as [|m meets]; [done|].
  destruct (manager_fork _ _ _ _ _) as [[[[clone e]|e] h]|] eqn:Hf; [|done|done].
  destruct (fm_printed m); [|done].
  intros (pids & evs & consumed & Hc & Hl & He & Hall & Hi & Ho & Hfl)%IH. simpl in *.
  apply manager_fork_ok in Hf as (evs1 & pid & text & Hin & Hev & Hall1).
  exists (hp_pid clone :: pids), (evs1 ++ evs), (messages evs1 ++ Ok (Some (Forked pid text)) :: consumed).
  split_and!.
  - by rewrite Hc, <- app_assoc.
  - simpl. by rewrite Hl.
  - by rewrite He, Hev, app_assoc.
  - apply Forall_app. by split.
  - by rewrite Hin, Hi, <- app_assoc.
  - rewrite omap_app. change (omap child_of (Ok (Some (Forked pid text)) :: consumed))
      with (omap child_of consumed). by rewrite Ho, omap_messages.
  - done.
Qed.

(** A template that forks one clone per signal; the first clone's exit arrives
    while the second is being forked. *)
Module ClonesRun.
Definition address : SocketAddr := mkAddr "127.0.0.1" 4000.
Definition parse (_ : string) : option SocketAddr := Some address.
Definition exit_of (pid : N) (status : Z) : incoming := Ok (Some (Exited RunChild status (Some pid))).
Definition forked (pid : N) : incoming := Ok (Some (Forked pid "e")).
Definition channel : list incoming :=
  [Ok (Some (Protocol.Frozen 1)); forked 21; exit_of 21 5; forked 22; exit_of 22 0].
Definition template : HostProcess := mkProcess 7 channel true [] None [].
Definition start0 : Clones := mkClones template false [] false false.
Definition meets (pid : N) : ForkMeets := mkForkMeets (Ok tt) (Ok tt) [forked pid] (Ok tt).
Definition on_signal (pid : N) : CloneRound :=
  mkCloneRound (Ready3 false true false) (Ok tt) (Ok true) (Ok tt) [meets pid].
Definition on_channel : CloneRound :=
  mkCloneRound (Ready3 true false false) (Ok tt) (Ok true) (Ok tt) [].
Definition rounds : list CloneRound := [on_signal 21; on_signal 22; on_channel].
End ClonesRun.

(** A clone's exit that arrives during a fork is lost.  [run_with_clones]
    can come to a state in which its template has reported the exit of every
    clone, all of it has been read, and yet a clone is still listed, so that it
    waits for ever instead of ending, and that clone's failure is forgotten. *)
Theorem clone_exit_may_be_lost :
  ∃ parse count rounds h c,
    run_with_clones parse count rounds (mkClones h false [] false false) = TurnOn c ∧
    hp_incoming (cl_template c) = [] ∧ cl_clones c ≠ [] ∧ cl_failed c = false ∧
    ∀ pid, pid ∈ cl_clones c →
      ∃ status, status ≠ 0%Z ∧ Ok (Some (Exited RunChild status (Some pid))) ∈ hp_incoming h.
Proof.
  exists ClonesRun.parse, 1%nat, ClonesRun.rounds, ClonesRun.template. eexists.
  split; [vm_compute; reflexivity|]. simpl. split_and!; try done.
  intros pid ->%list_elem_of_singleton. exists 5%Z. split; [done|]. right. right. left.
Qed.

(** ** Holding *)

Definition timeouts (rounds : list HoldRound) : nat :=
  length (List.filter (λ r, match hr_poll r with HoldTimeout => true | _ => false end) rounds).

(** How a held instance may end, by the round it ends in. *)
Definition hold_ends (r : HoldRound) (e : result HoldEnd error) : Prop :=
  match e with
  | Ok HoldReleased =>
      (∃ stdin, hr_poll r = HoldReady true stdin) ∨
      (hr_poll r = HoldReady false true ∧ hr_line r = Ok false)
  | Ok (HoldExited status) =>
      hr_poll r = HoldTimeout ∧ (∃ p, hr_renewed r = RenewRefused p) ∧
      ∃ current, hr_instance r = Ok current ∧ i_state current = InstExited ∧
        i_exit_status current = status
  | Err _ => True
  end.

Lemma hold_round_ends r e : hold_round r = Some e → hold_ends r e.
Proof.
  unfold hold_round. destruct (hr_poll r) as [|signal stdin| |err] eqn:Hp; [| |done|by intros [= <-]].
  - destruct (hr_renewed r) as [|p|err] eqn:Hr; [done| |by intros [= <-]].
    destruct (hr_instance r) as [current|err] eqn:Hi; [|by intros [= <-]].
    case_bool_decide as Hs; [|by intros [= <-]]. intros [= <-]. unfold hold_ends. eauto 10.
  - destruct signal; [|destruct stdin; [|done]].
    + destruct (with_context _ (hr_signal r)); intros [= <-]; [|done]. left. eauto.
    + destruct (hr_line r) as [[]|] eqn:Hl; simpl; [done|intros [= <-]|by intros [= <-]]. by right.
Qed.

(** Holding an instance.  [hold_instance] renews exactly once for each
    time its poll finds nothing for the interval, goes on while renewals succeed
    and lines come in, and ends: released, on a signal or at the end of its
    input; exited, with the status, when the server refuses the renewal and
    says that the guest has exited; or with an error. *)
Lemma hold_instance_outcome rounds n :
  let (out, renewals) := hold_instance rounds n in
  ∃ past, Forall (λ r, hold_round r = None) past ∧
    match out with
    | None => rounds = past ∧ renewals = (n + timeouts past)%nat
    | Some e => ∃ r rest, rounds = past ++ r :: rest ∧ hold_ends r e ∧
        renewals = (n + timeouts (past ++ [r]))%nat
    end.
Proof.
  revert n. induction rounds as [|r rounds IH]; intros n; simpl.
  { exists []. split_and!; try done. }
  assert (∀ past, timeouts (r :: past) =
    (match hr_poll r with HoldTimeout => 1 | _ => 0 end + timeouts past)%nat) as Ht
    by (intros past; unfold timeouts; simpl; by destruct (hr_poll r)).
  destruct (hold_round r) as [e|] eqn:Hr.
  - exists []. split; [done|]. exists r, rounds. split; [done|]. split.
    + by apply hold_round_ends.
    + change ([] ++ [r]) with (r :: []). rewrite Ht. unfold timeouts. simpl. destruct (hr_poll r); lia.
  - specialize (IH (match hr_poll r with HoldTimeout => S n | _ => n end)).
    destruct (hold_instance rounds _) as [out renewals]. destruct IH as (past & Hp & Hout).
    exists (r :: past). split; [by constructor|]. destruct out as [e|].
    + destruct Hout as (r' & rest & -> & He & ->). exists r', rest. split_and!; [done|done|].
      change ((r :: past) ++ [r']) with (r :: (past ++ [r'])). rewrite Ht. destruct (hr_poll r); lia.
    + destruct Hout as [-> ->]. split; [done|]. rewrite Ht. destruct (hr_poll r); lia.
Qed.

(** A round in which a line comes in before the interval is over. *)
Definition line_round : HoldRound :=
  mkHoldRound (HoldReady false true) RenewDone (Err []) (Ok tt) (Ok true).

(** Input starves the lease.  However many lines come in, [hold_instance]
    never renews as long as each comes before the interval is over: with a line
    every nine seconds, four of them outlast the lease it asked for. *)
Theorem input_starves_the_lease n id service version endpoint :
  hold_instance (replicate n line_round) 0 = (None, 0%nat) ∧
  (from_secs 9 < REQUEST_RENEW_INTERVAL)%N ∧
  match adopt (Ok tt) id service version endpoint REQUEST_TTL 0 with
  | Ok e => expired (N.of_nat 4 * from_secs 9) e = true
  | Err _ => False
  end.
Proof.
  split; [induction n as [|n IH]; [done|exact IH]|]. by vm_compute.
Qed.
