(* ===== verification/Main.v ===== *)
(** * The commands

    Models the rest of src/crates/servicecache/src/cli.rs: the command line as
    it is parsed ([Cli], [Command]), the choice of what to run ([run_with]),
    reading a recipe, [run_service] from its host to its exit status,
    [services list] and [services check], and [request], which creates an
    instance through the client of Client.v, holds it and destroys it.  [serve]
    ends in Server.v's [serve_run], [host] in Guest.v's [host_run].

    Parsing the arguments is clap's; the environment, standard input, the
    terminal and the signals are arguments. *)

From S2P Require Import Prelude Text Net Protocol Paths Manifest BTree Discovery Api Recipes Host.
From S2P Require Import Manager Owner Templates Obtain Instances Serve Router Server Client.
From S2P Require Import Cache Cli Logging.

(** ** The command line *)

Inductive ServicesCommand : Type := ServicesList | ServicesCheck.
Inductive CacheCommand : Type := Clean.

Inductive Command : Type :=
  | ServeCommand (recipe_roots : list path) (template_ttl : option N)
  | RequestCommand (service : string) (recipe : option path)
  | RunCommand (service : string) (recipe : option path) (clones : option positive)
  | ServicesCommands (command : ServicesCommand)
  | CacheCommands (command : CacheCommand)
  | HostCommand (manifest : path) (control_fd : Z) (internal_name_buffer : option string).

Record Cli : Type := mkCli {
  cli_services_dir : list path;
  cli_cache_dir : option path;
  cli_socket : option path;
  cli_verbose : N;
  cli_log : option string;
  cli_command : Command;
}.

(** The environment's variables, each when it is set. *)
Record Environment : Type := mkEnv {
  env_services_dir : option string;
  env_cache_dir : option string;
  env_socket : option string;
  env_log : option string;
  env_home : option string;
  env_xdg_cache : option string;
  env_runtime_dir : option string;
  env_temp : path;
  env_uid : N;
}.

(** What a command comes to. *)
Inductive Plan : Type :=
  | PlanServe (o : Options)
  | PlanRequest (socket : path) (service : string) (recipe : option (list byte))
  | PlanRun (m : Manifest) (recipe : option (list byte)) (cache_dir : path) (clones : option positive)
  | PlanList (services : ServiceIndex)
  | PlanCheck (services : ServiceIndex) (cache_dir : path)
  | PlanClean (dir : path)
  | PlanHost (manifest : path) (control_fd : Z) (cache_dir : path).

(** [read_recipe]: a path, or [-] for standard input. *)
Definition read_recipe (stdin : result (list byte) error) (read : path → result (list byte) error)
    (p : path) : result (list byte) error :=
  if decide (p = "-") then with_context "failed to read the recipe from standard input" stdin
  else with_context ("failed to read the recipe " +:+ p) (read p).

Section run_with.
(** The log filter, discovery, the client's runtime and the recipe's files. *)
Context (debug : string → string) (try_new : string → result unit string).
Context (discover : list path → result ServiceIndex error) (client_new : result unit error).
Context (stdin : result (list byte) error) (read : path → result (list byte) error).

(** [run_with], up to the call each command ends in. *)
Definition run_with (cli : Cli) (env : Environment) : result Plan error :=
  let is_serve := match cli_command cli with ServeCommand _ _ => true | _ => false end in
  let? _ := (logs_under debug try_new is_serve (cli_verbose cli) (cli_log cli) (env_log env)
               (bool_decide (is_Some (env_log env)))).1 in
  let cache_dir := directory (cli_cache_dir cli) (env_cache_dir env) (env_xdg_cache env) (env_home env) in
  let socket := socket_path (cli_socket cli) (env_socket env) (env_runtime_dir env) (env_temp env)
                  (env_uid env) in
  let search_dirs := service_dirs (cli_services_dir cli) (env_services_dir env) (env_home env) in
  match cli_command cli with
  | ServeCommand roots ttl =>
      let? services := discover search_dirs in
      let? dir := cache_dir in
      Ok (PlanServe (mkOptions socket services dir
            (match ttl with Some s => from_secs s | None => DEFAULT_TEMPLATE_TTL end) roots))
  | RequestCommand service recipe =>
      let? _ := with_context "failed to start the client's runtime" client_new in
      let? recipe := map_transpose (read_recipe stdin read) recipe in
      Ok (PlanRequest socket service recipe)
  | RunCommand service recipe clones =>
      let? services := discover search_dirs in
      let? manifest := find_service services service in
      let? recipe := map_transpose (read_recipe stdin read) recipe in
      let? dir := cache_dir in
      Ok (PlanRun manifest recipe dir clones)
  | ServicesCommands ServicesList =>
      let? services := discover search_dirs in Ok (PlanList services)
  | ServicesCommands ServicesCheck =>
      let? services := discover search_dirs in
      let? dir := cache_dir in
      Ok (PlanCheck services dir)
  | CacheCommands Clean => let? dir := cache_dir in Ok (PlanClean dir)
  | HostCommand manifest control_fd _ =>
      let? dir := cache_dir in Ok (PlanHost manifest control_fd dir)
  end.
End run_with.

(** ** Listing and checking services *)

(** The lines [print_services] prints. *)
Definition print_services (services : ServiceIndex) : list string :=
  concat (map (λ package,
    (name (service (pkg_manifest package)) +:+ " " +:+ version (service (pkg_manifest package)) +:+
       " " +:+ Manifest.directory (pkg_manifest package)) ::
    map (λ shadow, "  shadowed " +:+ shadow_directory shadow) (shadowed package))
    (Discovery.iter services)).

(** [check_services]: the lines printed, and the first failure. *)
Definition check_package (load : path → result unit error) (m : Manifest) (dir : path) : result unit error :=
  foldl (λ r module,
    let? _ := r in
    with_context ("service " +:+ name (service m) +:+ " " +:+ version (service m) +:+ " in " +:+ dir +:+
      " failed its module check") (load module)) (Ok tt) (modules m).

Fixpoint check_loop (load : path → result unit error) (packages : list (Manifest * path))
    (printed : list string) : result unit error * list string :=
  match packages with
  | [] => (Ok tt, printed)
  | (m, dir) :: packages =>
      match check_package load m dir with
      | Err e => (Err e, printed)
      | Ok _ =>
          check_loop load packages
            (printed ++ ["checked " +:+ name (service m) +:+ " " +:+ version (service m) +:+ " " +:+ dir])
      end
  end.

Definition check_services (load : path → result unit error) (services : ServiceIndex)
    : result unit error * list string := check_loop load (all_packages services) [].

(** ** Running one service *)

(** [Lines]: lines collected, each with its newline, and written to standard
    error in one call when they are dropped. *)
Definition lines_new : string := "".
Definition line (collected l : string) : string := collected +:+ l +:+ String Text.newline "".
Definition lines_of (ls : list string) : string := foldl line lines_new ls.

(** The signals of a descriptor are blocked, and then it is opened for them. *)
Definition signal_descriptor (names : string) (blocked opened : result unit error)
    : result unit error :=
  let? _ := with_context ("failed to block " +:+ names) blocked in
  with_context "failed to open a signal descriptor" opened.
Definition fork_signal : result unit error → result unit error → result unit error :=
  signal_descriptor "SIGUSR1".
Definition end_signals : result unit error → result unit error → result unit error :=
  signal_descriptor "SIGINT and SIGTERM".

Definition plural (n : N) : string := if bool_decide (n = 1%N) then "" else "s".

(** The banner of [run_service]. *)
Definition run_banner (m : Manifest) (endpoint : SocketAddr) (clones : option positive) (pid : N) : string :=
  lines_of (["";
    "==> " +:+ name (service m) +:+ " is listening on host port " +:+ pretty (port endpoint) +:+ " (" +:+
      addr_to_string endpoint +:+ "; guest port " +:+ pretty (Manifest.listen_port (guest m)) +:+
      "). Ctrl-C to stop."] ++
    match clones with
    | Some count =>
        ["==> Enter here, or `kill -USR1 " +:+ pretty pid +:+ "`, freezes it and forks " +:+
           pretty (Npos count) +:+ " clone" +:+ plural (Npos count) +:+ "."]
    | None => []
    end ++ [""]).

(** What [run_service] meets besides its host: the signal descriptor, standard
    output, and the rounds of [run_with_clones]. *)
Record RunMeets : Type := mkRunMeets {
  rm_blocked : result unit error;
  rm_signals : result unit error;
  rm_up : BringUp;
  rm_printed : result unit error;
  rm_terminal : bool;
  rm_rounds : list CloneRound;
}.

(** [run_service]: [None] while it runs. *)
Definition run_service (parse : string → option SocketAddr) (m : Manifest) (recipe : option (list byte))
    (clones : option positive) (w : RunMeets) : option (result unit error) :=
  match (match clones with Some _ => fork_signal (rm_blocked w) (rm_signals w) | None => Ok tt end) with
  | Err e => Some (Err e)
  | Ok _ =>
      match bring_up parse m recipe (rm_up w) with
      | None => None
      | Some (Err e) => Some (Err e)
      | Some (Ok (host, _)) =>
          match with_context "failed to write the endpoint" (rm_printed w) with
          | Err e => Some (Err e)
          | Ok _ =>
              let finish (status : Z) :=
                if bool_decide (status = 0%Z) then Ok tt
                else Err [name (service m) +:+ " exited with status " +:+ pretty status] in
              match clones with
              | Some count =>
                  match run_with_clones parse (Pos.to_nat count) (rm_rounds w)
                          (mkClones host (rm_terminal w) [] false false) with
                  | TurnEnds (Ok status) _ => Some (finish status)
                  | TurnEnds (Err e) _ => Some (Err e)
                  | _ => None
                  end
              | None =>
                  match wait_exit host with
                  | Some (Ok status, _) => Some (finish status)
                  | Some (Err e, _) => Some (Err e)
                  | None => None
                  end
              end
          end
      end
  end.

(** ** Holding an instance of a server *)

(** [Endpoint::socket_addr]. *)
Definition socket_addr (parse_ip : string → option string) (e : Endpoint) : result SocketAddr error :=
  match parse_ip (e_host e) with
  | Some ip => Ok (mkAddr ip (e_port e))
  | None => Err ["invalid IP address syntax"]
  end.

Section request.
Context `{!JsonCodec CreateInstance} `{!JsonCodec RenewInstance} `{!JsonCodec Instance_}.
Context `{!JsonCodec (list Instance_)} `{!JsonCodec (list ServiceEntry)} `{!JsonCodec Problem}.
Context (from_utf8_lossy : list byte → string) (base64_encode : list byte → string).
Context (parse_ip : string → option string).
(** The service at a time, over its state. *)
Context {S : Type} (serve : N → Method → string → list byte → S → option (Response * S)).
Context (socket : path).

(** One round of holding: when it is, what the poll, the signal and the line
    are, and how the exchanges of a renewal and of the question after it go. *)
Record Hold : Type := mkHold {
  ho_now : N;
  ho_poll : HoldPoll;
  ho_signal : result unit error;
  ho_line : result bool error;
  ho_renew : Exchange;
  ho_ask : Exchange;
}.

Definition other_error (e : ClientError) : error :=
  match e with ApiError p => [display_api_error p] | OtherError e => e end.

(** The exchanges of a round and what [hold_round] then sees of them; [None]
    while the server has not answered. *)
Definition hold_exchange (id : string) (h : Hold) (s : S) : option (HoldRound * S) :=
  let round renewed instance := mkHoldRound (ho_poll h) renewed instance (ho_signal h) (ho_line h) in
  match ho_poll h with
  | HoldTimeout =>
      match client_renew from_utf8_lossy (serve (ho_now h)) socket (ho_renew h) id None s with
      | None => None
      | Some (Ok _, s) => Some (round RenewDone (Err []), s)
      | Some (Err (OtherError e), s) => Some (round (RenewFailed e) (Err []), s)
      | Some (Err (ApiError p), s) =>
          match client_instance from_utf8_lossy (serve (ho_now h)) socket (ho_ask h) id s with
          | None => None
          | Some (Ok inst, s) => Some (round (RenewRefused p) (Ok inst), s)
          | Some (Err e, s) => Some (round (RenewRefused p) (Err (other_error e)), s)
          end
      end
  | _ => Some (round RenewDone (Err []), s)
  end.

(** [hold_instance] on the service: [None] while it holds. *)
Fixpoint hold_served (id : string) (rounds : list Hold) (s : S) : option (result HoldEnd error * S) :=
  match rounds with
  | [] => None
  | h :: rounds =>
      match hold_exchange id h s with
      | None => None
      | Some (r, s) =>
          match hold_round r with
          | Some e => Some (e, s)
          | None => hold_served id rounds s
          end
      end
  end.

(** The banner of [request_instance]. *)
Definition request_banner (inst : Instance_) (endpoint : SocketAddr) : string :=
  lines_of ["";
    "==> instance " +:+ i_id inst +:+ " of " +:+ i_service inst +:+ " " +:+ i_version inst +:+
      " is listening on " +:+ addr_to_string endpoint +:+ ".";
    "==> Held and renewed until stdin closes or Ctrl-C, then destroyed."; ""].

(** What [request_instance] meets besides the rounds. *)
Record RequestMeets : Type := mkRequestMeets {
  qm_blocked : result unit error;
  qm_signals : result unit error;
  qm_create_at : N;
  qm_create : Exchange;
  qm_printed : result unit error;
  qm_rounds : list Hold;
  qm_delete_at : N;
  qm_delete : Exchange;
}.

(** The body [request_instance] sends. *)
Definition request_body (service : string) (recipe : option (list byte)) : CreateInstance :=
  let (name, version) := split_service service in
  mkCreate name version (encode_recipe base64_encode <$> recipe) [] (Some (REQUEST_TTL / nanos)%N).

(** [request_instance]: its result and the service's state; [None] while it
    waits or holds. *)
Definition request_instance (service : string) (recipe : option (list byte)) (w : RequestMeets) (s : S)
    : option (result unit error * S) :=
  match end_signals (qm_blocked w) (qm_signals w) with
  | Err e => Some (Err e, s)
  | Ok _ =>
      match client_create from_utf8_lossy (serve (qm_create_at w)) socket (qm_create w)
              (request_body service recipe) s with
      | None => None
      | Some (Err e, s) => Some (Err (other_error e), s)
      | Some (Ok inst, s) =>
          match (let? _ := with_context "bad endpoint from the manager"
                             (socket_addr parse_ip (i_endpoint inst)) in
                 with_context "failed to write the endpoint" (qm_printed w)) with
          | Err e => Some (Err e, s)
          | Ok _ =>
              match hold_served (i_id inst) (qm_rounds w) s with
              | None => None
              | Some (Err e, s) => Some (Err e, s)
              | Some (Ok how, s) =>
                  match client_delete from_utf8_lossy (serve (qm_delete_at w)) socket (qm_delete w)
                          (i_id inst) s with
                  | None => None
                  | Some (r, s) =>
                      Some (match how with
                            | HoldExited status =>
                                Err ["the " +:+ i_service inst +:+ " instance exited with status " +:+
                                     match status with Some z => pretty z | None => "unknown" end]
                            | HoldReleased =>
                                match r with
                                | Ok _ => Ok tt
                                | Err e => Err ("failed to destroy the instance" :: other_error e)
                                end
                            end, s)
                  end
              end
          end
      end
  end.
End request.

(** ** The process *)

(** [main]: what it writes to standard error, and its exit code. *)
Definition main (r : result unit error) : list string * N :=
  match r with
  | Ok _ => ([], 0%N)
  | Err e => (["error: " +:+ display_chain e], 1%N)
  end.

(** ** A request leaves the server as it found it *)

Section request_theorem.
Context `{Hpm : !PathMatcher} `{Hpl : !PathLaws}.
Context `{!JsonCodec CreateInstance} `{!JsonCodec RenewInstance} `{!JsonCodec Instance_}.
Context `{!JsonCodec (list Instance_)} `{!JsonCodec (list ServiceEntry)} `{!JsonCodec Problem}.
Context `{!JsonLaws CreateInstance} `{!JsonLaws RenewInstance} `{!JsonLaws Instance_}.
Context `{!JsonLaws (list Instance_)} `{!JsonLaws (list ServiceEntry)} `{!JsonLaws Problem}.
Context `{!JsonTotal CreateInstance} `{!JsonTotal RenewInstance} `{!JsonTotal Instance_}.
Context `{!JsonTotal (list Instance_)} `{!JsonTotal (list ServiceEntry)} `{!JsonTotal Problem}.
Context (too_large bad_segment not_json : Response) (document : list byte).
Context {C T : Type} `{!TemplateOps C T} `{!TemplateLaws C T}.
Context (base64_encode : list byte → string).
Context (base64_decode : string → result (list byte) string).
Context (open : path → result OpenFile string) (geteuid : N).
Context (from_utf8_lossy : list byte → string) (parse_ip : string → option string) (socket : path).
Context (peer : Peer) (w : Meets).

(** The manager, at a time. *)
Definition manager_at (now : N) : Method → string → list byte → App C → option (Response * App C) :=
  manager too_large bad_segment not_json document base64_decode open geteuid peer now now w.

(** The instances other than [id]'s. *)
Definition others_kept (id : string) (app app' : App C) : Prop :=
  registry_ok (registry app') ∧ ∀ id', id' ≠ id → get id' (registry app') = get id' (registry app).

Lemma others_kept_trans id app1 app2 app3 :
  others_kept id app1 app2 → others_kept id app2 app3 → others_kept id app1 app3.
Proof. intros [_ H12] [Hok H23]. split; [done|]. intros id' Hne. by rewrite H23, H12. Qed.

(** An exchange leaves the service as it was, or as its handler leaves it. *)
Lemma call_state {V} (serve : Method → string → list byte → V → option (Response * V)) x m p body s r s' :
  call serve socket x m p body s = Some (r, s') →
  s' = s ∨ ∃ resp, serve m p (default [] body) s = Some (resp, s').
Proof.
  unfold call. destruct x; destruct (serve m p (default [] body) s) as [[resp s1]|] eqn:E;
    intros H; simplify_eq/=; eauto.
Qed.

Lemma expect_json_state {V} `{!JsonCodec V} serve x m p body code (s s' : App C) (r : result V ClientError) :
  expect_json from_utf8_lossy serve socket x m p body code s = Some (r, s') →
  s' = s ∨ ∃ resp, serve m p (default [] body) s = Some (resp, s').
Proof.
  unfold expect_json. destruct (call _ _ _ _ _ _ _) as [[[[n bytes]|e] s1]|] eqn:Hc; [| |done].
  - intros H. apply call_state in Hc. destruct (negb _); [by injection H as _ <-|].
    destruct (from_slice bytes); by injection H as _ <-.
  - intros [= _ <-]. by eapply call_state.
Qed.

Lemma client_renew_others now x id (app app' : App C) r :
  plain id = true → id ≠ "" → registry_ok (registry app) →
  client_renew from_utf8_lossy (manager_at now) socket x id None app = Some (r, app') →
  others_kept id app app'.
Proof.
  intros Hp Hne Hok. unfold client_renew. destruct (with_context _ _) as [body|e]; [|by intros [= _ <-]].
  intros [->|[resp Hs]]%expect_json_state; [done|]. unfold manager_at, instance_path in Hs.
  rewrite string_app_assoc in Hs. cbn [default] in Hs.
  rewrite (manager_segment _ _ _ _ _ _ _ _ _ _ _ POST _ _ _ _ _ _ ltac:(done) Hp (find_renew id Hp Hne) eq_refl)
    in Hs. simpl in Hs. unfold limited in Hs. case_bool_decide; [by injection Hs as _ <-|].
  pose proof (renew_frame parse_json id body now now app Hok) as Hf.
  destruct (renew_instance parse_json id body now now app) as [r' app1]. by injection Hs as _ <-.
Qed.

Lemma client_instance_others now x id (app app' : App C) r :
  plain id = true → id ≠ "" →
  client_instance from_utf8_lossy (manager_at now) socket x id app = Some (r, app') → app' = app.
Proof.
  intros Hp Hne [->|[resp Hs]]%expect_json_state; [done|]. unfold manager_at in Hs. cbn [default] in Hs.
  rewrite (manager_segment _ _ _ _ _ _ _ _ _ _ _ GET _ _ _ _ _ _ ltac:(done) Hp (find_instance id Hp Hne) eq_refl)
    in Hs. simpl in Hs. by injection Hs as _ <-.
Qed.

Lemma hold_exchange_others id h r (app app' : App C) :
  plain id = true → id ≠ "" → registry_ok (registry app) →
  hold_exchange from_utf8_lossy manager_at socket id h app = Some (r, app') → others_kept id app app'.
Proof.
  intros Hp Hne Hok. unfold hold_exchange. destruct (ho_poll h); [|by intros [= _ <-]..].
  destruct (client_renew _ _ _ _ _ _ _) as [[[inst|[p|e]] s]|] eqn:Hr; [| | |done].
  - intros [= _ <-]. by eapply client_renew_others.
  - apply client_renew_others in Hr; [|done..].
    destruct (client_instance _ _ _ _ _ _) as [[[inst|e] s']|] eqn:Hi; [| |done]; intros [= _ <-];
      apply client_instance_others in Hi as ->; done.
  - intros [= _ <-]. by eapply client_renew_others.
Qed.

Lemma hold_served_others id rounds e (app app' : App C) :
  plain id = true → id ≠ "" → registry_ok (registry app) →
  hold_served from_utf8_lossy manager_at socket id rounds app = Some (e, app') → others_kept id app app'.
Proof.
  intros Hp Hne. revert app. induction rounds as [|h rounds IH]; intros app Hok; [done|]. simpl.
  destruct (hold_exchange _ _ _ _ _ _) as [[r s]|] eqn:He; [|done].
  apply hold_exchange_others in He; [|done..].
  destruct (hold_round r) as [e'|]; [by intros [= _ <-]|].
  intros Hh. eapply others_kept_trans; [exact He|]. apply IH; [apply He|done].
Qed.

Lemma delete_others id (app app' : App C) r :
  registry_ok (registry app) → delete_instance id app = (r, app') →
  others_kept id app app' ∧ get id (registry app') = None.
Proof. intros Hok Hd. pose proof (delete_frame id app Hok) as Hf. by rewrite Hd in Hf. Qed.

(** An exchange that does not come through is an error, whatever it did. *)
Lemma call_lost {V} (serve : Method → string → list byte → V → option (Response * V)) x m p body s r s' :
  x ≠ Exchanged → call serve socket x m p body s = Some (r, s') → ∃ e, r = Err e.
Proof.
  unfold call. intros Hx. destruct x; [done|..]; try (intros [= <- _]; eauto);
    (destruct (serve m p (default [] body) s) as [[]|]; [|done]; intros [= <- _]; eauto).
Qed.

Lemma client_create_lost now x request (app app' : App C) r :
  x ≠ Exchanged → registry_ok (registry app) →
  client_create from_utf8_lossy (manager_at now) socket x request app = Some (r, app') →
  (∃ e, r = Err e) ∧
  (registry app' = registry app ∨ ∃ id, new_id (me_urandom w) = Ok id ∧ others_kept id app app').
Proof.
  intros Hx Hok. unfold client_create. destruct (with_context _ _) as [body|e]; [|intros [= <- <-]; eauto].
  intros He. split.
  - unfold expect_json in He. destruct (call _ _ _ _ _ _ _) as [[r0 s0]|] eqn:Hc; [|done].
    apply call_lost in Hc as [e ->]; [|done]. injection He as <- _. eauto.
  - apply expect_json_state in He as [-> | [resp Hs]]; [by left|].
    unfold manager_at in Hs. cbn [default] in Hs.
    rewrite (manager_literal _ _ _ _ _ _ _ _ _ _ _ POST _ _ _ _ _ ltac:(done) find_instances eq_refl) in Hs.
    simpl in Hs. unfold limited in Hs. case_bool_decide; [injection Hs as _ <-; by left|].
    destruct (create_instance _ _ _ _ _ _ _ _) as [[[[[code location] inst]|q] app1]|] eqn:Hi; [| |done];
      injection Hs as _ <-.
    + right. apply create_registers in Hi as (Hid & _ & Hok1 & Ho1); [|done]. by exists (i_id inst).
    + left. by apply create_err_registry in Hi.
Qed.

(** A deletion leaves the other instances, and one that succeeds is the
    handler's. *)
Lemma client_delete_others now x id (app app' : App C) r :
  plain id = true → id ≠ "" → registry_ok (registry app) →
  client_delete from_utf8_lossy (manager_at now) socket x id app = Some (r, app') →
  others_kept id app app' ∧ (r = Ok tt → x = Exchanged ∧ delete_instance id app = (Ok 204%N, app')).
Proof.
  intros Hp Hne Hok Hd. destruct (decide (x = Exchanged)) as [-> | Hx].
  - unfold manager_at in Hd. rewrite client_delete_is_delete in Hd by done.
    destruct (delete_instance id app) as [[code|q] app1] eqn:Hi; injection Hd as <- <-;
      (split; [by eapply delete_others|]); [|done]. intros _. by apply delete_code in Hi as Hc; subst.
  - unfold client_delete in Hd. destruct (call _ _ _ _ _ _ _) as [[r0 s0]|] eqn:Hc; [|done].
    apply call_lost in Hc as Hl; [|done]. destruct Hl as [e ->]. injection Hd as <- <-. split; [|done].
    apply call_state in Hc as [-> | [resp Hs]]; [done|]. unfold manager_at in Hs. cbn [default] in Hs.
    rewrite (manager_segment _ _ _ _ _ _ _ _ _ _ _ DELETE _ _ _ _ _ _ ltac:(done) Hp
      (find_instance id Hp Hne) eq_refl) in Hs. simpl in Hs.
    destruct (delete_instance id app) as [rd app1] eqn:Hi. injection Hs as _ <-. by eapply delete_others.
Qed.

(** C23: [request] gives back what it took.  However its exchanges go (the
    creation's, the renewals', the questions' and the deletion's: not sent,
    answered, or sent and the answer lost), once the command is over it has
    either failed with the server's instances as they were, or touched one
    instance only, that of the id drawn for its creation: every other one is as
    it was.  It ends well only if it asked for the deletion of that instance
    and the server answered that it deleted it; then the instance is gone.  A
    failed deletion, of an instance that is no longer known included, is an
    error.  The body of the creation is within the server's limit and the id the
    server draws is not empty. *)
Theorem request_gives_back_its_instance service recipe q (app app' : App C) r :
  cache_ok (cache app) → registry_ok (registry app) → me_urandom w ≠ Ok [] →
  (∀ json, to_vec (request_body base64_encode service recipe) = Ok json →
     (N.of_nat (length json) <= MAX_BODY)%N) →
  request_instance from_utf8_lossy base64_encode parse_ip manager_at socket service recipe q app
    = Some (r, app') →
  (registry app' = registry app ∧ r ≠ Ok tt) ∨
  ∃ id, new_id (me_urandom w) = Ok id ∧ others_kept id app app' ∧
    (r = Ok tt →
       qm_create q = Exchanged ∧ qm_delete q = Exchanged ∧ get id (registry app') = None ∧
       ∃ held, others_kept id app held ∧ delete_instance id held = (Ok 204%N, app')).
Proof.
  intros Hc Hr Hu Hl. unfold request_instance.
  destruct (end_signals _ _) as [[]|e]; [|intros [= <- <-]; by left].
  destruct (decide (qm_create q = Exchanged)) as [Hx|Hx].
  2:{ destruct (client_create _ _ _ _ _ _) as [[r1 app1]|] eqn:Hi; [|done].
      apply client_create_lost in Hi as [[e ->] Hi]; [|done..]. intros [= <- <-].
      destruct Hi as [Hi|(id & Hid & Ho)]; [by left|right; by exists id]. }
  rewrite Hx. unfold manager_at at 1.
  rewrite (client_create_is_create too_large bad_segment not_json document
    base64_decode open geteuid from_utf8_lossy socket peer _ _ w _ app Hc Hl).
  destruct (create_instance _ _ _ _ _ _ _ _) as [[[[[code location] inst]|p] app1]|] eqn:Hi; [| |done].
  2:{ intros [= <- <-]. left. by apply create_err_registry in Hi. }
  apply create_registers in Hi as (Hid & _ & Hok1 & Ho1); [|done].
  destruct (new_id_plain _ _ Hid Hu) as [Hp Hne]. cbn [fmap option_fmap option_map answered snd].
  assert (others_kept (i_id inst) app app1) as H1 by done.
  intros Hrest. right. exists (i_id inst). split; [done|]. revert Hrest.
  destruct (let? _ := with_context _ _ in _) as [[]|e]; [|by intros [= <- <-]].
  destruct (hold_served _ _ _ _ _ _) as [[[how|e] app2]|] eqn:Hh; [| |done];
    (apply hold_served_others in Hh; [|done..]); pose proof (others_kept_trans _ _ _ _ H1 Hh) as H2;
    [|by intros [= <- <-]].
  destruct (client_delete _ _ _ _ _ _) as [[rd app3]|] eqn:Hd; [|done].
  apply client_delete_others in Hd as [H3 Hgone]; [|done|done|apply Hh].
  intros [= <- <-]. split; [by eapply others_kept_trans|].
  destruct how; [destruct rd as [[]|e]; [|done]|done].
  intros _. destruct (Hgone eq_refl) as [Hxd Hdel]. split_and!; [done|done| |by exists app2].
  by eapply (delete_others _ app2 app3); [apply Hh|].
Qed.
End request_theorem.

Module MainWitness.
Import ObtainWitness ServeWitness ClientWitness.
#[local] Existing Instances ServeWitness.ops ServeWitness.laws demo_matcher demo_laws.
#[local] Existing Instances countable_codec countable_laws countable_total create_countable
  renew_countable entry_countable problem_countable instance_countable.

(** A renewal that succeeds, then the end of standard input. *)
Definition held : list Hold :=
  [mkHold 20 HoldTimeout (Ok tt) (Ok true) Exchanged Exchanged;
   mkHold 30 (HoldReady false true) (Ok tt) (Ok false) Exchanged Exchanged].
Definition asked_with : RequestMeets := mkRequestMeets (Ok tt) (Ok tt) 9 Exchanged (Ok tt) held 40 Exchanged.
Definition encode64 (_ : list byte) : string := "".
Definition requested :=
  request_instance lossy encode64 Some
    (manager_at teapot teapot teapot [] base64 RecipesWitness.demo_open 1000 (mkPeer None) meets)
    "serve.sock" "redis" None asked_with app0.

Lemma fits_request :
  ∀ json, to_vec (request_body encode64 "redis" None) = Ok json → (N.of_nat (length json) <= MAX_BODY)%N.
Proof. intros json [= <-]. vm_compute. discriminate. Qed.

Lemma request_returns_witness :
  ∃ app' id, requested = Some (Ok tt, app') ∧ new_id (me_urandom meets) = Ok id ∧
    get id (registry app') = None ∧ ∃ held, delete_instance id held = (Ok 204%N, app').
Proof.
  assert (fst <$> requested = Some (Ok tt)) as Hok by (vm_compute; reflexivity).
  destruct requested as [[r app']|] eqn:E; [|discriminate Hok]. injection Hok as ->.
  assert (cache_ok (TemplateLaws := laws) (cache app0)) as Hc by exact keyed_init.
  destruct (request_gives_back_its_instance teapot teapot teapot [] encode64 base64
    RecipesWitness.demo_open 1000 lossy Some "serve.sock" (mkPeer None) meets "redis" None asked_with
    app0 app' (Ok tt) Hc registry_ok_default ltac:(discriminate) fits_request E)
    as [[_ Hno]|(id & Hid & _ & Hgone)]; [by destruct Hno|].
  destruct (Hgone eq_refl) as (_ & _ & Hnone & held & _ & Hdel).
  exists app', id. split_and!; [reflexivity|exact Hid|exact Hnone|by exists held].
Defined.
End MainWitness.
