(* ===== verification/Tests.v ===== *)
(** * The program's own tests on the model

    The unit tests of src/crates/servicecache/src, as the model answers them:
    one boolean per test, true when every assertion of the test holds of the
    definitions that model what it calls.  They are evidence for the
    definitions, not for the program.

    The tests' directories are a tree of files, directories and symbolic links
    here, with the lookups a kernel makes; what a test takes from a library (a
    parsed TOML document, a compiled pattern) is the value it has there.

    Left out are the tests of base64, of the OpenAPI document, of the memory of
    a running process and of the directives' parser, [clean] in the test of the
    module cache, and the in-memory root in that of the mounts. *)

From S2P Require Import Prelude Text Protocol Paths Manifest Probe BTree Discovery Api Recipes Net.
From S2P Require Import Title Tasks Host Spawn Runtime Logging Instances Serve Cache ModuleCache Cli Main.

(** ** A file tree *)

Inductive node : Type :=
  | File (contents : string)
  | Directory
  | Device
  | Link (target : path).

(** By the names from the root; a later entry is first. *)
Definition tree : Type := list (list string * node).

Definition names (p : path) : list string := filter (λ seg, seg ≠ "") (segments p).
Definition whole (at_ : list string) : path := "/" +:+ join_segments at_.

Fixpoint find_node (t : tree) (at_ : list string) : option node :=
  match t with
  | [] => None
  | (q, n) :: t => if decide (q = at_) then Some n else find_node t at_
  end.

(** The lookup of a path, following links; [fuel] bounds the names looked at. *)
Fixpoint walk (fuel : nat) (t : tree) (at_ rest : list string) : option (list string) :=
  match fuel, rest with
  | _, [] => Some at_
  | O, _ => None
  | S fuel, seg :: rest =>
      if decide (seg = "") then walk fuel t at_ rest
      else if decide (seg = ".") then walk fuel t at_ rest
      else if decide (seg = "..") then walk fuel t (take (length at_ - 1) at_) rest
      else match find_node t (at_ ++ [seg]) with
      | None => None
      | Some (File _ | Device) => match rest with [] => Some (at_ ++ [seg]) | _ => None end
      | Some Directory => walk fuel t (at_ ++ [seg]) rest
      | Some (Link target) =>
          walk fuel t (if is_absolute target then [] else at_) (segments target ++ rest)
      end
  end.
Definition LOOKUPS : nat := 100.
Definition resolve (t : tree) (p : path) : option (list string) := walk LOOKUPS t [] (segments p).
Definition node_at (t : tree) (p : path) : option node :=
  at_ ← resolve t p; if decide (at_ = []) then Some Directory else find_node t at_.

Definition not_found : string := "No such file or directory (os error 2)".
Definition contents_at (t : tree) (p : path) : result string string :=
  match node_at t p with
  | Some (File contents) => Ok contents
  | Some Device => Ok ""
  | Some _ => Err "Is a directory (os error 21)"
  | None => Err not_found
  end.
Definition one_error {A} (r : result A string) : result A error :=
  match r with Ok a => Ok a | Err e => Err [e] end.
Definition disk (t : tree) : FileSystem := {|
  canonicalize p := match resolve t p with Some at_ => Ok (whole at_) | None => Err [not_found] end;
  is_file p := match node_at t p with Some (File _) => true | _ => false end;
  is_dir p := match node_at t p with Some Directory => true | _ => false end;
  read_to_string p := one_error (contents_at t p);
  fs_read p := one_error match contents_at t p with Ok s => Ok (string_bytes s) | Err e => Err e end;
|}.

(** [fs::write], [fs::create_dir] and [symlink], in directories that are there. *)
Definition write_file (p : path) (contents : string) (t : tree) : tree := (names p, File contents) :: t.
Definition create_dir (p : path) (t : tree) : tree := (names p, Directory) :: t.
Definition symlink (target p : path) (t : tree) : tree := (names p, Link target) :: t.
Definition remove_file (p : path) (t : tree) : tree := filter (λ x, x.1 ≠ names p) t.

(** [fs::read_dir]: the names in a directory, each once. *)
Definition children (t : tree) (at_ : list string) : list string :=
  remove_dups (omap (λ x, match reverse x.1 with
    | name :: above => if decide (reverse above = at_) then Some name else None
    | [] => None
    end) t).
Definition read_dir (t : tree) (p : path) : Discovery.ReadDir :=
  match resolve t p with
  | None => DirNotFound
  | Some at_ => DirEntries ((λ name, Ok (mkDirEntry (Paths.join p name)
      (Ok match find_node t (at_ ++ [name]) with
          | Some Directory => FtDir
          | Some (Link _) => FtSymlink
          | _ => FtOther
          end))) <$> children t at_)
  end.
(** [File::open], with the link of its descriptor. *)
Definition open_file (t : tree) (p : path) : result Recipes.OpenFile string :=
  match resolve t p, contents_at t p with
  | Some at_, Ok contents =>
      Ok (mkOpenFile
            (Ok (mkMetadata (is_file (disk t) p) (N.of_nat (String.length contents))))
            (Ok (whole at_)) (Ok (string_bytes contents)))
  | _, Err e => Err e
  | None, _ => Err not_found
  end.

(** [TestDirectory::new]: directory [n] below the temporary directory. *)
Definition temp : tree := [(["tmp"], Directory)].
Definition test_directory (n : string) (t : tree) : tree := create_dir ("/tmp/" +:+ n) t.

Definition is_ok {A E} (r : result A E) : bool := match r with Ok _ => true | Err _ => false end.
(** [str::contains]. *)
Definition contains (s text : string) : bool :=
  match String.index 0 text s with Some _ => true | None => false end.
(** [error.to_string().contains(text)]: the outermost message. *)
Definition mentions {A} (text : string) (r : result A error) : bool :=
  match r with Err (message :: _) => contains message text | _ => false end.
Definition holds {A E} (r : result A E) (p : A → bool) : bool :=
  match r with Ok a => p a | Err _ => false end.

(** ** manifest.rs *)

Definition raw_service0 : Service := mkService "example" "1" [].
Definition raw_server (module : path) : RawGuest := mkRawGuest module [] 1234 None.
Definition raw_module (module : path) : RawManifest :=
  mkRawManifest raw_service0 None (raw_server module) None.
Definition load_raw (t : tree) (raw : RawManifest) : result Manifest error :=
  Manifest.load (disk (write_file "/tmp/0/service.toml" "toml" t)) (λ _, Ok raw) (λ _, Err ["a pattern"])
    "/tmp/0/service.toml".
Definition package0 : tree := test_directory "0" temp.
Definition with_server : tree := write_file "/tmp/0/server.wasm" "module" package0.

Definition resolves_relative_module_paths : bool :=
  holds (load_raw with_server (raw_module "server.wasm"))
    (λ m, bool_decide (guest_module (guest m) = "/tmp/0/server.wasm")).

Definition rejects_paths_that_leave_the_package : bool :=
  let t := write_file "/tmp/1/server.wasm" "module" (test_directory "1" package0) in
  mentions "plain relative path" (load_raw t (raw_module "../server.wasm")) &&
  mentions "resolves outside the package"
    (load_raw (symlink "/tmp/1/server.wasm" "/tmp/0/server.wasm" t) (raw_module "server.wasm")).

Definition raw_mounts (mounts : list (path * path)) : RawManifest :=
  mkRawManifest raw_service0 (Some (mkRawPrepare mounts None [] None)) (raw_server "server.wasm") None.

Definition mount_at (guest : path) (p : Prepare) : option path :=
  match list_find (λ x, x.1 = guest) (prepare_fs p) with Some (_, (_, host)) => Some host | None => None end.

Definition mounts_the_package_root_as_a_source : bool :=
  holds (load_raw with_server (raw_mounts [("/service", ".")])) (λ m,
    match prepare m with
    | Some p => bool_decide (components <$> mount_at "/service" p =
                             Some (components "/tmp/0"))
    | None => false
    end && bool_decide (extensions (service m) = [])).

(** The characters of a text in ASCII. *)
Definition chars (s : string) : list N := N_of_ascii <$> String.list_ascii_of_string s.

Definition byte_strings_decode_strictly : bool :=
  holds (decode_byte_string (chars "user\x00example\x00\\")) (λ b,
    bool_decide (b = string_bytes "user" ++ [x00] ++ string_bytes "example" ++ [x00; x5c])) &&
  holds (decode_byte_string []) (λ b, bool_decide (b = [])) &&
  forallb (λ bad, negb (is_ok (decode_byte_string bad)))
    [chars "\q"; chars "\x0"; chars "\x0g"; chars "\"; chars "caf" ++ [233%N];
     chars "tab" ++ [9%N] ++ chars "here"].

(** The two patterns of the probe's tests, as the engine matches them. *)
Definition ok_pattern : string := "^ok\x00".
Definition greeting_pattern : string := "(?s-u)\A.{2}\x02".
Definition patterns (p : string) : result (list byte → bool) error :=
  if decide (p = ok_pattern) then
    Ok (λ r, match r with x6f :: x6b :: x00 :: _ => true | _ => false end)
  else if decide (p = greeting_pattern) then
    Ok (λ r, match r with _ :: _ :: x02 :: _ => true | _ => false end)
  else Err ["regex parse error"].
Definition load_probe (probe : RawReadyProbe) : result Manifest error :=
  Manifest.load (disk (write_file "/tmp/0/service.toml" "toml" with_server))
    (λ _, Ok (mkRawManifest raw_service0 None (mkRawGuest "server.wasm" [] 1234 (Some probe)) None))
    patterns "/tmp/0/service.toml".
Definition loaded_probe (r : result Manifest error) (p : ReadyProbe → bool) : bool :=
  holds r (λ m, match ready (guest m) with Some probe => p probe | None => false end).

Definition ready_probes_are_parsed : bool :=
  loaded_probe (load_probe (mkRawReadyProbe (chars "\x00ping") ok_pattern)) (λ probe,
    bool_decide (probe_send probe = x00 :: string_bytes "ping") &&
    matches probe (string_bytes "ok" ++ [x00] ++ string_bytes "v1") &&
    negb (matches probe (string_bytes "no" ++ [x00] ++ string_bytes "starting"))).

Definition a_probe_may_send_nothing_where_the_server_speaks_first : bool :=
  loaded_probe (load_probe (mkRawReadyProbe [] greeting_pattern)) (λ probe,
    bool_decide (probe_send probe = []) &&
    matches probe ([x0a; x80; x02] ++ string_bytes "hello") &&
    negb (matches probe [x0a; x80; x03])).

Definition service_extensions_are_parsed : bool :=
  holds (load_raw with_server (mkRawManifest (mkService "example" "1" ["ictrobot_shm_v1"]) None
           (raw_server "server.wasm") None))
    (λ m, bool_decide (extensions (service m) = ["ictrobot_shm_v1"])).

Definition rejects_mount_sources_that_leave_the_package : bool :=
  mentions "plain relative path" (load_raw with_server (raw_mounts [("/usr/share/example", "../share")])).

Definition follows_symlinks_that_stay_inside_the_package : bool :=
  let t := symlink "real.wasm" "/tmp/0/server.wasm" (write_file "/tmp/0/real.wasm" "module" package0) in
  holds (load_raw t (raw_module "server.wasm"))
    (λ m, bool_decide (guest_module (guest m) = "/tmp/0/server.wasm")).

Definition select_1 : string := "select 1;" +:+ String Text.newline "".
Definition resolves_all_run_tables_and_mounts : bool :=
  let t := write_file "/tmp/0/client.wasm" "client" (write_file "/tmp/0/server.wasm" "server"
    (write_file "/tmp/0/bootstrap.sql" select_1 (write_file "/tmp/0/prepare.wasm" "prepare"
    (create_dir "/tmp/0/share" package0)))) in
  holds (load_raw t (mkRawManifest raw_service0
      (Some (mkRawPrepare [("/usr/share/example", "share")] (Some "prepare.wasm") ["--prepare"]
               (Some "bootstrap.sql")))
      (mkRawGuest "server.wasm" ["--serve"] 1234 None)
      (Some (mkRawInitializer "client.wasm" ["--initialize"])))) (λ m,
    match prepare m, initializer m with
    | Some p, Some i =>
        bool_decide (mount_at "/usr/share/example" p = Some "/tmp/0/share") &&
        bool_decide (prepare_module p = Some "/tmp/0/prepare.wasm") &&
        bool_decide (stdin_file p = Some "/tmp/0/bootstrap.sql") &&
        holds (read_stdin (disk t) p) (λ b, bool_decide (b = string_bytes select_1)) &&
        bool_decide (guest_module (guest m) = "/tmp/0/server.wasm") &&
        bool_decide (init_module i = "/tmp/0/client.wasm") &&
        bool_decide (length (modules m) = 3)
    | _, _ => false
    end).

(** The parser's refusal of an unknown key. *)
Definition rejects_unknown_keys : bool :=
  mentions "failed to parse manifest"
    (Manifest.load (disk (write_file "/tmp/0/service.toml" "toml" with_server))
       (λ _, Err ["unknown field `unsupported`"]) patterns "/tmp/0/service.toml").

Definition rejects_absolute_and_missing_modules : bool :=
  mentions "plain relative path" (load_raw package0 (raw_module "/server.wasm")) &&
  mentions "is not a file" (load_raw package0 (raw_module "missing.wasm")).

Definition rejects_absolute_and_missing_mount_sources : bool :=
  mentions "plain relative path" (load_raw with_server (raw_mounts [("/mounted", "/host")])) &&
  mentions "is not a directory" (load_raw with_server (raw_mounts [("/mounted", "missing")])).

Definition raw_stdin (file : path) : RawManifest :=
  mkRawManifest raw_service0 (Some (mkRawPrepare [] (Some "prepare.wasm") [] (Some file)))
    (raw_server "server.wasm") None.
Definition rejects_absolute_and_missing_prepare_stdin_files : bool :=
  let t := write_file "/tmp/0/prepare.wasm" "prepare" with_server in
  mentions "plain relative path" (load_raw t (raw_stdin "/bootstrap.sql")) &&
  mentions "is not a file" (load_raw t (raw_stdin "missing.sql")).

Example manifest_tests_pass :
  forallb id [resolves_relative_module_paths; rejects_paths_that_leave_the_package;
    mounts_the_package_root_as_a_source; byte_strings_decode_strictly; ready_probes_are_parsed;
    a_probe_may_send_nothing_where_the_server_speaks_first; service_extensions_are_parsed;
    rejects_mount_sources_that_leave_the_package; follows_symlinks_that_stay_inside_the_package;
    resolves_all_run_tables_and_mounts; rejects_unknown_keys; rejects_absolute_and_missing_modules;
    rejects_absolute_and_missing_mount_sources;
    rejects_absolute_and_missing_prepare_stdin_files] = true.
Proof. vm_compute. reflexivity. Qed.

(** ** discovery.rs *)

(** [TestDirectory::package]. *)
Definition package (dir name marker : string) (t : tree) : tree :=
  let p := dir +:+ "/" +:+ name in
  write_file (p +:+ "/service.toml") "toml" (write_file (p +:+ "/module.wasm") marker (create_dir p t)).
Definition discover_in (t : tree) (dirs : list path) : result ServiceIndex error :=
  discover (disk t) (read_dir t) (λ _, Ok (raw_module "module.wasm")) patterns dirs.
Definition first_of (r : result ServiceIndex error) (p : DiscoveredPackage → bool) : bool :=
  holds r (λ idx, match Discovery.iter idx with package :: _ => p package | [] => false end).
(** The first package's directory, and those it shadows. *)
Definition selects (dir : path) (shadows : list path) (package : DiscoveredPackage) : bool :=
  bool_decide (Manifest.directory (pkg_manifest package) = dir) &&
  bool_decide (shadow_directory <$> shadowed package = shadows).
Definition two_directories : tree := test_directory "1" (test_directory "0" temp).

Definition first_package_wins_and_later_package_is_shadowed : bool :=
  let t := package "/tmp/1" "second" "two" (package "/tmp/0" "first" "one" two_directories) in
  first_of (discover_in t ["/tmp/0"; "/tmp/1"]) (selects "/tmp/0/first" ["/tmp/1/second"]).

Definition module_text (t : tree) (m : Manifest) : result string error :=
  read_to_string (disk t) (guest_module (guest m)).
Definition follows_package_links_and_keeps_the_selected_target : bool :=
  let t := package "/tmp/0" "second" "two" (package "/tmp/0" "first" "one" two_directories) in
  let linked := symlink "/tmp/0/missing" "/tmp/1/stale" (symlink "/tmp/0/first" "/tmp/1/current" t) in
  let relinked := symlink "/tmp/0/second" "/tmp/1/current" (remove_file "/tmp/1/current" linked) in
  holds (discover_in linked ["/tmp/1"]) (λ idx,
    holds (select idx "example" (Some "1")) (λ selected,
      bool_decide (Manifest.directory selected = "/tmp/0/first") &&
      holds (module_text relinked selected) (λ text, bool_decide (text = "one")))) &&
  holds (discover_in relinked ["/tmp/1"]) (λ idx,
    holds (select idx "example" (Some "1")) (λ updated,
      holds (module_text relinked updated) (λ text, bool_decide (text = "two")))).

Definition linked_packages_follow_installation_name_order : bool :=
  let t := package "/tmp/0" "z" "two" (package "/tmp/0" "a" "one" two_directories) in
  let t := symlink "/tmp/0/a" "/tmp/1/z" (symlink "/tmp/0/z" "/tmp/1/a" t) in
  first_of (discover_in t ["/tmp/1"]) (selects "/tmp/0/z" ["/tmp/0/a"]).

Example discovery_tests_pass :
  forallb id [first_package_wins_and_later_package_is_shadowed;
    follows_package_links_and_keeps_the_selected_target;
    linked_packages_follow_installation_name_order] = true.
Proof. vm_compute. reflexivity. Qed.

(** ** serve/recipes.rs *)

Definition slug {A} (r : result A Problem) : option string :=
  match r with Err p => str_strip_prefix (kind p) urn | Ok _ => None end.
Definition MAX : N := 1024.
Definition with_newline (s : string) : string := s +:+ String Text.newline "".
Definition rooted (t : tree) (p : Roots → bool) : bool := holds (roots_new (disk t) ["/tmp/0"]) p.

Definition files_concatenate_in_order_with_newlines_supplied : bool :=
  let t := write_file "/tmp/0/more.sql" "-- no newline"
    (write_file "/tmp/0/data.sql" "INSERT INTO t VALUES (1);"
    (write_file "/tmp/0/schema.sql" (with_newline "CREATE TABLE t (x INT);") package0)) in
  rooted t (λ roots,
    holds (Recipes.read (open_file t) roots ["/tmp/0/schema.sql"; "/tmp/0/data.sql"] MAX) (λ recipe,
      bool_decide (recipe =
        string_bytes (with_newline "CREATE TABLE t (x INT);" +:+ "INSERT INTO t VALUES (1);"))) &&
    holds (Recipes.read (open_file t) roots ["/tmp/0/more.sql"; "/tmp/0/data.sql"] MAX) (λ recipe,
      bool_decide (recipe =
        string_bytes (with_newline "-- no newline" +:+ "INSERT INTO t VALUES (1);")))).

Definition relative_and_missing_and_irregular_paths_are_invalid : bool :=
  let t := (["dev"; "null"], Device) :: (["dev"], Directory) :: package0 in
  rooted t (λ roots, forallb (λ p,
    bool_decide (slug (Recipes.read (open_file t) roots [p] MAX) = Some "recipe-file-invalid"))
    ["schema.sql"; "/tmp/0/absent.sql"; "/dev/null"]).

Definition files_outside_every_root_are_refused : bool :=
  let t := write_file "/tmp/1/schema.sql" (with_newline "SELECT 1;") two_directories in
  rooted t (λ roots, bool_decide
    (slug (Recipes.read (open_file t) roots ["/tmp/1/schema.sql"] MAX) = Some "recipe-files-refused")).

Definition a_symlink_out_of_the_root_is_refused : bool :=
  let t := symlink "/tmp/1/secret.sql" "/tmp/0/innocent.sql"
    (write_file "/tmp/1/secret.sql" (with_newline "SELECT 1;") two_directories) in
  rooted t (λ roots, bool_decide
    (slug (Recipes.read (open_file t) roots ["/tmp/0/innocent.sql"] MAX) = Some "recipe-files-refused")).

Definition the_size_cap_holds_across_files : bool :=
  let t := write_file "/tmp/0/half.sql" (String.string_of_list_ascii (replicate 600 "a"%char)) package0 in
  rooted t (λ roots,
    bool_decide (slug (Recipes.read (open_file t) roots ["/tmp/0/half.sql"; "/tmp/0/half.sql"] MAX) =
      Some "recipe-too-large") &&
    holds (Recipes.read (open_file t) roots ["/tmp/0/half.sql"] MAX)
      (λ recipe, bool_decide (length recipe = 600))).

Definition a_missing_root_stops_the_server : bool :=
  negb (is_ok (roots_new (disk package0) ["/tmp/0/absent"])).

Example recipes_tests_pass :
  forallb id [files_concatenate_in_order_with_newlines_supplied;
    relative_and_missing_and_irregular_paths_are_invalid; files_outside_every_root_are_refused;
    a_symlink_out_of_the_root_is_refused; the_size_cap_holds_across_files;
    a_missing_root_stops_the_server] = true.
Proof. vm_compute. reflexivity. Qed.

(** ** host/probe.rs *)

(** [serve_one]: the connection answers, then closes. *)
Definition serve_one (response : list byte) : list Round := [(0%N, ReadData response); (1%N, ReadClosed)].
Definition attempt_on (pattern : string) (response : list byte) : option (result unit string) :=
  match patterns pattern with
  | Ok is_match => attempt is_match (Ok tt) (Ok tt) 0 (serve_one response)
  | Err _ => None
  end.

Definition attempt_matches_only_the_serving_response : bool :=
  match attempt_on ok_pattern (string_bytes "no" ++ [x00] ++ string_bytes "starting up" ++ [x00]) with
  | Some (Err summary) =>
      contains summary "unmatched bytes" && contains summary "no\x00starting up\x00"
  | _ => false
  end &&
  match attempt_on ok_pattern (string_bytes "ok" ++ [x00] ++ string_bytes "v1") with
  | Some (Ok _) => true
  | _ => false
  end.

Definition an_empty_probe_matches_a_server_that_speaks_first : bool :=
  match attempt_on greeting_pattern ([x0a; x80; x02] ++ string_bytes "server hello" ++ [x00]) with
  | Some (Ok _) => true
  | _ => false
  end.

Example probe_tests_pass :
  forallb id [attempt_matches_only_the_serving_response;
    an_empty_probe_matches_a_server_that_speaks_first] = true.
Proof. vm_compute. reflexivity. Qed.

(** ** host/protocol.rs *)

(** Messages by their tags. *)
#[local] Instance request_tags : JsonCodec Request := {
  to_vec r := Ok [match r with Protocol.Prepare => x01 | Start => x02 | Initialize => x03
                  | Freeze => x04 | Fork => x05 | Stop => x06 end];
  from_slice json := match json with
    | [x01] => Ok Protocol.Prepare | [x02] => Ok Start | [x03] => Ok Initialize
    | [x04] => Ok Freeze | [x05] => Ok Fork | [x06] => Ok Stop
    | _ => Err ["unknown variant"] end;
}.
#[local] Instance frozen_tags : JsonCodec Reply := {
  to_vec r := match r with Frozen n => Ok [byte_of_N n] | _ => Err ["not a reply of the test"] end;
  from_slice json := match json with [b] => Ok (Frozen (Byte.to_N b)) | _ => Err ["unknown variant"] end;
}.
Definition received {T} `{JsonCodec T} (s : Stream) (p : Frame T → Stream → bool) : bool :=
  match recv (λ _, 0) s with Done (Ok (Some f, s)) => p f s | _ => false end.
Definition sent {T} `{JsonCodec T} (m : T) (payload : list byte) (rights : list Z) : list Protocol.cell :=
  (send [Ok 1000] m payload rights).2.

(** Descriptors 8 and 9 are the second pair; 9 writes what 8 reads. *)
Definition frames_round_trip_with_payload_and_descriptors : bool :=
  let a := sent Initialize (string_bytes "recipe bytes") [8; 9]%Z ++ sent Stop [] [] in
  received (T := Request) (mkStream a true) (λ frame rest,
    bool_decide (message frame = Initialize) &&
    bool_decide (payload frame = string_bytes "recipe bytes") &&
    bool_decide (length (fds frame) = 2) &&
    match fds frame with
    | received_x :: _ =>
        bool_decide (received_x = 8%Z) &&
        received (mkStream (sent (Frozen 3) [] []) false) (λ inner _, bool_decide (message inner = Frozen 3))
    | [] => false
    end &&
    received (T := Request) rest (λ frame rest,
      bool_decide (message frame = Stop) && bool_decide (fds frame = []) &&
      match recv (T := Request) (λ _, 0) rest with Done (Ok (None, _)) => true | _ => false end)).

(** Nothing comes within the timeout; then something is there. *)
Definition wait_readable_times_out_and_wakes : bool :=
  match wait_readable (Some 10%N) [PolledReady 0], wait_readable (Some 5000%N) [PolledReady 1] with
  | Some (Ok first), Some (Ok second) => negb first && second
  | _, _ => false
  end.

Example protocol_tests_pass :
  forallb id [frames_round_trip_with_payload_and_descriptors; wait_readable_times_out_and_wakes] = true.
Proof. vm_compute. reflexivity. Qed.

(** ** cache.rs *)

Definition directory_prefers_flag_then_environment : bool :=
  holds (Cache.directory (Some "/flag") (Some "/env") None (Some "/home/u")) (λ d, bool_decide (d = "/flag")) &&
  holds (Cache.directory None (Some "/env") None (Some "/home/u")) (λ d, bool_decide (d = "/env")) &&
  holds (Cache.directory None (Some "") None (Some "/home/u"))
    (λ d, bool_decide (file_name d = Some "servicecache")).

(** A module is its bytes here, and its artifact too; [compiles] refuses where
    the test's closure panics. *)
Definition module_bytes : list byte := string_bytes "module".
Definition digest (b : list byte) : string := if decide (b = module_bytes) then "d1" else "d0".
Definition compiles (allowed : bool) (b : list byte) : result (list byte) error :=
  if allowed then Ok b else Err ["same bytes under another name must not compile"].
Definition cache_load (allowed : bool) (p : path) (meanwhile : Files → Files) (fs : Files)
    : result (list byte) error * Files :=
  ModuleCache.load digest (compiles allowed) id Some "/c" "engine" 7 p (Ok module_bytes)
    (mkLockMeets (Ok tt) (Ok tt) (Ok tt) meanwhile) (mkStoreMeets None (Ok tt)) fs.

Definition same_bytes_under_another_name_are_a_hit_and_clean_removes_it : bool :=
  let (first, fs) := cache_load true "/m.wasm" id ∅ in
  let (second, _) := cache_load false "/c/a-different-name" id fs in
  is_ok first && is_ok second.

Definition path_and_wasix_cache_interfaces_share_an_entry : bool :=
  let (stored, fs) := cache_load true "/m.wasm" id ∅ in
  is_ok stored && holds (wasix_contains "engine" "D1" fs) id &&
  is_ok (wasix_load (Module := list byte) Some "engine" "D1" fs).

(** Four threads miss; one has the lock first, and the others find its entry
    once they have it. *)
Definition concurrent_misses_compile_once : bool :=
  let (first, fs) := cache_load true "/m.wasm" id ∅ in
  is_ok first &&
  forallb (λ _, is_ok (cache_load false "/m.wasm" (λ _, fs) ∅).1) [1; 2; 3].

Example cache_tests_pass :
  forallb id [directory_prefers_flag_then_environment;
    same_bytes_under_another_name_are_a_hit_and_clean_removes_it;
    path_and_wasix_cache_interfaces_share_an_entry; concurrent_misses_compile_once] = true.
Proof. vm_compute. reflexivity. Qed.

(** ** host/tasks.rs *)

(** Polled, then again when the thread is unparked. *)
Definition a_timer_is_polled_outside_the_tokio_runtime : bool :=
  let tasks := new_tasks 1 in
  let ready runtime t now := bool_decide (t_runtime t = runtime) && bool_decide (t_deadline t <= now)%N in
  match sleep_now 0 5000000 tasks with
  | Some sleep =>
      bool_decide (seen_ready <$> live ready [PolledAt 0; PolledAt 20000000] tasks sleep = [false; true])
  | None => false
  end.
Example tasks_tests_pass : a_timer_is_polled_outside_the_tokio_runtime = true.
Proof. vm_compute. reflexivity. Qed.

(** ** host/title.rs *)

Definition starts_with_text (s text : string) : bool :=
  match str_strip_prefix s text with Some _ => true | None => false end.
Definition the_buffer_is_labelled_and_full_length : bool :=
  bool_decide (String.length BUFFER_ARG = BUFFER_LEN) &&
  match split_once "=" BUFFER_ARG with
  | Some (flag, value) =>
      bool_decide (flag = BUFFER_FLAG) && starts_with_text value "_SERVICECACHE_NAME_BUFFER___" &&
      forallb (λ c, bool_decide (c = "_"%char) ||
        bool_decide (65 <= N_of_ascii c <= 90)%N) (String.list_ascii_of_string value)
  | None => false
  end.

Definition titles_read_as_role_service_recipe_and_state : bool :=
  let endpoint := mkAddr "127.0.0.1" 46051 in
  let recipe_digest := [xfa; x9b; x30; xbc] ++ replicate 28 xff in
  let title := render "exampledb" "1.2.3" in
  bool_decide (title None Starting = "servicecache instance exampledb@1.2.3 starting") &&
  bool_decide (title None (Title.Serving endpoint) =
    "servicecache instance exampledb@1.2.3 listening on 127.0.0.1:46051") &&
  bool_decide (title (Some recipe_digest) (Title.Serving endpoint) =
    "servicecache instance exampledb@1.2.3 recipe fa9b30bc listening on 127.0.0.1:46051") &&
  bool_decide (title (Some recipe_digest) FrozenState =
    "servicecache template exampledb@1.2.3 recipe fa9b30bc").

Example title_tests_pass :
  forallb id [the_buffer_is_labelled_and_full_length;
    titles_read_as_role_service_recipe_and_state] = true.
Proof. vm_compute. reflexivity. Qed.

(** ** cli.rs *)

Definition flags_replace_environment : bool :=
  bool_decide (service_dirs ["flag-a"; "flag-b"] (Some "env-a:env-b") (Some "/home/u") =
    ["flag-a"; "flag-b"]).

Definition socket_flag_replaces_environment : bool :=
  let path_for flag environment := socket_path flag environment None "/tmp" 1000 in
  bool_decide (path_for (Some "flag.sock") (Some "env.sock") = "flag.sock") &&
  bool_decide (path_for None (Some "env.sock") = "env.sock") &&
  bool_decide (file_name (path_for None None) = Some "serve.sock").

Definition environment_replaces_defaults_and_splits_paths : bool :=
  let directories := service_dirs [] (Some "env-a:env-b") (Some "/home/u") in
  bool_decide (directories = ["env-a"; "env-b"]) &&
  forallb (λ p, negb (bool_decide (Some p = head SYSTEM_DEFAULTS))) directories.

Example cli_tests_pass :
  forallb id [flags_replace_environment; socket_flag_replaces_environment;
    environment_replaces_defaults_and_splits_paths] = true.
Proof. vm_compute. reflexivity. Qed.

(** ** runtime.rs *)

(** The part on the mount: reading it works, opening it to write does not. *)
Definition reading (write : bool) : OpenOptionsConfig := mkConfig (negb write) write false false false false.
Definition mounted_tree : FileSystemFn string tree := λ call t,
  match call with
  | OpenFile p _ => (match contents_at t ("/host" +:+ p) with
                     | Ok contents => Ok contents | Err _ => Err PermissionDenied end, t)
  | _ => (Err PermissionDenied, t)
  end.
Definition filesystem_has_read_only_host_mounts : bool :=
  let t := write_file "/host/input.txt" "mounted" (create_dir "/host" []) in
  holds (read_only_mounts (λ _, Ok mounted_tree) (λ _ _, Ok tt) [mkMount "/mounted" "/host"]) (λ fs,
    match (run_calls (λ contents (_ : unit) t, (Ok contents, t)) fs []
             [OnMount 0 (OpenFile "/input.txt" (reading false)); OnFile 0 ();
              OnMount 0 (OpenFile "/input.txt" (reading true))] t).1 with
    | [Ok _; Ok contents; Err PermissionDenied] => bool_decide (contents = "mounted")
    | _ => false
    end).
Example runtime_tests_pass : filesystem_has_read_only_host_mounts = true.
Proof. vm_compute. reflexivity. Qed.

(** ** serve/api.rs, logging.rs, serve/mod.rs and host/mod.rs *)

Definition problems_have_stable_types : bool :=
  let problem := unknown_service "example" None in
  bool_decide (kind problem = "urn:servicecache:unknown-service") &&
  problem_is problem "unknown-service" && negb (problem_is problem "unknown-instance") &&
  bool_decide (status problem = 404%N).

(** An address's text is its own here. *)
Definition endpoints_round_trip_through_text : bool :=
  forallb (λ address, holds (socket_addr Some (endpoint_from address)) (λ a, bool_decide (a = address)))
    [mkAddr "127.0.0.1" 3456; mkAddr "::1" 80].

Definition levels_are_valid_directives : bool :=
  contains (directives_for 2) "servicecache=debug" &&
  contains (directives_for 3) "wasmer_vm::trap::suspend=trace" &&
  bool_decide (directives_for 9 = "trace").

Definition ttls_are_bounded : bool :=
  holds (ttl_duration None) (λ d, bool_decide (d = None)) &&
  holds (ttl_duration (Some 2%N)) (λ d, bool_decide (d = Some (from_secs 2))) &&
  negb (is_ok (ttl_duration (Some 0%N))) && negb (is_ok (ttl_duration (Some (MAX_TTL_SECONDS + 1)%N))).

(** Two draws of the random device that differ. *)
Definition is_ascii_hexdigit (c : ascii) : bool :=
  match to_digit16 (N_of_ascii c) with Some _ => true | None => false end.
Definition ids_are_distinct_hex : bool :=
  match new_id (Ok [x00; x11; x22; x33; x44; x55; x66; xff]),
        new_id (Ok [x00; x11; x22; x33; x44; x55; x67; x00]) with
  | Ok first, Ok second =>
      bool_decide (String.length first = 16) &&
      forallb is_ascii_hexdigit (String.list_ascii_of_string first) && negb (bool_decide (first = second))
  | _, _ => false
  end.

Definition mounted_modules_resolve_to_their_guest_path : bool :=
  let mounts := [("/service", "/packages/exampledb-1")] in
  bool_decide (guest_visible_path mounts "/packages/exampledb-1/server.wasm" = Some "/service/server.wasm") &&
  bool_decide (guest_visible_path mounts "/elsewhere/tool.wasm" = None).

Example other_tests_pass :
  forallb id [problems_have_stable_types; endpoints_round_trip_through_text;
    levels_are_valid_directives; ttls_are_bounded; ids_are_distinct_hex;
    mounted_modules_resolve_to_their_guest_path] = true.
Proof. vm_compute. reflexivity. Qed.
